(* ===== verification/_CoqProject ===== *)
-Q . S2P
Prelude.v
RustStr.v
Prog.v
Protocol.v
Concrete.v
Pending.v
PendingSpec.v
WorkerRegistry.v
WorkerRegistrySpec.v
ExecutionStore.v
Broker.v
ResultBackend.v
Local.v
Control.v
Scheduler.v
CoreService.v
ControlLogic.v
ControlSpec.v
CoreSpec.v
SchedulerSpec.v
RuntimeService.v
Remote.v
Serde.v
Config.v
Worker.v
ConfigSpec.v
RuntimeSpec.v
SessionSpec.v
Redis.v
RedisFacts.v
RedisConcrete.v
RedisExecutionStore.v
RedisBroker.v
RedisResultBackend.v
RedisWorkerRegistry.v
RedisRegistrySpec.v
Assembly.v
Fleet.v
Startup.v
SystemSpec.v
Delivery.v
Testing.v
TestsConfig.v
TestsScheduler.v
TestsCore.v
TestsStores.v
TestsWorker.v
