(* ===== verification/Prelude.v ===== *)
(** * ThreadWeave: a verification development

    ThreadWeave ([src/src/], Rust) is a task-execution engine.  A _server_ (the control
    plane) accepts tasks over gRPC, keeps a job table, and assigns tasks to workers; a
    _worker_ fetches its assignments from a broker and hands them to language runtimes
    connected through sessions, whose events it checks and reports to the server.  Broker,
    results, worker membership and execution records live in Redis or in memory, behind
    traits.  This library models the program's own code as executable Rocq definitions and
    proves what makes it correct.  It assumes no axioms.

    ** How the code is modelled

    - A handler is a [prog] ([Prog.v]): a sequence of atomic accesses to shared state (a
      critical section under a lock, a request to Redis, a message to a peer) that returns,
      fails (the [?] operator), panics or waits.  [run] executes it alone, [interleave] is
      the small-step semantics of a pool of handlers, [rg] a rely-guarantee logic for it,
      and [lin]/[lin_on] say that a method takes effect at one of its accesses.
    - Rust [Result]s are [result] (error first), [Option::expect] and overflow in debug
      builds are panics, machine integers are [Z] with their bounds written out, strings
      are byte strings with UTF-8 validity where the code depends on it ([RustStr.v]).
    - Code outside the repository is a parameter: the generated protocol crate, clocks and
      UUIDs ([Protocol.v]: [Protocols], [Platform], [HashMapOrder], with their documented
      laws in the [...Ok] classes), the gRPC transport ([Remote.v]: [Transport]), the data
      format of the configuration ([Serde.v]: [Deserializer]) and the Redis server
      ([Redis.v]: [Redis], [RedisOk]).  [Concrete.v], [RedisConcrete.v], [Local.v] and
      [Serde.Tree] are instances that have the laws; the witnesses and tests run on them.
    - Traits are classes, each with a contract class that clients are proved against and
      implementations discharge: [ExecutionStore]/[ExecutionStoreOk],
      [Broker]/[BrokerOk], [BackendResult]/[BackendResultOk], [CoreWorkerClient]/
      [CoreWorkerClientOk], and [WorkerDirectory], [WorkerRegistry].  The server's code
      reaches its components through [ControlState] ([Control.v]), so the same handlers run
      on components of their own and on one database that several servers share.

    ** Files, components and source

    - [Prelude.v] (this file), [RustStr.v], [Prog.v]: results, lenses, tactics, strings,
      programs and their logics.
    - [Protocol.v], [Concrete.v]: messages, statuses, platform; instances.
    - [Pending.v], [PendingSpec.v]: a worker's pending executions
      ([worker/runtime.rs], [PendingExecutions]).  C1-C11.
    - [WorkerRegistry.v], [WorkerRegistrySpec.v]: incarnation identifiers and the
      in-memory registry ([worker_registry.rs]).  C12, C15-C19.
    - [ExecutionStore.v], [Broker.v], [ResultBackend.v], [Local.v]: the boundaries
      ([execution_store.rs], [broker/mod.rs], [broker/routing.rs],
      [result_backend/mod.rs]) with contracts, in-memory implementations.
    - [Control.v], [Scheduler.v], [CoreService.v]: the server's shared state, scheduler
      ([scheduler/scheduler.rs]) and RPC handlers ([api/grpc.rs]).
    - [ControlLogic.v]: the invariants of the control plane, proved once for every
      [ControlState] whose components meet their contracts; [ControlSpec.v] (C20, C21) takes
      them to one server.  [CoreSpec.v] (C22, C23: handlers branch by branch),
      [SchedulerSpec.v] (C25).
    - [RuntimeService.v], [Remote.v], [Worker.v], [RuntimeSpec.v]: sessions and events
      ([worker/runtime.rs], [WorkerRuntimeService]), the gRPC client to the
      server's handlers, registration, heartbeats and the assignment loop
      ([worker/worker.rs]).  C30, C31.  [SessionSpec.v]: a session's turn with an
      assignment.  C27.
    - [Serde.v], [Config.v], [ConfigSpec.v]: derived deserialisation, configuration and
      memory sizes ([config/mod.rs]).  C26, C28.
    - [Redis.v], [RedisFacts.v], [RedisConcrete.v]: the Redis server as the program uses
      it, reasoning about its clients, an evaluable server.
    - [RedisExecutionStore.v] (C32, C33), [RedisBroker.v] (C34), [RedisResultBackend.v],
      [RedisWorkerRegistry.v], [RedisRegistrySpec.v] (C36, C37): the Redis implementations
      ([execution_store.rs], [broker/redis.rs], [result_backend/redis.rs],
      [worker_registry.rs]), their Lua scripts included.
    - [Assembly.v] (C35), [Startup.v] (C29, C38): [serve] and its stores, startup output,
      roles and [main] ([api/grpc.rs], [startup.rs], [main.rs]).
    - [Fleet.v]: any number of servers over one Redis database.  C13, C14.
    - [SystemSpec.v] (C24, C39), [Delivery.v] (C40): server and worker together.
    - [Testing.v], [TestsConfig.v], [TestsScheduler.v], [TestsCore.v], [TestsStores.v],
      [TestsWorker.v]: the unit tests of every source file, with their doubles, as programs
      over the models; each passes by evaluation.

    ** What the theorems show

    - Pending executions: an invariant of all reachable states (C1) that rules out the
      panics (C2), a refinement of an abstract work queue (C3), finality, no loss, no
      double dispatch and FIFO order over all call sequences (C4-C7), and the exact effect
      of disconnection, completion, cancellation and refused calls (C8-C11).
    - Membership: identifiers round-trip (C12); the registry lists exactly the running
      leases, grants and renews them to the right generation, fences replaced generations
      and drops silent workers (C15-C19).
    - Server: under every interleaving of handlers and scheduler no assignment is
      delivered before its execution is recorded (C20), the job table is coherent and its
      jobs are traced to executions (C21); submission with its rollback, reports on every
      branch, and what the scheduler's assignment does (C22, C23, C25).
    - Worker: under every interleaving no task panics and what sessions report is what was
      recorded (C30, C31); a session's turn delivers the assignment it takes, waits with it,
      or gives it back with all it held (C27).
    - Configuration: a file loads exactly with what its document denotes (C26), within the
      machine integers, so that a worker always has a registration (C28).  Startup output
      is independent of credentials (C29); when each role starts, and on what (C38).
    - Redis: the store and the broker refine a map and queues, each call at one instant
      although requests and answers may be lost (C32-C34); with a task destination without a
      colon, the components of a server never touch each other's keys (C35); the registry
      answers as the in-memory one does (C36); its listing ends and is exact although leases run out meanwhile (C37).
    - Fleet: C20 and C21 hold of the keys and hashes of one database that any number of
      servers, their schedulers and the workers share, through lost requests, expiring
      leases and restarts (C13, C14).
    - System: a worker's identity reaches the registry unchanged (C39), a submitted task
      moves up, is assigned as it was submitted and reaches the pending executions of its
      worker, whatever calls come in between (C40), and a completion or failure at the worker
      becomes the outcome the server answers with (C24).

    ** Bounds and fuel

    - Endless loops are run for a given number of turns: [scheduler_run],
      [assignment_loop], and [heartbeat_loop] for a given number of ticks.  The theorems
      hold for all of them.
    - A [select!] between loops is [select_polls] ([Prog.v]): the list of the polls says
      which branch makes its next access; when one is found at its end, the others are
      dropped where they are.  [worker_select] and [serve_select] are such; as many ticks
      as polls are enough for the heartbeats, since every heartbeat reads the clock.
      [session_loop] follows the list of the branches that complete, since dropping the
      other one (a wait for the stream or for the lock of the pending executions) has no
      effect on the state.
    - [scan_workers] has fuel, the pages it may ask for; C37 shows that more fuel than the
      server's iteration has pages is never used up.
    - The theorems of [ControlSpec.v] give broker, results, registry and store a state
      each; [Fleet.v] puts them in one database, by the separation of C35.

    ** Not modelled

    - [tonic], [clap], [serde_yaml], [tracing] and [tokio]: transport, argument and YAML
      syntax, log lines, the listener, timers (a heartbeat or a deferred turn happens at some
      time), the text of JSON values.  What [#[derive(Deserialize)]] stands for is
      [visit_map] of [Serde.v].
    - The wake-ups of [tokio::sync::Notify]: a session that waits in [next_for] may go on
      whenever the queue is not empty; that it is in fact woken is not shown.
    - [tests/cli.rs], which runs the built binary.
    - The generated protocol code that [protocols.rs] re-exports; the fields the program
      never looks into are [Opaque].
    - Compare-and-swap details of [RwLock]: a lock is one critical section, with its
      poison flag where the code looks at it.

    Behaviours of the code that the models exhibit are stated as evaluated examples:
    [contradictory_report_splits_states] and [late_report_reopens_job] in [CoreSpec.v],
    [acknowledgement_overwrites_result] in [ControlSpec.v], [colliding_task_destination] in
    [Assembly.v] and [oversized_ttl_never_expires] in [RedisRegistrySpec.v]. *)

From stdpp Require Export base tactics option list strings gmap sorting relations.
From stdpp Require Export pretty.

#[global] Set Default Goal Selector "!".

(** ** Results: the Rust [Result<A, E>], error type first *)

Inductive result (E A : Type) : Type :=
| Ok (a : A)
| Err (e : E).
Arguments Ok {E A} a.
Arguments Err {E A} e.

#[export] Instance result_ret E : MRet (result E) := λ A a, Ok a.
#[export] Instance result_bind E : MBind (result E) := λ A B k m,
  match m with
  | Ok a => k a
  | Err e => Err e
  end.
#[export] Instance result_fmap E : FMap (result E) := λ A B f m,
  match m with
  | Ok a => Ok (f a)
  | Err e => Err e
  end.

(** [Result::map_err] *)
Definition map_err {E E' A} (f : E → E') (m : result E A) : result E' A :=
  match m with
  | Ok a => Ok a
  | Err e => Err (f e)
  end.

(** [Option::ok_or] / [Option::ok_or_else] *)
Definition ok_or {E A} (o : option A) (e : E) : result E A :=
  match o with
  | Some a => Ok a
  | None => Err e
  end.

(** [Result::is_ok] *)
Definition is_ok {E A} (m : result E A) : bool :=
  match m with Ok _ => true | Err _ => false end.

#[export] Instance result_eq_dec {E A} `{EqDecision E, EqDecision A} : EqDecision (result E A).
Proof. solve_decision. Defined.

Lemma ok_or_Ok {E A} (o : option A) (e : E) a : ok_or o e = Ok a ↔ o = Some a.
Proof. destruct o; naive_solver. Qed.

Lemma map_err_Ok {E E' A} (f : E → E') (m : result E A) a : map_err f m = Ok a ↔ m = Ok a.
Proof. destruct m; naive_solver. Qed.

Lemma result_bind_Ok {E A B} (m : result E A) (k : A → result E B) b :
  m ≫= k = Ok b ↔ ∃ a, m = Ok a ∧ k a = Ok b.
Proof. destruct m; naive_solver. Qed.

(** ** Lenses: the place a component's state has inside a larger one *)

Record lens (W S : Type) : Type := Lens {
  view : W → S;
  put : S → W → W
}.
Arguments Lens {W S} view put.
Arguments view {W S} l w.
Arguments put {W S} l s w.

Class LensOk {W S} (l : lens W S) : Prop := {
  view_put s w : view l (put l s w) = s;
  put_view w : put l (view l w) w = w;
  put_put s s' w : put l s' (put l s w) = put l s' w
}.

(** Two lenses that look at separate parts of the state. *)
Class LensDisjoint {W S T} (l : lens W S) (m : lens W T) : Prop := {
  view_put_disjoint t w : view l (put m t w) = view l w
}.

Definition over {W S} (l : lens W S) (f : S → S) (w : W) : W := put l (f (view l w)) w.

Create HintDb weave.
Create Rewrite HintDb weave.
#[export] Hint Rewrite @view_put @put_view @put_put using typeclasses eauto : weave.
#[export] Hint Rewrite @view_put_disjoint using typeclasses eauto : weave.

(** ** Automation *)

(** Case analysis on every [match]/[if] of the hypotheses and the goal, with the
    impossible branches discarded. *)
Ltac split_matches :=
  repeat (case_match; simplify_eq/=; try done).

(** Close an equation between closed terms by evaluating both sides in the virtual
    machine, without normalising the types inside. *)
Ltac vm_refl := match goal with |- ?a = ?b => vm_cast_no_check (@eq_refl _ b) end.

(** Reflect boolean tests of the code into propositions. *)
Ltac bool_facts :=
  repeat match goal with
  | H : andb _ _ = true |- _ => apply andb_true_iff in H as [? ?]
  | H : orb _ _ = false |- _ => apply orb_false_iff in H as [? ?]
  | H : negb _ = true |- _ => apply negb_true_iff in H
  | H : negb _ = false |- _ => apply negb_false_iff in H
  | H : bool_decide _ = true |- _ => apply bool_decide_eq_true_1 in H
  | H : bool_decide _ = false |- _ => apply bool_decide_eq_false_1 in H
  end.

(** ** Lists *)

Section lists.
Context {A : Type}.
Implicit Types l : list A.

Lemma list_snoc_inv l x y l' : l ++ [x] = y :: l' → (l = [] ∧ x = y ∧ l' = []) ∨ ∃ k, l = y :: k ∧ l' = k ++ [x].
Proof. destruct l; naive_solver. Qed.

Lemma NoDup_snoc l x : NoDup l → x ∉ l → NoDup (l ++ [x]).
Proof. intros. apply NoDup_app; repeat split; [done| |apply NoDup_singleton]. set_solver. Qed.

Lemma head_Some_elem l x : head l = Some x → x ∈ l.
Proof. destruct l; simpl; [done|]. intros [= ->]. set_solver. Qed.

(** The head of a sorted list is below every element. *)
Lemma Sorted_head_le (R : relation A) `{!Reflexive R, !Transitive R} l x y :
  Sorted R l → head l = Some x → y ∈ l → R x y.
Proof.
  intros Hs Hh Hy. destruct l as [|z l]; [done|]. simplify_eq/=.
  apply Sorted_StronglySorted in Hs; [|done].
  apply StronglySorted_inv in Hs as [_ Hall].
  apply elem_of_cons in Hy as [->|Hy]; [done|].
  rewrite Forall_forall in Hall. by apply Hall.
Qed.
End lists.

(** ** Values found by evaluation

    An example names a value as what an evaluation finds, with a default; that it was found
    is then one boolean. *)

Lemma default_Some {A} (d : A) (o : option A) : bool_decide (is_Some o) = true → o = Some (default d o).
Proof. intros [a ->]%bool_decide_eq_true_1. done. Qed.

Lemma default_head_elem {A} (d : A) (l : list A) : negb (bool_decide (length l = 0)) = true → default d (head l) ∈ l.
Proof. destruct l; [done|]. intros _. by left. Qed.

Definition ok_value {E A} (d : A) (r : result E A) : A := match r with Ok a => a | Err _ => d end.

Lemma ok_value_Ok {E A} (d : A) (r : result E A) : is_ok r = true → r = Ok (ok_value d r).
Proof. by destruct r. Qed.
