(* ===== verification/RustStr.v ===== *)
(** * The part of Rust's [str], [String] and integer parsing the program uses

    A Rust string is its sequence of UTF-8 bytes: here a [string], whose characters
    are the 256 byte values.  [len] is the number of bytes.  The operations below are
    those the sources call ([trim], [parse], [split_once], [rsplit_once],
    [strip_suffix], [trim_end_matches], [replace], [is_char_boundary], [split_at]),
    defined on bytes; [utf8] is the invariant of every [str] value, needed only where
    a byte-level cut must fall between characters. *)

From Stdlib Require Import Ascii.
From S2P Require Import Prelude.

Abbreviation len := String.length (only parsing).

(** ** Bytes *)

Definition byte_of (c : ascii) : N := N_of_ascii c.

Definition in_range (lo hi : N) (c : ascii) : bool :=
  (lo <=? byte_of c)%N && (byte_of c <=? hi)%N.

(** A UTF-8 continuation byte, [10xxxxxx]. *)
Definition is_continuation (c : ascii) : bool := in_range 128 191 c.

(** [str::is_char_boundary] *)
Definition is_char_boundary (s : string) (i : nat) : bool :=
  if decide (i = 0 ∨ i = len s) then true
  else match String.get i s with
       | Some c => negb (is_continuation c)
       | None => false
       end.

(** Well-formed UTF-8 (Unicode, table 3-7): the invariant of [str]. *)
Fixpoint utf8 (s : string) : bool :=
  match s with
  | EmptyString => true
  | String c0 r0 =>
    if in_range 0 127 c0 then utf8 r0
    else match r0 with
    | EmptyString => false
    | String c1 r1 =>
      if in_range 194 223 c0 then is_continuation c1 && utf8 r1
      else match r1 with
      | EmptyString => false
      | String c2 r2 =>
        if in_range 224 224 c0 then in_range 160 191 c1 && is_continuation c2 && utf8 r2
        else if in_range 225 236 c0 || in_range 238 239 c0 then
          is_continuation c1 && is_continuation c2 && utf8 r2
        else if in_range 237 237 c0 then in_range 128 159 c1 && is_continuation c2 && utf8 r2
        else match r2 with
        | EmptyString => false
        | String c3 r3 =>
          is_continuation c2 && is_continuation c3 &&
          (if in_range 240 240 c0 then in_range 144 191 c1
           else if in_range 241 243 c0 then is_continuation c1
           else if in_range 244 244 c0 then in_range 128 143 c1
           else false) && utf8 r3
        end
      end
    end
  end.

(** ** White space: the characters with Unicode property [White_Space] *)

(** U+0009..U+000D, U+0020 *)
Definition is_white1 (c : ascii) : bool := in_range 9 13 c || in_range 32 32 c.
(** U+0085, U+00A0 *)
Definition is_white2 (c0 c1 : ascii) : bool :=
  in_range 194 194 c0 && (in_range 133 133 c1 || in_range 160 160 c1).
(** U+1680, U+2000..U+200A, U+2028, U+2029, U+202F, U+205F, U+3000 *)
Definition is_white3 (c0 c1 c2 : ascii) : bool :=
  (in_range 225 225 c0 && in_range 154 154 c1 && in_range 128 128 c2)
  || (in_range 226 226 c0 &&
      ((in_range 128 128 c1 && (in_range 128 138 c2 || in_range 168 169 c2 || in_range 175 175 c2))
       || (in_range 129 129 c1 && in_range 159 159 c2)))
  || (in_range 227 227 c0 && in_range 128 128 c1 && in_range 128 128 c2).

(** Drop characters of the given encodings from the front. *)
Fixpoint drop_white (w2 : ascii → ascii → bool) (w3 : ascii → ascii → ascii → bool)
    (s : string) : string :=
  match s with
  | EmptyString => EmptyString
  | String c0 r0 =>
    if is_white1 c0 then drop_white w2 w3 r0
    else match r0 with
    | EmptyString => s
    | String c1 r1 =>
      if w2 c0 c1 then drop_white w2 w3 r1
      else match r1 with
      | EmptyString => s
      | String c2 r2 => if w3 c0 c1 c2 then drop_white w2 w3 r2 else s
      end
    end
  end.

(** [str::trim_start]; [str::trim_end] reads the string from its end. *)
Definition trim_start (s : string) : string := drop_white is_white2 is_white3 s.
Definition trim_end (s : string) : string :=
  String.rev (drop_white (λ c0 c1, is_white2 c1 c0) (λ c0 c1 c2, is_white3 c2 c1 c0) (String.rev s)).
Definition trim (s : string) : string := trim_end (trim_start s).

(** [s.trim().is_empty()] *)
Definition is_blank (s : string) : bool := bool_decide (trim s = "").

(** ** Decimal integers *)

Definition u64_max : Z := 2 ^ 64 - 1.
Definition usize_max : Z := u64_max.

Definition digit_value (c : ascii) : option Z :=
  if in_range 48 57 c then Some (Z.of_N (byte_of c) - 48)%Z else None.

Fixpoint digits_from (acc : Z) (s : string) : option Z :=
  match s with
  | EmptyString => Some acc
  | String c s' => d ← digit_value c; digits_from (10 * acc + d) s'
  end.

(** At least one digit. *)
Definition digits (s : string) : option Z :=
  match s with EmptyString => None | _ => digits_from 0 s end.

Definition strip_plus (s : string) : string :=
  match s with
  | String "+" s' => s'
  | _ => s
  end.

(** [str::parse::<u64>] (and [usize], which is 64 bits wide): an optional [+], then
    digits, and no overflow.  The error's kind is not used by the program. *)
Definition parse_u64 (s : string) : option Z :=
  n ← digits (strip_plus s);
  if bool_decide (n ≤ u64_max)%Z then Some n else None.

(** [str::parse::<i32>]: a [-] is allowed too. *)
Definition parse_i32 (s : string) : option Z :=
  match s with
  | String "-" s' =>
      n ← digits s'; if bool_decide (n ≤ 2 ^ 31)%Z then Some (- n)%Z else None
  | _ =>
      n ← digits (strip_plus s); if bool_decide (n ≤ 2 ^ 31 - 1)%Z then Some n else None
  end.

(** [format!("{n}")] for the integer types. *)
Definition show (n : Z) : string := pretty n.

(** ** Searching and cutting *)

(** [str::strip_prefix], [str::strip_suffix] *)
Fixpoint strip_prefix (p s : string) : option string :=
  match p, s with
  | EmptyString, _ => Some s
  | String a p', String b s' => if ascii_dec a b then strip_prefix p' s' else None
  | String _ _, EmptyString => None
  end.
Definition strip_suffix (p s : string) : option string :=
  String.rev <$> strip_prefix (String.rev p) (String.rev s).

(** [str::split_once(sep)]: around the first occurrence. *)
Fixpoint split_once (sep s : string) : option (string * string) :=
  match strip_prefix sep s with
  | Some rest => Some ("", rest)
  | None =>
    match s with
    | EmptyString => None
    | String c s' => '(l, r) ← split_once sep s'; Some (String c l, r)
    end
  end.

(** [str::rsplit_once(c)]: around the last occurrence. *)
Definition rsplit_once (c : ascii) (s : string) : option (string * string) :=
  '(l, r) ← split_once (String c "") (String.rev s); Some (String.rev r, String.rev l).

(** [str::trim_end_matches(c)] *)
Fixpoint drop_leading (c : ascii) (s : string) : string :=
  match s with
  | EmptyString => EmptyString
  | String d s' => if ascii_dec c d then drop_leading c s' else s
  end.
Definition trim_end_matches (c : ascii) (s : string) : string :=
  String.rev (drop_leading c (String.rev s)).

(** [str::replace(c, to)] for a single character [c] of one byte. *)
Fixpoint replace_char (c : ascii) (to s : string) : string :=
  match s with
  | EmptyString => EmptyString
  | String d s' => if ascii_dec c d then to +:+ replace_char c to s' else String d (replace_char c to s')
  end.

(** [str::split_at]: bytes before and after position [n]; the caller has checked the
    bounds, and the program panics otherwise ([None]). *)
Definition split_at (n : nat) (s : string) : option (string * string) :=
  if is_char_boundary s n
  then Some (String.substring 0 n s, String.substring n (len s - n) s) else None.

(** [Vec<String>::sort]: by bytes. *)
Definition sort_strings (l : list string) : list string := merge_sort String.le l.

(** [Vec<String>::dedup]: removes consecutive repetitions. *)
Fixpoint dedup (l : list string) : list string :=
  match l with
  | [] => []
  | x :: l' =>
    match dedup l' with
    | y :: r => if decide (x = y) then y :: r else x :: y :: r
    | [] => [x]
    end
  end.

(** ** Strings as lists of characters *)

Abbreviation chars := String.list_ascii_of_string.

Lemma chars_inj s t : chars s = chars t → s = t.
Proof.
  intros H. rewrite <-(String.string_of_list_ascii_of_string s), H.
  apply String.string_of_list_ascii_of_string.
Qed.

Lemma chars_app s t : chars (s +:+ t) = chars s ++ chars t.
Proof. induction s as [|c s IH]; [done|]. simpl. by rewrite <-IH. Qed.

Lemma chars_rev s : chars (String.rev s) = reverse (chars s).
Proof.
  unfold String.rev, reverse. assert (∀ t, chars (String.rev_app s t) = rev_append (chars s) (chars t)) as H.
  { induction s as [|c s IH]; intros t; [done|]. simpl. by rewrite IH. }
  apply H.
Qed.

Lemma len_chars s : len s = length (chars s).
Proof. induction s; simpl; congruence. Qed.

Lemma str_app_assoc (s t u : string) : (s +:+ t) +:+ u = s +:+ (t +:+ u).
Proof. apply chars_inj. by rewrite !chars_app, (assoc_L (++)). Qed.

Lemma str_app_nil_r (s : string) : s +:+ "" = s.
Proof. apply chars_inj. rewrite chars_app. apply (right_id_L [] (++)). Qed.

Lemma str_app_cons c (s t : string) : String c s +:+ t = String c (s +:+ t).
Proof. done. Qed.

Lemma str_nil_app (s : string) : "" +:+ s = s.
Proof. done. Qed.

Ltac str_simpl := rewrite ?str_app_cons, ?str_nil_app in *; simplify_eq/=.

Lemma len_app (s t : string) : len (s +:+ t) = len s + len t.
Proof. by rewrite !len_chars, chars_app, length_app. Qed.

Lemma str_rev_rev s : String.rev (String.rev s) = s.
Proof. apply chars_inj. by rewrite !chars_rev, reverse_involutive. Qed.

Lemma str_rev_app (s t : string) : String.rev (s +:+ t) = String.rev t +:+ String.rev s.
Proof. apply chars_inj. by rewrite chars_app, !chars_rev, chars_app, reverse_app. Qed.

Lemma str_rev_snoc s c : String.rev (s +:+ String c "") = String c (String.rev s).
Proof. by rewrite str_rev_app. Qed.

#[export] Hint Rewrite chars_app chars_rev str_app_assoc str_app_nil_r len_app str_rev_rev : weave.

Lemma str_app_inv_len (s1 s2 t1 t2 : string) :
  len s1 = len s2 → s1 +:+ t1 = s2 +:+ t2 → s1 = s2 ∧ t1 = t2.
Proof.
  rewrite !len_chars. intros Hl H%(f_equal chars). rewrite !chars_app in H.
  apply app_inj_1 in H as [??]; [|done]. eauto using chars_inj.
Qed.

(** A separator that does not occur before it determines the cut. *)
Lemma str_cut_unique (c : ascii) (s1 s2 t1 t2 : string) :
  c ∉ chars s1 → c ∉ chars s2 → s1 +:+ String c t1 = s2 +:+ String c t2 → s1 = s2 ∧ t1 = t2.
Proof.
  revert s2. induction s1 as [|a s1 IH]; intros [|b s2] H1 H2 H; str_simpl; try set_solver.
  destruct (IH s2) as [-> ->]; set_solver.
Qed.

(** ** [strip_prefix] and [strip_suffix] *)

Lemma strip_prefix_Some p s r : strip_prefix p s = Some r ↔ s = p +:+ r.
Proof.
  revert s. induction p as [|a p IH]; intros s; [simpl; naive_solver|].
  destruct s as [|b s]; simpl; [split; [done|]; by intros ?|].
  destruct (ascii_dec a b) as [->|Hne]; [rewrite IH; by split; [intros ->|intros [= ->]]|].
  split; [done|]. rewrite str_app_cons. congruence.
Qed.

Lemma strip_suffix_Some p s r : strip_suffix p s = Some r ↔ s = r +:+ p.
Proof.
  unfold strip_suffix. rewrite fmap_Some. split.
  - intros (t & H%strip_prefix_Some & ->). by rewrite <-(str_rev_rev s), H, str_rev_app, str_rev_rev.
  - intros ->. exists (String.rev r). rewrite strip_prefix_Some, str_rev_rev. split; [apply str_rev_app|done].
Qed.

Lemma strip_suffix_None p s : strip_suffix p s = None ↔ ∀ r, s ≠ r +:+ p.
Proof.
  rewrite eq_None_not_Some. unfold is_Some. setoid_rewrite strip_suffix_Some. naive_solver.
Qed.

(** ** [split_once] and [rsplit_once] *)

Lemma split_once_Some sep s l r : split_once sep s = Some (l, r) → s = l +:+ sep +:+ r.
Proof.
  revert l r. induction s as [|c s IH]; intros l r; simpl.
  - destruct (strip_prefix sep "") eqn:E; [|done].
    intros [= <- <-]. by apply strip_prefix_Some in E.
  - destruct (strip_prefix sep (String c s)) eqn:E.
    { intros [= <- <-]. by apply strip_prefix_Some in E. }
    destruct (split_once sep s) as [[l' r']|]; simpl; [|done].
    intros [= <- <-]. by rewrite (IH _ _ eq_refl).
Qed.

(** For a one-character separator the cut is at its first occurrence. *)
Lemma split_once_char c s l r :
  split_once (String c "") s = Some (l, r) ↔ s = l +:+ String c r ∧ c ∉ chars l.
Proof.
  revert l r. induction s as [|d s IH]; intros l r; simpl.
  { split; [done|]. intros [H _]. by destruct l. }
  destruct (ascii_dec c d) as [->|Hne].
  - split; [intros [= <- <-]; split; [done|set_solver]|].
    intros [H Hn]. destruct l as [|e l]; str_simpl; [done|set_solver].
  - split.
    + destruct (split_once (String c "") s) as [[l' r']|]; simpl; [|done].
      intros [= <- <-]. destruct (proj1 (IH l' r') eq_refl) as [-> ?]. split; [done|set_solver].
    + intros [H Hn]. destruct l as [|e l]; str_simpl.
      rewrite (proj2 (IH l r)); [done|]. split; [done|set_solver].
Qed.

Lemma split_once_char_None c s : split_once (String c "") s = None ↔ c ∉ chars s.
Proof.
  induction s as [|d s IH]; simpl; [set_solver|].
  destruct (ascii_dec c d) as [->|Hne]; [set_solver|].
  rewrite not_elem_of_cons, <-IH. destruct (split_once (String c "") s) as [[??]|]; simpl; naive_solver.
Qed.

Lemma rsplit_once_Some c s l r :
  rsplit_once c s = Some (l, r) ↔ s = l +:+ String c r ∧ c ∉ chars r.
Proof.
  unfold rsplit_once. split.
  - destruct (split_once (String c "") (String.rev s)) as [[a b]|] eqn:E; simpl; [|done].
    intros [= <- <-]. apply split_once_char in E as [E Hn].
    rewrite chars_rev, elem_of_reverse. split; [|done].
    rewrite <-(str_rev_rev s), E, str_rev_app. change (String c b) with (String c "" +:+ b).
    by rewrite str_rev_app, str_app_assoc.
  - intros [-> Hn].
    assert (split_once (String c "") (String.rev (l +:+ String c r)) = Some (String.rev r, String.rev l)) as ->.
    { apply split_once_char. rewrite chars_rev, elem_of_reverse. split; [|done].
      rewrite str_rev_app. change (String c r) with (String c "" +:+ r).
      by rewrite str_rev_app, str_app_assoc. }
    simpl. by rewrite !str_rev_rev.
Qed.

Lemma rsplit_once_None c s : rsplit_once c s = None ↔ c ∉ chars s.
Proof.
  unfold rsplit_once. rewrite <-elem_of_reverse, <-chars_rev, <-split_once_char_None.
  destruct (split_once _ _) as [[??]|]; naive_solver.
Qed.

(** ** Printed and parsed integers *)

Definition is_digit (c : ascii) : bool := in_range 48 57 c.

Lemma digit_value_char d : (d < 10)%N → digit_value (pretty_N_char d) = Some (Z.of_N d).
Proof.
  intros H. assert (d ∈ N.of_nat <$> seq 0 10) as Hd.
  { apply list_elem_of_fmap. exists (N.to_nat d). rewrite elem_of_seq. lia. }
  clear H. revert d Hd. apply Forall_forall. by repeat constructor.
Qed.

Lemma digit_value_is_digit c d : digit_value c = Some d → is_digit c.
Proof. unfold digit_value, is_digit. by case_match. Qed.

Lemma digits_from_app acc s t :
  digits_from acc (s +:+ t) = n ← digits_from acc s; digits_from n t.
Proof.
  revert acc. induction s as [|c s IH]; intros acc; [done|]. rewrite str_app_cons. simpl.
  destruct (digit_value c); simpl; [apply IH|done].
Qed.

Lemma digits_from_chars acc s n : digits_from acc s = Some n → Forall is_digit (chars s).
Proof.
  revert acc. induction s as [|c s IH]; intros acc; simpl; [constructor|].
  destruct (digit_value c) eqn:E; simpl; [|done]. eauto using digit_value_is_digit.
Qed.

Lemma digits_Some s n : digits s = Some n → s ≠ "" ∧ digits_from 0 s = Some n.
Proof. by destruct s. Qed.

(** Printing pushes the digits of [x] in front of the accumulator. *)
Lemma pretty_N_go_digits x s :
  ∃ p, pretty_N_go x s = p +:+ s ∧ digits_from 0 p = Some (Z.of_N x) ∧ (x ≠ 0%N → p ≠ "").
Proof.
  revert s. induction (N.lt_wf_0 x) as [x _ IH]; intros s.
  destruct (decide (x = 0)%N) as [->|Hx]; [by exists ""|].
  rewrite pretty_N_go_step by lia.
  destruct (IH (x `div` 10)%N ltac:(apply N.div_lt; lia) (String (pretty_N_char (x `mod` 10)) s))
    as (p & -> & Hp & _).
  pose proof (N.mod_lt x 10 ltac:(done)) as Hm.
  exists (p +:+ String (pretty_N_char (x `mod` 10)) ""). split_and!.
  - by rewrite str_app_assoc.
  - rewrite digits_from_app, Hp. simpl. rewrite digit_value_char by done. simpl. f_equal.
    rewrite (N.div_mod x 10) at 3 by done. lia.
  - by destruct p.
Qed.

Lemma digits_pretty (x : N) : digits (pretty x) = Some (Z.of_N x).
Proof.
  unfold pretty, pretty_N. case_decide as H; [by subst|].
  destruct (pretty_N_go_digits x "") as (p & -> & Hp & Hne). rewrite str_app_nil_r.
  specialize (Hne H). by destruct p.
Qed.

Lemma digits_show n : (0 ≤ n)%Z → digits (show n) = Some n.
Proof.
  intros H. unfold show, pretty, pretty_Z. destruct n as [|p|p]; [done| |lia].
  apply (digits_pretty (N.pos p)).
Qed.

Lemma show_digits n : (0 ≤ n)%Z → Forall is_digit (chars (show n)).
Proof. intros H%digits_show%digits_Some. destruct H. eauto using digits_from_chars. Qed.

Lemma show_not_in n c : (0 ≤ n)%Z → is_digit c = false → c ∉ chars (show n).
Proof.
  intros Hn Hc Hin. pose proof (show_digits n Hn) as H. rewrite Forall_forall in H.
  apply H in Hin. by rewrite Hc in Hin.
Qed.

Lemma show_head n : (0 ≤ n)%Z → ∃ c s, show n = String c s ∧ is_digit c.
Proof.
  intros Hn. pose proof (show_digits n Hn) as H. pose proof (digits_show n Hn) as Hd.
  destruct (show n) as [|c s]; [done|]. apply Forall_cons in H as [Hc _]. eauto.
Qed.

Lemma strip_plus_digit c s : is_digit c → strip_plus (String c s) = String c s.
Proof. by destruct c as [[] [] [] [] [] [] [] []]. Qed.

(** Printing then parsing an unsigned number gives it back. *)
Lemma parse_u64_show n : (0 ≤ n ≤ u64_max)%Z → parse_u64 (show n) = Some n.
Proof.
  intros [H0 H1]. pose proof (digits_show n H0) as Hd.
  destruct (show_head n H0) as (c & s & Hs & Hc). unfold parse_u64.
  rewrite Hs, strip_plus_digit, <-Hs, Hd by done. simpl. by rewrite bool_decide_true.
Qed.

Lemma parse_u64_bounds s n : parse_u64 s = Some n → (0 ≤ n ≤ u64_max)%Z.
Proof.
  assert (∀ t acc m, (0 ≤ acc)%Z → digits_from acc t = Some m → (0 ≤ m)%Z) as Hpos.
  { induction t as [|c t IH]; intros acc m Ha; simpl; [naive_solver|].
    unfold digit_value. case_match eqn:E; simpl; [|done]. apply IH.
    unfold in_range in E. apply andb_true_iff in E as [E%N.leb_le _]. lia. }
  unfold parse_u64. destruct (digits _) as [m|] eqn:E; simpl; [|done].
  case_bool_decide; [|done]. intros [= <-]. apply digits_Some in E as [_ E].
  apply Hpos in E; lia.
Qed.

Lemma parse_i32_show n : (- 2 ^ 31 ≤ n < 2 ^ 31)%Z → parse_i32 (show n) = Some n.
Proof.
  intros [H0 H1]. destruct (decide (0 ≤ n)%Z) as [Hn|Hn].
  - pose proof (digits_show n Hn) as Hd. destruct (show_head n Hn) as (c & s & Hs & Hc).
    unfold parse_i32. rewrite Hs in *. rewrite strip_plus_digit, Hd by done. simpl.
    rewrite bool_decide_true by lia. by destruct c as [[] [] [] [] [] [] [] []].
  - destruct n as [|p|p]; [lia..|].
    change (show (Z.neg p)) with (String "-" (pretty (N.pos p))). simpl.
    rewrite digits_pretty. simpl. rewrite bool_decide_true by lia. done.
Qed.

(** ** Cuts at character boundaries *)

Lemma in_range_spec lo hi c : in_range lo hi c = true ↔ (lo ≤ byte_of c ≤ hi)%N.
Proof. unfold in_range. by rewrite andb_true_iff, !N.leb_le. Qed.

Ltac range_facts :=
  repeat match goal with
  | H : in_range _ _ _ = true |- _ => apply in_range_spec in H
  | H : in_range _ _ _ = false |- _ => apply not_true_iff_false in H; rewrite in_range_spec in H
  end.

(** No well-formed string starts with a continuation byte. *)
Lemma utf8_head c s : utf8 (String c s) = true → is_continuation c = false.
Proof.
  intros H. destruct (is_continuation c) eqn:E; [|done]. unfold is_continuation in E. exfalso.
  assert (∀ lo hi, (hi < 128 ∨ 191 < lo)%N → in_range lo hi c = false) as Hr.
  { intros lo hi ?. destruct (in_range lo hi c) eqn:?; [|done]. range_facts. lia. }
  simpl in H. rewrite !Hr in H by lia. simpl in H.
  repeat (case_match; try done). by rewrite andb_false_r in H.
Qed.

Lemma get_app_len (w g : string) : String.get (len w) (w +:+ g) = String.get 0 g.
Proof. induction w; [done|]. by rewrite str_app_cons. Qed.

Lemma is_char_boundary_app (w g : string) :
  utf8 g = true → is_char_boundary (w +:+ g) (len w) = true.
Proof.
  intros Hg. unfold is_char_boundary. case_decide as Hd; [done|].
  rewrite get_app_len. destruct g as [|c g]; simpl.
  - rewrite len_app in Hd. simpl in Hd. lia.
  - by rewrite (utf8_head c g).
Qed.

Lemma substring_len_0 s : String.substring 0 (len s) s = s.
Proof. induction s; simpl; congruence. Qed.

Lemma substring_app_l (w g : string) : String.substring 0 (len w) (w +:+ g) = w.
Proof. induction w as [|c w IH]; [by destruct g|]. rewrite str_app_cons. simpl. by rewrite IH. Qed.

Lemma substring_app_r (w g : string) :
  String.substring (len w) (len (w +:+ g) - len w) (w +:+ g) = g.
Proof.
  rewrite len_app. replace (len w + len g - len w) with (len g) by lia.
  induction w as [|c w IH]; [apply substring_len_0|]. by rewrite str_app_cons.
Qed.

Lemma substring_cut s n : n ≤ len s →
  String.substring 0 n s +:+ String.substring n (len s - n) s = s.
Proof.
  revert s. induction n as [|n IH]; intros s Hn.
  - rewrite Nat.sub_0_r, substring_len_0. by destruct s.
  - destruct s as [|c s]; [simpl in Hn; lia|]. simpl in *. rewrite str_app_cons, IH; [done|lia].
Qed.

Lemma substring_prefix_len s n : n ≤ len s → len (String.substring 0 n s) = n.
Proof.
  revert s. induction n as [|n IH]; intros [|c s] Hn; simpl in *; try lia. by rewrite IH by lia.
Qed.

Lemma split_at_app (w g : string) :
  is_char_boundary (w +:+ g) (len w) = true → split_at (len w) (w +:+ g) = Some (w, g).
Proof. intros H. unfold split_at. by rewrite H, substring_app_l, substring_app_r. Qed.

(** ** [trim] *)

(** A printing ASCII character other than the space. *)
Definition is_graph (c : ascii) : bool := in_range 33 126 c.

Lemma is_graph_ranges c lo hi : is_graph c → (hi < 33 ∨ 126 < lo)%N → in_range lo hi c = false.
Proof.
  intros H Hr. apply Is_true_true, in_range_spec in H.
  destruct (in_range lo hi c) eqn:?; [|done]. range_facts. lia.
Qed.

Lemma drop_white_graph w2 w3 c s :
  is_graph c → (∀ d, w2 c d = false) → (∀ d e, w3 c d e = false) →
  drop_white w2 w3 (String c s) = String c s.
Proof.
  intros Hc H2 H3. simpl. unfold is_white1. rewrite !is_graph_ranges by (done || lia). simpl.
  destruct s as [|d s]; [done|]. rewrite H2. destruct s as [|e s]; [done|]. by rewrite H3.
Qed.

Lemma is_white2_graph c d : is_graph c → is_white2 c d = false ∧ is_white2 d c = false.
Proof.
  intros H. unfold is_white2. rewrite !(is_graph_ranges c) by (done || lia). by rewrite andb_false_r.
Qed.

Lemma is_white3_graph c d e : is_graph c → is_white3 c d e = false ∧ is_white3 d e c = false.
Proof.
  intros H. unfold is_white3. rewrite !(is_graph_ranges c) by (done || lia).
  by rewrite ?andb_false_r, ?orb_false_r.
Qed.

(** A string that starts and ends with printing ASCII characters is its own [trim]. *)
Lemma trim_graph c s d t :
  is_graph c → is_graph d → String c s = t +:+ String d "" → trim (String c s) = String c s.
Proof.
  intros Hc Hd Heq. unfold trim, trim_start.
  rewrite drop_white_graph; [|done|intros e; exact (proj1 (is_white2_graph c e Hc))
                             |intros e f; exact (proj1 (is_white3_graph c e f Hc))].
  unfold trim_end. rewrite Heq, str_rev_snoc.
  rewrite drop_white_graph; [|done|intros e; exact (proj2 (is_white2_graph d e Hd))
                             |intros e f; exact (proj2 (is_white3_graph d f e Hd))].
  by rewrite <-str_rev_snoc, str_rev_rev.
Qed.

Lemma is_digit_graph c : is_digit c → is_graph c.
Proof.
  unfold is_digit, is_graph. intros H. apply Is_true_true, in_range_spec in H.
  apply Is_true_true, in_range_spec. lia.
Qed.

Lemma str_snoc_exists c s : ∃ t d, String c s = t +:+ String d "" ∧ d ∈ chars (String c s).
Proof.
  revert c. induction s as [|c' s IH]; intros c; [exists "", c; split; [done|set_solver]|].
  destruct (IH c') as (t & d & -> & Hin). exists (String c t), d.
  rewrite str_app_cons. split; [done|]. simpl in *. set_solver.
Qed.

Lemma trim_show n : (0 ≤ n)%Z → trim (show n) = show n.
Proof.
  intros Hn. destruct (show_head n Hn) as (c & s & Hs & Hc). rewrite Hs.
  destruct (str_snoc_exists c s) as (t & d & Ht & Hd).
  apply (trim_graph c s d t); [by apply is_digit_graph| |done].
  rewrite <-Hs in Hd. pose proof (show_digits n Hn) as Hall. rewrite Forall_forall in Hall.
  by apply is_digit_graph, Hall.
Qed.

(** ** [dedup] on a sorted vector *)

Lemma sort_strings_perm l : sort_strings l ≡ₚ l.
Proof. apply merge_sort_Permutation. Qed.

Lemma sort_strings_sorted l : Sorted String.le (sort_strings l).
Proof. apply Sorted_merge_sort, _. Qed.

Lemma dedup_cons x l :
  dedup (x :: l) = match dedup l with
    | y :: r => if decide (x = y) then y :: r else x :: y :: r
    | [] => [x] end.
Proof. done. Qed.

Lemma dedup_head l : head (dedup l) = head l.
Proof.
  induction l as [|x l IH]; [done|]. rewrite dedup_cons.
  destruct (dedup l); [done|]. case_decide; by subst.
Qed.

Lemma elem_of_dedup l x : x ∈ dedup l ↔ x ∈ l.
Proof.
  induction l as [|y l IH]; [done|]. rewrite dedup_cons, elem_of_cons, <-IH.
  destruct (dedup l); [set_solver|]. case_decide; set_solver.
Qed.

Lemma dedup_sorted l : Sorted String.le l → Sorted String.le (dedup l) ∧ NoDup (dedup l).
Proof.
  induction 1 as [|x l Hs [IHs IHn] Hhd]; [split; constructor|]. rewrite dedup_cons.
  pose proof (dedup_head l) as Hh. destruct (dedup l) as [|y r] eqn:E.
  { split; repeat constructor. set_solver. }
  case_decide as Hxy; [done|]. destruct l as [|z l]; simplify_eq/=.
  inv Hhd. split; [constructor; [done|by constructor]|]. constructor; [|done].
  intros Hin. assert (String.le z x); [|by destruct Hxy; apply (anti_symm String.le)].
  eapply (Sorted_head_le String.le); [exact IHs|done|exact Hin].
Qed.

(** [trim_end_matches] keeps a string that ends in another character. *)
Lemma trim_end_matches_snoc c s d : c ≠ d → trim_end_matches c (s +:+ String d "") = s +:+ String d "".
Proof.
  intros Hc. unfold trim_end_matches. rewrite str_rev_snoc. cbn [drop_leading]. destruct (ascii_dec c d); [done|].
  etrans; [|apply str_rev_rev]. by rewrite str_rev_snoc.
Qed.
