(* ===== verification/Prog.v ===== *)
(** * Programs over shared state

    The services are asynchronous Rust: a handler is a sequence of atomic accesses to
    shared state (a critical section under a lock, one command to Redis, one message
    to a peer) with suspension points in between, where other tasks run.  [prog W E A]
    is such a handler over the shared state [W]: it returns an [A], fails with an [E]
    (the [?] operator), panics, or performs one atomic access and goes on.

    - [run] executes a program alone, from its first access to its last;
    - [select_polls] is [select!] between programs, with the branches it drops;
    - [interleave] is the small-step semantics of a pool of programs over one state;
    - [rg] is a rely-guarantee logic for the pool, sound by [rg_pool_invariant]. *)

From S2P Require Import Prelude.

(** ** Syntax *)

Inductive prog (W E A : Type) : Type :=
| Ret (a : A)
| Throw (e : E)
| Panic (msg : string)
| Step (B : Type) (act : W → option (W * B)) (k : B → prog W E A).
Arguments Ret {W E A} a.
Arguments Throw {W E A} e.
Arguments Panic {W E A} msg.
Arguments Step {W E A B} act k.

(** How a program that runs alone ends.  [Blocked]: its next access is not enabled
    (an empty queue it waits on); the program is suspended there. *)
Inductive outcome (E A : Type) : Type :=
| Done (a : A)
| Failed (e : E)
| Panicked (msg : string)
| Blocked.
Arguments Done {E A} a.
Arguments Failed {E A} e.
Arguments Panicked {E A} msg.
Arguments Blocked {E A}.

#[export] Instance prog_ret W E : MRet (prog W E) := λ A a, Ret a.

Fixpoint prog_bind_def {W E A B} (m : prog W E A) (k : A → prog W E B) : prog W E B :=
  match m with
  | Ret a => k a
  | Throw e => Throw e
  | Panic s => Panic s
  | Step act j => Step act (λ b, prog_bind_def (j b) k)
  end.
#[export] Instance prog_bind W E : MBind (prog W E) := λ A B k m, prog_bind_def m k.

(** [Result::map_err] on the value of a call. *)
Fixpoint rethrow {W E E' A} (f : E → E') (m : prog W E A) : prog W E' A :=
  match m with
  | Ret a => Ret a
  | Throw e => Throw (f e)
  | Panic s => Panic s
  | Step act k => Step act (λ b, rethrow f (k b))
  end.

(** The call's [Result] as a value ([match call().await { Ok(..) => .., Err(..) => .. }]). *)
Fixpoint attempt {W E E' A} (m : prog W E A) : prog W E' (result E A) :=
  match m with
  | Ret a => Ret (Ok a)
  | Throw e => Ret (Err e)
  | Panic s => Panic s
  | Step act k => Step act (λ b, attempt (k b))
  end.

(** A component's program inside the state of the service that owns it. *)
Fixpoint zoom {W S E A} (l : lens W S) (m : prog S E A) : prog W E A :=
  match m with
  | Ret a => Ret a
  | Throw e => Throw e
  | Panic s => Panic s
  | Step act k =>
      Step (λ w, '(s, b) ← act (view l w); Some (put l s w, b)) (λ b, zoom l (k b))
  end.

(** [result?] *)
Definition lift_result {W E A} (r : result E A) : prog W E A :=
  match r with
  | Ok a => Ret a
  | Err e => Throw e
  end.

(** One atomic access. *)
Definition atomic {W E B} (f : W → W * B) : prog W E B := Step (λ w, Some (f w)) Ret.

(** One critical section that ends in a [Result]. *)
Definition critical {W E A} (f : W → W * result E A) : prog W E A :=
  r ← atomic f; lift_result r.

(** A critical section that may also panic, or wait (when it answers [Blocked] it is not
    enabled and changes nothing). *)
Definition section {W E A} (f : W → W * outcome E A) : prog W E A :=
  Step (λ w, match f w with (_, Blocked) => None | wo => Some wo end)
       (λ o, match o with
             | Done a => Ret a
             | Failed e => Throw e
             | Panicked s => Panic s
             | Blocked => Panic "not enabled"
             end).

(** A future that never completes. *)
Definition never {W E A} : prog W E A := Step (λ _, None) (Empty_set_rect (λ _, prog W E A)).

(** [select!] over [branches], along the order in which they are polled: a branch that is
    polled makes its next access if that is enabled; the first one found at its end ends
    the [select!] with its result, and the others are dropped where they are.  When the
    polls run out, the [select!] still waits. *)
Fixpoint select_polls {W E A} (branches : list (prog W E A)) (polls : list nat) : prog W E A :=
  match polls with
  | [] => never
  | i :: polls =>
    match branches !! i with
    | Some (Ret a) => Ret a
    | Some (Throw e) => Throw e
    | Some (Panic s) => Panic s
    | Some (Step act k) =>
      Step (λ w, Some (match act w with Some (w', b) => (w', Some b) | None => (w, None) end))
           (λ o, match o with
                 | Some b => select_polls (<[i := k b]> branches) polls
                 | None => select_polls branches polls
                 end)
    | None => select_polls branches polls
    end
  end.

(** ** Running alone *)

Fixpoint run {W E A} (m : prog W E A) (w : W) : W * outcome E A :=
  match m with
  | Ret a => (w, Done a)
  | Throw e => (w, Failed e)
  | Panic s => (w, Panicked s)
  | Step act k =>
    match act w with
    | Some (w', b) => run (k b) w'
    | None => (w, Blocked)
    end
  end.

Section run.
Context {W : Type}.

Lemma run_eta {E A} (m : prog W E A) w o : (run m w).2 = o → run m w = ((run m w).1, o).
Proof. intros <-. by destruct (run m w). Qed.

Lemma run_bind {E A B} (m : prog W E A) (k : A → prog W E B) w :
  run (m ≫= k) w =
    match run m w with
    | (w', Done a) => run (k a) w'
    | (w', Failed e) => (w', Failed e)
    | (w', Panicked s) => (w', Panicked s)
    | (w', Blocked) => (w', Blocked)
    end.
Proof.
  revert w. induction m as [a|e|s|C act j IH]; intros w; [done..|]. simpl.
  destruct (act w) as [[w' b]|]; [apply IH|done].
Qed.

Lemma run_rethrow {E E' A} (f : E → E') (m : prog W E A) w :
  run (rethrow f m) w =
    match run m w with
    | (w', Done a) => (w', Done a)
    | (w', Failed e) => (w', Failed (f e))
    | (w', Panicked s) => (w', Panicked s)
    | (w', Blocked) => (w', Blocked)
    end.
Proof.
  revert w. induction m as [a|e|s|C act j IH]; intros w; [done..|]. simpl.
  destruct (act w) as [[w' b]|]; [apply IH|done].
Qed.

Lemma run_attempt {E E' A} (m : prog W E A) w :
  run (attempt (E':=E') m) w =
    match run m w with
    | (w', Done a) => (w', Done (Ok a))
    | (w', Failed e) => (w', Done (Err e))
    | (w', Panicked s) => (w', Panicked s)
    | (w', Blocked) => (w', Blocked)
    end.
Proof.
  revert w. induction m as [a|e|s|C act j IH]; intros w; [done..|]. simpl.
  destruct (act w) as [[w' b]|]; [apply IH|done].
Qed.

Lemma run_zoom {S E A} (l : lens W S) `{!LensOk l} (m : prog S E A) w :
  run (zoom l m) w = (put l (run m (view l w)).1 w, (run m (view l w)).2).
Proof.
  revert w. induction m as [a|e|s|C act j IH]; intros w; simpl; [by rewrite put_view..|].
  destruct (act (view l w)) as [[s b]|]; simpl; [|by rewrite put_view].
  by rewrite IH, view_put, put_put.
Qed.

Lemma run_critical {E A} (f : W → W * result E A) w :
  run (critical f) w = ((f w).1, match (f w).2 with Ok a => Done a | Err e => Failed e end).
Proof. unfold critical, atomic. simpl. destruct (f w) as [w' [a|e]]; done. Qed.

Lemma run_section {E A} (f : W → W * outcome E A) w :
  run (section f) w = match f w with (_, Blocked) => (w, Blocked) | wo => wo end.
Proof. unfold section. simpl. by destruct (f w) as [w' []]. Qed.

Lemma run_atomic {E B} (f : W → W * B) w :
  run (atomic (E:=E) f) w = ((f w).1, Done (f w).2).
Proof. unfold atomic. simpl. by destruct (f w). Qed.

Lemma run_lift_result {E A} (r : result E A) (w : W) :
  run (lift_result r) (w : W) = (w, match r with Ok a => Done a | Err e => Failed e end).
Proof. by destruct r. Qed.
End run.

(** A program that returned, step by step. *)
Section returns.
Context {W : Type}.

Lemma run_bind_Done {E A B} (m : prog W E A) (k : A → prog W E B) w w2 b :
  run (m ≫= k) w = (w2, Done b) → ∃ w1 a, run m w = (w1, Done a) ∧ run (k a) w1 = (w2, Done b).
Proof. rewrite run_bind. destruct (run m w) as [w1 [a|e|s|]]; intros; simplify_eq; eauto. Qed.

Lemma run_rethrow_Done {E E' A} (f : E → E') (m : prog W E A) w w1 a :
  run (rethrow f m) w = (w1, Done a) → run m w = (w1, Done a).
Proof. rewrite run_rethrow. by destruct (run m w) as [w2 []]; intros; simplify_eq. Qed.

Lemma run_lift_Done {E A} (r : result E A) (w w1 : W) a :
  run (lift_result r) w = (w1, Done a) → w1 = w ∧ r = Ok a.
Proof. by destruct r; intros; simplify_eq/=. Qed.

Lemma run_zoom_Done {S E A} (l : lens W S) `{!LensOk l} (m : prog S E A) w w1 a :
  run (zoom l m) w = (w1, Done a) → ∃ s, run m (view l w) = (s, Done a) ∧ w1 = put l s w.
Proof. rewrite run_zoom by apply _. destruct (run m (view l w)) as [s o]. simpl. intros [= <- ->]. eauto. Qed.
End returns.

#[export] Hint Rewrite @run_bind @run_rethrow @run_attempt @run_critical @run_section @run_atomic @run_lift_result : weave.
#[export] Hint Rewrite @run_zoom using typeclasses eauto : weave.

(** ** Running together *)

(** A state and the programs over it.  [spawnable] are the requests that may arrive. *)
Section interleave.
Context {W E A : Type}.
Implicit Types (w : W) (p : prog W E A) (ps : list (prog W E A)).

Inductive interleave (spawnable : prog W E A → Prop) :
    W * list (prog W E A) → W * list (prog W E A) → Prop :=
| interleave_step w w' ps i B (act : W → option (W * B)) k b :
    ps !! i = Some (Step act k) →
    act w = Some (w', b) →
    interleave spawnable (w, ps) (w', <[i := k b]> ps)
| interleave_spawn w ps p :
    spawnable p → interleave spawnable (w, ps) (w, ps ++ [p]).

(** A program of the pool may run on, undisturbed. *)
Lemma interleave_run spawnable w ps i p :
  ps !! i = Some p → ∃ ps', rtc (interleave spawnable) (w, ps) ((run p w).1, ps').
Proof.
  revert w ps. induction p as [a|e|msg|B act k IH]; intros w ps Hi; simpl; [by eexists..|].
  destruct (act w) as [[w' b]|] eqn:Hact; [|by eexists].
  destruct (IH b w' (<[i := k b]> ps)) as [ps' Hsteps].
  { apply list_lookup_insert_eq. by eapply lookup_lt_Some. }
  exists ps'. eapply rtc_l; [by eapply interleave_step|done].
Qed.

(** So may a new request; calls one after the other are one of the interleavings. *)
Lemma interleave_call spawnable w ps p :
  spawnable p → ∃ ps', rtc (interleave spawnable) (w, ps) ((run p w).1, ps').
Proof.
  intros Hp. destruct (interleave_run spawnable w (ps ++ [p]) (length ps) p) as [ps' Hsteps].
  { by apply list_lookup_middle. }
  exists ps'. eapply rtc_l; [by apply interleave_spawn|done].
Qed.

Lemma interleave_calls spawnable w ps calls :
  Forall spawnable calls →
  ∃ ps', rtc (interleave spawnable) (w, ps) (fold_left (λ w p, (run p w).1) calls w, ps').
Proof.
  intros Hcalls. revert w ps. induction Hcalls as [|p calls Hp _ IH]; intros w ps; [by eexists|]. simpl.
  destruct (interleave_call spawnable w ps p Hp) as [ps1 H1]. destruct (IH (run p w).1 ps1) as [ps2 H2].
  exists ps2. by etrans.
Qed.

(** One interleaving, given by its choices: a request arrives, or a program of the pool
    makes its next access (where it has none that is enabled, nothing happens). *)
Inductive choice : Type :=
| Arrive (p : prog W E A)
| Advance (i : nat).

Definition follow_choice (c : W * list (prog W E A)) (ch : choice) : W * list (prog W E A) :=
  match ch with
  | Arrive p => (c.1, c.2 ++ [p])
  | Advance i =>
    match c.2 !! i with
    | Some (Step act k) =>
      match act c.1 with
      | Some (w', b) => (w', <[i := k b]> c.2)
      | None => c
      end
    | _ => c
    end
  end.

Definition follow (choices : list choice) (c : W * list (prog W E A)) : W * list (prog W E A) :=
  fold_left follow_choice choices c.

Definition arrivals (choices : list choice) : list (prog W E A) :=
  omap (λ ch, match ch with Arrive p => Some p | Advance _ => None end) choices.

Lemma follow_interleave spawnable choices c :
  Forall spawnable (arrivals choices) → rtc (interleave spawnable) c (follow choices c).
Proof.
  revert c. induction choices as [|[p|i] choices IH]; intros [w ps] Hc; [done| |]; cbn in Hc |- *.
  - apply Forall_cons in Hc as [Hp Hc]. eapply rtc_l; [by apply interleave_spawn|]. by apply IH.
  - destruct (ps !! i) as [[a|e|msg|B act k]|] eqn:Hi; try by apply IH.
    destruct (act w) as [[w' b]|] eqn:Hact; [|by apply IH].
    eapply rtc_l; [by eapply interleave_step|]. by apply IH.
Qed.

Context (may_panic : Prop) (I : W → Prop) (R : W → W → Prop).

(** A predicate the other programs cannot invalidate. *)
Definition stable (P : W → Prop) : Prop := ∀ w w', P w → R w w' → P w'.

(** From a state where [P] holds, whatever the others do within [R]: every access
    keeps the invariant [I], stays within [R], and the end satisfies [Post]; a panic only
    where panics are allowed. *)
Fixpoint rg {E' A'} (P : W → Prop) (m : prog W E' A') (Post : result E' A' → W → Prop) : Prop :=
  match m with
  | Ret a => ∀ w, I w → P w → Post (Ok a) w
  | Throw e => ∀ w, I w → P w → Post (Err e) w
  | Panic _ => may_panic
  | Step act k => ∀ w w' b, I w → P w → act w = Some (w', b) →
      I w' ∧ R w w' ∧ ∃ Q, Q w' ∧ stable Q ∧ rg Q (k b) Post
  end.

Lemma rg_weaken {E' A'} (P P' : W → Prop) (m : prog W E' A') Post :
  (∀ w, I w → P' w → P w) → rg P m Post → rg P' m Post.
Proof. destruct m; simpl; naive_solver. Qed.

Lemma rg_post {E' A'} (P : W → Prop) (m : prog W E' A') (Post Post' : _ → _ → Prop) :
  (∀ r w, I w → Post r w → Post' r w) → rg P m Post → rg P m Post'.
Proof.
  intros HP. revert P. induction m as [| | |B act k IH]; intros P; simpl; [naive_solver..|].
  intros Hm w w' b HI HPw Hact. destruct (Hm w w' b HI HPw Hact) as (?&?&Q&?&?&?). eauto 10.
Qed.

Lemma rg_bind {E' A' B'} P (m : prog W E' A') (k : A' → prog W E' B') (Mid : A' → W → Prop) Post :
  rg P m (λ r, match r with Ok a => Mid a | Err e => Post (Err e) end) →
  (∀ a, rg (Mid a) (k a) Post) →
  rg P (m ≫= k) Post.
Proof.
  intros Hm Hk. revert P Hm. induction m as [a|e|s|B act j IH]; intros P; simpl; [|done..|].
  - intros HP. apply (rg_weaken (Mid a)); auto.
  - intros Hm w w' b HI HPw Hact. destruct (Hm w w' b HI HPw Hact) as (?&?&Q&?&?&?). eauto 10.
Qed.

Lemma rg_rethrow {E1 E2 A'} P (f : E1 → E2) (m : prog W E1 A') Post :
  rg P m (λ r, Post (map_err f r)) → rg P (rethrow f m) Post.
Proof.
  revert P. induction m as [| | |B act k IH]; intros P; simpl; [done..|].
  intros Hm w w' b HI HPw Hact. destruct (Hm w w' b HI HPw Hact) as (?&?&Q&?&?&?). eauto 10.
Qed.

Lemma rg_attempt {E1 E2 A'} P (m : prog W E1 A') (Post : result E2 _ → W → Prop) :
  rg P m (λ r, Post (Ok r)) → rg P (attempt m) Post.
Proof.
  revert P. induction m as [| | |B act k IH]; intros P; simpl; [done..|].
  intros Hm w w' b HI HPw Hact. destruct (Hm w w' b HI HPw Hact) as (?&?&Q&?&?&?). eauto 10.
Qed.

Lemma rg_lift_result {E' A'} P (r : result E' A') (Post : _ → _ → Prop) :
  (∀ w, I w → P w → Post r w) → rg P (lift_result r) Post.
Proof. by destruct r. Qed.

Lemma rg_atomic {E' B'} P (f : W → W * B') (Q : B' → W → Prop) (Post : result E' B' → _ → Prop) :
  (∀ w, I w → P w → I (f w).1 ∧ R w (f w).1 ∧ Q (f w).2 (f w).1) →
  (∀ b, stable (Q b)) →
  (∀ b w, I w → Q b w → Post (Ok b) w) →
  rg P (atomic f) Post.
Proof.
  intros Hf Hs HP w w' b HI HPw [= H]. destruct (Hf w HI HPw) as (?&?&?). rewrite H in *.
  split_and!; [done..|]. exists (Q b). simpl in *. auto.
Qed.

Lemma rg_critical {E' B'} P (f : W → W * result E' B') (Post : result E' B' → _ → Prop) :
  (∀ w, I w → P w → I (f w).1 ∧ R w (f w).1 ∧ Post (f w).2 (f w).1) →
  (∀ b, stable (Post b)) →
  rg P (critical f) Post.
Proof.
  intros Hf Hs. eapply rg_bind; [|intros r; apply rg_lift_result; by intros w _ H; apply H].
  by apply (rg_atomic _ _ Post).
Qed.

Lemma rg_section {E' B'} P (f : W → W * outcome E' B') (Post : result E' B' → _ → Prop) :
  (∀ w, I w → P w →
     match f w with
     | (w', Done a) => I w' ∧ R w w' ∧ Post (Ok a) w'
     | (w', Failed e) => I w' ∧ R w w' ∧ Post (Err e) w'
     | (w', Panicked _) => I w' ∧ R w w' ∧ may_panic
     | (_, Blocked) => True
     end) →
  (∀ b, stable (Post b)) →
  rg P (section f) Post.
Proof.
  intros Hf Hs w w' o HI HPw Ho. specialize (Hf w HI HPw).
  destruct (f w) as [w1 [a|e|msg|]]; simplify_eq/=; destruct Hf as (?&?&?); (split_and!; [done..|]).
  - exists (Post (Ok a)). by split_and!.
  - exists (Post (Err e)). by split_and!.
  - exists (λ _, True). by split_and!.
Qed.

Lemma rg_never {E' A'} P (Post : result E' A' → W → Prop) : rg P never Post.
Proof. by intros w w' []. Qed.

Lemma stable_all (Ps : list (W → Prop)) : Forall stable Ps → stable (λ w, Forall (λ P, P w) Ps).
Proof. intros HPs w w' Hw HR. rewrite Forall_forall in *. intros P HP. by eapply HPs; [|apply Hw|]. Qed.

(** The branches of a [select!], each with an assertion of its own that holds now; those
    that are dropped midway have kept the invariant as well. *)
Lemma rg_select {E' A'} (Ps : list (W → Prop)) (branches : list (prog W E' A')) polls :
  (∀ w, R w w) → Forall stable Ps → Forall2 (λ P m, rg P m (λ _ _, True)) Ps branches →
  rg (λ w, Forall (λ P, P w) Ps) (select_polls branches polls) (λ _ _, True).
Proof.
  intros HR. revert Ps branches. induction polls as [|i polls IH]; intros Ps branches Hst Hall; [apply rg_never|].
  simpl. destruct (branches !! i) as [p|] eqn:Hi; [|by apply IH].
  destruct (Forall2_lookup_r _ _ _ _ _ Hall Hi) as (P & HPi & Hp).
  destruct p as [a|e|msg|B act k]; [done..|]. intros w w' o HI HPs [= Hact].
  destruct (act w) as [[w1 b]|] eqn:Hw; injection Hact as <- <-.
  - assert (P w) as HP by by eapply Forall_lookup_1 in HPs.
    destruct (Hp _ _ _ HI HP Hw) as (HI' & HRw & Q & HQ & HQs & Hk). split_and!; [done..|].
    assert (Forall stable (<[i := Q]> Ps)) as Hst' by by apply Forall_insert.
    exists (λ w, Forall (λ P, P w) (<[i := Q]> Ps)). split_and!; [|by apply stable_all|by apply IH, Forall2_insert].
    apply Forall_insert; [|done]. by eapply stable_all.
  - split_and!; [done..|]. exists (λ w, Forall (λ P, P w) Ps). split_and!; [done|by apply stable_all|by apply IH].
Qed.

(** The programs of a pool, each with an assertion of its own that holds now and
    that the others cannot invalidate. *)
Definition rg_pool (w : W) ps : Prop :=
  I w ∧ Forall (λ p, ∃ P, P w ∧ stable P ∧ rg P p (λ _ _, True)) ps.

Lemma rg_pool_step spawnable w ps w' ps' :
  (∀ p, spawnable p → rg (λ _, True) p (λ _ _, True)) →
  interleave spawnable (w, ps) (w', ps') →
  rg_pool w ps → rg_pool w' ps'.
Proof.
  intros Hsp Hstep [HI Hps]. inv Hstep as [w0 w1 ps0 i B act k b Hi Hact|w0 ps0 p Hp].
  - rewrite Forall_forall in Hps. destruct (Hps _ (list_elem_of_lookup_2 _ _ _ Hi)) as (P & HP & _ & HQ).
    destruct (HQ _ _ _ HI HP Hact) as (HI' & HR & Q & HQb). split; [done|].
    apply Forall_insert; [|by exists Q].
    apply Forall_forall. intros p (P' & ? & Hst' & ?)%Hps. exists P'. split; [by eapply Hst'|done].
  - split; [done|]. apply Forall_app. split; [done|]. apply Forall_singleton.
    exists (λ _, True). split_and!; [done|by intros ?|by apply Hsp].
Qed.

(** Whatever requests arrive and however their accesses interleave, the invariant holds,
    and no program has panicked unless panics are allowed. *)
Lemma rg_pool_invariant spawnable w w' ps' :
  (∀ p, spawnable p → rg (λ _, True) p (λ _ _, True)) →
  I w →
  rtc (interleave spawnable) (w, []) (w', ps') →
  I w' ∧ ∀ msg, Panic msg ∈ ps' → may_panic.
Proof.
  intros Hsp HI Hsteps.
  assert (rg_pool w' ps') as [? Hps].
  2: { split; [done|]. intros msg Hin. rewrite Forall_forall in Hps. by destruct (Hps _ Hin) as (P & _ & _ & ?). }
  remember (w, []) as c eqn:Hc. remember (w', ps') as c' eqn:Hc'.
  assert (rg_pool c.1 c.2) as Hpool by (subst; by split).
  clear Hc HI. revert Hpool w' ps' Hc'. induction Hsteps as [|c1 c2 c3 Hs _ IH]; intros Hpool w' ps' Hc'.
  { by subst. }
  apply IH; [|done]. destruct c1, c2. by eapply rg_pool_step.
Qed.
End interleave.

(** ** Operations that take effect at one point *)

(** A method of a component with abstract state [V]: its last access (if it has one)
    commits, changing the abstract state as [spec] says of the value returned; the
    accesses before leave it alone.  Whoever runs in between, the method appears to
    happen at once. *)
Section lin.
Context {S V E A : Type} (abs : S → V) (spec : V → result E A → V → Prop).

Definition settled (Q : result E A → Prop) (m : prog S E A) : Prop :=
  match m with
  | Ret a => Q (Ok a)
  | Throw e => Q (Err e)
  | Panic _ | Step _ _ => False
  end.

Fixpoint lin (m : prog S E A) : Prop :=
  match m with
  | Ret a => ∀ v, spec v (Ok a) v
  | Throw e => ∀ v, spec v (Err e) v
  | Panic _ => False
  | Step act k => ∀ s s' b, act s = Some (s', b) →
      abs s' = abs s ∧ lin (k b) ∨ settled (λ r, spec (abs s) r (abs s')) (k b)
  end.

(** Alone, such a method ends as specified, or waits without effect. *)
Lemma lin_run m s :
  lin m →
  match run m s with
  | (s', Done a) => spec (abs s) (Ok a) (abs s')
  | (s', Failed e) => spec (abs s) (Err e) (abs s')
  | (_, Panicked _) => False
  | (s', Blocked) => abs s' = abs s
  end.
Proof.
  revert s. induction m as [a|e|msg|B act k IH]; intros s Hm; simpl; [done..|].
  destruct (act s) as [[s' b]|] eqn:Hact; [|done].
  destruct (Hm _ _ _ Hact) as [[Habs Hk]|Hk]; [|by destruct (k b)].
  specialize (IH b s' Hk). destruct (run (k b) s') as [s'' [a|e|msg|]]; congruence.
Qed.

Lemma lin_critical f : (∀ s, spec (abs s) (f s).2 (abs (f s).1)) → lin (critical f).
Proof.
  intros Hf s s' r [= H]. right. specialize (Hf s). rewrite H in Hf. by destruct r.
Qed.

Lemma lin_section f :
  (∀ s, match f s with
        | (s', Done a) => spec (abs s) (Ok a) (abs s')
        | (s', Failed e) => spec (abs s) (Err e) (abs s')
        | (_, Panicked _) => False
        | (_, Blocked) => True
        end) →
  lin (section f).
Proof.
  intros Hf s s' o Ho. right. specialize (Hf s). by destruct (f s) as [s1 []]; simplify_eq/=.
Qed.
End lin.

(** In a larger state and among other programs, a method whose silent accesses keep the
    invariant and whose commit establishes the postcondition. *)
Section rg_lin.
Context {W S V E A : Type} (may_panic : Prop) (I : W → Prop) (R : W → W → Prop) (l : lens W S) `{!LensOk l} (abs : S → V).

Lemma rg_zoom_lin (spec : V → result E A → V → Prop) (P : W → Prop) (m : prog S E A) Post :
  lin abs spec m →
  (∀ w s', I w → abs s' = abs (view l w) → I (put l s' w) ∧ R w (put l s' w)) →
  stable R P → (∀ r, stable R (Post r)) →
  (∀ w s' r, I w → P w → spec (abs (view l w)) r (abs s') →
     I (put l s' w) ∧ R w (put l s' w) ∧ Post r (put l s' w)) →
  rg may_panic I R P (zoom l m) Post.
Proof.
  intros Hm Hsilent HP HPost Hcommit.
  assert (∀ w r, I w → P w → (∀ v, spec v r v) → Post r w) as Hpure.
  { intros w r HI Hw Hr. destruct (Hcommit w (view l w) r HI Hw (Hr _)) as (_&_&HPo).
    by rewrite put_view in HPo. }
  induction m as [a|e|msg|B act k IH]; simpl; [by eauto..|done|].
  intros w w' b HI Hw Hact. destruct (act (view l w)) as [[s b']|] eqn:Ha; simplify_eq/=.
  destruct (Hm _ _ _ Ha) as [[Habs Hk]|Hk].
  - destruct (Hsilent w s HI Habs) as [? HR]. split_and!; [done..|]. exists P. eauto.
  - destruct (k b) as [a|e|msg|]; simpl in Hk; [| |done..];
      (destruct (Hcommit w s _ HI Hw Hk) as (?&?&?); split_and!; [done..|]);
      (eexists (Post _); split_and!; [done|apply HPost|by simpl]).
Qed.

(** A program over a part of the state the invariant and the others do not depend on. *)
Lemma rg_zoom_any (P : W → Prop) (m : prog S E A) :
  may_panic → (∀ w s', I w → I (put l s' w) ∧ R w (put l s' w)) → stable R P →
  rg may_panic I R P (zoom l m) (λ _, P).
Proof.
  intros Hmay Hany HP. induction m as [a|e|msg|B act k IH]; simpl; [done..|].
  intros w w' b HI Hw Hact. destruct (act (view l w)) as [[s b']|] eqn:Ha; simplify_eq/=.
  destruct (Hany w s HI). split_and!; [done..|]. exists P. split_and!; [by eapply HP|done|apply IH].
Qed.
End rg_lin.

(** Alone, in a larger state. *)
Lemma run_zoom_lin {W S V E A} (l : lens W S) `{!LensOk l} (abs : S → V) (spec : V → result E A → V → Prop) m w :
  lin abs spec m →
  ∃ s o, run (zoom l m) w = (put l s w, o)
    ∧ match o with
      | Done a => spec (abs (view l w)) (Ok a) (abs s)
      | Failed e => spec (abs (view l w)) (Err e) (abs s)
      | Panicked _ => False
      | Blocked => abs s = abs (view l w)
      end.
Proof.
  intros Hm. pose proof (lin_run abs spec m (view l w) Hm) as H. rewrite run_zoom by apply _.
  destruct (run m (view l w)) as [s o]. by exists s, o.
Qed.

Lemma lin_Done {S V E A} (abs : S → V) (spec : V → result E A → V → Prop) m s s' a :
  lin abs spec m → run m s = (s', Done a) → spec (abs s) (Ok a) (abs s').
Proof. intros Hm H. pose proof (lin_run abs spec m s Hm) as Hs. by rewrite H in Hs. Qed.

(** ** Operations under an invariant *)

(** The same, for a component whose state keeps an invariant of its own. *)
Section lin_on.
Context {S V E A : Type} (inv : S → Prop) (abs : S → V) (spec : V → result E A → V → Prop).

Fixpoint lin_on (m : prog S E A) : Prop :=
  match m with
  | Ret a => ∀ v, spec v (Ok a) v
  | Throw e => ∀ v, spec v (Err e) v
  | Panic _ => False
  | Step act k => ∀ s s' b, inv s → act s = Some (s', b) →
      inv s' ∧ (abs s' = abs s ∧ lin_on (k b) ∨ settled (λ r, spec (abs s) r (abs s')) (k b))
  end.

Lemma lin_on_Done m s s' a :
  lin_on m → inv s → run m s = (s', Done a) → inv s' ∧ spec (abs s) (Ok a) (abs s').
Proof.
  revert s. induction m as [a'|e|msg|B act k IH]; intros s Hm Hs; cbn [run]; [by intros [= <- <-]|done..|].
  destruct (act s) as [[s1 b]|] eqn:Hact; [|done]. intros Hrun.
  destruct (Hm _ _ _ Hs Hact) as [Hs1 [[Habs Hk]|Hk]].
  - rewrite <-Habs. by apply (IH b s1).
  - destruct (k b); try done. by injection Hrun as <- <-.
Qed.
End lin_on.

(** A program that keeps the invariant, on the states that have it. *)
Section confine.
Context {S E A : Type} (inv : S → Prop).

Fixpoint preserves (m : prog S E A) : Prop :=
  match m with
  | Ret _ | Throw _ | Panic _ => True
  | Step act k => ∀ s s' b, inv s → act s = Some (s', b) → inv s' ∧ preserves (k b)
  end.

Definition confined_act {B} (act : S → option (S * B)) (Q : B → Prop)
    (H : ∀ s s' b, inv s → act s = Some (s', b) → inv s' ∧ Q b) (s : sig inv) : option (sig inv * sig Q) :=
  match act (`s) as o return act (`s) = o → option (sig inv * sig Q) with
  | Some (s', b) => λ Hact,
      Some (exist _ s' (proj1 (H _ _ _ (proj2_sig s) Hact)), exist _ b (proj2 (H _ _ _ (proj2_sig s) Hact)))
  | None => λ _, None
  end eq_refl.

Fixpoint confine (m : prog S E A) : preserves m → prog (sig inv) E A :=
  match m with
  | Ret a => λ _, Ret a
  | Throw e => λ _, Throw e
  | Panic s => λ _, Panic s
  | Step act k => λ H, Step (confined_act act (λ b, preserves (k b)) H) (λ b, confine (k (`b)) (proj2_sig b))
  end.

Lemma confined_act_spec {B} (act : S → option (S * B)) Q H s :
  match confined_act act Q H s with
  | Some (s', b) => act (`s) = Some (`s', `b)
  | None => act (`s) = None
  end.
Proof.
  unfold confined_act. generalize (eq_refl (act (`s))).
  generalize (act (`s)) at 2 3 as o. by intros [[s' b]|] Hact.
Qed.

Lemma run_confine (m : prog S E A) H (s : sig inv) :
  run m (`s) = (proj1_sig (run (confine m H) s).1, (run (confine m H) s).2).
Proof.
  revert H s. induction m as [a|e|msg|B act k IH]; intros H s; [done..|]. cbn [run confine].
  pose proof (confined_act_spec act (λ b, preserves (k b)) H s) as Hact. revert Hact.
  destruct (confined_act act (λ b, preserves (k b)) H s) as [[s' b]|]; intros Hact; rewrite Hact; [|done]. apply IH.
Qed.

Lemma lin_on_preserves {V} (abs : S → V) (spec : V → result E A → V → Prop) m : lin_on inv abs spec m → preserves m.
Proof.
  induction m as [a|e|msg|B act k IH]; [done..|]. intros Hm s s' b Hs Hact.
  destruct (Hm _ _ _ Hs Hact) as [? [[_ Hk]|Hk]]; split; [done|by apply IH|done|]. by destruct (k b).
Qed.

Lemma lin_confine {V} (abs : S → V) (spec : V → result E A → V → Prop) m H :
  lin_on inv abs spec m → lin (λ s, abs (`s)) spec (confine m H).
Proof.
  revert H. induction m as [a|e|msg|B act k IH]; intros H Hm; [done..|]. intros s s' b Hstep.
  pose proof (confined_act_spec act (λ b, preserves (k b)) H s) as Hact. rewrite Hstep in Hact.
  destruct (Hm _ _ _ (proj2_sig s) Hact) as [_ [[? Hk]|Hk]]; [left|right].
  - split; [done|]. by apply IH.
  - destruct b as [b Hb]. simpl in *. clear Hstep Hact. by destruct (k b).
Qed.
End confine.

Arguments Arrive {W E A} p.
Arguments Advance {W E A} i.

Lemma settled_lift {S E A} (Q : result E A → Prop) (r : result E A) : Q r → settled Q (lift_result (W:=S) r).
Proof. by destruct r. Qed.

(** ** Effects on a larger state *)

(** The same distinction on the whole state an operation runs in, whose invariant [inv]
    all its accesses keep: silent accesses stay within [same], the access that commits has
    the [effect] that goes with the value returned. *)
Section effects.
Context {W E A : Type} (inv : W → Prop) (same : relation W) (effect : W → result E A → W → Prop).

Fixpoint takes_effect (m : prog W E A) : Prop :=
  match m with
  | Ret a => ∀ w, inv w → effect w (Ok a) w
  | Throw e => ∀ w, inv w → effect w (Err e) w
  | Panic _ => False
  | Step act k => ∀ w w' b, inv w → act w = Some (w', b) →
      inv w' ∧ (same w w' ∧ takes_effect (k b) ∨ settled (λ r, effect w r w') (k b))
  end.

(** All accesses are silent. *)
Fixpoint quiet (m : prog W E A) : Prop :=
  match m with
  | Ret _ | Throw _ | Panic _ => True
  | Step act k => ∀ w w' b, inv w → act w = Some (w', b) → inv w' ∧ same w w' ∧ quiet (k b)
  end.

Context (may_panic : Prop) (I : W → Prop) (R : relation W).
Hypothesis inv_of : ∀ w, I w → inv w.
Hypothesis silent : ∀ w w', I w → inv w' → same w w' → I w' ∧ R w w'.

Lemma rg_takes_effect (P : W → Prop) (m : prog W E A) Post :
  takes_effect m → stable R P → (∀ r, stable R (Post r)) →
  (∀ w w' r, I w → P w → inv w' → effect w r w' → I w' ∧ R w w' ∧ Post r w') →
  rg may_panic I R P m Post.
Proof.
  intros Hm HP HPost Hcommit. induction m as [a|e|msg|B act k IH]; simpl.
  - intros w HI Hw. by apply (Hcommit w w); auto.
  - intros w HI Hw. by apply (Hcommit w w); auto.
  - done.
  - intros w w' b HI Hw Hact. destruct (Hm _ _ _ (inv_of w HI) Hact) as [Hinv [[Hs Hk]|Hk]].
    + destruct (silent w w' HI Hinv Hs) as [? HR]. split_and!; [done..|]. exists P. eauto.
    + destruct (k b) as [a|e|msg|]; simpl in Hk; [| |done..];
        (destruct (Hcommit w w' _ HI Hw Hinv Hk) as (?&?&?); split_and!; [done..|]);
        (eexists (Post _); split_and!; [done|apply HPost|by simpl]).
Qed.

Lemma rg_quiet (P : W → Prop) (m : prog W E A) :
  may_panic → quiet m → stable R P → rg may_panic I R P m (λ _, P).
Proof.
  intros Hmay Hm HP. induction m as [a|e|msg|B act k IH]; simpl; [done..|].
  intros w w' b HI Hw Hact. destruct (Hm _ _ _ (inv_of w HI) Hact) as (Hinv & Hs & Hk).
  destruct (silent w w' HI Hinv Hs) as [? ?]. split_and!; [done..|]. exists P. split_and!; [by eapply HP|done|by apply IH].
Qed.
End effects.

Lemma settled_mono {W E A} (Q Q' : result E A → Prop) (m : prog W E A) :
  (∀ r, Q r → Q' r) → settled Q m → settled Q' m.
Proof. destruct m; simpl; auto. Qed.

Lemma takes_effect_mono {W E A} (inv inv' : W → Prop) (same same' : relation W)
    (effect effect' : W → result E A → W → Prop) (m : prog W E A) :
  (∀ w, inv w ↔ inv' w) → (∀ w w', same w w' → same' w w') → (∀ w r w', effect w r w' → effect' w r w') →
  takes_effect inv same effect m → takes_effect inv' same' effect' m.
Proof.
  intros Hinv Hsame Heff. induction m as [a|e|msg|B act k IH]; simpl; [naive_solver..|].
  intros Hm w w' b Hw%Hinv Hact. destruct (Hm _ _ _ Hw Hact) as [?%Hinv [[? ?]|Hk]]; (split; [done|]); [by auto|].
  right. eapply settled_mono; [|exact Hk]. simpl. auto.
Qed.

Lemma quiet_mono {W E A} (inv inv' : W → Prop) (same same' : relation W) (m : prog W E A) :
  (∀ w, inv w ↔ inv' w) → (∀ w w', same w w' → same' w w') → quiet inv same m → quiet inv' same' m.
Proof.
  intros Hinv Hsame. induction m as [a|e|msg|B act k IH]; simpl; [done..|].
  intros Hm w w' b Hw%Hinv Hact. destruct (Hm _ _ _ Hw Hact) as (?%Hinv & ? & ?). auto.
Qed.

(** An operation of a component, in the state around it. *)
Section zoom_effects.
Context {W S E A : Type} (l : lens W S) `{!LensOk l}.
Context (inv : W → Prop) (same : relation W).

Lemma lin_takes_effect {V} (abs : S → V) (spec : V → result E A → V → Prop) (effect : W → result E A → W → Prop) m :
  lin abs spec m →
  (∀ w s, inv w → abs s = abs (view l w) → inv (put l s w) ∧ same w (put l s w)) →
  (∀ w s r, inv w → spec (abs (view l w)) r (abs s) → inv (put l s w) ∧ effect w r (put l s w)) →
  takes_effect inv same effect (zoom l m).
Proof.
  intros Hm Hsame Heff.
  assert (∀ w r, inv w → (∀ v, spec v r v) → effect w r w) as Hpure.
  { intros w r Hw Hr. destruct (Heff w (view l w) r Hw (Hr _)) as [_ He]. by rewrite put_view in He. }
  induction m as [a|e|msg|B act k IH]; simpl; [by auto..|done|].
  intros w w' b Hw Hact. destruct (act (view l w)) as [[s b']|] eqn:Ha; simplify_eq/=.
  destruct (Hm _ _ _ Ha) as [[Habs Hk]|Hk].
  - destruct (Hsame w s Hw Habs). auto.
  - destruct (k b) as [a|e|msg|]; simpl in Hk; [| |done..]; destruct (Heff w s _ Hw Hk); auto.
Qed.

Lemma quiet_zoom (m : prog S E A) :
  (∀ w s, inv w → inv (put l s w) ∧ same w (put l s w)) → quiet inv same (zoom l m).
Proof.
  intros Hany. induction m as [a|e|msg|B act k IH]; simpl; [done..|].
  intros w w' b Hw Hact. destruct (act (view l w)) as [[s b']|] eqn:Ha; simplify_eq/=.
  destruct (Hany w s Hw). auto.
Qed.
End zoom_effects.
