(* ===== verification/Protocol.v ===== *)
(** * The protocol crate, gRPC statuses and the platform, as interfaces

    The message types come from the crate [threadweave-protocols], whose generated code
    is outside the repository; [tonic], [prost-types], [uuid] and the clocks are outside
    too.  The records below have the fields the sources read or write, under the
    source's names (with a prefix per message); fields the program carries along and
    never looks into have the abstract type [Opaque].  What the program relies on is in
    the classes [ProtocolsOk] and [PlatformOk]. *)

From S2P Require Import Prelude RustStr Prog.
From Stdlib Require Import Ascii SpecFloat.

(** Byte strings ([Vec<u8>], [&[u8]]). *)
Abbreviation bytes := string (only parsing).

(** ** [tonic::Status] *)

Inductive Code : Set :=
| InvalidArgument | NotFound | AlreadyExists | FailedPrecondition
| Unavailable | Internal | Unimplemented.

#[export] Instance Code_eq_dec : EqDecision Code.
Proof. solve_decision. Defined.

Record Status : Set := mkStatus { status_code : Code; status_message : string }.

#[export] Instance Status_eq_dec : EqDecision Status.
Proof. solve_decision. Defined.

Definition invalid_argument := mkStatus InvalidArgument.
Definition not_found := mkStatus NotFound.
Definition already_exists := mkStatus AlreadyExists.
Definition failed_precondition := mkStatus FailedPrecondition.
Definition unavailable := mkStatus Unavailable.
Definition internal := mkStatus Internal.
Definition unimplemented := mkStatus Unimplemented.

(** ** Messages *)

(** The types of the fields the program never looks into, of time stamps, and of the
    execution states the program does not name. *)
Class ProtocolTypes := {
  Opaque : Type;
  opaque_default : Opaque;
  Timestamp : Type;
  OtherExecutionState : Type
}.

Section messages.
Context {PT : ProtocolTypes}.

(** common/v1 *)
Record Metadata := mkMetadata { md_entries : gmap string string }.

Record ProtoError := mkProtoError {
  pe_code : string; pe_message : string; pe_metadata : option Metadata }.

Record ResourceRequirements := mkResourceRequirements {
  rr_cpu_millicores : Z;
  rr_memory_bytes : Z;
  rr_required_capabilities : list string;
  rr_rest : Opaque }.

(** execution/v1 *)
Record TaskIdentity := mkTaskIdentity {
  ti_namespace : string; ti_application : string; ti_name : string; ti_version : string }.

Record SubmitTaskRequest := mkSubmitTaskRequest {
  st_application_namespace : string;
  st_task_name : string;
  st_arguments : bytes;
  st_serialization_format : string;
  st_resources : option ResourceRequirements;
  st_metadata : option Metadata;
  st_command_id : string;
  st_task : option TaskIdentity;
  st_parent_execution_id : option string;
  (** [idempotency_key], [priority], [queue] *)
  st_rest : Opaque }.

Record JobResult := mkJobResult {
  jr_payload : bytes;
  jr_serialization_format : string;
  jr_failure : option ProtoError;
  jr_execution_id : string;
  jr_rest : Opaque }.

Record Job := mkJob {
  job_id : string;
  job_application_namespace : string;
  job_task_name : string;
  job_state : Z;
  job_created_at : option Timestamp;
  job_updated_at : option Timestamp;
  job_attempt_number : Z;
  job_metadata : option Metadata;
  job_task : option TaskIdentity;
  job_parent_execution_id : option string;
  job_root_execution_id : option Opaque }.

Record CommandResult := mkCommandResult { cr_status : Z; cr_error : option Opaque }.

Record SubmitTaskResponse := mkSubmitTaskResponse {
  sr_job : option Job; sr_result : option CommandResult }.

Record GetJobResponse := mkGetJobResponse {
  gj_job : option Job; gj_result : option JobResult }.

(** broker/v1 *)
Record BrokerEnvelope := mkBrokerEnvelope {
  be_message_id : string;
  be_message_kind : string;
  be_schema_version : string;
  be_source : string;
  be_destination : string;
  be_created_at : option Timestamp;
  be_expires_at : option Opaque;
  be_payload : bytes;
  be_content_type : option string;
  be_correlation_id : option string;
  be_causation_id : option string;
  be_trace_context : option Opaque;
  be_routing_headers : option Opaque }.

(** runtime/v1 *)
Record AssignExecutionRequest := mkAssignExecutionRequest {
  ae_assignment_id : string;
  ae_execution_id : string;
  ae_job_id : string;
  ae_task : option TaskIdentity;
  ae_arguments : bytes;
  ae_serialization_format : string;
  ae_reserved_resources : option ResourceRequirements;
  ae_deadline : option Opaque;
  ae_metadata : option Metadata }.

Record WorkerRegistration := mkWorkerRegistration {
  wr_worker_id : string;
  wr_node_id : option Opaque;
  wr_generation : string;
  wr_implementation_version : string;
  wr_protocol_versions : list string;
  wr_endpoint : string;
  wr_executors : list Opaque;
  wr_capacity : option ResourceRequirements;
  wr_metadata : option Metadata }.

Record RuntimeHeartbeat := mkRuntimeHeartbeat {
  hb_runtime_id : string;
  hb_sequence_number : Z;
  hb_status : Z;
  hb_available_resources : option ResourceRequirements;
  hb_observed_at : option Timestamp }.

Record ReportExecutionRequest := mkReportExecutionRequest {
  re_report_id : string;
  re_assignment_id : string;
  re_execution_id : string;
  re_sequence_number : Z;
  re_state : Z;
  re_outcome : option JobResult;
  re_observed_at : option Timestamp }.

Record ExecutionStarted := mkExecutionStarted {
  es_assignment_id : string; es_execution_id : string; es_sequence_number : Z;
  es_observed_at : option Timestamp; es_rest : Opaque }.

(** [progress] is a floating-point number; a single-precision one is read as the
    double of the same value, which keeps every comparison. *)
Record ExecutionProgress := mkExecutionProgress {
  ep_assignment_id : string; ep_execution_id : string; ep_sequence_number : Z;
  ep_progress : spec_float; ep_rest : Opaque }.

Record ExecutionMetrics := mkExecutionMetrics {
  em_assignment_id : string; em_execution_id : string; em_sequence_number : Z;
  em_rest : Opaque }.

Record ExecutionCompleted := mkExecutionCompleted {
  ec_assignment_id : string; ec_execution_id : string; ec_sequence_number : Z;
  ec_result : option JobResult; ec_observed_at : option Timestamp; ec_rest : Opaque }.

Record ExecutionFailed := mkExecutionFailed {
  ef_assignment_id : string; ef_execution_id : string; ef_sequence_number : Z;
  ef_failure : option ProtoError; ef_observed_at : option Timestamp; ef_rest : Opaque }.

Record RuntimeReady := mkRuntimeReady { rd_runtime_id : string; rd_rest : Opaque }.

Record CancelExecution := mkCancelExecution {
  ce_assignment_id : string; ce_execution_id : string; ce_reason : option string }.

(** The variants of [runtime_event::Payload] the worker matches on, all of them. *)
Inductive EventPayload : Type :=
| EvReady (r : RuntimeReady)
| EvHeartbeat (h : RuntimeHeartbeat)
| EvExecutionStarted (e : ExecutionStarted)
| EvExecutionProgress (e : ExecutionProgress)
| EvExecutionMetrics (e : ExecutionMetrics)
| EvExecutionCompleted (e : ExecutionCompleted)
| EvExecutionFailed (e : ExecutionFailed).

(** [RuntimeEvent { payload }] *)
Record RuntimeEvent := mkRuntimeEvent { ev_payload : option EventPayload }.

(** The [worker_command::Payload] variants the worker sends. *)
Inductive CommandPayload : Type :=
| CmdAssignExecution (a : AssignExecutionRequest)
| CmdCancelExecution (c : CancelExecution).

Record WorkerCommand := mkWorkerCommand { wc_payload : option CommandPayload }.

(** The variants of [ExecutionState] and [JobState] the sources name; the others are
    [ES_Other]. *)
Inductive ExecutionState : Type :=
| ES_Assigned | ES_Running | ES_Succeeded | ES_Failed | ES_Other (o : OtherExecutionState).
End messages.

Record ReportExecutionResponse : Set := mkReportExecutionResponse { rer_accepted : bool }.
Record ReportHeartbeatResponse : Set := mkReportHeartbeatResponse { rhr_accepted : bool }.
Record RegisterWorkerResponse : Set := mkRegisterWorkerResponse {
  rwr_accepted : bool; rwr_lease_id : option string }.

Inductive JobState : Set := JS_Accepted | JS_Running | JS_Succeeded | JS_Failed.


(** ** What the generated code provides *)

Class Protocols := {
  protocol_types :: ProtocolTypes;
  (** [prost::Message::encode_to_vec] and [decode]; a decoding error by its text *)
  encode_submit : SubmitTaskRequest → bytes;
  decode_submit : bytes → result string SubmitTaskRequest;
  encode_assign : AssignExecutionRequest → bytes;
  decode_assign : bytes → result string AssignExecutionRequest;
  encode_envelope : BrokerEnvelope → bytes;
  decode_envelope : bytes → result string BrokerEnvelope;
  encode_registration : WorkerRegistration → bytes;
  decode_registration : bytes → result string WorkerRegistration;
  encode_job_result : JobResult → bytes;
  encode_command_result : CommandResult → bytes;
  (** [i32::from], [ExecutionState::try_from] *)
  execution_state_code : ExecutionState → Z;
  execution_state_of : Z → option ExecutionState;
  job_state_code : JobState → Z;
  command_status_accepted : Z;
  runtime_status_ready : Z;
  (** [prost_types::Timestamp::from(SystemTime)] *)
  timestamp_from : Z → Timestamp;
  (** [Status]'s [Display] *)
  show_status : Status → string
}.

(** Decoding inverts encoding, and enum discriminants are distinct 32-bit integers. *)
Class ProtocolsOk (P : Protocols) : Prop := {
  decode_encode_submit m : decode_submit (encode_submit m) = Ok m;
  decode_encode_assign m : decode_assign (encode_assign m) = Ok m;
  decode_encode_envelope m : decode_envelope (encode_envelope m) = Ok m;
  decode_encode_registration m : decode_registration (encode_registration m) = Ok m;
  execution_state_of_code s : execution_state_of (execution_state_code s) = Some s;
  execution_state_code_i32 s : (- 2 ^ 31 ≤ execution_state_code s < 2 ^ 31)%Z;
  job_state_code_inj : Inj (=) (=) job_state_code
}.

#[export] Hint Rewrite @decode_encode_submit @decode_encode_assign @decode_encode_envelope
  @decode_encode_registration @execution_state_of_code using typeclasses eauto : weave.

Definition default_job_result `{Protocols} : JobResult :=
  {| jr_payload := ""; jr_serialization_format := ""; jr_failure := None;
     jr_execution_id := ""; jr_rest := opaque_default |}.

(** ** The platform: clocks and random identifiers *)

(** How many clock readings and identifiers the process has taken. *)
Record env : Set := mkEnv { env_ticks : nat; env_uuids : nat }.

(** [Instant::now] and [SystemTime::now] (nanoseconds) at each reading, and the strings
    [Uuid::new_v4().to_string()] returns. *)
Class Platform := {
  instant_at : nat → Z;
  system_time_at : nat → Z;
  uuid_at : nat → string
}.

Definition is_uuid_char (c : ascii) : bool :=
  is_digit c || in_range 97 102 c || in_range 45 45 c.

(** Identifiers are distinct, non-empty, of hexadecimal digits and hyphens;
    [Instant] is monotonic.  Nothing is assumed of [SystemTime]. *)
Class PlatformOk (PF : Platform) : Prop := {
  instant_mono i j : i ≤ j → (instant_at i ≤ instant_at j)%Z;
  uuid_inj : Inj (=) (=) uuid_at;
  uuid_nonempty i : uuid_at i ≠ "";
  uuid_chars i : Forall (λ c, is_uuid_char c) (chars (uuid_at i))
}.

(** The iteration order of a [HashMap], which is unspecified: some order of its entries. *)
Class HashMapOrder := {
  hashmap_iter : ∀ {V : Type}, gmap string V → list (string * V);
  hashmap_iter_perm {V : Type} (m : gmap string V) : hashmap_iter m ≡ₚ map_to_list m
}.

Section platform.
Context `{PF : Platform} {E : Type}.

Definition instant_now : prog env E Z :=
  atomic (λ e, (mkEnv (S (env_ticks e)) (env_uuids e), instant_at (env_ticks e))).
Definition system_time_now : prog env E Z :=
  atomic (λ e, (mkEnv (S (env_ticks e)) (env_uuids e), system_time_at (env_ticks e))).
Definition new_uuid : prog env E string :=
  atomic (λ e, (mkEnv (env_ticks e) (S (env_uuids e)), uuid_at (env_uuids e))).
End platform.

Lemma is_uuid_char_graph c : is_uuid_char c → is_graph c.
Proof.
  unfold is_uuid_char. intros [[H|H]%orb_prop_elim|H]%orb_prop_elim;
    [by apply is_digit_graph|..]; unfold is_graph; apply Is_true_true, in_range_spec in H;
    apply Is_true_true, in_range_spec; lia.
Qed.

(** A non-empty string of printing characters is its own [trim], so it is not blank. *)
Lemma graph_not_blank s : s ≠ "" → Forall (λ c, is_graph c) (chars s) → is_blank s = false.
Proof.
  intros Hne Hall. destruct s as [|c s]; [done|]. unfold is_blank.
  destruct (str_snoc_exists c s) as (t & d & Ht & Hd).
  rewrite Forall_forall in Hall. rewrite (trim_graph c s d t); [done|apply Hall; set_solver|by apply Hall|done].
Qed.

Lemma uuid_not_blank `{PlatformOk} i : is_blank (uuid_at i) = false.
Proof.
  apply graph_not_blank; [apply uuid_nonempty|].
  eapply Forall_impl; [apply uuid_chars|]. simpl. apply is_uuid_char_graph.
Qed.

Lemma ascii_utf8 s : Forall (λ c, is_graph c) (chars s) → utf8 s = true.
Proof.
  induction s as [|c s IH]; [done|]. simpl. intros [Hc Hs]%Forall_cons.
  assert (in_range 0 127 c = true) as ->; [|by apply IH].
  apply in_range_spec. unfold is_graph in Hc. apply Is_true_true, in_range_spec in Hc. lia.
Qed.

(** Printed numbers are ASCII. *)
Lemma show_utf8 n : utf8 (show n) = true.
Proof.
  assert (∀ m, (0 ≤ m)%Z → Forall (λ c, is_graph c) (chars (show m))) as Hpos.
  { intros m Hm. eapply Forall_impl; [by apply show_digits|]. apply is_digit_graph. }
  apply ascii_utf8. destruct (decide (0 ≤ n)%Z) as [Hn|Hn]; [by apply Hpos|].
  destruct n as [|p|p]; [lia..|]. change (show (Z.neg p)) with (String "-" (show (Z.pos p))).
  constructor; [done|]. by apply Hpos.
Qed.
