(* ===== verification/Concrete.v ===== *)
(** * A concrete protocol and platform

    An instance of the interfaces of [Protocol.v] that computes: messages are written as
    length-prefixed fields and read back.  It shows that the laws assumed of the generated code can hold, and the evaluated
    examples of the development run on it. *)

From Stdlib Require Import Ascii.
From stdpp Require Import countable.
From S2P Require Import Prelude RustStr Prog Protocol.

Module Concrete.

#[local] Instance concrete_types : ProtocolTypes :=
  {| Opaque := Z; opaque_default := 0%Z; Timestamp := Z; OtherExecutionState := unit |}.

(** ** Positives as byte strings *)

Fixpoint write_bits (p : positive) : string :=
  match p with
  | xH => ""
  | xO p => String "0" (write_bits p)
  | xI p => String "1" (write_bits p)
  end.

Fixpoint read_bits (s : string) : option positive :=
  match s with
  | EmptyString => Some xH
  | String "0" s => xO <$> read_bits s
  | String "1" s => xI <$> read_bits s
  | _ => None
  end.

Lemma read_write_bits p : read_bits (write_bits p) = Some p.
Proof. induction p as [p IH|p IH|]; simpl; by rewrite ?IH. Qed.

(** ** Wire formats

    A value is written as a string that can be read back; a pair has the length of its
    first part in front. *)

Class Wire (A : Type) := {
  to_wire : A → string;
  of_wire : string → option A;
  of_to_wire a : of_wire (to_wire a) = Some a
}.

Definition write_len (n : nat) : string := write_bits (Pos.of_succ_nat n).

Definition frame (s : string) : string := write_len (len s) +:+ ":" +:+ s.

(** The framed string at the front, and the rest. *)
Definition unframe (s : string) : option (string * string) :=
  '(d, rest) ← split_once ":" s;
  p ← read_bits d;
  let n := pred (Pos.to_nat p) in
  Some (String.substring 0 n rest, String.substring n (len rest - n) rest).

Lemma write_bits_colon p : ":"%char ∉ chars (write_bits p).
Proof. induction p; simpl; set_solver. Qed.

Lemma unframe_frame s rest : unframe (frame s +:+ rest) = Some (s, rest).
Proof.
  unfold unframe, frame. rewrite !str_app_assoc.
  rewrite (proj2 (split_once_char ":" _ (write_len (len s)) (s +:+ rest))).
  2: { split; [done|apply write_bits_colon]. }
  simpl. unfold write_len. rewrite read_write_bits. simpl. rewrite SuccNat2Pos.id_succ. simpl.
  by rewrite substring_app_l, substring_app_r.
Qed.

#[export] Instance wire_string : Wire string.
Proof. by refine {| to_wire s := s; of_wire s := Some s |}. Defined.

#[export] Instance wire_Z : Wire Z.
Proof.
  refine {| to_wire z := write_bits (encode z); of_wire s := p ← read_bits s; decode p |}.
  intros z. rewrite read_write_bits. apply decode_encode.
Defined.

#[export] Instance wire_pair `{Wire A, Wire B} : Wire (A * B).
Proof.
  refine {| to_wire ab := frame (to_wire ab.1) +:+ to_wire ab.2;
            of_wire s := '(s1, s2) ← unframe s; a ← of_wire s1; b ← of_wire s2; Some (a, b) |}.
  intros [a b]. rewrite unframe_frame. simpl. by rewrite !of_to_wire.
Defined.

#[export] Instance wire_option `{Wire A} : Wire (option A).
Proof.
  refine {| to_wire o := match o with Some a => String "1" (to_wire a) | None => "" end;
            of_wire s := match s with String "1" s => Some <$> of_wire s | EmptyString => Some None | _ => None end |}.
  intros [a|]; [|done]. by rewrite of_to_wire.
Defined.

Fixpoint write_list `{Wire A} (l : list A) : string :=
  match l with
  | [] => ""
  | a :: l => String "1" (frame (to_wire a) +:+ write_list l)
  end.

Fixpoint read_list `{Wire A} (fuel : nat) (s : string) : option (list A) :=
  match fuel, s with
  | _, EmptyString => Some []
  | S fuel, String "1" s => '(s1, s2) ← unframe s; a ← of_wire s1; l ← read_list fuel s2; Some (a :: l)
  | _, _ => None
  end.

Lemma read_write_list `{Wire A} (l : list A) n : length l ≤ n → read_list n (write_list l) = Some l.
Proof.
  revert n. induction l as [|a l IH]; intros [|n] Hn; simpl in *; try done; [lia|].
  rewrite unframe_frame. simpl. rewrite of_to_wire. simpl. by rewrite IH by lia.
Qed.

Lemma write_list_len `{Wire A} (l : list A) : length l ≤ len (write_list l).
Proof. induction l; simpl; [done|]. rewrite len_app. lia. Qed.

#[export] Instance wire_list `{Wire A} : Wire (list A).
Proof.
  refine {| to_wire l := write_list l; of_wire s := read_list (len s) s |}.
  intros l. apply read_write_list, write_list_len.
Defined.

#[export] Instance wire_map : Wire (gmap string string).
Proof.
  refine {| to_wire m := to_wire (A:=list (string * string)) (map_to_list m);
            of_wire s := list_to_map <$> of_wire (A:=list (string * string)) s |}.
  intros m. rewrite of_to_wire. simpl. by rewrite list_to_map_to_list.
Defined.

(** A type with the fields of another. *)
Definition wire_iso {A B} `{Wire B} (f : A → B) (g : B → A) (gf : ∀ a, g (f a) = a) : Wire A.
Proof.
  refine {| to_wire a := to_wire (A:=B) (f a); of_wire s := g <$> of_wire (A:=B) s |}.
  intros a. rewrite of_to_wire. simpl. by rewrite gf.
Defined.

Definition encode_bytes `{Wire A} (a : A) : string := to_wire a.
Definition decode_bytes `{Wire A} (s : string) : result string A := ok_or (of_wire s) "malformed message".

Lemma decode_encode_bytes `{Wire A} (a : A) : decode_bytes (encode_bytes a) = Ok a.
Proof. unfold decode_bytes, encode_bytes. by rewrite of_to_wire. Qed.

(** ** The messages *)

#[export] Instance Opaque_wire : Wire (@Opaque concrete_types) := wire_Z.
#[export] Instance Timestamp_wire : Wire (@Timestamp concrete_types) := wire_Z.

#[export] Instance Metadata_wire : Wire Metadata.
Proof. by apply (wire_iso md_entries mkMetadata); intros []. Defined.

#[export] Instance ResourceRequirements_wire : Wire ResourceRequirements.
Proof.
  by apply (wire_iso
    (λ r, (rr_cpu_millicores r, rr_memory_bytes r, rr_required_capabilities r, rr_rest r))
    (λ '(a, b, c, d), mkResourceRequirements a b c d)); intros [].
Defined.

#[export] Instance TaskIdentity_wire : Wire TaskIdentity.
Proof.
  by apply (wire_iso (λ t, (ti_namespace t, ti_application t, ti_name t, ti_version t))
    (λ '(a, b, c, d), mkTaskIdentity a b c d)); intros [].
Defined.

#[export] Instance SubmitTaskRequest_wire : Wire SubmitTaskRequest.
Proof.
  by apply (wire_iso
    (λ r, (st_application_namespace r, st_task_name r, st_arguments r, st_serialization_format r,
           st_resources r, st_metadata r, st_command_id r, st_task r, st_parent_execution_id r, st_rest r))
    (λ '(a, b, c, d, e, f, g, h, i, j), mkSubmitTaskRequest a b c d e f g h i j)); intros [].
Defined.

#[export] Instance AssignExecutionRequest_wire : Wire AssignExecutionRequest.
Proof.
  by apply (wire_iso
    (λ r, (ae_assignment_id r, ae_execution_id r, ae_job_id r, ae_task r, ae_arguments r,
           ae_serialization_format r, ae_reserved_resources r, ae_deadline r, ae_metadata r))
    (λ '(a, b, c, d, e, f, g, h, i), mkAssignExecutionRequest a b c d e f g h i)); intros [].
Defined.

#[export] Instance BrokerEnvelope_wire : Wire BrokerEnvelope.
Proof.
  by apply (wire_iso
    (λ r, (be_message_id r, be_message_kind r, be_schema_version r, be_source r, be_destination r,
           be_created_at r, be_expires_at r, be_payload r, be_content_type r, be_correlation_id r,
           be_causation_id r, be_trace_context r, be_routing_headers r))
    (λ '(a, b, c, d, e, f, g, h, i, j, k, l, m), mkBrokerEnvelope a b c d e f g h i j k l m)); intros [].
Defined.

#[export] Instance WorkerRegistration_wire : Wire WorkerRegistration.
Proof.
  by apply (wire_iso
    (λ r, (wr_worker_id r, wr_node_id r, wr_generation r, wr_implementation_version r,
           wr_protocol_versions r, wr_endpoint r, wr_executors r, wr_capacity r, wr_metadata r))
    (λ '(a, b, c, d, e, f, g, h, i), mkWorkerRegistration a b c d e f g h i)); intros [].
Defined.

(** ** The instances *)

(** The named execution states have the codes 1 to 4, the one other state has code 0. *)
Definition execution_state_number (s : ExecutionState) : Z :=
  match s with
  | ES_Assigned => 1
  | ES_Running => 2
  | ES_Succeeded => 3
  | ES_Failed => 4
  | ES_Other _ => 0
  end.

#[export] Instance concrete_protocols : Protocols := {|
  protocol_types := concrete_types;
  encode_submit := encode_bytes;
  decode_submit := decode_bytes;
  encode_assign := encode_bytes;
  decode_assign := decode_bytes;
  encode_envelope := encode_bytes;
  decode_envelope := decode_bytes;
  encode_registration := encode_bytes;
  decode_registration := decode_bytes;
  encode_job_result := jr_payload;
  encode_command_result r := show (cr_status r);
  execution_state_code := execution_state_number;
  execution_state_of z :=
    if decide (z = 0)%Z then Some (ES_Other tt)
    else if decide (z = 1)%Z then Some ES_Assigned
    else if decide (z = 2)%Z then Some ES_Running
    else if decide (z = 3)%Z then Some ES_Succeeded
    else if decide (z = 4)%Z then Some ES_Failed
    else None;
  job_state_code s := match s with JS_Accepted => 1 | JS_Running => 2 | JS_Succeeded => 3 | JS_Failed => 4 end%Z;
  command_status_accepted := 1;
  runtime_status_ready := 1;
  timestamp_from t := t;
  show_status s := status_message s
|}.

#[export] Instance concrete_protocols_ok : ProtocolsOk concrete_protocols.
Proof.
  split; try (intros; apply decode_encode_bytes).
  - by intros [| | | |[]].
  - intros [| | | |[]]; simpl; lia.
  - by intros [] [].
Qed.

(** Clock readings a millisecond apart, and identifiers that count up. *)
#[export] Instance concrete_platform : Platform := {|
  instant_at n := (1000000 * Z.of_nat n)%Z;
  system_time_at n := (1700000000000000000 + 1000000 * Z.of_nat n)%Z;
  uuid_at n := show (Z.of_nat n)
|}.

#[export] Instance concrete_platform_ok : PlatformOk concrete_platform.
Proof.
  split; simpl.
  - lia.
  - intros i j H. apply (inj Z.of_nat). by apply (inj (pretty (A:=Z))).
  - intros i. destruct (show_head (Z.of_nat i)) as (c & s & -> & _); [lia|done].
  - intros i. pose proof (show_digits (Z.of_nat i) ltac:(lia)) as Hd.
    eapply Forall_impl; [exact Hd|]. simpl. intros c Hc. unfold is_uuid_char. by rewrite (Is_true_true_1 (is_digit c) Hc).
Qed.

#[export] Instance concrete_order : HashMapOrder :=
  {| hashmap_iter V m := map_to_list m; hashmap_iter_perm V m := reflexivity _ |}.

End Concrete.
