(* ===== verification/Pending.v ===== *)
(** * The worker's pending executions ([src/worker/runtime.rs], [PendingExecutions])

    The queue between assignment delivery and runtime sessions.  Every method holds the
    mutex for its whole body, so each is one atomic function on [PendingState]; the
    clock reading it takes inside is an argument.  [pending_step] is any method called
    by anyone, [pending_wf] the invariant all of them keep. *)

From S2P Require Import Prelude RustStr Prog Protocol.
From Stdlib Require Import SpecFloat.

(** ** Data *)

Inductive AssignmentState : Set :=
| AS_Pending | AS_Assigned | AS_Running | AS_Succeeded | AS_Failed.

#[export] Instance AssignmentState_eq_dec : EqDecision AssignmentState.
Proof. solve_decision. Defined.

(** The phases of the abstract work queue the component refines (below). *)
Inductive phase : Set :=
| Waiting
| Held (session : string)
| Active
| Finished (succeeded : bool).

#[export] Instance phase_eq_dec : EqDecision phase.
Proof. solve_decision. Defined.

Section pending.
Context `{P : Protocols}.

Record AssignmentRecord := mkAssignmentRecord {
  assignment : AssignExecutionRequest;
  ar_state : AssignmentState;
  last_sequence_number : option Z;
  session_id : option string;
  started_at : option Z;
  worker_duration : option Z;
  ar_metrics : list ExecutionMetrics
}.

(** [sessions] maps a session to the sending half of its channel, here a handle. *)
Record PendingState := mkPendingState {
  queue : list string;
  assignments : gmap string AssignmentRecord;
  sessions : gmap string nat
}.

(** [PendingExecutions::default()] *)
Definition pending_default : PendingState := mkPendingState [] ∅ ∅.

(** ** Operations *)

Definition set_assignments (m : gmap string AssignmentRecord) (st : PendingState) : PendingState :=
  mkPendingState (queue st) m (sessions st).

(** The record [enqueue] inserts. *)
Definition fresh_record (a : AssignExecutionRequest) : AssignmentRecord :=
  mkAssignmentRecord a AS_Pending None None None None [].

Definition enqueue (a : AssignExecutionRequest) (st : PendingState) : PendingState * result Status unit :=
  if is_blank (ae_assignment_id a) || is_blank (ae_execution_id a) then
    (st, Err (invalid_argument "assignment_id and execution_id are required"))
  else
    let id := ae_assignment_id a in
    match assignments st !! id with
    | Some _ => (st, Err (already_exists "assignment already exists"))
    | None =>
      (mkPendingState (queue st ++ [id]) (<[id := fresh_record a]> (assignments st)) (sessions st), Ok tt)
    end.

Definition register_session (id : string) (sender : nat) (st : PendingState) : PendingState :=
  mkPendingState (queue st) (assignments st) (<[id := sender]> (sessions st)).

(** What one turn of [next_for]'s loop does under the lock. *)
Inductive next_outcome : Type :=
| NextAssignment (a : AssignExecutionRequest)
| NextEmpty
| NextPanic.

Definition assign_to (session : string) (r : AssignmentRecord) : AssignmentRecord :=
  mkAssignmentRecord (assignment r) AS_Assigned (last_sequence_number r) (Some session)
    (started_at r) (worker_duration r) (ar_metrics r).

Definition next_for (session : string) (st : PendingState) : PendingState * next_outcome :=
  match queue st with
  | [] => (st, NextEmpty)
  | id :: rest =>
    let st := mkPendingState rest (assignments st) (sessions st) in
    match assignments st !! id with
    | None => (st, NextPanic)
    | Some record =>
      (set_assignments (<[id := assign_to session record]> (assignments st)) st,
       NextAssignment (assignment record))
    end
  end.

Definition release (r : AssignmentRecord) : AssignmentRecord :=
  mkAssignmentRecord (assignment r)
    (if decide (ar_state r = AS_Assigned) then AS_Pending else ar_state r)
    (last_sequence_number r) None (started_at r) (worker_duration r) (ar_metrics r).

(** The loop of [disconnect]; [None]: the [expect] fails. *)
Fixpoint disconnect_loop (ids : list string) (requeued : bool) (st : PendingState)
    : option (PendingState * bool) :=
  match ids with
  | [] => Some (st, requeued)
  | id :: ids =>
    match assignments st !! id with
    | None => None
    | Some record =>
      let st' := set_assignments (<[id := release record]> (assignments st)) st in
      if decide (ar_state record = AS_Assigned) then
        disconnect_loop ids true
          (mkPendingState (queue st' ++ [id]) (assignments st') (sessions st'))
      else disconnect_loop ids requeued st'
    end
  end.

(** The identifiers of the records of a session, in the map's iteration order. *)
Definition session_ids `{HashMapOrder} (session : string) (m : gmap string AssignmentRecord)
    : list string :=
  (filter (λ e, session_id e.2 = Some session) (hashmap_iter m)).*1.

(** The flag returned says whether the waiting sessions are notified. *)
Definition disconnect `{HashMapOrder} (session : string) (st : PendingState)
    : option (PendingState * bool) :=
  let st := mkPendingState (queue st) (assignments st) (delete session (sessions st)) in
  disconnect_loop (session_ids session (assignments st)) false st.

(** The block of [cancel] under the lock: the channel and the command to send on it. *)
Definition cancel_command (assignment_id : string) (reason : option string) (st : PendingState)
    : result Status (nat * WorkerCommand) :=
  record ← ok_or (assignments st !! assignment_id) (not_found "assignment not found");
  session ← ok_or (session_id record) (failed_precondition "assignment has no connected runtime");
  sender ← ok_or (sessions st !! session) (unavailable "runtime session disconnected");
  let cancel := {| ce_assignment_id := assignment_id;
                   ce_execution_id := ae_execution_id (assignment record);
                   ce_reason := reason |} in
  Ok (sender, {| wc_payload := Some (CmdCancelExecution cancel) |}).

Definition validate (st : PendingState) (assignment_id execution_id : string) (sequence : Z)
    : result Status AssignmentRecord :=
  record ← ok_or (assignments st !! assignment_id) (not_found "assignment not found");
  if negb (bool_decide (ae_execution_id (assignment record) = execution_id)) then
    Err (failed_precondition "execution_id does not match assignment")
  else if match last_sequence_number record with
          | Some last => bool_decide (sequence ≤ last)%Z
          | None => false
          end then
    Err (failed_precondition "stale execution event")
  else Ok record.

Definition start_record (now sequence : Z) (r : AssignmentRecord) : AssignmentRecord :=
  mkAssignmentRecord (assignment r) AS_Running (Some sequence) (session_id r)
    (Some now) (worker_duration r) (ar_metrics r).

Definition started (now : Z) (event : ExecutionStarted) (st : PendingState)
    : PendingState * result Status AssignExecutionRequest :=
  match validate st (es_assignment_id event) (es_execution_id event) (es_sequence_number event) with
  | Err e => (st, Err e)
  | Ok record =>
    if negb (bool_decide (ar_state record = AS_Assigned)) then
      (st, Err (failed_precondition "invalid assignment lifecycle transition"))
    else
      (set_assignments
         (<[es_assignment_id event := start_record now (es_sequence_number event) record]> (assignments st)) st,
       Ok (assignment record))
  end.

(** [(0.0..=1.0).contains(&p)] *)
Definition float_zero : spec_float := S754_zero false.
Definition float_one : spec_float := S754_finite false 4503599627370496 (-52).
Definition progress_in_range (p : spec_float) : bool := SFleb float_zero p && SFleb p float_one.

Definition advance_record (sequence : Z) (more : list ExecutionMetrics) (r : AssignmentRecord) : AssignmentRecord :=
  mkAssignmentRecord (assignment r) (ar_state r) (Some sequence) (session_id r)
    (started_at r) (worker_duration r) (ar_metrics r ++ more).

Definition progress (event : ExecutionProgress) (st : PendingState) : PendingState * result Status unit :=
  if negb (progress_in_range (ep_progress event)) then
    (st, Err (invalid_argument "progress must be between zero and one"))
  else
    match validate st (ep_assignment_id event) (ep_execution_id event) (ep_sequence_number event) with
    | Err e => (st, Err e)
    | Ok record =>
      if negb (bool_decide (ar_state record = AS_Running)) then
        (st, Err (failed_precondition "progress requires a running execution"))
      else
        (set_assignments
           (<[ep_assignment_id event := advance_record (ep_sequence_number event) [] record]> (assignments st)) st,
         Ok tt)
    end.

Definition metrics (event : ExecutionMetrics) (st : PendingState) : PendingState * result Status unit :=
  match validate st (em_assignment_id event) (em_execution_id event) (em_sequence_number event) with
  | Err e => (st, Err e)
  | Ok record =>
    if negb (bool_decide (ar_state record = AS_Running)) then
      (st, Err (failed_precondition "metrics require a running execution"))
    else
      (set_assignments
         (<[em_assignment_id event := advance_record (em_sequence_number event) [event] record]> (assignments st)) st,
       Ok tt)
  end.

(** [Instant::elapsed]: zero when the clock reading is not later. *)
Definition elapsed (since now : Z) : Z := Z.max 0 (now - since).

Definition finish_record (succeeded : bool) (sequence duration : Z) (r : AssignmentRecord) : AssignmentRecord :=
  mkAssignmentRecord (assignment r) (if succeeded then AS_Succeeded else AS_Failed) (Some sequence) None
    (started_at r) (Some duration) (ar_metrics r).

Definition terminal (now : Z) (assignment_id execution_id : string) (sequence : Z) (succeeded : bool)
    (st : PendingState) : PendingState * result Status (AssignExecutionRequest * Z) :=
  match validate st assignment_id execution_id sequence with
  | Err e => (st, Err e)
  | Ok record =>
    if negb (bool_decide (ar_state record = AS_Running)) then
      (st, Err (failed_precondition "invalid assignment lifecycle transition"))
    else
      match started_at record with
      | None => (st, Err (failed_precondition "execution was not started"))
      | Some since =>
        let duration := elapsed since now in
        (set_assignments
           (<[assignment_id := finish_record succeeded sequence duration record]> (assignments st)) st,
         Ok (assignment record, duration))
      end
  end.

(** ** Steps: any method, called by any session or by the assignment loop *)

Inductive op : Type :=
| OpEnqueue (a : AssignExecutionRequest)
| OpRegisterSession (id : string) (sender : nat)
| OpNextFor (session : string)
| OpDisconnect (session : string)
| OpStarted (now : Z) (e : ExecutionStarted)
| OpProgress (e : ExecutionProgress)
| OpMetrics (e : ExecutionMetrics)
| OpTerminal (now : Z) (assignment_id execution_id : string) (sequence : Z) (succeeded : bool).

(** The state after a call; [None]: the call panics. *)
Definition apply_op `{HashMapOrder} (o : op) (st : PendingState) : option PendingState :=
  match o with
  | OpEnqueue a => Some (enqueue a st).1
  | OpRegisterSession id sender => Some (register_session id sender st)
  | OpNextFor s =>
    match next_for s st with
    | (_, NextPanic) => None
    | (st', _) => Some st'
    end
  | OpDisconnect s => fst <$> disconnect s st
  | OpStarted now e => Some (started now e st).1
  | OpProgress e => Some (progress e st).1
  | OpMetrics e => Some (metrics e st).1
  | OpTerminal now aid eid seq ok => Some (terminal now aid eid seq ok st).1
  end.

(** The states after any sequence of calls. *)
Inductive reachable `{HashMapOrder} : PendingState → Prop :=
| reach_default : reachable pending_default
| reach_op o st st' : reachable st → apply_op o st = Some st' → reachable st'.

(** Any sequence of calls, each of them allowed. *)
Inductive steps `{HashMapOrder} (allowed : op → Prop) : PendingState → PendingState → Prop :=
| steps_refl st : steps allowed st st
| steps_op o st st' st'' :
    allowed o → apply_op o st = Some st' → steps allowed st' st'' → steps allowed st st''.

(** A list of calls, one after the other. *)
Fixpoint run_ops `{HashMapOrder} (ops : list op) (st : PendingState) : option PendingState :=
  match ops with
  | [] => Some st
  | o :: ops => st' ← apply_op o st; run_ops ops st'
  end.

(** ** What [disconnect] computes *)

Definition assigned_in (m : gmap string AssignmentRecord) (id : string) : bool :=
  match m !! id with
  | Some r => bool_decide (ar_state r = AS_Assigned)
  | None => false
  end.

(** The identifiers [disconnect] puts back in the queue. *)
Definition requeued_ids `{HashMapOrder} (session : string) (m : gmap string AssignmentRecord) : list string :=
  filter (λ id, assigned_in m id) (session_ids session m).

Definition release_if (session : string) (r : AssignmentRecord) : AssignmentRecord :=
  if decide (session_id r = Some session) then release r else r.

(** ** The invariant *)

(** The metrics of a record belong to it, in strictly increasing sequence, none newer
    than the last accepted event. *)
Definition metrics_ok (r : AssignmentRecord) : Prop :=
  StronglySorted Z.lt (em_sequence_number <$> ar_metrics r)
  ∧ Forall (λ m, em_assignment_id m = ae_assignment_id (assignment r)
                 ∧ em_execution_id m = ae_execution_id (assignment r)
                 ∧ ∃ last, last_sequence_number r = Some last ∧ (em_sequence_number m ≤ last)%Z)
           (ar_metrics r).

(** What each lifecycle state says about the other fields. *)
Definition record_ok (r : AssignmentRecord) : Prop :=
  metrics_ok r ∧
  match ar_state r with
  | AS_Pending =>
      session_id r = None ∧ last_sequence_number r = None ∧ started_at r = None ∧ worker_duration r = None
  | AS_Assigned =>
      is_Some (session_id r) ∧ last_sequence_number r = None ∧ started_at r = None ∧ worker_duration r = None
  | AS_Running =>
      is_Some (last_sequence_number r) ∧ is_Some (started_at r) ∧ worker_duration r = None
  | AS_Succeeded | AS_Failed =>
      session_id r = None ∧ is_Some (last_sequence_number r) ∧ is_Some (started_at r)
      ∧ ∃ d, worker_duration r = Some d ∧ (0 ≤ d)%Z
  end.

Definition entry_ok (id : string) (r : AssignmentRecord) : Prop :=
  ae_assignment_id (assignment r) = id
  ∧ is_blank id = false ∧ is_blank (ae_execution_id (assignment r)) = false
  ∧ record_ok r.

(** The queue holds each pending assignment once, and nothing else. *)
Definition queue_ok (st : PendingState) : Prop :=
  NoDup (queue st)
  ∧ ∀ id, id ∈ queue st ↔ ∃ r, assignments st !! id = Some r ∧ ar_state r = AS_Pending.

Definition pending_wf (st : PendingState) : Prop :=
  queue_ok st ∧ map_Forall entry_ok (assignments st).

(** ** The abstract specification: a work queue with a lifecycle per assignment *)

(** Waiting assignments in the order they will be handed out, and every assignment's phase. *)
Definition spec_state : Type := list string * gmap string phase.

Inductive spec_step : spec_state → spec_state → Prop :=
| spec_stutter s : spec_step s s
| spec_submit id q m :
    m !! id = None → spec_step (q, m) (q ++ [id], <[id := Waiting]> m)
| spec_take id session q m :
    m !! id = Some Waiting → spec_step (id :: q, m) (q, <[id := Held session]> m)
| spec_drop session back q m :
    NoDup back → (∀ id, id ∈ back ↔ m !! id = Some (Held session)) →
    spec_step (q, m) (q ++ back, (λ p, if decide (p = Held session) then Waiting else p) <$> m)
| spec_begin id session q m :
    m !! id = Some (Held session) → spec_step (q, m) (q, <[id := Active]> m)
| spec_finish id ok q m :
    m !! id = Some Active → spec_step (q, m) (q, <[id := Finished ok]> m).

(** The phase a record is in. *)
Definition phase_of (r : AssignmentRecord) : phase :=
  match ar_state r with
  | AS_Pending => Waiting
  | AS_Assigned => match session_id r with Some s => Held s | None => Waiting end
  | AS_Running => Active
  | AS_Succeeded => Finished true
  | AS_Failed => Finished false
  end.

Definition abs (st : PendingState) : spec_state := (queue st, phase_of <$> assignments st).

(** ** Facts about [disconnect] *)

Lemma assigned_in_agree (m1 m2 : gmap string AssignmentRecord) (ids : list string) :
  (∀ j, j ∈ ids → m1 !! j = m2 !! j) →
  filter (λ j, assigned_in m1 j) ids = filter (λ j, assigned_in m2 j) ids.
Proof.
  induction ids as [|j ids IH]; intros Hm; [done|].
  rewrite !filter_cons, IH by set_solver. unfold assigned_in. by rewrite Hm by set_solver.
Qed.

(** One record released, then those of the rest of the list. *)
Lemma released_cons (m m' : gmap string AssignmentRecord) id (ids : list string) r :
  id ∉ ids → m !! id = Some r →
  (∀ j, m' !! j = if decide (j ∈ ids) then release <$> <[id := release r]> m !! j
                  else <[id := release r]> m !! j) →
  ∀ j, m' !! j = if decide (j ∈ id :: ids) then release <$> m !! j else m !! j.
Proof.
  intros Hid Hr Hm j. rewrite Hm. destruct (decide (j = id)) as [->|Hne].
  - rewrite decide_False by done. rewrite decide_True by set_solver. by rewrite lookup_insert_eq, Hr.
  - rewrite lookup_insert_ne by done. by rewrite (decide_ext _ (j ∈ id :: ids)) by set_solver.
Qed.

Lemma disconnect_loop_spec ids rq st :
  NoDup ids →
  (∀ id, id ∈ ids → is_Some (assignments st !! id)) →
  ∃ m, disconnect_loop ids rq st =
    Some (mkPendingState (queue st ++ filter (λ id, assigned_in (assignments st) id) ids) m (sessions st),
          rq || bool_decide (filter (λ id, assigned_in (assignments st) id) ids ≠ []))
    ∧ ∀ id, m !! id = if decide (id ∈ ids) then release <$> assignments st !! id else assignments st !! id.
Proof.
  intros Hnd. revert rq st. induction Hnd as [|id ids Hid Hnd IH]; intros rq st Hin; simpl.
  - exists (assignments st). rewrite filter_nil, (right_id_L [] (++)), orb_false_r. split; [by destruct st|].
    intros j. done.
  - destruct (Hin id) as [r Hr]; [set_solver|]. rewrite Hr.
    set (m1 := <[id := release r]> (assignments st)).
    assert (∀ j, j ∈ ids → m1 !! j = assignments st !! j) as Hm1.
    { intros j Hj. subst m1. rewrite lookup_insert_ne; [done|]. by intros ->. }
    assert (∀ j, j ∈ ids → is_Some (m1 !! j)) as Hin2.
    { intros j Hj. rewrite Hm1 by done. apply Hin. set_solver. }
    rewrite filter_cons, <-(assigned_in_agree m1) by done.
    assert (assigned_in (assignments st) id = bool_decide (ar_state r = AS_Assigned)) as ->.
    { unfold assigned_in. by rewrite Hr. }
    destruct (decide (ar_state r = AS_Assigned)) as [Hs|Hs].
    + destruct (IH true (mkPendingState (queue st ++ [id]) m1 (sessions st)) Hin2) as (m & -> & Hm).
      exists m. rewrite (bool_decide_true (ar_state r = _)) by done. simpl in *.
      rewrite <-(assoc_L (++)), ?orb_true_r. simpl.
      split; [done|]. by apply (released_cons _ _ _ _ r).
    + destruct (IH rq (set_assignments m1 st) Hin2) as (m & -> & Hm).
      exists m. rewrite (bool_decide_false (ar_state r = _)) by done. simpl in *.
      split; [done|]. by apply (released_cons _ _ _ _ r).
Qed.

Lemma elem_of_session_ids `{HashMapOrder} s m id :
  id ∈ session_ids s m ↔ ∃ r, m !! id = Some r ∧ session_id r = Some s.
Proof.
  unfold session_ids. rewrite list_elem_of_fmap. setoid_rewrite list_elem_of_filter.
  setoid_rewrite hashmap_iter_perm. split.
  - intros ([j r] & -> & ? & ?%elem_of_map_to_list). eauto.
  - intros (r & ? & ?). exists (id, r). by rewrite elem_of_map_to_list.
Qed.

Lemma NoDup_session_ids `{HashMapOrder} s m : NoDup (session_ids s m).
Proof.
  unfold session_ids. apply NoDup_fmap_fst.
  - intros id r1 r2. rewrite !list_elem_of_filter, !hashmap_iter_perm, !elem_of_map_to_list. naive_solver.
  - apply NoDup_filter. rewrite hashmap_iter_perm. apply NoDup_map_to_list.
Qed.

(** [disconnect] never fails its [expect], and what it leaves. *)
Lemma disconnect_eq `{HashMapOrder} s st :
  disconnect s st =
    Some (mkPendingState (queue st ++ requeued_ids s (assignments st))
            (release_if s <$> assignments st) (delete s (sessions st)),
          bool_decide (requeued_ids s (assignments st) ≠ [])).
Proof.
  unfold disconnect. cbn [assignments queue sessions].
  destruct (disconnect_loop_spec (session_ids s (assignments st)) false
              (mkPendingState (queue st) (assignments st) (delete s (sessions st)))) as (m & -> & Hm).
  - apply NoDup_session_ids.
  - intros id (r & ? & _)%elem_of_session_ids. by exists r.
  - cbn [assignments queue sessions] in *. do 3 f_equal. apply map_eq. intros id.
    rewrite Hm, lookup_fmap. destruct (assignments st !! id) as [r|] eqn:Hr.
    + simpl. unfold release_if. case_decide as Hin; rewrite elem_of_session_ids in Hin.
      * destruct Hin as (r' & ? & ?). simplify_eq. by rewrite decide_True.
      * rewrite decide_False; [done|]. naive_solver.
    + by case_decide.
Qed.

(** ** The operations keep the invariant *)

Lemma pending_wf_default : pending_wf pending_default.
Proof.
  split; [|apply map_Forall_empty]. split; [constructor|].
  intros id. simpl. setoid_rewrite lookup_empty. set_solver.
Qed.

(** An update of one record that is not, and does not become, pending. *)
Lemma pending_wf_update st id r r' :
  pending_wf st → assignments st !! id = Some r →
  ar_state r ≠ AS_Pending → ar_state r' ≠ AS_Pending →
  assignment r' = assignment r → record_ok r' →
  pending_wf (set_assignments (<[id := r']> (assignments st)) st).
Proof.
  intros [[Hnd Hq] Hall] Hr Hs Hs' Ha Hok. split; [split; [done|]|]; simpl.
  - intros j. rewrite Hq. destruct (decide (j = id)) as [->|Hne].
    + rewrite lookup_insert_eq, Hr. naive_solver.
    + by rewrite lookup_insert_ne.
  - apply map_Forall_insert_2; [|done]. destruct (Hall _ _ Hr) as (? & ? & ? & _).
    unfold entry_ok. by rewrite Ha.
Qed.

Lemma validate_Ok st aid eid seq r :
  validate st aid eid seq = Ok r ↔
  assignments st !! aid = Some r ∧ ae_execution_id (assignment r) = eid
  ∧ ∀ last, last_sequence_number r = Some last → (last < seq)%Z.
Proof.
  unfold validate. rewrite result_bind_Ok. setoid_rewrite ok_or_Ok. split.
  - intros (r' & ? & H). destruct (bool_decide (_ = eid)) eqn:He; simpl in H; [|done].
    bool_facts. destruct (last_sequence_number r') as [last|] eqn:Hl; [case_bool_decide; [done|]|];
      simplify_eq; split_and!; try done; intros last'; rewrite Hl; [intros [= <-]; lia|done].
  - intros (Hr & He & Hl). exists r. split; [done|]. rewrite bool_decide_true by done. simpl.
    destruct (last_sequence_number r) as [last|]; [|done]. rewrite bool_decide_false; [done|].
    specialize (Hl last eq_refl). lia.
Qed.

Lemma wf_entry st id r : pending_wf st → assignments st !! id = Some r → entry_ok id r.
Proof. intros [_ H]. apply H. Qed.

Lemma enqueue_wf a st : pending_wf st → pending_wf (enqueue a st).1.
Proof.
  intros [[Hnd Hq] Hall]. unfold enqueue. case_match eqn:Hb; [done|].
  apply orb_false_iff in Hb as [Hb1 Hb2]. destruct (assignments st !! _) eqn:Hr; [done|].
  split; [split|]; simpl.
  - apply NoDup_snoc; [done|]. rewrite Hq. naive_solver.
  - intros id. rewrite elem_of_app, list_elem_of_singleton, Hq.
    destruct (decide (id = ae_assignment_id a)) as [->|Hne].
    + rewrite lookup_insert_eq. naive_solver.
    + rewrite lookup_insert_ne by done. naive_solver.
  - apply map_Forall_insert_2; [|done].
    unfold entry_ok, record_ok, metrics_ok. simpl. split_and!; done || constructor.
Qed.

Lemma next_for_wf s st : pending_wf st → pending_wf (next_for s st).1.
Proof.
  intros Hwf. pose proof Hwf as [[Hnd Hq] Hall]. unfold next_for. destruct (queue st) as [|id rest] eqn:Hqs; [done|].
  apply NoDup_cons in Hnd as [Hid Hnd]. simpl.
  destruct (proj1 (Hq id)) as (r & Hr & Hs); [set_solver|]. rewrite Hr.
  split; [split; [done|]|]; simpl.
  - intros j. destruct (decide (j = id)) as [->|Hne].
    + rewrite lookup_insert_eq. naive_solver.
    + rewrite lookup_insert_ne, <-Hq by done. set_solver.
  - apply map_Forall_insert_2; [|done]. destruct (Hall _ _ Hr) as (? & ? & ? & Hm & Hok).
    rewrite Hs in Hok. unfold entry_ok, record_ok, assign_to. simpl. naive_solver.
Qed.

Lemma started_wf now e st : pending_wf st → pending_wf (started now e st).1.
Proof.
  intros Hwf. unfold started. destruct (validate _ _ _ _) as [r|] eqn:Hv; [|done].
  apply validate_Ok in Hv as (Hr & _ & _). case_match; bool_facts; [done|]. simpl.
  destruct (wf_entry _ _ _ Hwf Hr) as (_ & _ & _ & [Hm1 Hm2] & Hok). rewrite H in Hok.
  apply (pending_wf_update _ _ r); try done; [congruence|]. unfold record_ok, metrics_ok; simpl.
  destruct Hok as (? & Hl & ? & ?). rewrite Hl in Hm2.
  assert (ar_metrics r = []) as ->; [|split_and!; eauto; constructor].
  destruct (ar_metrics r); [done|]. apply Forall_cons in Hm2. naive_solver.
Qed.

(** A later event extends the record of a running execution. *)
Lemma advance_record_ok aid seq more r :
  record_ok r → ar_state r = AS_Running →
  ae_assignment_id (assignment r) = aid →
  (∀ last, last_sequence_number r = Some last → (last < seq)%Z) →
  (more = [] ∨ ∃ m, more = [m] ∧ em_sequence_number m = seq ∧ em_assignment_id m = aid
                    ∧ em_execution_id m = ae_execution_id (assignment r)) →
  record_ok (advance_record seq more r).
Proof.
  intros [[Hs Hf] Hok] Hst Ha Hlt Hmore. rewrite Hst in Hok.
  assert (Forall (λ m, em_assignment_id m = ae_assignment_id (assignment r)
    ∧ em_execution_id m = ae_execution_id (assignment r)
    ∧ (em_sequence_number m < seq)%Z) (ar_metrics r)) as Hold.
  { eapply Forall_impl; [exact Hf|]. intros m (? & ? & last & Hl & ?). split_and!; [done..|].
    specialize (Hlt _ Hl). lia. }
  unfold record_ok, metrics_ok. simpl. rewrite Hst. split; [|naive_solver].
  rewrite fmap_app, Forall_app. split; [|split].
  - destruct Hmore as [->|(m & -> & Hseq & _)]; simpl; [by rewrite (right_id_L [] (++))|].
    apply StronglySorted_app_2; [|done|repeat constructor].
    intros x1 x2 Hx1 ->%list_elem_of_singleton. rewrite list_elem_of_fmap in Hx1.
    destruct Hx1 as (m' & -> & Hm'). rewrite Forall_forall in Hold. rewrite Hseq. by apply Hold.
  - eapply Forall_impl; [exact Hold|]. intros m (? & ? & ?). split_and!; [done..|].
    exists seq. split; [done|lia].
  - destruct Hmore as [->|(m & -> & <- & ? & ?)]; [constructor|]. apply Forall_singleton.
    split_and!; [congruence|done|]. eexists. split; [done|lia].
Qed.

Lemma progress_wf e st : pending_wf st → pending_wf (progress e st).1.
Proof.
  intros Hwf. unfold progress. case_match; [done|].
  destruct (validate _ _ _ _) as [r|] eqn:Hv; [|done].
  apply validate_Ok in Hv as (Hr & _ & Hl). case_match; bool_facts; [done|]. simpl.
  destruct (wf_entry _ _ _ Hwf Hr) as (? & _ & _ & Hok).
  apply (pending_wf_update _ _ r); try done; simpl; [congruence..|].
  by apply (advance_record_ok (ep_assignment_id e)); auto.
Qed.

Lemma metrics_wf e st : pending_wf st → pending_wf (metrics e st).1.
Proof.
  intros Hwf. unfold metrics. destruct (validate _ _ _ _) as [r|] eqn:Hv; [|done].
  apply validate_Ok in Hv as (Hr & ? & Hl). case_match; bool_facts; [done|]. simpl.
  destruct (wf_entry _ _ _ Hwf Hr) as (? & _ & _ & Hok).
  apply (pending_wf_update _ _ r); try done; simpl; [congruence..|].
  apply (advance_record_ok (em_assignment_id e)); try done. right. by exists e.
Qed.

Lemma terminal_wf now aid eid seq ok st : pending_wf st → pending_wf (terminal now aid eid seq ok st).1.
Proof.
  intros Hwf. unfold terminal. destruct (validate _ _ _ _) as [r|] eqn:Hv; [|done].
  apply validate_Ok in Hv as (Hr & ? & Hl). case_match; bool_facts; [done|].
  destruct (started_at r) as [since|] eqn:Hsince; [|done]. simpl.
  destruct (wf_entry _ _ _ Hwf Hr) as (? & _ & _ & Hok).
  apply (pending_wf_update _ _ r); try done; simpl; [congruence|by destruct ok|].
  destruct (advance_record_ok aid seq [] r) as [Hm _]; [done..|by left|].
  unfold metrics_ok in Hm. simpl in Hm. rewrite (right_id_L [] (++)) in Hm.
  split; [done|]. simpl. unfold elapsed. destruct ok; repeat split; eauto; eexists; split; eauto; lia.
Qed.

Section with_order.
Context `{HO : HashMapOrder}.

Lemma elem_of_requeued s m id :
  id ∈ requeued_ids s m ↔ ∃ r, m !! id = Some r ∧ session_id r = Some s ∧ ar_state r = AS_Assigned.
Proof.
  unfold requeued_ids, assigned_in. rewrite list_elem_of_filter, elem_of_session_ids. split.
  - intros (H & r & Hr & ?). rewrite Hr in H. apply bool_decide_spec in H. eauto.
  - intros (r & Hr & ? & ?). rewrite Hr. split; [by apply bool_decide_spec|eauto].
Qed.

Lemma NoDup_requeued s m : NoDup (requeued_ids s m).
Proof. apply NoDup_filter, NoDup_session_ids. Qed.

Lemma release_if_ok s id r : entry_ok id r → entry_ok id (release_if s r).
Proof.
  unfold release_if. case_decide as Hs; [|done]. intros (? & ? & ? & Hm & Hok).
  unfold entry_ok, record_ok, release. simpl. split_and!; try done.
  destruct (ar_state r); simpl; naive_solver.
Qed.

(** Releasing makes exactly the assigned records of the session pending. *)
Lemma release_if_pending s id r :
  entry_ok id r →
  ar_state (release_if s r) = AS_Pending ↔
  ar_state r = AS_Pending ∨ (session_id r = Some s ∧ ar_state r = AS_Assigned).
Proof.
  intros (_ & _ & _ & _ & Hok). unfold release_if, release. case_decide; simpl; [|naive_solver].
  case_decide; naive_solver.
Qed.

Lemma disconnect_wf s st st' b : disconnect s st = Some (st', b) → pending_wf st → pending_wf st'.
Proof.
  rewrite disconnect_eq. intros [= <- _] [[Hnd Hq] Hall]. split; [split|]; simpl.
  - apply NoDup_app. split_and!; [done| |apply NoDup_requeued].
    intros id (r & Hr & Hs)%Hq (r' & ? & ? & ?)%elem_of_requeued. congruence.
  - intros id. rewrite elem_of_app, Hq, elem_of_requeued, lookup_fmap.
    destruct (assignments st !! id) as [r|] eqn:Hr; simpl; [|naive_solver].
    pose proof (release_if_pending s id r (Hall _ _ Hr)). naive_solver.
  - intros id r. rewrite lookup_fmap, fmap_Some. intros (r0 & Hr0 & ->).
    apply release_if_ok, Hall, Hr0.
Qed.

Lemma apply_op_wf o st st' : apply_op o st = Some st' → pending_wf st → pending_wf st'.
Proof.
  destruct o; simpl; try (intros [= <-]).
  - apply enqueue_wf.
  - done.
  - intros Hs Hwf. pose proof (next_for_wf session st Hwf). by destruct (next_for _ _) as [? []]; simplify_eq/=.
  - intros ([??] & ? & ->)%fmap_Some. by eapply disconnect_wf.
  - apply started_wf.
  - apply progress_wf.
  - apply metrics_wf.
  - apply terminal_wf.
Qed.

Lemma reachable_wf st : reachable st → pending_wf st.
Proof. induction 1; [apply pending_wf_default|by eapply apply_op_wf]. Qed.

Lemma run_ops_reachable ops st st' : reachable st → run_ops ops st = Some st' → reachable st'.
Proof.
  revert st. induction ops as [|o ops IH]; intros st Hr; simpl; [by intros [= <-]|].
  destruct (apply_op o st) as [st1|] eqn:Ho; simpl; [|done]. eauto using reach_op.
Qed.

Lemma run_ops_steps (allowed : op → Prop) ops st st' :
  Forall allowed ops → run_ops ops st = Some st' → steps allowed st st'.
Proof.
  intros Hall. revert st. induction Hall as [|o ops Hal _ IH]; intros st; simpl.
  - intros [= <-]. constructor.
  - destruct (apply_op o st) as [st1|] eqn:Ho; simpl; [|done]. eauto using steps_op.
Qed.

Lemma steps_wf allowed st st' : steps allowed st st' → pending_wf st → pending_wf st'.
Proof. induction 1; [done|]. eauto using apply_op_wf. Qed.
End with_order.
End pending.
