(* ===== verification/PendingSpec.v ===== *)
(** * Correctness of the pending executions

    The theorems about [Pending.v]: the invariant of every reachable state, the absence
    of panics, the refinement of the abstract work queue, and what each call does. *)

From S2P Require Import Prelude RustStr Prog Protocol Concrete Pending.
From Stdlib Require Import SpecFloat.

Section spec.
Context `{P : Protocols} `{HO : HashMapOrder}.
Implicit Types (st : PendingState) (r : AssignmentRecord).

(** ** How one call changes one record *)

Definition newer (sequence : Z) r : Prop :=
  ∀ last, last_sequence_number r = Some last → (last < sequence)%Z.

Inductive evolves : op → AssignmentRecord → AssignmentRecord → Prop :=
| ev_same o r : evolves o r r
| ev_assign s r : ar_state r = AS_Pending → evolves (OpNextFor s) r (assign_to s r)
| ev_release s r : session_id r = Some s → evolves (OpDisconnect s) r (release r)
| ev_start now e r :
    ar_state r = AS_Assigned → newer (es_sequence_number e) r →
    evolves (OpStarted now e) r (start_record now (es_sequence_number e) r)
| ev_progress e r :
    ar_state r = AS_Running → newer (ep_sequence_number e) r →
    evolves (OpProgress e) r (advance_record (ep_sequence_number e) [] r)
| ev_metrics e r :
    ar_state r = AS_Running → newer (em_sequence_number e) r →
    evolves (OpMetrics e) r (advance_record (em_sequence_number e) [e] r)
| ev_finish now aid eid seq ok d r :
    ar_state r = AS_Running → newer seq r →
    evolves (OpTerminal now aid eid seq ok) r (finish_record ok seq d r).

(** An update of the record at [key], seen from [id]. *)
Lemma insert_evolves o (m : gmap string AssignmentRecord) key id r0 r0' r :
  m !! key = Some r0 → evolves o r0 r0' → m !! id = Some r →
  ∃ r', <[key := r0']> m !! id = Some r' ∧ evolves o r r'.
Proof.
  intros Hk Hev Hr. destruct (decide (id = key)) as [->|Hne].
  - rewrite lookup_insert_eq. naive_solver.
  - rewrite lookup_insert_ne by done. eauto using ev_same.
Qed.

Lemma apply_op_record o st st' id r :
  pending_wf st → apply_op o st = Some st' → assignments st !! id = Some r →
  ∃ r', assignments st' !! id = Some r' ∧ evolves o r r'.
Proof.
  intros Hwf Hop Hr.
  assert (∃ r', assignments st !! id = Some r' ∧ evolves o r r') as Hsame by eauto using ev_same.
  destruct o as [a| | s|s|now e|e|e|now aid eid seq ok]; simpl in Hop; simplify_eq.
  - unfold enqueue. repeat case_match; simpl; try done.
    rewrite lookup_insert_ne by congruence. done.
  - done.
  - unfold next_for in Hop. destruct (queue st) as [|j q] eqn:Hq; simplify_eq/=; [done|].
    destruct (assignments st !! j) as [r0|] eqn:Hj; simplify_eq/=.
    eapply insert_evolves; [done| |done]. constructor.
    destruct Hwf as [[_ Hq'] _]. destruct (proj1 (Hq' j)) as (r1 & ? & ?); [rewrite Hq; set_solver|].
    congruence.
  - rewrite disconnect_eq in Hop. simplify_eq/=. rewrite lookup_fmap, Hr. simpl. eexists. split; [done|].
    unfold release_if. case_decide; by constructor.
  - unfold started. destruct (validate _ _ _ _) as [r0|] eqn:Hv; [|done].
    apply validate_Ok in Hv as (Hv & _ & ?). case_match; bool_facts; [done|].
    by eapply insert_evolves; [|constructor|].
  - unfold progress. case_match; [done|]. destruct (validate _ _ _ _) as [r0|] eqn:Hv; [|done].
    apply validate_Ok in Hv as (Hv & _ & ?). case_match; bool_facts; [done|].
    by eapply insert_evolves; [|constructor|].
  - unfold metrics. destruct (validate _ _ _ _) as [r0|] eqn:Hv; [|done].
    apply validate_Ok in Hv as (Hv & _ & ?). case_match; bool_facts; [done|].
    by eapply insert_evolves; [|constructor|].
  - unfold terminal. destruct (validate _ _ _ _) as [r0|] eqn:Hv; [|done].
    apply validate_Ok in Hv as (Hv & _ & ?). case_match; bool_facts; [done|].
    case_match; [|done]. by eapply insert_evolves; [|constructor|].
Qed.

(** ** Facts carried along a sequence of calls *)

(** What holds of a record and survives every change holds after any calls. *)
Lemma steps_keep (allowed : op → Prop) (K : AssignmentRecord → Prop) st st' id r :
  (∀ o id r r', allowed o → entry_ok id r → evolves o r r' → K r → K r') →
  steps allowed st st' → pending_wf st → assignments st !! id = Some r → K r →
  ∃ r', assignments st' !! id = Some r' ∧ K r'.
Proof.
  intros HK Hsteps. revert r. induction Hsteps as [|o st st1 st2 Hal Hop _ IH]; intros r Hwf Hr Hk; [eauto|].
  destruct (apply_op_record _ _ _ _ _ Hwf Hop Hr) as (r1 & Hr1 & Hev).
  apply (IH r1); [by eapply apply_op_wf|done|]. eauto using wf_entry.
Qed.

(** ** The properties *)

(** C1: in every state the worker can reach, the queue holds each pending assignment
    exactly once and nothing else; every record is stored under its own, non-blank
    identifier; and its lifecycle state determines which of its fields are set: no
    session while it waits, a session and no event while it is assigned, a start time
    and a last sequence number once it runs, a non-negative duration and no session
    once it has ended, its metrics its own and in strictly increasing sequence. *)
Theorem pending_invariant st : reachable st → pending_wf st.
Proof. apply reachable_wf. Qed.

(** C2: no call panics in a reachable state: both [expect]s of [PendingExecutions]
    ("queued assignment exists" in [next_for], "selected record exists" in
    [disconnect]) always find their record. *)
Theorem calls_never_panic st o : reachable st → ∃ st', apply_op o st = Some st' ∧ reachable st'.
Proof.
  intros Hr. assert (∃ st', apply_op o st = Some st') as [st' Ho]; [|eauto using reach_op].
  destruct o; simpl; eauto.
  - destruct (next_for session st) as [st' []] eqn:Hn; eauto. exfalso.
    apply reachable_wf in Hr as [[_ Hq] _]. unfold next_for in Hn.
    destruct (queue st) as [|id q] eqn:Hqs; simplify_eq/=.
    destruct (proj1 (Hq id)) as (r & Hr & _); [set_solver|]. by rewrite Hr in Hn.
  - rewrite disconnect_eq. eauto.
Qed.

(** ** Refinement of the work queue *)

Lemma abs_insert st id r :
  abs (set_assignments (<[id := r]> (assignments st)) st)
  = (queue st, <[id := phase_of r]> (phase_of <$> assignments st)).
Proof. unfold abs. simpl. by rewrite fmap_insert. Qed.

(** An update that leaves the phase alone is a stutter. *)
Lemma abs_stutter st id r r' :
  assignments st !! id = Some r → phase_of r' = phase_of r →
  abs (set_assignments (<[id := r']> (assignments st)) st) = abs st.
Proof.
  intros Hr Hp. rewrite abs_insert, Hp. unfold abs. by rewrite insert_id by (by rewrite lookup_fmap, Hr).
Qed.

Lemma enqueue_refines a st : spec_step (abs st) (abs (enqueue a st).1).
Proof.
  unfold enqueue. case_match; [constructor|]. destruct (assignments st !! _) eqn:Hr; [constructor|].
  unfold abs. simpl. rewrite fmap_insert. constructor. by rewrite lookup_fmap, Hr.
Qed.

Lemma next_for_refines s st st' :
  pending_wf st → apply_op (OpNextFor s) st = Some st' → spec_step (abs st) (abs st').
Proof.
  intros [[_ Hq] _]. simpl. unfold next_for. destruct (queue st) as [|id q] eqn:Hqs.
  { intros [= <-]. constructor. }
  destruct (proj1 (Hq id)) as (r & Hr & Hs); [set_solver|]. simpl. rewrite Hr. intros [= <-].
  unfold abs. simpl. rewrite Hqs, fmap_insert. change (phase_of (assign_to s r)) with (Held s).
  constructor. rewrite lookup_fmap, Hr. simpl. unfold phase_of. by rewrite Hs.
Qed.

Lemma phase_of_release s id r :
  entry_ok id r → phase_of (release_if s r) = if decide (phase_of r = Held s) then Waiting else phase_of r.
Proof.
  intros (_ & _ & _ & _ & Hok). unfold release_if, release, phase_of.
  destruct (ar_state r) eqn:Hst; repeat case_decide; simplify_eq/=; rewrite ?Hst; try done;
    destruct (session_id r); naive_solver.
Qed.

Lemma disconnect_refines s st st' b :
  pending_wf st → disconnect s st = Some (st', b) → spec_step (abs st) (abs st').
Proof.
  intros Hwf. rewrite disconnect_eq. intros [= <- _]. unfold abs. simpl.
  assert (phase_of <$> (release_if s <$> assignments st) =
          (λ p, if decide (p = Held s) then Waiting else p) <$> (phase_of <$> assignments st)) as ->.
  { apply map_eq. intros id. rewrite !lookup_fmap. destruct (assignments st !! id) as [r|] eqn:Hr; [|done].
    simpl. f_equal. eapply phase_of_release, wf_entry; eauto. }
  constructor; [apply NoDup_requeued|]. intros id. rewrite elem_of_requeued, lookup_fmap, fmap_Some.
  split; intros (r & Hr & H); exists r; (split; [done|]); unfold phase_of in *.
  - destruct H as [-> ->]. done.
  - destruct (ar_state r), (session_id r); naive_solver.
Qed.

(** C3: every call of every reachable state is a step of the abstract work queue (or
    none): an assignment is submitted once, to the back of the queue; only the front is
    taken, by one session; a session that goes away puts the assignments it holds back,
    and only those; an execution begins only while held and ends only once begun. *)
Theorem pending_refines_work_queue st o st' :
  reachable st → apply_op o st = Some st' → spec_step (abs st) (abs st').
Proof.
  intros Hwf%reachable_wf Ho. destruct o as [a|id sn|s|s|now e|e|e|now aid eid seq ok];
    try (simpl in Ho; injection Ho as <-).
  - apply enqueue_refines.
  - constructor.
  - by apply (next_for_refines s).
  - simpl in Ho. apply fmap_Some in Ho as ([st1 b] & Ho & ->). by eapply disconnect_refines.
  - unfold started. destruct (validate _ _ _ _) as [r|] eqn:Hv; [|constructor].
    apply validate_Ok in Hv as (Hr & _). case_match; bool_facts; [constructor|]. simpl.
    rewrite abs_insert. destruct (wf_entry _ _ _ Hwf Hr) as (_ & _ & _ & _ & Hok). rewrite H in Hok.
    destruct Hok as ([s Hs] & _). eapply (spec_begin _ s). rewrite lookup_fmap, Hr. simpl.
    unfold phase_of. by rewrite H, Hs.
  - unfold progress. case_match; [constructor|]. destruct (validate _ _ _ _) as [r|] eqn:Hv; [|constructor].
    apply validate_Ok in Hv as (Hr & _). case_match; bool_facts; [constructor|]. simpl.
    rewrite (abs_stutter _ _ r) by done. constructor.
  - unfold metrics. destruct (validate _ _ _ _) as [r|] eqn:Hv; [|constructor].
    apply validate_Ok in Hv as (Hr & _). case_match; bool_facts; [constructor|]. simpl.
    rewrite (abs_stutter _ _ r) by done. constructor.
  - unfold terminal. destruct (validate _ _ _ _) as [r|] eqn:Hv; [|constructor].
    apply validate_Ok in Hv as (Hr & _). case_match; bool_facts; [constructor|].
    case_match; [|constructor]. simpl. rewrite abs_insert.
    replace (phase_of (finish_record ok seq (elapsed z now) r)) with (Finished ok) by (by destruct ok).
    constructor. rewrite lookup_fmap, Hr. simpl. unfold phase_of. by rewrite H.
Qed.

(** ** Along sequences of calls *)

Definition any_op : op → Prop := λ _, True.

Definition ended r : Prop := ar_state r = AS_Succeeded ∨ ar_state r = AS_Failed.

(** C4: an execution that has succeeded or failed never changes again: whatever calls
    follow, its record stays the same in every field. *)
Theorem finished_is_final st st' id r :
  reachable st → steps any_op st st' → assignments st !! id = Some r → ended r →
  assignments st' !! id = Some r.
Proof.
  intros Hwf%reachable_wf Hsteps Hr Hend.
  destruct (steps_keep any_op (λ r', r' = r) st st' id r) as (r' & Hr' & ->); try done.
  intros o j r1 r2 _ (_ & _ & _ & _ & Hok) Hev ->. unfold ended in Hend.
  destruct Hend as [He|He]; rewrite He in Hok; destruct Hok as [Hok _]; inv Hev; congruence.
Qed.

(** What calls may do to a record: keep its assignment, move its last sequence number
    forward, append metrics. *)
Definition grows r r' : Prop :=
  assignment r' = assignment r
  ∧ (∀ last, last_sequence_number r = Some last →
       ∃ last', last_sequence_number r' = Some last' ∧ (last ≤ last')%Z)
  ∧ ar_metrics r `prefix_of` ar_metrics r'.

#[local] Instance grows_preorder : PreOrder grows.
Proof.
  split.
  - intros r. split_and!; [done| |done]. intros last ->. eexists. split; [done|lia].
  - intros r1 r2 r3 (H1 & H2 & H3) (H4 & H5 & H6). split_and!; [congruence| |by etrans].
    intros last (l2 & Hl2 & ?)%H2. apply H5 in Hl2 as (l3 & ? & ?). exists l3. split; [done|lia].
Qed.

Lemma evolves_grows o r r' : evolves o r r' → grows r r'.
Proof.
  assert (∀ seq r, newer seq r → ∀ last, last_sequence_number r = Some last →
    ∃ last', Some seq = Some last' ∧ (last ≤ last')%Z) as Hnew.
  { intros seq r0 Hn last Hl. exists seq. split; [done|]. apply Hn in Hl. lia. }
  destruct 1; try reflexivity; (split_and!; simpl; [done| |]); eauto using prefix_app_r; try done.
  all: intros last Hl; exists last; split; [done|lia].
Qed.

(** C5: no assignment is ever lost or altered: after any further calls it is still in
    the table with the same content, its last accepted sequence number has not gone
    back, and the metrics recorded for it are still there, in the same order. *)
Theorem assignments_never_lost st st' id r :
  reachable st → steps any_op st st' → assignments st !! id = Some r →
  ∃ r', assignments st' !! id = Some r' ∧ grows r r'.
Proof.
  intros Hwf%reachable_wf Hsteps Hr.
  apply (steps_keep any_op (grows r) st st' id r); try done.
  intros o j r1 r2 _ _ Hev ?. etrans; [done|]. by eapply evolves_grows.
Qed.

(** [next_for] hands out the front of the queue, which is pending. *)
Lemma next_for_assignment st s st' a :
  pending_wf st → next_for s st = (st', NextAssignment a) →
  ∃ id rest r, queue st = id :: rest ∧ assignments st !! id = Some r ∧ ar_state r = AS_Pending
    ∧ a = assignment r ∧ ae_assignment_id a = id
    ∧ st' = mkPendingState rest (<[id := assign_to s r]> (assignments st)) (sessions st).
Proof.
  intros Hwf. pose proof Hwf as [[_ Hq] _]. unfold next_for.
  destruct (queue st) as [|id rest] eqn:Hqs; [done|]. simpl.
  destruct (proj1 (Hq id)) as (r & Hr & Hs); [set_solver|]. rewrite Hr. intros [= <- <-].
  exists id, rest, r. split_and!; try done. by apply (wf_entry _ _ _ Hwf Hr).
Qed.

(** Handed to [s] and not given back. *)
Definition kept_by (s : string) r : Prop :=
  ar_state r ≠ AS_Pending ∧ (ar_state r = AS_Assigned → session_id r = Some s).

Lemma kept_by_evolves s o (id : string) r r' :
  o ≠ OpDisconnect s → entry_ok id r → evolves o r r' → kept_by s r → kept_by s r'.
Proof.
  unfold kept_by. intros Hne _ Hev [Hp Ha]. destruct Hev as [| |s' r Hs| | | |now aid eid seq ok d r]; simpl;
    try naive_solver.
  - split; case_decide; naive_solver.
  - by destruct ok.
Qed.

(** C6: an assignment is never handed out twice while the session that got it stays
    connected: after [next_for] gave it to a session, and as long as that session is not
    disconnected, no call of [next_for] by any session returns it again. *)
Theorem no_double_dispatch st s a st1 st2 s' a' st3 :
  reachable st →
  next_for s st = (st1, NextAssignment a) →
  steps (λ o, o ≠ OpDisconnect s) st1 st2 →
  next_for s' st2 = (st3, NextAssignment a') →
  ae_assignment_id a' ≠ ae_assignment_id a.
Proof.
  intros Hwf%reachable_wf Hn Hsteps Hn'. pose proof (next_for_wf s st Hwf) as Hwf1. rewrite Hn in Hwf1.
  apply next_for_assignment in Hn as (id & rest & r & _ & Hr & _ & -> & Hid & ->); [|done].
  destruct (steps_keep (λ o, o ≠ OpDisconnect s) (kept_by s) _ _ id (assign_to s r)
    (kept_by_evolves s) Hsteps Hwf1) as (r' & Hr' & Hk & _); [simpl; by rewrite lookup_insert_eq|done|].
  apply next_for_assignment in Hn' as (id' & rest' & r'' & _ & Hr'' & Hs'' & -> & Hid' & _);
    [|by eapply steps_wf]. congruence.
Qed.

(** A call other than [next_for] leaves waiting records alone. *)
Lemma waiting_unchanged o id r r' :
  (∀ s, o ≠ OpNextFor s) → entry_ok id r → ar_state r = AS_Pending → evolves o r r' → r' = r.
Proof.
  intros Hne (_ & _ & _ & _ & Hok) Hs Hev. rewrite Hs in Hok. destruct Hok as [Hok _].
  inv Hev; try congruence. by destruct (Hne s).
Qed.

(** The identifier a call hands to a session: that of the assignment it returns. *)
Definition handed_by (o : op) st : list string :=
  match o with
  | OpNextFor s =>
    match (next_for s st).2 with
    | NextAssignment a => [ae_assignment_id a]
    | _ => []
    end
  | _ => []
  end.

(** The identifiers a call gives the queue: that of an assignment accepted, or those of
    the unstarted assignments of a session that goes away. *)
Definition given_by (o : op) st : list string :=
  match o with
  | OpEnqueue a =>
    match (enqueue a st).2 with
    | Ok _ => [ae_assignment_id a]
    | Err _ => []
    end
  | OpDisconnect s => requeued_ids s (assignments st)
  | _ => []
  end.

(** What each of a list of calls contributes, in the order of the calls. *)
Fixpoint along (f : op → PendingState → list string) (ops : list op) st : list string :=
  match ops with
  | [] => []
  | o :: ops => f o st ++ default [] (along f ops <$> apply_op o st)
  end.

(** One call: what leaves the queue leaves it at the front, what enters it enters at the
    back. *)
Lemma apply_op_fifo o st st' :
  pending_wf st → apply_op o st = Some st' →
  queue st ++ given_by o st = handed_by o st ++ queue st'.
Proof.
  intros Hwf Ho. destruct o as [a|id sn|s|s|now e|e|e|now aid eid seq ok]; simpl in *; simplify_eq;
    rewrite ?(right_id_L [] (++)); try done.
  - unfold enqueue. repeat case_match; simpl; by rewrite ?(right_id_L [] (++)).
  - destruct (next_for s st) as [st1 [a| |]] eqn:Hn; simplify_eq/=.
    + by apply next_for_assignment in Hn as (id & rest & r & -> & _ & _ & _ & -> & ->).
    + unfold next_for in Hn. by repeat case_match; simplify_eq.
  - rewrite disconnect_eq in Ho. by simplify_eq/=.
  - unfold started. by repeat case_match.
  - unfold progress. by repeat case_match.
  - unfold metrics. by repeat case_match.
  - unfold terminal. by repeat case_match.
Qed.

(** One call leaves what waits and is not handed out as it was. *)
Lemma apply_op_waiting o st st' id :
  pending_wf st → apply_op o st = Some st' → id ∈ queue st → id ∉ handed_by o st →
  assignments st' !! id = assignments st !! id ∧ id ∈ queue st'.
Proof.
  intros Hwf Ho Hid Hout. split.
  - pose proof Hwf as [[_ Hq] _]. apply Hq in Hid as (r & Hr & Hs). rewrite Hr.
    assert ((∃ s, o = OpNextFor s) ∨ ∀ s, o ≠ OpNextFor s) as [[s ->]|Hne] by (destruct o; eauto).
    + simpl in Ho, Hout. destruct (next_for s st) as [st1 [a| |]] eqn:Hn; simplify_eq/=.
      * apply next_for_assignment in Hn as (j & rest & r0 & _ & _ & _ & _ & <- & ->); [|done]. simpl.
        rewrite lookup_insert_ne; [done|]. set_solver.
      * unfold next_for in Hn. by repeat case_match; simplify_eq.
    + destruct (apply_op_record _ _ _ _ _ Hwf Ho Hr) as (r' & -> & Hev). f_equal.
      eapply waiting_unchanged; eauto using wf_entry.
  - assert (id ∈ handed_by o st ++ queue st') as [?|?]%elem_of_app; [|done..].
    rewrite <-apply_op_fifo by done. set_solver.
Qed.

(** C7: the queue is first-in first-out.  For any list of calls made from a reachable
    state: the identifiers of the assignments the calls of [next_for] return, in the order
    they are returned, followed by those still waiting, are those that were waiting
    followed by those the accepted [enqueue]s and the [disconnect]s added, in the order
    they were added.  So the n-th assignment handed out is the n-th that was queued; and
    the record of one that was waiting and has not been handed out is untouched. *)
Theorem queue_is_fifo ops st st' :
  reachable st → run_ops ops st = Some st' →
  along handed_by ops st ++ queue st' = queue st ++ along given_by ops st
  ∧ ∀ id, id ∈ queue st → id ∉ along handed_by ops st → assignments st' !! id = assignments st !! id.
Proof.
  intros Hwf%reachable_wf. revert st Hwf. induction ops as [|o ops IH]; intros st Hwf; simpl.
  { intros [= <-]. by rewrite (right_id_L [] (++)). }
  destruct (apply_op o st) as [st1|] eqn:Ho; simpl; [|done]. intros Hrun.
  destruct (IH st1 (apply_op_wf _ _ _ Ho Hwf) Hrun) as [Hq Hkeep]. split.
  - by rewrite <-(assoc_L (++)), Hq, !(assoc_L (++)), <-apply_op_fifo.
  - intros id Hid [Hout1 Hout2]%not_elem_of_app.
    destruct (apply_op_waiting o st st1 id) as [<- ?]; [done..|]. by apply Hkeep.
Qed.

(** ** Single calls *)

(** C8: [disconnect] removes the session, puts exactly the unstarted assignments it held
    back at the end of the queue (each once, and sets the notification flag exactly when
    there are any), leaves its running executions running without a session, and touches
    nothing else; afterwards no record refers to the session. *)
Theorem disconnect_gives_back st s :
  reachable st →
  ∃ st' back, disconnect s st = Some (st', bool_decide (back ≠ []))
    ∧ queue st' = queue st ++ back ∧ NoDup back
    ∧ (∀ id, id ∈ back ↔ ∃ r, assignments st !! id = Some r ∧ ar_state r = AS_Assigned ∧ session_id r = Some s)
    ∧ (∀ id r, assignments st !! id = Some r →
         ∃ r', assignments st' !! id = Some r' ∧ session_id r' ≠ Some s
           ∧ (session_id r ≠ Some s → r' = r)
           ∧ (ar_state r ≠ AS_Assigned → ar_state r' = ar_state r)
           ∧ (ar_state r = AS_Assigned → session_id r = Some s → r' = fresh_record (assignment r)))
    ∧ sessions st' = delete s (sessions st).
Proof.
  intros Hwf%reachable_wf.
  exists (mkPendingState (queue st ++ requeued_ids s (assignments st))
            (release_if s <$> assignments st) (delete s (sessions st))), (requeued_ids s (assignments st)).
  split_and!; [apply disconnect_eq|done|apply NoDup_requeued| | |done].
  - intros id. rewrite elem_of_requeued. naive_solver.
  - intros id r Hr. exists (release_if s r). simpl. rewrite lookup_fmap, Hr. split; [done|].
    destruct (wf_entry _ _ _ Hwf Hr) as (_ & _ & _ & [Hm1 Hm2] & Hok).
    unfold release_if. case_decide as Hs; [|by split_and!].
    unfold release. simpl. split_and!; try done; intros Hst; [by rewrite decide_False|]. intros _.
    rewrite Hst in Hok. destruct Hok as (_ & Hl & Hsa & Hd). unfold fresh_record.
    rewrite decide_True, Hl, Hsa, Hd by done. f_equal. rewrite Hl in Hm2.
    destruct (ar_metrics r); [done|]. apply Forall_cons in Hm2. naive_solver.
Qed.

(** What makes a report of the end of execution [eid] of assignment [aid] acceptable. *)
Definition may_finish st (aid eid : string) (seq : Z) r : Prop :=
  assignments st !! aid = Some r ∧ ae_execution_id (assignment r) = eid
  ∧ ar_state r = AS_Running ∧ newer seq r.

(** C9: a completion or failure report is accepted exactly when the assignment is known,
    its execution id matches, it is running, and the report is newer than every accepted
    event.  When it is accepted, the answer is the assignment and the time since its start
    (never negative), and the record, and only it, changes: it becomes final and releases
    its session.  A report that is not accepted is an error that leaves the state as it
    was, and never the one that says a running execution has no start time. *)
Theorem terminal_accepts st now aid eid seq ok :
  reachable st →
  ((∃ a d, (terminal now aid eid seq ok st).2 = Ok (a, d)) ↔ ∃ r, may_finish st aid eid seq r)
  ∧ (∀ r, may_finish st aid eid seq r →
     ∃ since, started_at r = Some since ∧ (0 ≤ elapsed since now)%Z ∧
       terminal now aid eid seq ok st =
         (set_assignments (<[aid := finish_record ok seq (elapsed since now) r]> (assignments st)) st,
          Ok (assignment r, elapsed since now)))
  ∧ (∀ e, (terminal now aid eid seq ok st).2 = Err e →
       (terminal now aid eid seq ok st).1 = st
       ∧ e ≠ failed_precondition "execution was not started").
Proof.
  intros Hwf%reachable_wf.
  assert (∀ r, may_finish st aid eid seq r → ∃ since, started_at r = Some since ∧ (0 ≤ elapsed since now)%Z ∧
    terminal now aid eid seq ok st =
      (set_assignments (<[aid := finish_record ok seq (elapsed since now) r]> (assignments st)) st,
       Ok (assignment r, elapsed since now))) as Hacc.
  { intros r (Hr & He & Hs & Hn). destruct (wf_entry _ _ _ Hwf Hr) as (_ & _ & _ & _ & Hok).
    rewrite Hs in Hok. destruct Hok as (_ & [since Hsince] & _). exists since.
    split_and!; [done|unfold elapsed; lia|].
    unfold terminal. rewrite (proj2 (validate_Ok st aid eid seq r)) by done.
    by rewrite bool_decide_true, Hsince. }
  split_and!; [|done|].
  - split; [|intros (r & (since & _ & _ & ->)%Hacc); by eexists _, _].
    unfold terminal. intros (a & d & H). destruct (validate st aid eid seq) as [r|] eqn:Hv; [|done].
    apply validate_Ok in Hv as (Hr & He & Hn). case_match eqn:Hs; bool_facts; [done|]. by exists r.
  - intros e. unfold terminal. destruct (validate st aid eid seq) as [r|e'] eqn:Hv.
    + apply validate_Ok in Hv as (Hr & He & Hn). case_match eqn:Hs; bool_facts; [by intros [= <-]|].
      destruct (Hacc r) as (since & -> & _); [by split_and!|]. done.
    + intros [= <-]. split; [done|]. unfold validate in Hv. intros ->.
      destruct (assignments st !! aid); simpl in Hv; repeat case_match; simplify_eq.
Qed.

(** C10: errors are atomic: a call of [enqueue], [started], [progress], [metrics] or
    [terminal] that returns an error leaves the whole state as it was. *)
Theorem rejected_calls_change_nothing st :
  (∀ a e, (enqueue a st).2 = Err e → (enqueue a st).1 = st)
  ∧ (∀ now ev e, (started now ev st).2 = Err e → (started now ev st).1 = st)
  ∧ (∀ ev e, (progress ev st).2 = Err e → (progress ev st).1 = st)
  ∧ (∀ ev e, (metrics ev st).2 = Err e → (metrics ev st).1 = st)
  ∧ (∀ now aid eid seq ok e, (terminal now aid eid seq ok st).2 = Err e →
       (terminal now aid eid seq ok st).1 = st).
Proof.
  split_and!; intros *; [unfold enqueue|unfold started|unfold progress|unfold metrics|unfold terminal];
    repeat case_match; by intros.
Qed.

(** C11: [cancel] finds a channel exactly when the assignment is known, assigned or
    running, and its session still connected; the command goes to the channel of the
    session that holds the assignment and names that assignment and its execution. *)
Theorem cancel_targets_holder st aid reason sender cmd :
  reachable st →
  cancel_command aid reason st = Ok (sender, cmd) ↔
  ∃ r s, assignments st !! aid = Some r ∧ session_id r = Some s ∧ sessions st !! s = Some sender
    ∧ (ar_state r = AS_Assigned ∨ ar_state r = AS_Running)
    ∧ ae_assignment_id (assignment r) = aid
    ∧ cmd = mkWorkerCommand (Some (CmdCancelExecution
              (mkCancelExecution (ae_assignment_id (assignment r)) (ae_execution_id (assignment r)) reason))).
Proof.
  intros Hwf%reachable_wf. unfold cancel_command. rewrite result_bind_Ok. setoid_rewrite ok_or_Ok.
  setoid_rewrite result_bind_Ok. setoid_rewrite ok_or_Ok. setoid_rewrite result_bind_Ok.
  setoid_rewrite ok_or_Ok. split.
  - intros (r & Hr & s & Hs & c & Hc & [= <- <-]). destruct (wf_entry _ _ _ Hwf Hr) as (Ha & _ & _ & _ & Hok).
    exists r, s. rewrite Ha. split_and!; try done. destruct (ar_state r); naive_solver.
  - intros (r & s & ? & ? & ? & _ & Ha & ->). rewrite Ha. naive_solver.
Qed.
End spec.

(** ** Evaluated examples *)

Module PendingExamples.
Import Concrete.

Definition demo_assignment (id eid : string) : AssignExecutionRequest :=
  mkAssignExecutionRequest id eid "job" None "" "json" None None None.

(** Two assignments; the first is started, measured and completed by session [s], the
    second is handed to the same session. *)
Definition demo_ops : list op :=
  [ OpEnqueue (demo_assignment "a1" "e1");
    OpEnqueue (demo_assignment "a2" "e2");
    OpRegisterSession "s" 0;
    OpNextFor "s";
    OpStarted 5 (mkExecutionStarted "a1" "e1" 1 None 0%Z);
    OpMetrics (mkExecutionMetrics "a1" "e1" 2 0%Z);
    OpNextFor "s";
    OpTerminal 9 "a1" "e1" 3 true ].

Definition demo_after (n : nat) : PendingState :=
  default pending_default (run_ops (take n demo_ops) pending_default).

Definition demo_state_of (n : nat) (id : string) : option AssignmentState :=
  ar_state <$> assignments (demo_after n) !! id.

Lemma demo_reachable_8 : reachable (demo_after 8).
Proof. eapply (run_ops_reachable (take 8 demo_ops)); [constructor|]. vm_refl. Qed.
Lemma demo_reachable_7 : reachable (demo_after 7).
Proof. eapply (run_ops_reachable (take 7 demo_ops)); [constructor|]. vm_refl. Qed.
Lemma demo_reachable_2 : reachable (demo_after 2).
Proof. eapply (run_ops_reachable (take 2 demo_ops)); [constructor|]. vm_refl. Qed.

Example demo_states :
  demo_state_of 8 "a1" = Some AS_Succeeded ∧ demo_state_of 8 "a2" = Some AS_Assigned
  ∧ queue (demo_after 8) = [] ∧ queue (demo_after 2) = ["a1"; "a2"].
Proof. split_and!; vm_refl. Qed.

Lemma pending_invariant_witness :
  queue (demo_after 2) = ["a1"; "a2"] ∧ pending_wf (demo_after 2) ∧ pending_wf (demo_after 8).
Proof.
  split; [vm_refl|]. split; apply (pending_invariant _).
  - exact demo_reachable_2.
  - exact demo_reachable_8.
Defined.

Lemma calls_never_panic_witness :
  ∃ st', apply_op (OpNextFor "s2") (demo_after 2) = Some st' ∧ reachable st'.
Proof. exact (calls_never_panic (demo_after 2) (OpNextFor "s2") demo_reachable_2). Defined.

Lemma pending_refines_work_queue_witness :
  spec_step (abs (demo_after 7)) (abs (demo_after 8)).
Proof.
  apply (pending_refines_work_queue (demo_after 7) (OpTerminal 9 "a1" "e1" 3 true) (demo_after 8)).
  - exact demo_reachable_7.
  - vm_refl.
Defined.

(** The session goes away after the first assignment has succeeded. *)
Definition demo_gone : PendingState :=
  default pending_default (run_ops [OpDisconnect "s"; OpNextFor "t"] (demo_after 8)).

Lemma demo_steps : steps any_op (demo_after 8) demo_gone.
Proof.
  eapply (run_ops_steps _ [OpDisconnect "s"; OpNextFor "t"]); [by repeat constructor|].
  vm_refl.
Qed.

Definition demo_record (id : string) : AssignmentRecord :=
  default (fresh_record (demo_assignment "" "")) (assignments (demo_after 8) !! id).

Lemma finished_is_final_witness :
  ar_state (demo_record "a1") = AS_Succeeded ∧ assignments demo_gone !! "a1" = Some (demo_record "a1").
Proof.
  split; [vm_refl|].
  apply (finished_is_final (demo_after 8) demo_gone "a1" (demo_record "a1") demo_reachable_8 demo_steps).
  - vm_refl.
  - left. vm_refl.
Defined.

Lemma assignments_never_lost_witness :
  ∃ r', assignments demo_gone !! "a2" = Some r' ∧ grows (demo_record "a2") r'.
Proof.
  apply (assignments_never_lost (demo_after 8) demo_gone "a2" (demo_record "a2") demo_reachable_8 demo_steps).
  vm_refl.
Defined.

Lemma no_double_dispatch_witness :
  ae_assignment_id (demo_assignment "a2" "e2") ≠ ae_assignment_id (demo_assignment "a1" "e1").
Proof.
  apply (no_double_dispatch (demo_after 3) "s" (demo_assignment "a1" "e1")
           (next_for "s" (demo_after 3)).1 (demo_after 6) "s" (demo_assignment "a2" "e2") (demo_after 7)).
  - eapply (run_ops_reachable (take 3 demo_ops)); [constructor|]. vm_refl.
  - vm_refl.
  - eapply (run_ops_steps _ (drop 4 (take 6 demo_ops))).
    + repeat constructor; discriminate.
    + vm_refl.
  - vm_refl.
Defined.

(** Two sessions, a session that goes away and its assignment handed out again last. *)
Definition demo_fifo_ops : list op :=
  [ OpEnqueue (demo_assignment "a1" "e1"); OpEnqueue (demo_assignment "a2" "e2"); OpNextFor "s";
    OpEnqueue (demo_assignment "a3" "e3"); OpDisconnect "s"; OpNextFor "t" ].

Lemma queue_is_fifo_witness :
  along handed_by demo_fifo_ops pending_default = ["a1"; "a2"]
  ∧ along given_by demo_fifo_ops pending_default = ["a1"; "a2"; "a3"; "a1"]
  ∧ along handed_by demo_fifo_ops pending_default
      ++ queue (default pending_default (run_ops demo_fifo_ops pending_default))
    = queue pending_default ++ along given_by demo_fifo_ops pending_default.
Proof.
  split; [vm_refl|]. split; [vm_refl|].
  apply (queue_is_fifo demo_fifo_ops pending_default
           (default pending_default (run_ops demo_fifo_ops pending_default)) reach_default).
  apply default_Some. vm_refl.
Defined.

Lemma disconnect_gives_back_witness :
  ∃ st' back, disconnect "s" (demo_after 8) = Some (st', bool_decide (back ≠ []))
    ∧ queue st' = queue (demo_after 8) ++ back.
Proof.
  destruct (disconnect_gives_back (demo_after 8) "s" demo_reachable_8) as (st' & back & H1 & H2 & _).
  exists st', back. split; [exact H1|exact H2].
Defined.

Lemma terminal_accepts_witness :
  ∃ since, started_at (default (fresh_record (demo_assignment "" "")) (assignments (demo_after 7) !! "a1")) = Some since
    ∧ (terminal 9 "a1" "e1" 3 true (demo_after 7)).2 = Ok (demo_assignment "a1" "e1", 4%Z)
    ∧ ¬ ∃ a d, (terminal 9 "a2" "e2" 3 true (demo_after 7)).2 = Ok (a, d).
Proof.
  destruct (terminal_accepts (demo_after 7) 9 "a1" "e1" 3 true demo_reachable_7) as (_ & H & _).
  destruct (H (default (fresh_record (demo_assignment "" "")) (assignments (demo_after 7) !! "a1")))
    as (since & Hs & _ & Ht).
  - split_and!; [vm_refl..|].
    intros last Hl. assert (Some 2%Z = Some last) as [= <-]; [rewrite <-Hl; vm_refl|lia].
  - exists since. split; [exact Hs|]. split; [vm_refl|].
    rewrite (proj1 (terminal_accepts (demo_after 7) 9 "a2" "e2" 3 true demo_reachable_7)).
    intros (r & Hr & _ & Hrun & _). assert (demo_state_of 7 "a2" = Some AS_Assigned) as Hst by vm_refl.
    unfold demo_state_of in Hst. rewrite Hr in Hst. simpl in Hst. congruence.
Defined.

Lemma cancel_targets_holder_witness :
  ∃ r s, assignments (demo_after 8) !! "a2" = Some r ∧ session_id r = Some s ∧ sessions (demo_after 8) !! s = Some 0.
Proof.
  destruct (proj1 (cancel_targets_holder (demo_after 8) "a2" (Some "stop") 0
    (mkWorkerCommand (Some (CmdCancelExecution (mkCancelExecution "a2" "e2" (Some "stop"))))) demo_reachable_8))
    as (r & s & H1 & H2 & H3 & _).
  - vm_refl.
  - exists r, s. split_and!; [exact H1|exact H2|exact H3].
Defined.
End PendingExamples.
