(* ===== verification/WorkerRegistry.v ===== *)
(** * Worker membership ([src/worker_registry.rs])

    The traits [WorkerDirectory] and [WorkerRegistry], the identifiers of worker
    incarnations, and the in-memory registry with its leases. *)

From Stdlib Require Import Ascii.
From S2P Require Import Prelude RustStr Prog Protocol.

(** ** Interfaces *)

(** [WorkerDirectoryError] and [WorkerRegistryError] are their messages. *)
Abbreviation WorkerDirectoryError := string (only parsing).
Abbreviation WorkerRegistryError := string (only parsing).

Inductive RegistrationOutcome : Set := New | Idempotent | Replaced.
Inductive HeartbeatError : Set := UnknownWorker | StaleGeneration | RegistryUnavailable.

#[export] Instance RegistrationOutcome_eq_dec : EqDecision RegistrationOutcome.
Proof. solve_decision. Defined.
#[export] Instance HeartbeatError_eq_dec : EqDecision HeartbeatError.
Proof. solve_decision. Defined.

(** Read-only membership view used by placement, over the directory's state [S]. *)
Class WorkerDirectory (S : Type) := {
  available_workers : prog S WorkerDirectoryError (list string)
}.

(** Membership updates performed by the runtime API. *)
Class WorkerRegistry `{P : Protocols} (S : Type) := {
  registry_directory :: WorkerDirectory S;
  register : WorkerRegistration → prog S WorkerRegistryError RegistrationOutcome;
  heartbeat : string → string → prog S HeartbeatError unit
}.

(** ** Worker incarnation identifiers *)

Definition worker_incarnation_id (worker_id generation : string) : string :=
  show (Z.of_nat (len worker_id)) +:+ ":" +:+ worker_id +:+ generation.

Definition parse_worker_incarnation_id (value : string) : option (string * string) :=
  '(length, identity) ← split_once ":" value;
  worker_length ← parse_u64 length;
  if bool_decide (worker_length = 0%Z)
     || bool_decide (Z.of_nat (len identity) ≤ worker_length)%Z
     || negb (is_char_boundary identity (Z.to_nat worker_length))
  then None
  else
    '(worker_id, generation) ← split_at (Z.to_nat worker_length) identity;
    if bool_decide (generation = "") then None else Some (worker_id, generation).

(** ** The in-memory registry *)

(** The latest [Instant] a 64-bit count of seconds can represent, in nanoseconds. *)
Definition instant_max : Z := 2 ^ 63 * 1000000000 - 1.

Section memory.
Context `{P : Protocols} `{PF : Platform} `{HO : HashMapOrder}.

Record RegisteredWorker := mkRegisteredWorker {
  registration : WorkerRegistration;
  registered_at : Z;
  last_heartbeat_at : option Z
}.

Record MemoryEntry := mkMemoryEntry { me_worker : RegisteredWorker; expires_at : Z }.

(** [mw_poisoned] is the poison flag of the lock around [workers]; [mw_ticks] counts the
    clock readings the registry has taken. *)
Record MemoryWorkerRegistry := mkMemoryWorkerRegistry {
  mw_poisoned : bool;
  workers : gmap string MemoryEntry;
  membership_ttl : Z;
  mw_ticks : nat
}.

(** [MemoryWorkerRegistry::new]: the assertion on the TTL panics ([None]). *)
Definition memory_registry_new (ttl : Z) : option MemoryWorkerRegistry :=
  if bool_decide (ttl = 0)%Z then None else Some (mkMemoryWorkerRegistry false ∅ ttl 0).

Definition memory_registry_default : option MemoryWorkerRegistry :=
  memory_registry_new (30 * 1000000000).

Definition set_workers (ws : gmap string MemoryEntry) (n : nat) (m : MemoryWorkerRegistry)
    : MemoryWorkerRegistry :=
  mkMemoryWorkerRegistry (mw_poisoned m) ws (membership_ttl m) n.

(** [Instant::now() + self.membership_ttl], with the clock reading [n]; overflow panics. *)
Definition expiry (m : MemoryWorkerRegistry) (n : nat) : option Z :=
  let t := (instant_at n + membership_ttl m)%Z in
  if bool_decide (t ≤ instant_max)%Z then Some t else None.

(** A panic while the write lock is held poisons it. *)
Definition poison (ws : gmap string MemoryEntry) (n : nat) (m : MemoryWorkerRegistry)
    : MemoryWorkerRegistry :=
  mkMemoryWorkerRegistry true ws (membership_ttl m) n.

(** The entry of a worker if its lease has not run out. *)
Definition live_entry (now : Z) (ws : gmap string MemoryEntry) (id : string) : option MemoryEntry :=
  e ← ws !! id; if bool_decide (now < expires_at e)%Z then Some e else None.

Definition overflow_message : string := "overflow when adding duration to instant".

Definition memory_register (r : WorkerRegistration) (m : MemoryWorkerRegistry)
    : MemoryWorkerRegistry * outcome WorkerRegistryError RegistrationOutcome :=
  if mw_poisoned m then (m, Failed "worker registry lock is poisoned")
  else
    let n := mw_ticks m in
    let now := instant_at n in
    let insert_new (o : RegistrationOutcome) :=
      let registered := system_time_at (S n) in
      match expiry m (S (S n)) with
      | None => (poison (workers m) (S (S (S n))) m, Panicked overflow_message)
      | Some t =>
        (set_workers
           (<[wr_worker_id r := mkMemoryEntry (mkRegisteredWorker r registered None) t]> (workers m))
           (S (S (S n))) m, Done o)
      end in
    match live_entry now (workers m) (wr_worker_id r) with
    | None => insert_new New
    | Some entry =>
      if bool_decide (wr_generation (registration (me_worker entry)) = wr_generation r) then
        match expiry m (S n) with
        | None => (poison (workers m) (S (S n)) m, Panicked overflow_message)
        | Some t =>
          (set_workers (<[wr_worker_id r := mkMemoryEntry (me_worker entry) t]> (workers m)) (S (S n)) m,
           Done Idempotent)
        end
      else insert_new Replaced
    end.

Definition memory_heartbeat (worker_id generation : string) (m : MemoryWorkerRegistry)
    : MemoryWorkerRegistry * outcome HeartbeatError unit :=
  if mw_poisoned m then (m, Failed RegistryUnavailable)
  else
    let n := mw_ticks m in
    let now := instant_at n in
    match live_entry now (workers m) worker_id with
    | None => (set_workers (workers m) (S n) m, Failed UnknownWorker)
    | Some entry =>
      if negb (bool_decide (wr_generation (registration (me_worker entry)) = generation)) then
        (set_workers (workers m) (S n) m, Failed StaleGeneration)
      else
        let seen := mkRegisteredWorker (registration (me_worker entry))
                      (registered_at (me_worker entry)) (Some (system_time_at (S n))) in
        match expiry m (S (S n)) with
        | None =>
          (poison (<[worker_id := mkMemoryEntry seen (expires_at entry)]> (workers m)) (S (S (S n))) m,
           Panicked overflow_message)
        | Some t =>
          (set_workers (<[worker_id := mkMemoryEntry seen t]> (workers m)) (S (S (S n))) m, Done tt)
        end
    end.

(** [available_workers] reads the clock before it takes the lock. *)
Definition memory_list (now : Z) (m : MemoryWorkerRegistry)
    : MemoryWorkerRegistry * outcome WorkerDirectoryError (list string) :=
  if mw_poisoned m then (m, Failed "worker registry lock is poisoned")
  else
    let ws := filter (λ e, (now < expires_at e.2)%Z) (workers m) in
    (set_workers ws (mw_ticks m) m, Done (sort_strings (hashmap_iter ws).*1)).

Definition memory_available_workers : prog MemoryWorkerRegistry WorkerDirectoryError (list string) :=
  now ← atomic (λ m, (set_workers (workers m) (S (mw_ticks m)) m, instant_at (mw_ticks m)));
  section (memory_list now).

#[export] Instance memory_directory : WorkerDirectory MemoryWorkerRegistry :=
  {| available_workers := memory_available_workers |}.

#[export] Instance memory_worker_registry : WorkerRegistry MemoryWorkerRegistry :=
  {| register r := section (memory_register r);
     heartbeat w g := section (memory_heartbeat w g) |}.

(** The test-only [MemoryWorkerRegistry::get]. *)
Definition memory_get (worker_id : string) (m : MemoryWorkerRegistry) : option RegisteredWorker :=
  if mw_poisoned m then None
  else me_worker <$> live_entry (instant_at (mw_ticks m)) (workers m) worker_id.
End memory.
