(* ===== verification/WorkerRegistrySpec.v ===== *)
(** * Correctness of worker membership

    Incarnation identifiers decode to what they encode; the in-memory registry lists
    exactly the workers with a running lease, renews a lease only for the generation
    that holds it, and lets a silent worker go. *)

From Stdlib Require Import Ascii.
From S2P Require Import Prelude RustStr Prog Protocol Concrete WorkerRegistry.

(** ** Incarnation identifiers *)

Lemma colon_not_digit : is_digit ":" = false.
Proof. done. Qed.

Lemma parse_identity (w g : string) :
  w ≠ "" → g ≠ "" → is_char_boundary (w +:+ g) (len w) = true →
  (Z.of_nat (len w) ≤ usize_max)%Z →
  parse_worker_incarnation_id (worker_incarnation_id w g) = Some (w, g).
Proof.
  intros Hw Hg Hb Hl. unfold parse_worker_incarnation_id, worker_incarnation_id.
  rewrite (proj2 (split_once_char ":" _ (show (Z.of_nat (len w))) (w +:+ g)));
    [|split; [done|apply show_not_in; [lia|done]]].
  simpl. rewrite parse_u64_show by (unfold usize_max in Hl; lia). simpl.
  rewrite Nat2Z.id, Hb. assert (len w ≠ 0 ∧ len g ≠ 0) as [??] by (by destruct w, g).
  rewrite !bool_decide_false by (rewrite ?len_app; lia). simpl.
  rewrite split_at_app by done. simpl. by rewrite bool_decide_false.
Qed.

(** C12: a worker incarnation identifier decodes to the worker id and the generation it
    was built from, for all non-empty strings (both may contain colons and digits). *)
Theorem incarnation_roundtrip (worker_id generation : string) :
  worker_id ≠ "" → generation ≠ "" → utf8 generation = true →
  (Z.of_nat (len worker_id) ≤ usize_max)%Z →
  parse_worker_incarnation_id (worker_incarnation_id worker_id generation) = Some (worker_id, generation).
Proof. intros. apply parse_identity; try done. by apply is_char_boundary_app. Qed.

Lemma incarnation_roundtrip_witness :
  parse_worker_incarnation_id (worker_incarnation_id "worker:1" "2:g") = Some ("worker:1", "2:g").
Proof.
  apply (incarnation_roundtrip "worker:1" "2:g"); [discriminate|discriminate|reflexivity|].
  vm_compute. discriminate.
Defined.

(** What the parser accepts has the form [length ":" worker_id generation] with a
    decimal length equal to the length of the worker id and both parts non-empty; in
    particular the slicing inside it never fails. *)
Lemma parse_incarnation_sound (value worker_id generation : string) :
  parse_worker_incarnation_id value = Some (worker_id, generation) →
  worker_id ≠ "" ∧ generation ≠ ""
  ∧ ∃ length, value = length +:+ ":" +:+ worker_id +:+ generation
      ∧ (":"%char ∉ chars length) ∧ parse_u64 length = Some (Z.of_nat (len worker_id)).
Proof.
  unfold parse_worker_incarnation_id. destruct (split_once ":" value) as [[d identity]|] eqn:Hs; simpl; [|done].
  apply split_once_char in Hs as [-> Hd]. destruct (parse_u64 d) as [n|] eqn:Hn; simpl; [|done].
  apply parse_u64_bounds in Hn as Hb. destruct (_ || _) eqn:Hc; [done|].
  apply orb_false_iff in Hc as [[Hc1 Hc2]%orb_false_iff Hc3]. bool_facts.
  unfold split_at. rewrite Hc3. simpl. case_bool_decide as Hg; [done|]. intros [= <- <-].
  assert (len (String.substring 0 (Z.to_nat n) identity) = Z.to_nat n) as Hl
    by (apply substring_prefix_len; lia).
  split_and!; [|done|].
  - intros He. rewrite He in Hl. simpl in Hl. lia.
  - exists d. rewrite substring_cut by lia. rewrite Hl, Z2Nat.id by lia. done.
Qed.

(** Distinct incarnations have distinct identifiers: the encoding is injective in
    the worker id and the generation together. *)
Lemma incarnation_injective (w1 g1 w2 g2 : string) :
  worker_incarnation_id w1 g1 = worker_incarnation_id w2 g2 → w1 = w2 ∧ g1 = g2.
Proof.
  unfold worker_incarnation_id. intros H.
  apply str_cut_unique in H as [Hl H]; [|apply show_not_in; [lia|done]..].
  apply (inj pretty) in Hl. apply str_app_inv_len in H; [done|lia].
Qed.

(** ** The in-memory registry *)

Section memory.
Context `{P : Protocols} `{PF : Platform} `{HO : HashMapOrder}.
Implicit Types (m : MemoryWorkerRegistry) (r : WorkerRegistration) (e : MemoryEntry).

(** The worker [id] has, at time [t], a running lease held by [generation]. *)
Definition holds_lease m (t : Z) (id generation : string) : Prop :=
  ∃ e, workers m !! id = Some e ∧ (t < expires_at e)%Z
       ∧ wr_generation (registration (me_worker e)) = generation.

Lemma live_entry_Some now ws id e :
  live_entry now ws id = Some e ↔ ws !! id = Some e ∧ (now < expires_at e)%Z.
Proof.
  unfold live_entry. destruct (ws !! id) as [e'|]; simpl; [|naive_solver].
  case_bool_decide; naive_solver.
Qed.

Lemma live_entry_None now ws id :
  live_entry now ws id = None ↔ ∀ e, ws !! id = Some e → (expires_at e ≤ now)%Z.
Proof.
  unfold live_entry. destruct (ws !! id) as [e'|]; simpl; [|naive_solver].
  case_bool_decide; split; try naive_solver.
  - intros H0. specialize (H0 e' eq_refl). lia.
  - intros _ e [= <-]. lia.
Qed.

Lemma run_available m :
  run available_workers m = memory_list (instant_at (mw_ticks m)) (set_workers (workers m) (S (mw_ticks m)) m).
Proof.
  unfold available_workers, memory_directory, memory_available_workers.
  rewrite run_bind, run_atomic, run_section. unfold memory_list. cbn [fst snd].
  by destruct (mw_poisoned _).
Qed.

(** C15: [available_workers] lists exactly the workers whose lease is still running at
    the clock reading it takes, each once and in byte order, and forgets the others. *)
Theorem available_workers_exact m :
  mw_poisoned m = false →
  ∃ m' ids, run available_workers m = (m', Done ids)
    ∧ Sorted String.le ids ∧ NoDup ids
    ∧ (∀ id, id ∈ ids ↔ ∃ generation, holds_lease m (instant_at (mw_ticks m)) id generation)
    ∧ (∀ id e, workers m' !! id = Some e ↔
         workers m !! id = Some e ∧ (instant_at (mw_ticks m) < expires_at e)%Z).
Proof.
  intros Hp. rewrite run_available. unfold memory_list. simpl. rewrite Hp.
  set (ws := filter _ (workers m)). eexists _, _. split; [done|]. split_and!.
  - apply sort_strings_sorted.
  - rewrite sort_strings_perm, hashmap_iter_perm. apply NoDup_fst_map_to_list.
  - intros id. rewrite sort_strings_perm, hashmap_iter_perm, list_elem_of_fmap. unfold holds_lease. split.
    + intros ([id' e] & -> & [He ?]%elem_of_map_to_list%map_lookup_filter_Some). eauto.
    + intros (g & e & He & ? & _). exists (id, e). split; [done|].
      by apply elem_of_map_to_list, map_lookup_filter_Some.
  - intros id e. simpl. apply map_lookup_filter_Some.
Qed.

(** Every lease the registry could grant from now on fits the clock. *)
Definition clock_fits m : Prop :=
  ∀ n, n ≤ mw_ticks m + 2 → (instant_at n + membership_ttl m ≤ instant_max)%Z.

Lemma expiry_fits m n : clock_fits m → n ≤ mw_ticks m + 2 → expiry m n = Some (instant_at n + membership_ttl m)%Z.
Proof. intros H Hn. unfold expiry. by rewrite bool_decide_true by auto. Qed.

(** An entry is live when, and only when, some generation holds a running lease. *)
Lemma live_entry_lease m t id :
  match live_entry t (workers m) id with
  | Some e => ∀ g, holds_lease m t id g ↔ wr_generation (registration (me_worker e)) = g
  | None => ∀ g, ¬ holds_lease m t id g
  end.
Proof.
  unfold holds_lease. destruct (live_entry t (workers m) id) as [e|] eqn:Hlive.
  - apply live_entry_Some in Hlive as [He Hlt]. naive_solver.
  - intros g (e & He & Hlt & _). eapply live_entry_None in Hlive; [|done]. lia.
Qed.

(** C16: a registration succeeds and leaves its worker, and changes no other, with a lease
    held by the registered generation that ends exactly the TTL after a reading of the
    clock taken during the call.  At the time of the call it reports [New] exactly when no
    generation held a running lease, [Idempotent] exactly when the registered one did, and
    [Replaced] exactly when another one did.  An [Idempotent] call keeps the worker as
    first stored (its registration, registration time and last heartbeat); any other stores
    the new registration, without a heartbeat. *)
Theorem register_grants_lease m r :
  mw_poisoned m = false → clock_fits m →
  let lease := holds_lease m (instant_at (mw_ticks m)) (wr_worker_id r) in
  ∃ m' e out, run (register r) m = (m', Done out)
    ∧ workers m' = <[wr_worker_id r := e]> (workers m)
    ∧ (out = New ↔ ¬ ∃ g, lease g)
    ∧ (out = Idempotent ↔ lease (wr_generation r))
    ∧ (out = Replaced ↔ ∃ g, g ≠ wr_generation r ∧ lease g)
    ∧ (out = Idempotent → me_worker <$> workers m !! wr_worker_id r = Some (me_worker e))
    ∧ (out ≠ Idempotent → registration (me_worker e) = r ∧ last_heartbeat_at (me_worker e) = None)
    ∧ wr_generation (registration (me_worker e)) = wr_generation r
    ∧ (∃ n, mw_ticks m < n < mw_ticks m' ∧ expires_at e = (instant_at n + membership_ttl m)%Z)
    ∧ mw_poisoned m' = false ∧ membership_ttl m' = membership_ttl m.
Proof.
  intros Hp Hf lease. cbn [register memory_worker_registry]. rewrite run_section. unfold memory_register.
  rewrite Hp, !expiry_fits by (done || lia). subst lease.
  pose proof (live_entry_lease m (instant_at (mw_ticks m)) (wr_worker_id r)) as Hl.
  destruct (live_entry _ _ _) as [e|] eqn:Hlive; [case_bool_decide as Hg; apply live_entry_Some in Hlive as [He _]|];
    (eexists _, _, _; split; [done|]; simpl; split; [done|]).
  - rewrite He. split_and!; naive_solver.
  - split_and!; try naive_solver. exists (S (S (mw_ticks m))). split; [lia|done].
  - split_and!; try naive_solver. exists (S (S (mw_ticks m))). split; [lia|done].
Qed.

(** C17: a heartbeat is accepted exactly when the worker's lease is running and held by
    the heartbeat's generation; it then renews the lease for the full TTL and records the
    time, keeping the registration.  A heartbeat for a worker without a running lease is
    [UnknownWorker], one of another generation [StaleGeneration]; neither changes any
    entry. *)
Theorem heartbeat_renews_holder `{!PlatformOk PF} m id generation :
  mw_poisoned m = false → clock_fits m →
  (holds_lease m (instant_at (mw_ticks m)) id generation →
     ∃ m' e e', run (heartbeat id generation) m = (m', Done tt)
       ∧ workers m !! id = Some e ∧ workers m' = <[id := e']> (workers m)
       ∧ registration (me_worker e') = registration (me_worker e)
       ∧ is_Some (last_heartbeat_at (me_worker e'))
       ∧ (instant_at (mw_ticks m) + membership_ttl m ≤ expires_at e')%Z)
  ∧ (¬ holds_lease m (instant_at (mw_ticks m)) id generation →
     ∃ m' err, run (heartbeat id generation) m = (m', Failed err) ∧ workers m' = workers m
       ∧ (err = StaleGeneration ↔ ∃ g, holds_lease m (instant_at (mw_ticks m)) id g)
       ∧ (err = UnknownWorker ↔ ¬ ∃ g, holds_lease m (instant_at (mw_ticks m)) id g)).
Proof.
  intros Hp Hf. cbn [heartbeat memory_worker_registry]. rewrite run_section. unfold memory_heartbeat. rewrite Hp.
  destruct (live_entry _ _ _) as [e|] eqn:Hlive.
  - apply live_entry_Some in Hlive as [He Hlt]. split.
    + intros (e0 & He0 & _ & Hg). simplify_eq. rewrite bool_decide_true by done. simpl.
      rewrite expiry_fits by (done || lia). eexists _, e, _. split; [done|]. simpl. split_and!; eauto.
      apply Z.add_le_mono_r, instant_mono. lia.
    + intros Hno. rewrite bool_decide_false; [|intros Hg; apply Hno; by exists e]. simpl.
      eexists _, _. split; [done|]. simpl. unfold holds_lease. naive_solver.
  - pose proof (proj1 (live_entry_None _ _ _) Hlive) as Hnone. split.
    + intros (e & He & Hlt & _). apply Hnone in He. lia.
    + intros _. eexists _, _. split; [done|]. simpl. split_and!; try done.
      * split; [done|]. intros (g & e & He & Hlt & _). apply Hnone in He. lia.
      * split; [|done]. intros _ (g & e & He & Hlt & _). apply Hnone in He. lia.
Qed.

(** *** Sequences of calls *)

(** A call to the registry by anyone: a worker, the API or the scheduler. *)
Inductive registry_call : Type :=
| CallRegister (r : WorkerRegistration)
| CallHeartbeat (id generation : string)
| CallList.

Definition after_call (c : registry_call) m : MemoryWorkerRegistry :=
  match c with
  | CallRegister r => (run (register r) m).1
  | CallHeartbeat id generation => (run (heartbeat id generation) m).1
  | CallList => (run available_workers m).1
  end.

Definition after_calls (cs : list registry_call) m : MemoryWorkerRegistry :=
  fold_left (λ m c, after_call c m) cs m.

(** What a call can leave behind as the entry of [id]: the old registration and lease; a
    lease for the generation the call registers; or the holder's lease renewed.  A new
    lease ends at most a TTL after the clock reading that follows the call. *)
Definition entry_after (c : registry_call) m (id : string) e' : Prop :=
  (∃ e, workers m !! id = Some e ∧ registration (me_worker e') = registration (me_worker e)
        ∧ expires_at e' = expires_at e)
  ∨ (expires_at e' ≤ instant_at (mw_ticks (after_call c m)) + membership_ttl m)%Z
    ∧ ((∃ r, c = CallRegister r ∧ wr_worker_id r = id
             ∧ wr_generation (registration (me_worker e')) = wr_generation r)
       ∨ ∃ e, c = CallHeartbeat id (wr_generation (registration (me_worker e)))
             ∧ workers m !! id = Some e ∧ registration (me_worker e') = registration (me_worker e)).

Lemma expiry_Some m n t : expiry m n = Some t → t = (instant_at n + membership_ttl m)%Z.
Proof. unfold expiry. case_bool_decide; congruence. Qed.

Lemma after_call_ttl c m : membership_ttl (after_call c m) = membership_ttl m.
Proof.
  destruct c as [r|id g|]; unfold after_call; [..|rewrite run_available; unfold memory_list; by case_match].
  - cbn [register memory_worker_registry]. rewrite run_section. unfold memory_register. by split_matches.
  - cbn [heartbeat memory_worker_registry]. rewrite run_section. unfold memory_heartbeat. by split_matches.
Qed.

Lemma after_call_ticks c m : mw_ticks m ≤ mw_ticks (after_call c m).
Proof.
  destruct c as [r|id g|]; unfold after_call;
    [..|rewrite run_available; unfold memory_list; case_match; simpl; lia].
  - cbn [register memory_worker_registry]. rewrite run_section. unfold memory_register.
    repeat case_match; simplify_eq/=; lia.
  - cbn [heartbeat memory_worker_registry]. rewrite run_section. unfold memory_heartbeat.
    repeat case_match; simplify_eq/=; lia.
Qed.

Context `{!PlatformOk PF}.

Lemma entry_kept c m id e : workers m !! id = Some e → entry_after c m id e.
Proof. intros. left. eauto. Qed.

Lemma entry_renewed c m id n w t :
  expiry m n = Some t → n ≤ mw_ticks (after_call c m) →
  ((∃ r, c = CallRegister r ∧ wr_worker_id r = id ∧ wr_generation (registration w) = wr_generation r)
   ∨ ∃ e, c = CallHeartbeat id (wr_generation (registration (me_worker e)))
       ∧ workers m !! id = Some e ∧ registration w = registration (me_worker e)) →
  entry_after c m id (mkMemoryEntry w t).
Proof.
  intros ->%expiry_Some Hn Hwho. right. split; [|done]. by apply Z.add_le_mono_r, instant_mono.
Qed.

Lemma after_register r m :
  after_call (CallRegister r) m = (memory_register r m).1.
Proof.
  unfold after_call. cbn [register memory_worker_registry]. rewrite run_section.
  unfold memory_register. by split_matches.
Qed.

Lemma after_heartbeat id g m :
  after_call (CallHeartbeat id g) m = (memory_heartbeat id g m).1.
Proof.
  unfold after_call. cbn [heartbeat memory_worker_registry]. rewrite run_section.
  unfold memory_heartbeat. by split_matches.
Qed.

Lemma after_register_entry r m id e' :
  workers (after_call (CallRegister r) m) !! id = Some e' → entry_after (CallRegister r) m id e'.
Proof.
  pose proof (entry_renewed (CallRegister r) m id) as Hnew. rewrite after_register in *.
  unfold memory_register in *. destruct (mw_poisoned m); [apply entry_kept|].
  destruct (live_entry _ _ _) as [e|] eqn:Hlive; [case_bool_decide as Hg|];
    (destruct (expiry m _) as [t|] eqn:Ht; simpl in *; [|apply entry_kept]);
    (intros [[<- <-]|[_ ?]]%lookup_insert_Some; [|by apply entry_kept]);
    (eapply Hnew; [done|simpl; lia|eauto]).
Qed.

Lemma after_heartbeat_entry id0 g m id e' :
  workers (after_call (CallHeartbeat id0 g) m) !! id = Some e' → entry_after (CallHeartbeat id0 g) m id e'.
Proof.
  pose proof (entry_renewed (CallHeartbeat id0 g) m id) as Hnew. rewrite after_heartbeat in *.
  unfold memory_heartbeat in *. destruct (mw_poisoned m); [apply entry_kept|].
  destruct (live_entry _ _ _) as [e|] eqn:Hlive; [|intros; by apply entry_kept].
  apply live_entry_Some in Hlive as [He _]. case_bool_decide as Hg; simpl in *; [|intros; by apply entry_kept].
  destruct (expiry m _) as [t|] eqn:Ht; simpl in *;
    (intros [[<- <-]|[_ ?]]%lookup_insert_Some; [|by apply entry_kept]); [|by left; eauto].
  eapply Hnew; [done|simpl; lia|]. right. exists e. by subst g.
Qed.

Lemma after_call_entry c m id e' :
  workers (after_call c m) !! id = Some e' → entry_after c m id e'.
Proof.
  destruct c; [apply after_register_entry|apply after_heartbeat_entry|].
  unfold after_call. rewrite run_available. unfold memory_list. case_match; simpl; [apply entry_kept|].
  intros [? _]%map_lookup_filter_Some. by apply entry_kept.
Qed.

(** A property of a worker's entry that every allowed call keeps holds after all of them. *)
Lemma after_calls_invariant (Inv : MemoryWorkerRegistry → Prop) (allowed : registry_call → Prop) cs m :
  (∀ c m, allowed c → Inv m → Inv (after_call c m)) →
  Forall allowed cs → Inv m → Inv (after_calls cs m).
Proof.
  intros Hstep Hcs. revert m. induction Hcs as [|c cs Hc _ IH]; intros m Hm; [done|]. simpl. apply IH, Hstep; auto.
Qed.

(** The entry of [id], if any, is not of [generation]. *)
Definition not_of (id generation : string) m : Prop :=
  ∀ e, workers m !! id = Some e → wr_generation (registration (me_worker e)) ≠ generation.

Definition registers (id generation : string) (c : registry_call) : Prop :=
  ∃ r, c = CallRegister r ∧ wr_worker_id r = id ∧ wr_generation r = generation.

Lemma not_of_call id generation c m :
  ¬ registers id generation c → not_of id generation m → not_of id generation (after_call c m).
Proof.
  unfold not_of, registers. intros Hc Hm e' He' Hg.
  destruct (after_call_entry _ _ _ _ He') as [(e & He & Hr & _)|[_ [(r & -> & Hid & Hr)|(e & -> & He & Hr)]]].
  - apply (Hm _ He). congruence.
  - apply Hc. exists r. split_and!; congruence.
  - apply (Hm _ He). congruence.
Qed.

Lemma not_of_heartbeat id generation m :
  mw_poisoned m = false → not_of id generation m →
  ∃ m' err, run (heartbeat id generation) m = (m', Failed err) ∧ workers m' = workers m.
Proof.
  intros Hp Hm. cbn [heartbeat memory_worker_registry]. rewrite run_section. unfold memory_heartbeat.
  rewrite Hp. destruct (live_entry _ _ _) as [e|] eqn:Hlive; [|by eauto].
  apply live_entry_Some in Hlive as [He _]. rewrite bool_decide_false by (by apply Hm). simpl. by eauto.
Qed.

(** C18: fencing.  Once the entry of a worker is not of a generation (another one has
    replaced it, or it never registered), then whatever calls follow, a heartbeat of that
    generation is refused and changes no entry, as long as that generation does not
    register again. *)
Theorem stale_generation_fenced m id generation cs :
  not_of id generation m →
  Forall (λ c, ¬ registers id generation c) cs →
  mw_poisoned (after_calls cs m) = false →
  ∃ m' err, run (heartbeat id generation) (after_calls cs m) = (m', Failed err)
    ∧ workers m' = workers (after_calls cs m).
Proof.
  intros Hm Hcs Hp. apply not_of_heartbeat; [done|]. revert Hcs Hm. apply after_calls_invariant.
  intros c m0. apply not_of_call.
Qed.

(** No lease ends later than a TTL after the clock's current reading. *)
Definition leases_bounded m : Prop :=
  ∀ id e, workers m !! id = Some e → (expires_at e ≤ instant_at (mw_ticks m) + membership_ttl m)%Z.

Lemma leases_bounded_call c m : leases_bounded m → leases_bounded (after_call c m).
Proof.
  intros Hm id e' He'. rewrite after_call_ttl.
  pose proof (instant_mono (PF:=PF) _ _ (after_call_ticks c m)).
  destruct (after_call_entry _ _ _ _ He') as [(e & He & _ & ->)|[? _]]; [|done].
  specialize (Hm _ _ He). lia.
Qed.

Definition concerns (id : string) (c : registry_call) : Prop :=
  match c with
  | CallRegister r => wr_worker_id r = id
  | CallHeartbeat id' _ => id' = id
  | CallList => False
  end.

(** The lease of [id], if any, ends at [t] at the latest. *)
Definition ends_by (id : string) (t : Z) m : Prop :=
  ∀ e, workers m !! id = Some e → (expires_at e ≤ t)%Z.

Lemma ends_by_call id t c m : ¬ concerns id c → ends_by id t m → ends_by id t (after_call c m).
Proof.
  intros Hc Hm e' He'.
  destruct (after_call_entry _ _ _ _ He') as [(e & He & _ & ->)|[_ [(r & -> & Hid & _)|(e & -> & _)]]]; [eauto|..];
    by destruct Hc.
Qed.

(** C19: a worker that falls silent is dropped.  After any calls from a fresh registry,
    if from then on nobody registers the worker or sends its heartbeat and the clock has
    advanced by the TTL, [available_workers] does not list it. *)
Theorem silent_worker_expires ttl m0 before id silent m' ids :
  memory_registry_new ttl = Some m0 →
  let m := after_calls before m0 in
  Forall (λ c, ¬ concerns id c) silent →
  (instant_at (mw_ticks m) + ttl ≤ instant_at (mw_ticks (after_calls silent m)))%Z →
  run available_workers (after_calls silent m) = (m', Done ids) →
  id ∉ ids.
Proof.
  intros Hnew m Hsilent Hclock Hrun Hin.
  assert (leases_bounded m ∧ membership_ttl m = ttl) as [Hb Httl].
  { apply (after_calls_invariant (λ m, leases_bounded m ∧ membership_ttl m = ttl) (λ _, True)).
    - intros c m1 _ [? <-]. split; [by apply leases_bounded_call|apply after_call_ttl].
    - by apply Forall_true.
    - unfold memory_registry_new in Hnew. case_bool_decide; simplify_eq/=. split; [|done].
      intros i e He. simpl in He. by rewrite lookup_empty in He. }
  assert (ends_by id (instant_at (mw_ticks m) + ttl) (after_calls silent m)) as He.
  { apply (after_calls_invariant (ends_by id _) (λ c, ¬ concerns id c)); [intros c m1; apply ends_by_call|done|].
    intros e He. rewrite <-Httl. eauto. }
  rewrite run_available in Hrun. unfold memory_list in Hrun. case_match; [done|]. injection Hrun as _ <-.
  rewrite sort_strings_perm, hashmap_iter_perm in Hin. apply list_elem_of_fmap in Hin as ([id' e] & -> & Hin).
  apply elem_of_map_to_list, map_lookup_filter_Some in Hin as [Hin Hlt]. apply He in Hin. simpl in *. lia.
Qed.

End memory.

(** ** Examples *)

Module RegistryExamples.
Import Concrete.

Definition demo_registration (id generation : string) : WorkerRegistration :=
  {| wr_worker_id := id; wr_node_id := None; wr_generation := generation;
     wr_implementation_version := "0.1.0"; wr_protocol_versions := ["v1"];
     wr_endpoint := "http://worker:50061"; wr_executors := []; wr_capacity := None;
     wr_metadata := None |}.

(** A registry with a TTL of ten milliseconds, ten readings of the clock. *)
Definition demo_fresh : MemoryWorkerRegistry := mkMemoryWorkerRegistry false ∅ 10000000 0.
Definition demo_two : MemoryWorkerRegistry :=
  after_calls [CallRegister (demo_registration "w2" "g1"); CallRegister (demo_registration "w1" "g1")] demo_fresh.

Lemma available_workers_exact_witness :
  ∃ m' ids, run available_workers demo_two = (m', Done ids) ∧ Sorted String.le ids ∧ NoDup ids.
Proof.
  destruct (available_workers_exact demo_two) as (m' & ids & H1 & H2 & H3 & _); [vm_refl|].
  exists m', ids. split_and!; [exact H1|exact H2|exact H3].
Defined.

Lemma demo_two_clock_fits : clock_fits demo_two.
Proof.
  assert (mw_ticks demo_two = 6) as Ht by vm_refl.
  assert (membership_ttl demo_two = 10000000%Z) as Hl by vm_refl.
  unfold clock_fits. rewrite Ht, Hl. intros n Hn. unfold instant_max, instant_at, concrete_platform. lia.
Qed.

Lemma demo_two_w1 :
  workers demo_two !! "w1" = Some (mkMemoryEntry
    (mkRegisteredWorker (demo_registration "w1" "g1") 1700000000004000000 None) 15000000).
Proof. vm_refl. Qed.

Lemma register_grants_lease_witness :
  ∃ m' e, run (register (demo_registration "w1" "g2")) demo_two = (m', Done Replaced)
    ∧ workers m' = <["w1" := e]> (workers demo_two)
    ∧ registration (me_worker e) = demo_registration "w1" "g2".
Proof.
  destruct (register_grants_lease demo_two (demo_registration "w1" "g2"))
    as (m' & e & out & H1 & H2 & _ & _ & H3 & _ & H4 & _); [vm_refl|exact demo_two_clock_fits|].
  assert (out = Replaced) as ->.
  { apply H3. exists "g1". split; [discriminate|]. eexists. split; [exact demo_two_w1|].
    assert (instant_at (mw_ticks demo_two) = 6000000%Z) as -> by vm_refl. simpl. split; [lia|reflexivity]. }
  exists m', e. split_and!; [exact H1|exact H2|apply H4; discriminate].
Defined.

Lemma heartbeat_renews_holder_witness :
  (∃ m', run (heartbeat "w1" "g1") demo_two = (m', Done tt))
  ∧ ∃ m' err, run (heartbeat "w1" "g0") demo_two = (m', Failed err) ∧ workers m' = workers demo_two.
Proof.
  pose proof demo_two_w1 as He.
  assert (instant_at (mw_ticks demo_two) = 6000000%Z) as Hi by vm_refl. split.
  - destruct (proj1 (heartbeat_renews_holder demo_two "w1" "g1" ltac:(vm_refl) demo_two_clock_fits))
      as (m' & _ & _ & H & _); [|by exists m'].
    rewrite Hi. eexists. split; [exact He|]. split; [simpl; lia|reflexivity].
  - destruct (proj2 (heartbeat_renews_holder demo_two "w1" "g0" ltac:(vm_refl) demo_two_clock_fits))
      as (m' & err & H & Hw & _); [|exists m', err; split; [exact H|exact Hw]].
    intros (e & He' & _ & Hg). rewrite He in He'. injection He' as <-. discriminate Hg.
Defined.

Lemma stale_generation_fenced_witness :
  ∃ m' err, run (heartbeat "w1" "g1")
              (after_calls [CallList; CallHeartbeat "w1" "g2"]
                 (after_call (CallRegister (demo_registration "w1" "g2")) demo_two)) = (m', Failed err).
Proof.
  destruct (stale_generation_fenced (after_call (CallRegister (demo_registration "w1" "g2")) demo_two)
    "w1" "g1" [CallList; CallHeartbeat "w1" "g2"]) as (m' & err & H & _).
  - assert (workers (after_call (CallRegister (demo_registration "w1" "g2")) demo_two) !! "w1"
      = Some (mkMemoryEntry (mkRegisteredWorker (demo_registration "w1" "g2") 1700000000007000000 None) 18000000))
      as He by vm_refl.
    intros e He'. rewrite He in He'. injection He' as <-. discriminate.
  - repeat constructor; intros (r & Hc & _); discriminate Hc.
  - vm_refl.
  - exists m', err. exact H.
Defined.

Lemma silent_worker_expires_witness :
  "w1" ∉ ["w2"].
Proof.
  apply (silent_worker_expires 10000000 demo_fresh
    [CallRegister (demo_registration "w2" "g1"); CallRegister (demo_registration "w1" "g1")] "w1"
    [CallHeartbeat "w2" "g1"; CallHeartbeat "w2" "g1"; CallHeartbeat "w2" "g1"; CallHeartbeat "w2" "g1"]
    (run available_workers (after_calls [CallHeartbeat "w2" "g1"; CallHeartbeat "w2" "g1";
       CallHeartbeat "w2" "g1"; CallHeartbeat "w2" "g1"] demo_two)).1).
  - vm_refl.
  - repeat constructor; discriminate.
  - apply Z.leb_le. vm_refl.
  - vm_refl.
Defined.
End RegistryExamples.
