(* ===== verification/ExecutionStore.v ===== *)
(** * Execution records ([src/execution_store.rs])

    The trait [ExecutionStore] as an interface with the contract its clients rely on,
    and the in-memory implementation.  The Redis implementation is in
    [RedisExecutionStore.v]. *)

From S2P Require Import Prelude RustStr Prog Protocol.

Section record.
Context `{P : Protocols}.

Record ExecutionRecord := mkExecutionRecord {
  ex_execution_id : string;
  ex_job_id : string;
  ex_assignment_id : string;
  ex_worker_id : string;
  ex_state : ExecutionState;
  ex_created_at : Z;
  ex_updated_at : Z
}.

(** The record after a state update at time [t]. *)
Definition with_state (s : ExecutionState) (t : Z) (r : ExecutionRecord) : ExecutionRecord :=
  mkExecutionRecord (ex_execution_id r) (ex_job_id r) (ex_assignment_id r) (ex_worker_id r) s
    (ex_created_at r) t.

(** The fields the two records share, the time stamps aside. *)
Definition same_execution (r r' : ExecutionRecord) : Prop :=
  ex_execution_id r' = ex_execution_id r ∧ ex_job_id r' = ex_job_id r
  ∧ ex_assignment_id r' = ex_assignment_id r ∧ ex_worker_id r' = ex_worker_id r
  ∧ ex_state r' = ex_state r.
End record.

(** [ExecutionStoreError] is its message. *)
Abbreviation ExecutionStoreError := string (only parsing).

(** ** The trait *)

Class ExecutionStore `{P : Protocols} (S : Type) := {
  store_create : ExecutionRecord → prog S ExecutionStoreError unit;
  store_get : string → prog S ExecutionStoreError (option ExecutionRecord);
  store_update_state : string → ExecutionState → prog S ExecutionStoreError unit
}.

(** *** The contract

    The store is a map from execution identifiers to records; [create] never overwrites,
    [get] reads, [update_state] changes the state and the time of an existing record.  A
    call that fails either changed nothing or took effect (its answer was lost on the
    way).  Each call takes effect at one point. *)
Section contract.
Context `{P : Protocols}.

Definition created (r : ExecutionRecord) (m m' : gmap string ExecutionRecord) : Prop :=
  m !! ex_execution_id r = None
  ∧ ∃ r', same_execution r r' ∧ m' = <[ex_execution_id r := r']> m.

Definition create_spec (r : ExecutionRecord) (m : gmap string ExecutionRecord)
    (o : result string unit) (m' : gmap string ExecutionRecord) : Prop :=
  match o with
  | Ok _ => created r m m'
  | Err _ => m' = m ∨ created r m m'
  end.

Definition get_spec (id : string) (m : gmap string ExecutionRecord)
    (o : result string (option ExecutionRecord)) (m' : gmap string ExecutionRecord) : Prop :=
  m' = m ∧ ∀ r, o = Ok r → r = m !! id.

Definition updated (id : string) (st : ExecutionState) (m m' : gmap string ExecutionRecord) : Prop :=
  ∃ r t, m !! id = Some r ∧ m' = <[id := with_state st t r]> m.

Definition update_spec (id : string) (st : ExecutionState) (m : gmap string ExecutionRecord)
    (o : result string unit) (m' : gmap string ExecutionRecord) : Prop :=
  match o with
  | Ok _ => updated id st m m'
  | Err _ => m' = m ∨ updated id st m m'
  end.
End contract.

Class ExecutionStoreOk `{P : Protocols} {S} (X : ExecutionStore S) := {
  records : S → gmap string ExecutionRecord;
  create_lin r : lin records (create_spec r) (store_create r);
  get_lin id : lin records (get_spec id) (store_get id);
  update_lin id st : lin records (update_spec id st) (store_update_state id st)
}.

(** ** The in-memory store *)

Section memory.
Context `{P : Protocols} `{PF : Platform}.

(** [ms_poisoned] is the poison flag of the lock, [ms_ticks] the clock readings taken. *)
Record MemoryExecutionStore := mkMemoryExecutionStore {
  ms_poisoned : bool;
  executions : gmap string ExecutionRecord;
  ms_ticks : nat
}.

Definition memory_store_default : MemoryExecutionStore := mkMemoryExecutionStore false ∅ 0.

Definition memory_create (execution : ExecutionRecord) (m : MemoryExecutionStore)
    : MemoryExecutionStore * result ExecutionStoreError unit :=
  if ms_poisoned m then (m, Err "execution store lock is poisoned")
  else match executions m !! ex_execution_id execution with
  | Some _ => (m, Err "execution already exists")
  | None =>
    (mkMemoryExecutionStore false (<[ex_execution_id execution := execution]> (executions m)) (ms_ticks m),
     Ok tt)
  end.

Definition memory_get_execution (execution_id : string) (m : MemoryExecutionStore)
    : MemoryExecutionStore * result ExecutionStoreError (option ExecutionRecord) :=
  if ms_poisoned m then (m, Err "execution store lock is poisoned")
  else (m, Ok (executions m !! execution_id)).

Definition memory_update_state (execution_id : string) (state : ExecutionState) (m : MemoryExecutionStore)
    : MemoryExecutionStore * result ExecutionStoreError unit :=
  if ms_poisoned m then (m, Err "execution store lock is poisoned")
  else match executions m !! execution_id with
  | None => (m, Err "execution not found")
  | Some execution =>
    (mkMemoryExecutionStore false
       (<[execution_id := with_state state (system_time_at (ms_ticks m)) execution]> (executions m))
       (S (ms_ticks m)), Ok tt)
  end.

#[export] Instance memory_execution_store : ExecutionStore MemoryExecutionStore :=
  {| store_create r := critical (memory_create r);
     store_get id := critical (memory_get_execution id);
     store_update_state id st := critical (memory_update_state id st) |}.

Lemma same_execution_refl (r : ExecutionRecord) : same_execution r r.
Proof. done. Qed.

#[export] Instance memory_execution_store_ok : ExecutionStoreOk memory_execution_store.
Proof.
  refine {| records := executions |}.
  - intros r. apply lin_critical. intros s. unfold memory_create, create_spec, created.
    split_matches; eauto using same_execution_refl.
  - intros id. apply lin_critical. intros s. unfold memory_get_execution, get_spec. split_matches; naive_solver.
  - intros id st. apply lin_critical. intros s. unfold memory_update_state, update_spec, updated.
    split_matches; eauto.
Defined.
End memory.
