(* ===== verification/Broker.v ===== *)
(** * The broker boundary ([src/broker/mod.rs], [src/broker/routing.rs])

    The trait [Broker] with its contract, a queue per destination, and the routing of
    assignments.  The Redis implementation is in [RedisBroker.v]. *)

From S2P Require Import Prelude RustStr Prog Protocol.

(** [BrokerError] is its message. *)
Abbreviation BrokerError := string (only parsing).

Class Broker `{P : Protocols} (S : Type) := {
  publish : BrokerEnvelope → prog S BrokerError unit;
  consume : string → prog S BrokerError BrokerEnvelope
}.

(** *** The contract

    Each destination has a first-in first-out queue.  [publish] adds to the end of the
    envelope's destination; a failed [publish] added it or did nothing.  [consume] takes
    the front of its destination, and waits only while the queue is empty; a failed
    [consume] lost at most the front.  No other queue changes. *)
Section contract.
Context `{P : Protocols}.
Implicit Types q : string → list BrokerEnvelope.

Definition appended (e : BrokerEnvelope) q q' : Prop :=
  ∀ d, q' d = q d ++ (if decide (d = be_destination e) then [e] else []).

Definition publish_spec (e : BrokerEnvelope) q (o : result string unit) q' : Prop :=
  match o with
  | Ok _ => appended e q q'
  | Err _ => (∀ d, q' d = q d) ∨ appended e q q'
  end.

Definition consume_spec (d : string) q (o : result string BrokerEnvelope) q' : Prop :=
  (∀ d', d' ≠ d → q' d' = q d')
  ∧ match o with
    | Ok e => q d = e :: q' d
    | Err _ => q d = q' d ∨ ∃ e, q d = e :: q' d
    end.
End contract.

Class BrokerOk `{P : Protocols} {S} (B : Broker S) := {
  queued : S → string → list BrokerEnvelope;
  publish_lin e : lin queued (publish_spec e) (publish e);
  consume_lin d : lin queued (consume_spec d) (consume d);
  consume_waits d s s' : run (consume d) s = (s', Blocked) → queued s d = []
}.

(** ** Routing *)

Definition worker_destination (worker_id : string) : string := "workers." +:+ worker_id.

#[export] Instance worker_destination_inj : Inj (=) (=) worker_destination.
Proof. intros w1 w2 H. by apply str_app_inv_len in H as [_ ?]. Qed.
