(* ===== verification/ResultBackend.v ===== *)
(** * The result backend boundary ([src/result_backend/mod.rs])

    The trait [BackendResult] with its contract: a map from jobs to encoded results.
    The Redis implementation is in [RedisResultBackend.v]. *)

From S2P Require Import Prelude RustStr Prog Protocol.

(** [ResultBackendError], the associated error type of every implementation, is its
    message. *)
Abbreviation ResultBackendError := string (only parsing).

Class BackendResult `{P : Protocols} (S : Type) := {
  store_result : string → JobResult → prog S ResultBackendError unit
}.

(** [store_result] replaces the job's entry; a failed call may have done so too. *)
Definition store_result_spec `{P : Protocols} (job : string) (r : JobResult) (m : gmap string bytes)
    (o : result string unit) (m' : gmap string bytes) : Prop :=
  m' = <[job := encode_job_result r]> m ∨ (∃ e, o = Err e) ∧ m' = m.

Class BackendResultOk `{P : Protocols} {S} (X : BackendResult S) := {
  results : S → gmap string bytes;
  store_result_lin job r : lin results (store_result_spec job r) (store_result job r)
}.
