(* ===== verification/Local.v ===== *)
(** * Local implementations of the boundaries

    A broker of in-process queues, and the recording result backend of the service's own
    tests.  They meet the contracts, so the assumptions the theorems make on a broker and
    a backend can hold, and the evaluated examples run on them. *)

From S2P Require Import Prelude RustStr Prog Protocol Broker ResultBackend.

Section local.
Context `{P : Protocols}.

(** ** A broker in memory; [consume] waits on an empty queue. *)

Record LocalBroker := mkLocalBroker { local_queues : gmap string (list BrokerEnvelope) }.

Definition local_queue (b : LocalBroker) (d : string) : list BrokerEnvelope :=
  default [] (local_queues b !! d).

Definition set_queue (d : string) (q : list BrokerEnvelope) (b : LocalBroker) : LocalBroker :=
  mkLocalBroker (<[d := q]> (local_queues b)).

Definition local_publish (e : BrokerEnvelope) (b : LocalBroker) : LocalBroker * result BrokerError unit :=
  (set_queue (be_destination e) (local_queue b (be_destination e) ++ [e]) b, Ok tt).

Definition local_consume (d : string) (b : LocalBroker) : LocalBroker * outcome BrokerError BrokerEnvelope :=
  match local_queue b d with
  | [] => (b, Blocked)
  | e :: rest => (set_queue d rest b, Done e)
  end.

#[export] Instance local_broker : Broker LocalBroker :=
  {| publish e := critical (local_publish e); consume d := section (local_consume d) |}.

Lemma local_queue_set d q b d' : local_queue (set_queue d q b) d' = if decide (d' = d) then q else local_queue b d'.
Proof.
  unfold local_queue, set_queue. simpl. case_decide as Hd.
  - subst. by rewrite lookup_insert, decide_True.
  - by rewrite lookup_insert_ne.
Qed.

#[export] Instance local_broker_ok : BrokerOk local_broker.
Proof.
  refine {| queued := local_queue |}.
  - intros e. apply lin_critical. intros b d. cbn [local_publish fst]. rewrite local_queue_set.
    case_decide; subst; [done|]. by rewrite app_nil_r.
  - intros d. apply lin_section. intros b. unfold local_consume.
    destruct (local_queue b d) as [|e rest] eqn:Hq; [done|]. split.
    + intros d' Hd. rewrite local_queue_set. by rewrite decide_False.
    + by rewrite local_queue_set, decide_True.
  - intros d s s'. cbn [consume local_broker]. rewrite run_section. unfold local_consume.
    by destruct (local_queue s d).
Defined.

(** ** [RecordingResultBackend] *)

Record RecordingResultBackend := mkRecordingResultBackend { recorded_results : list (string * JobResult) }.

Definition recording_store (job : string) (r : JobResult) (b : RecordingResultBackend)
    : RecordingResultBackend * result ResultBackendError unit :=
  (mkRecordingResultBackend (recorded_results b ++ [(job, r)]), Ok tt).

#[export] Instance recording_backend : BackendResult RecordingResultBackend :=
  {| store_result job r := critical (recording_store job r) |}.

(** The latest result of each job. *)
Definition latest_results (b : RecordingResultBackend) : gmap string bytes :=
  fold_left (λ m e, <[e.1 := encode_job_result e.2]> m) (recorded_results b) ∅.

#[export] Instance recording_backend_ok : BackendResultOk recording_backend.
Proof.
  refine {| results := latest_results |}. intros job r. apply lin_critical. intros b. left.
  unfold latest_results. simpl. by rewrite fold_left_app.
Defined.
End local.
