(* ===== verification/Control.v ===== *)
(** * The control plane's state

    What one server process shares between its gRPC handlers and its scheduler
    ([src/api/grpc.rs], [serve]): the job table behind its lock, and the broker, result
    backend, worker registry and execution store behind their traits.  [control] has the
    states of the four as type parameters; a handler reaches each through a lens. *)

From S2P Require Import Prelude RustStr Prog Protocol.

Section control.
Context `{P : Protocols}.

Record JobRecord := mkJobRecord { job : Job; job_result : option JobResult }.

(** [Arc<RwLock<HashMap<String, JobRecord>>>] *)
Record JobTable := mkJobTable { jobs_poisoned : bool; jobs : gmap string JobRecord }.

(** ** Access to the state

    What a handler or the scheduler reaches of the state it runs in: the platform, the job
    table of its process, and the states of the broker, the result backend, the worker
    registry and the execution store.  Several of these may be one and the same, where
    the components share a database. *)
Class ControlState (W BS XS WS ES : Type) := {
  env_l : lens W env;
  jobs_l : lens W JobTable;
  broker_l : lens W BS;
  results_l : lens W XS;
  workers_l : lens W WS;
  executions_l : lens W ES;
  #[global] env_l_ok :: LensOk env_l;
  #[global] jobs_l_ok :: LensOk jobs_l;
  #[global] broker_l_ok :: LensOk broker_l;
  #[global] results_l_ok :: LensOk results_l;
  #[global] workers_l_ok :: LensOk workers_l;
  #[global] executions_l_ok :: LensOk executions_l
}.

(** ** One server with components of its own *)

Context {BS XS WS ES : Type}.

Record control := mkControl {
  c_env : env;
  c_jobs : JobTable;
  c_broker : BS;
  c_results : XS;
  c_workers : WS;
  c_executions : ES
}.

Definition c_env_l : lens control env :=
  Lens c_env (λ x c, mkControl x (c_jobs c) (c_broker c) (c_results c) (c_workers c) (c_executions c)).
Definition c_jobs_l : lens control JobTable :=
  Lens c_jobs (λ x c, mkControl (c_env c) x (c_broker c) (c_results c) (c_workers c) (c_executions c)).
Definition c_broker_l : lens control BS :=
  Lens c_broker (λ x c, mkControl (c_env c) (c_jobs c) x (c_results c) (c_workers c) (c_executions c)).
Definition c_results_l : lens control XS :=
  Lens c_results (λ x c, mkControl (c_env c) (c_jobs c) (c_broker c) x (c_workers c) (c_executions c)).
Definition c_workers_l : lens control WS :=
  Lens c_workers (λ x c, mkControl (c_env c) (c_jobs c) (c_broker c) (c_results c) x (c_executions c)).
Definition c_executions_l : lens control ES :=
  Lens c_executions (λ x c, mkControl (c_env c) (c_jobs c) (c_broker c) (c_results c) (c_workers c) x).

#[export] Instance c_env_l_ok : LensOk c_env_l.
Proof. by split; try intros []; intros. Qed.
#[export] Instance c_jobs_l_ok : LensOk c_jobs_l.
Proof. by split; try intros []; intros. Qed.
#[export] Instance c_broker_l_ok : LensOk c_broker_l.
Proof. by split; try intros []; intros. Qed.
#[export] Instance c_results_l_ok : LensOk c_results_l.
Proof. by split; try intros []; intros. Qed.
#[export] Instance c_workers_l_ok : LensOk c_workers_l.
Proof. by split; try intros []; intros. Qed.
#[export] Instance c_executions_l_ok : LensOk c_executions_l.
Proof. by split; try intros []; intros. Qed.

#[export] Instance control_state : ControlState control BS XS WS ES :=
  {| env_l := c_env_l; jobs_l := c_jobs_l; broker_l := c_broker_l; results_l := c_results_l;
     workers_l := c_workers_l; executions_l := c_executions_l |}.

(** [CoreExecutionService::with_stores]: a server process starts with no jobs, on stores
    that may hold what earlier processes left. *)
Definition with_stores (e : env) (broker : BS) (result_backend : XS) (worker_registry : WS) (execution_store : ES)
    : control :=
  mkControl e (mkJobTable false ∅) broker result_backend worker_registry execution_store.
End control.
Arguments control {_} BS XS WS ES.
#[export] Hint Mode ControlState + + - - - - : typeclass_instances.
