(* ===== verification/Scheduler.v ===== *)
(** * The scheduler ([src/scheduler/scheduler.rs])

    [schedule_one] takes one submitted task from the broker, records its execution and
    sends the assignment to a worker's queue; [scheduler_run] is the loop around it. *)

From S2P Require Import Prelude RustStr Prog Protocol WorkerRegistry ExecutionStore Broker.
From S2P Require Import Control.

Inductive DeferredReason : Set := NoWorkerAvailable.

Section scheduler.
Context `{P : Protocols} `{PF : Platform}.
Context {W BS XS WS ES : Type} `{CS : !ControlState W BS XS WS ES}
  `{B : !Broker BS} `{D : !WorkerDirectory WS} `{X : !ExecutionStore ES}.
Abbreviation control := W.

Inductive SchedulingDecision : Type :=
| Assigned (worker_id : string) (assignment : AssignExecutionRequest)
| Deferred (reason : DeferredReason).

(** The application a request names in its metadata. *)
Definition application_of (request : SubmitTaskRequest) : string :=
  default "" (metadata ← st_metadata request; md_entries metadata !! "application").

(** The task of the assignment: the request's, or one made from its names. *)
Definition assigned_task (request : SubmitTaskRequest) : option TaskIdentity :=
  match st_task request with
  | Some t => Some t
  | None => Some {| ti_namespace := st_application_namespace request;
                    ti_application := application_of request;
                    ti_name := st_task_name request;
                    ti_version := "" |}
  end.

Definition make_assignment (assignment_id execution_id job_id : string) (request : SubmitTaskRequest)
    : AssignExecutionRequest :=
  {| ae_assignment_id := assignment_id;
     ae_execution_id := execution_id;
     ae_job_id := job_id;
     ae_task := assigned_task request;
     ae_arguments := st_arguments request;
     ae_serialization_format := st_serialization_format request;
     ae_reserved_resources := st_resources request;
     ae_deadline := None;
     ae_metadata := st_metadata request |}.

Definition make_execution (a : AssignExecutionRequest) (worker_id : string) (now : Z) : ExecutionRecord :=
  {| ex_execution_id := ae_execution_id a;
     ex_job_id := ae_job_id a;
     ex_assignment_id := ae_assignment_id a;
     ex_worker_id := worker_id;
     ex_state := ES_Assigned;
     ex_created_at := now;
     ex_updated_at := now |}.

Definition assignment_envelope (message_id : string) (now : Z) (submitted : BrokerEnvelope)
    (worker_id : string) (a : AssignExecutionRequest) : BrokerEnvelope :=
  {| be_message_id := message_id;
     be_message_kind := "threadweave_protocols.runtime.v1.AssignExecutionRequest";
     be_schema_version := "v1";
     be_source := "threadweave-scheduler";
     be_destination := worker_destination worker_id;
     be_created_at := Some (timestamp_from now);
     be_expires_at := None;
     be_payload := encode_assign a;
     be_content_type := Some "application/protobuf";
     be_correlation_id := Some (ae_job_id a);
     be_causation_id := Some (be_message_id submitted);
     be_trace_context := be_trace_context submitted;
     be_routing_headers := None |}.

(** The assignment of a submitted task to a chosen worker: everything [schedule_one]
    does once it has a worker. *)
Definition dispatch (task_destination worker_id : string) : prog control BrokerError SchedulingDecision :=
  submitted ← zoom broker_l (consume task_destination);
  request ← lift_result (map_err (λ error, "invalid SubmitTaskRequest: " +:+ error)
                           (decode_submit (be_payload submitted)));
  job_id ← match be_correlation_id submitted with
           | Some id => mret id
           | None => zoom env_l new_uuid
           end;
  assignment_id ← zoom env_l new_uuid;
  execution_id ← zoom env_l new_uuid;
  let assignment := make_assignment assignment_id execution_id job_id request in
  now ← zoom env_l system_time_now;
  _ ← rethrow (λ error, "execution store is unavailable: " +:+ error)
        (zoom executions_l (store_create (make_execution assignment worker_id now)));
  message_id ← zoom env_l new_uuid;
  created_at ← zoom env_l system_time_now;
  _ ← zoom broker_l (publish (assignment_envelope message_id created_at submitted worker_id assignment));
  mret (Assigned worker_id assignment).

Definition schedule_one (task_destination : string) : prog control BrokerError SchedulingDecision :=
  workers ← rethrow (λ _, "worker directory is unavailable") (zoom workers_l available_workers);
  match head workers with
  | Some worker_id => dispatch task_destination worker_id
  | None => mret (Deferred NoWorkerAvailable)
  end.

(** [turns] turns of the loop of [Scheduler::run]; the sleep after a deferral does not
    touch the state.  The loop itself has no end but an error. *)
Fixpoint scheduler_run (task_destination : string) (turns : nat) : prog control BrokerError unit :=
  match turns with
  | 0 => mret tt
  | S turns =>
    decision ← schedule_one task_destination;
    match decision with
    | Deferred _ => scheduler_run task_destination turns
    | Assigned _ _ => scheduler_run task_destination turns
    end
  end.

(** The [select!] at the end of [serve]: the scheduler (0) and the gRPC server (1), which
    ends with [server_end] when it is polled.  The first to end ends [serve]; a turn of the
    scheduler the server's end interrupts is dropped between two of its accesses.  The
    scheduler is given [turns] turns. *)
Definition serve_select (task_destination : string) (turns : nat) (server_end : result string unit) (polls : list nat)
    : prog control string unit :=
  select_polls [scheduler_run task_destination turns ≫= (λ _, never); lift_result server_end] polls.
End scheduler.
