(* ===== verification/CoreService.v ===== *)
(** * The core service ([src/api/grpc.rs])

    [CoreExecutionService]: task submission with its rollback, execution reports, worker
    registration and heartbeats, and the job table they keep.  A handler is a program
    over [control]; the lock around the job table is taken once per critical section and
    released before every call to another component, so other handlers run in between. *)

From S2P Require Import Prelude RustStr Prog Protocol WorkerRegistry ExecutionStore Broker.
From S2P Require Import ResultBackend Control.

Section core.
Context `{P : Protocols} `{PF : Platform}.
Context {W BS XS WS ES : Type} `{CS : !ControlState W BS XS WS ES}
  `{B : !Broker BS} `{K : !BackendResult XS} `{G : !WorkerRegistry WS} `{X : !ExecutionStore ES}.
Abbreviation control := W.

(** ** The job table *)

(** A critical section on the job table that reads the clock. *)
Definition with_jobs {A} (f : Z → gmap string JobRecord → result Status (gmap string JobRecord * A))
    : prog control Status A :=
  critical (λ c,
    if jobs_poisoned (view jobs_l c) then (c, Err (internal "job store lock is poisoned"))
    else
      match f (system_time_at (env_ticks (view env_l c))) (jobs (view jobs_l c)) with
      | Err e => (c, Err e)
      | Ok (js, a) =>
        (put jobs_l (mkJobTable false js)
           (put env_l (mkEnv (S (env_ticks (view env_l c))) (env_uuids (view env_l c))) c), Ok a)
      end).

Definition set_running (now : Z) (r : JobRecord) : JobRecord :=
  let j := job r in
  mkJobRecord
    (mkJob (job_id j) (job_application_namespace j) (job_task_name j) (job_state_code JS_Running)
       (job_created_at j) (Some (timestamp_from now)) 1 (job_metadata j) (job_task j)
       (job_parent_execution_id j) (job_root_execution_id j))
    (job_result r).

Definition mark_job_running (job_id : string) : prog control Status unit :=
  with_jobs (λ now js,
    record ← ok_or (js !! job_id) (not_found "job not found");
    Ok (<[job_id := set_running now record]> js, tt)).

Definition set_result (now : Z) (result : JobResult) (r : JobRecord) : JobRecord :=
  let j := job r in
  mkJobRecord
    (mkJob (job_id j) (job_application_namespace j) (job_task_name j)
       (match jr_failure result with Some _ => job_state_code JS_Failed | None => job_state_code JS_Succeeded end)
       (job_created_at j) (Some (timestamp_from now)) (Z.max (job_attempt_number j) 1) (job_metadata j)
       (job_task j) (job_parent_execution_id j) (job_root_execution_id j))
    (Some result).

Definition store_job_result (job_id : string) (result : JobResult) : prog control Status unit :=
  with_jobs (λ now js,
    record ← ok_or (js !! job_id) (not_found "job not found");
    Ok (<[job_id := set_result now result record]> js, tt)).

(** ** Submission *)

Definition accepted_job (job_id : string) (now : Z) (request : SubmitTaskRequest) : Job :=
  {| job_id := job_id;
     job_application_namespace := st_application_namespace request;
     job_task_name := st_task_name request;
     job_state := job_state_code JS_Accepted;
     job_created_at := Some (timestamp_from now);
     job_updated_at := Some (timestamp_from now);
     job_attempt_number := 0;
     job_metadata := st_metadata request;
     job_task := st_task request;
     job_parent_execution_id := st_parent_execution_id request;
     job_root_execution_id := None |}.

Definition submission_envelope (task_destination message_id job_id : string) (now : Z)
    (request : SubmitTaskRequest) : BrokerEnvelope :=
  {| be_message_id := message_id;
     be_message_kind := "threadweave_protocols.execution.v1.SubmitTaskRequest";
     be_schema_version := "v1";
     be_source := "threadweave-api";
     be_destination := task_destination;
     be_created_at := Some (timestamp_from now);
     be_expires_at := None;
     be_payload := encode_submit request;
     be_content_type := Some "application/protobuf";
     be_correlation_id := Some job_id;
     be_causation_id := st_parent_execution_id request;
     be_trace_context := None;
     be_routing_headers := None |}.

(** The insertion of the new job, which fails when the lock is poisoned. *)
Definition insert_job (id : string) (r : JobRecord) : prog control Status unit :=
  critical (λ c,
    if jobs_poisoned (view jobs_l c) then (c, Err (internal "job store lock is poisoned"))
    else (put jobs_l (mkJobTable false (<[id := r]> (jobs (view jobs_l c)))) c, Ok tt)).

(** The rollback, which also removes the job from a poisoned table. *)
Definition remove_job (id : string) : prog control Status unit :=
  atomic (λ c, (put jobs_l (mkJobTable (jobs_poisoned (view jobs_l c)) (delete id (jobs (view jobs_l c)))) c, tt)).

Definition accepted_result : CommandResult :=
  {| cr_status := command_status_accepted; cr_error := None |}.

Definition accepted_job_result : JobResult :=
  {| jr_payload := encode_command_result accepted_result;
     jr_serialization_format := "application/protobuf";
     jr_failure := jr_failure default_job_result;
     jr_execution_id := jr_execution_id default_job_result;
     jr_rest := jr_rest default_job_result |}.

Definition accept (task_destination : string) (request : SubmitTaskRequest)
    : prog control Status SubmitTaskResponse :=
  now ← zoom env_l system_time_now;
  job_id ← zoom env_l new_uuid;
  let job := accepted_job job_id now request in
  message_id ← zoom env_l new_uuid;
  let envelope := submission_envelope task_destination message_id job_id now request in
  _ ← insert_job job_id (mkJobRecord job None);
  published ← attempt (zoom broker_l (publish envelope));
  match published with
  | Err _ =>
    _ ← remove_job job_id;
    Throw (unavailable "task broker is unavailable")
  | Ok _ =>
    _ ← rethrow (λ _, unavailable "result backend is unavailable")
          (zoom results_l (store_result job_id accepted_job_result));
    mret {| sr_job := Some job; sr_result := Some accepted_result |}
  end.

(** ** [RuntimeService] *)

Definition core_runtime_session : prog control Status unit :=
  Throw (unimplemented "runtime sessions connect to a Worker").

(** The outcome as stored: it names the execution it belongs to. *)
Definition own_outcome (execution_id : string) (o : JobResult) : JobResult :=
  {| jr_payload := jr_payload o; jr_serialization_format := jr_serialization_format o;
     jr_failure := jr_failure o; jr_execution_id := execution_id; jr_rest := jr_rest o |}.

Definition update_execution (id : string) (state : ExecutionState) : prog control Status unit :=
  rethrow (λ _, unavailable "execution store is unavailable") (zoom executions_l (store_update_state id state)).

(** The terminal branch: the outcome is persisted, then the execution's state, then the
    job's; [failed] is whether the reported state is [Failed]. *)
Definition report_terminal (report : ReportExecutionRequest) (job_id : string) (state : ExecutionState)
    (failed : bool) : prog control Status unit :=
  outcome ← lift_result (ok_or (re_outcome report) (invalid_argument "terminal report requires an outcome"));
  if failed && negb (bool_decide (is_Some (jr_failure outcome))) then
    Throw (invalid_argument "failed report requires failure information")
  else
    let outcome := own_outcome (re_execution_id report) outcome in
    _ ← rethrow (λ _, unavailable "result backend is unavailable")
          (zoom results_l (store_result job_id outcome));
    _ ← update_execution (re_execution_id report) state;
    store_job_result job_id outcome.

(** The [match] on the reported state. *)
Definition apply_report (report : ReportExecutionRequest) (job_id : string) (state : ExecutionState)
    : prog control Status unit :=
  match state with
  | ES_Running =>
    _ ← update_execution (re_execution_id report) state;
    mark_job_running job_id
  | ES_Succeeded => report_terminal report job_id state false
  | ES_Failed => report_terminal report job_id state true
  | _ => Throw (invalid_argument "unsupported execution report state")
  end.

Definition core_report_execution (report : ReportExecutionRequest) : prog control Status ReportExecutionResponse :=
  state ← lift_result (ok_or (execution_state_of (re_state report)) (invalid_argument "unknown execution state"));
  found ← rethrow (λ _, unavailable "execution store is unavailable")
            (zoom executions_l (store_get (re_execution_id report)));
  execution ← lift_result (ok_or found (not_found "execution not found"));
  _ ← apply_report report (ex_job_id execution) state;
  mret {| rer_accepted := true |}.

Definition core_register_runtime : prog control Status unit :=
  Throw (unimplemented "RegisterRuntime is outside this POC").

Definition heartbeat_status (e : HeartbeatError) : Status :=
  match e with
  | UnknownWorker => not_found "worker is not registered"
  | StaleGeneration => failed_precondition "worker generation is stale"
  | RegistryUnavailable => unavailable "worker registry is unavailable"
  end.

Definition core_report_heartbeat (request : option RuntimeHeartbeat) : prog control Status ReportHeartbeatResponse :=
  beat ← lift_result (ok_or request (invalid_argument "heartbeat is required"));
  identity ← lift_result (ok_or (parse_worker_incarnation_id (hb_runtime_id beat))
                            (invalid_argument "heartbeat runtime_id must identify a worker generation"));
  _ ← rethrow heartbeat_status (zoom workers_l (heartbeat identity.1 identity.2));
  mret {| rhr_accepted := true |}.

Definition core_register_worker (request : option WorkerRegistration) : prog control Status RegisterWorkerResponse :=
  registration ← lift_result (ok_or request (invalid_argument "registration is required"));
  if is_blank (wr_worker_id registration) then Throw (invalid_argument "worker_id is required")
  else if is_blank (wr_generation registration) then Throw (invalid_argument "generation is required")
  else
    _ ← rethrow internal (zoom workers_l (register registration));
    mret {| rwr_accepted := true; rwr_lease_id := None |}.

Definition core_assign_execution : prog control Status unit :=
  Throw (unimplemented "push assignment is outside this POC").

(** ** [ExecutionService] *)

Definition submit_task (task_destination : string) (request : SubmitTaskRequest)
    : prog control Status SubmitTaskResponse :=
  accept task_destination request.

Definition get_job (id : string) : prog control Status GetJobResponse :=
  critical (λ c,
    if jobs_poisoned (view jobs_l c) then (c, Err (internal "job store lock is poisoned"))
    else match jobs (view jobs_l c) !! id with
    | None => (c, Err (not_found "job not found"))
    | Some r => (c, Ok {| gj_job := Some (job r); gj_result := job_result r |})
    end).

Definition register_task : prog control Status unit :=
  Throw (unimplemented "RegisterTask is outside this POC").
Definition cancel_job : prog control Status unit :=
  Throw (unimplemented "CancelJob is outside this POC").
Definition list_executions : prog control Status unit :=
  Throw (unimplemented "ListExecutions is outside this POC").
Definition get_execution : prog control Status unit :=
  Throw (unimplemented "GetExecution is outside this POC").
End core.

(** [CoreExecutionService::new]: the service on stores in memory.  [None] when the
    constructor of the registry panics. *)
Definition core_service_new `{P : Protocols} {BS XS} (e : env) (broker : BS) (result_backend : XS)
    : option (control BS XS MemoryWorkerRegistry MemoryExecutionStore) :=
  registry ← memory_registry_default;
  Some (with_stores e broker result_backend registry memory_store_default).
