(* ===== verification/ControlLogic.v ===== *)
(** * The control plane under concurrency: the argument

    Handlers, schedulers and workers work on shared state.  [ControlView] is what the
    argument looks at in it: the job tables of the server processes, the queues, the
    execution records.  [ControlOk] is what it asks of the components of a server, call by
    call; against it every handler is shown to respect the invariant, whatever runs in
    between.  [ControlSpec.v] discharges it for a server with components of its own,
    [Fleet.v] for servers that share one Redis database. *)

From S2P Require Import Prelude RustStr Prog Protocol WorkerRegistry ExecutionStore.
From S2P Require Import Broker ResultBackend Control Scheduler CoreService.

(** ** What the argument looks at *)

(** [ctl_inv] is what the components keep of themselves, [ctl_table] the job table of each
    process, [ctl_queue] the queue of each destination among [ctl_dest]. *)
Class ControlView `{P : Protocols} (W : Type) := {
  ctl_inv : W → Prop;
  ctl_server : Type;
  ctl_table : ctl_server → W → JobTable;
  ctl_dest : string → Prop;
  ctl_queue : W → string → list BrokerEnvelope;
  ctl_records : W → gmap string ExecutionRecord
}.

Section view.
Context `{P : Protocols} {W : Type} `{CV : !ControlView W}.
Implicit Types w : W.

Definition same_tables w w' : Prop := ∀ i, ctl_table i w' = ctl_table i w.
Definition same_queues w w' : Prop := ∀ d, ctl_dest d → ctl_queue w' d = ctl_queue w d.
Definition same_records w w' : Prop := ctl_records w' = ctl_records w.
Definition same_view w w' : Prop := same_tables w w' ∧ same_queues w w' ∧ same_records w w'.

(** The effects of the calls that matter; each leaves the rest alone. *)
Definition queue_added (e : BrokerEnvelope) w w' : Prop :=
  ∀ d, ctl_dest d → ctl_queue w' d = ctl_queue w d ++ (if decide (d = be_destination e) then [e] else []).

Definition publish_effect (e : BrokerEnvelope) w (o : result string unit) w' : Prop :=
  same_tables w w' ∧ same_records w w'
  ∧ (queue_added e w w' ∨ is_ok o = false ∧ same_queues w w').

Definition consume_effect (d : string) w (o : result string BrokerEnvelope) w' : Prop :=
  same_tables w w' ∧ same_records w w'
  ∧ ∀ d', ctl_dest d' → ∀ e, e ∈ ctl_queue w' d' → e ∈ ctl_queue w d'.

Definition create_effect (r : ExecutionRecord) w (o : result string unit) w' : Prop :=
  same_tables w w' ∧ same_queues w w' ∧ create_spec r (ctl_records w) o (ctl_records w').

Definition get_effect (id : string) w (o : result string (option ExecutionRecord)) w' : Prop :=
  same_tables w w' ∧ same_queues w w' ∧ get_spec id (ctl_records w) o (ctl_records w').

Definition update_effect (id : string) (st : ExecutionState) w (o : result string unit) w' : Prop :=
  same_tables w w' ∧ same_queues w w' ∧ update_spec id st (ctl_records w) o (ctl_records w').

Lemma same_view_refl w : same_view w w.
Proof. by split_and!. Qed.
End view.

(** ** What it asks of a server's components *)

Class ControlOk `{P : Protocols} {W BS XS WS ES} `{CV : !ControlView W} (CS : ControlState W BS XS WS ES)
    `{B : !Broker BS} `{K : !BackendResult XS} `{G : !WorkerRegistry WS} `{X : !ExecutionStore ES} : Prop := {
  (** writing the process's own table leaves the others and the stores alone *)
  own_table : ∃ i, ∀ w, ctl_table i w = view jobs_l w;
  put_table t w : ctl_inv w →
    ctl_inv (put jobs_l t w) ∧ same_queues w (put jobs_l t w) ∧ same_records w (put jobs_l t w)
    ∧ ∀ i, ctl_table i (put jobs_l t w) = t ∨ ctl_table i (put jobs_l t w) = ctl_table i w;
  put_env e w : ctl_inv w → ctl_inv (put env_l e w) ∧ same_view w (put env_l e w);
  publish_ok e : ctl_dest (be_destination e) →
    takes_effect ctl_inv same_view (publish_effect e) (zoom broker_l (publish e));
  consume_ok d : ctl_dest d → takes_effect ctl_inv same_view (consume_effect d) (zoom broker_l (consume d));
  create_ok r : takes_effect ctl_inv same_view (create_effect r) (zoom executions_l (store_create r));
  get_ok id : takes_effect ctl_inv same_view (get_effect id) (zoom executions_l (store_get id));
  update_ok id st : takes_effect ctl_inv same_view (update_effect id st) (zoom executions_l (store_update_state id st));
  store_result_quiet job r : quiet ctl_inv same_view (zoom results_l (store_result job r));
  register_quiet r : quiet ctl_inv same_view (zoom workers_l (register r));
  heartbeat_quiet id g : quiet ctl_inv same_view (zoom workers_l (heartbeat id g));
  directory_quiet : quiet ctl_inv same_view (zoom workers_l available_workers)
}.

(** A task of a server, its result sent away. *)
Definition detached {W E A} (m : prog W E A) : prog W Empty_set unit := _ ← attempt m; mret tt.

(** What may start at any time in a server process: a request, a run of the scheduler; and
    what a worker does to the broker. *)
Section tasks.
Context `{P : Protocols} `{PF : Platform} {W BS XS WS ES : Type} (CS : ControlState W BS XS WS ES)
  `{B : !Broker BS} `{K : !BackendResult XS} `{G : !WorkerRegistry WS} `{X : !ExecutionStore ES}.
Context (task_destination : string).

Inductive control_task : prog W Empty_set unit → Prop :=
| TaskSubmit request : control_task (detached (submit_task task_destination request))
| TaskGetJob id : control_task (detached (get_job id))
| TaskReport report : control_task (detached (core_report_execution report))
| TaskHeartbeat h : control_task (detached (core_report_heartbeat h))
| TaskRegister r : control_task (detached (core_register_worker r))
| TaskScheduler turns : control_task (detached (scheduler_run task_destination turns))
| TaskServe turns server_end polls : control_task (detached (serve_select task_destination turns server_end polls))
| TaskConsume worker : control_task (detached (zoom broker_l (consume (worker_destination worker)))).
End tasks.

(** ** The invariant *)

Section invariant.
Context `{P : Protocols} {W : Type} `{CV : !ControlView W}.
Implicit Types w : W.

(** A job is accepted and untouched, running, or finished with the state its result says. *)
Definition job_ok (id : string) (r : JobRecord) : Prop :=
  job_id (job r) = id
  ∧ (job_state (job r) = job_state_code JS_Accepted ∧ job_attempt_number (job r) = 0%Z ∧ job_result r = None
     ∨ job_state (job r) = job_state_code JS_Running ∧ job_attempt_number (job r) = 1%Z
     ∨ ∃ o, job_result r = Some o ∧ job_attempt_number (job r) = 1%Z
         ∧ job_state (job r) = job_state_code (if jr_failure o is Some _ then JS_Failed else JS_Succeeded)).

(** The store has the execution [execution] of the job. *)
Definition executed (execution id : string) w : Prop :=
  ∃ x, ctl_records w !! execution = Some x ∧ ex_job_id x = id.

(** A job that is no longer only accepted has an execution, and the execution its result
    names is one of its own. *)
Definition job_traced (id : string) (r : JobRecord) w : Prop :=
  (job_state (job r) ≠ job_state_code JS_Accepted → ∃ execution, executed execution id w)
  ∧ ∀ o, job_result r = Some o → executed (jr_execution_id o) id w.

Definition table_ok w (t : JobTable) : Prop := ∀ id r, jobs t !! id = Some r → job_ok id r ∧ job_traced id r w.
Definition jobs_ok w : Prop := ∀ i, table_ok w (ctl_table i w).

(** The store has the execution of an assignment sent to [worker]. *)
Definition recorded (a : AssignExecutionRequest) (worker : string) w : Prop :=
  ∃ r, ctl_records w !! ae_execution_id a = Some r
    ∧ ex_execution_id r = ae_execution_id a ∧ ex_job_id r = ae_job_id a
    ∧ ex_assignment_id r = ae_assignment_id a ∧ ex_worker_id r = worker.

(** An envelope in a worker's queue carries an assignment whose execution is recorded for
    that worker. *)
Definition delivery_ok (e : BrokerEnvelope) (worker : string) w : Prop :=
  ∃ a, decode_assign (be_payload e) = Ok a ∧ be_correlation_id e = Some (ae_job_id a) ∧ recorded a worker w.

Definition deliveries_ok w : Prop :=
  ∀ worker e, e ∈ ctl_queue w (worker_destination worker) → delivery_ok e worker w.

Definition control_inv w : Prop := ctl_inv w ∧ jobs_ok w ∧ deliveries_ok w.

(** What every access respects: execution records are never removed, and keep their
    identifiers. *)
Definition records_grow w w' : Prop :=
  ∀ id r, ctl_records w !! id = Some r →
    ∃ r', ctl_records w' !! id = Some r'
      ∧ ex_execution_id r' = ex_execution_id r ∧ ex_job_id r' = ex_job_id r
      ∧ ex_assignment_id r' = ex_assignment_id r ∧ ex_worker_id r' = ex_worker_id r.

Lemma records_grow_same w w' : same_records w w' → records_grow w w'.
Proof. intros He id r. rewrite He. eauto 10. Qed.

Lemma recorded_grow a worker w w' : records_grow w w' → recorded a worker w → recorded a worker w'.
Proof.
  intros Hg (r & Hr & ?). destruct (Hg _ _ Hr) as (r' & ? & ?). exists r'. intuition congruence.
Qed.

Lemma recorded_stable a worker : stable records_grow (recorded a worker).
Proof. intros w w' ??. by eapply recorded_grow. Qed.

Lemma executed_stable execution id : stable records_grow (executed execution id).
Proof. intros w w' (x & Hx & Hid) Hg. destruct (Hg _ _ Hx) as (x' & ? & ? & ? & _). exists x'. split; [done|congruence]. Qed.

Lemma job_traced_grow id r w w' : records_grow w w' → job_traced id r w → job_traced id r w'.
Proof.
  intros Hg [H1 H2]. split.
  - intros Hs. destruct (H1 Hs) as [x Hx]. exists x. by eapply executed_stable.
  - intros o Ho. eapply executed_stable; [|done]. by apply H2.
Qed.

Lemma table_ok_grow w w' t : records_grow w w' → table_ok w t → table_ok w' t.
Proof. intros Hg Ht id r Hr. destruct (Ht id r Hr). eauto using job_traced_grow. Qed.

Lemma delivery_grow e worker w w' : records_grow w w' → delivery_ok e worker w → delivery_ok e worker w'.
Proof. intros ? (a & ?&?&?). exists a. eauto using recorded_grow. Qed.

Lemma true_stable : stable records_grow (λ _ : W, True).
Proof. done. Qed.

Lemma created_grow r w w' : created r (ctl_records w) (ctl_records w') → records_grow w w'.
Proof.
  intros (Hnone & r' & _ & Hs) id r0 Hr0. exists r0. split; [|done]. rewrite Hs.
  rewrite lookup_insert_ne; [done|]. congruence.
Qed.

Lemma updated_grow id st w w' : updated id st (ctl_records w) (ctl_records w') → records_grow w w'.
Proof.
  intros (r & t & Hr & Hs) id0 r0 Hr0. rewrite Hs. destruct (decide (id0 = id)) as [->|].
  - rewrite lookup_insert_eq. simplify_eq. by eexists.
  - rewrite lookup_insert_ne by done. by exists r0.
Qed.

(** A step that lets the records grow, changes no table and adds nothing to the workers'
    queues but recorded assignments. *)
Lemma control_inv_step w w' :
  control_inv w → ctl_inv w' → same_tables w w' → records_grow w w' →
  (∀ worker e, e ∈ ctl_queue w' (worker_destination worker) →
     e ∈ ctl_queue w (worker_destination worker) ∨ delivery_ok e worker w) →
  control_inv w'.
Proof.
  intros (_ & HJ & HD) Hinv Ht Hg Hq. split_and!; [done|intros i; rewrite Ht; by eapply table_ok_grow|].
  intros worker e [He|He]%Hq; eauto using delivery_grow.
Qed.

Context (dest_workers : ∀ worker, ctl_dest (worker_destination worker)).

Lemma control_inv_silent w w' : control_inv w → ctl_inv w' → same_view w w' → control_inv w' ∧ records_grow w w'.
Proof.
  intros HI Hinv (Ht & Hq & Hr). pose proof (records_grow_same _ _ Hr). split; [|done].
  eapply control_inv_step; [done..|]. intros worker e. rewrite Hq by done. auto.
Qed.
End invariant.

(** ** Handlers *)

Section handlers.
Context `{P : Protocols} `{PO : !ProtocolsOk P} `{PF : Platform} {W BS XS WS ES : Type}
  `{CV : !ControlView W} {CS : ControlState W BS XS WS ES}
  `{B : !Broker BS} `{K : !BackendResult XS} `{G : !WorkerRegistry WS} `{X : !ExecutionStore ES}
  `{CO : !ControlOk CS}.
Context (task_destination : string) (dest_task : ctl_dest task_destination)
  (dest_workers : ∀ worker, ctl_dest (worker_destination worker)).
(** The task queue is not the queue of a worker. *)
Context (task_queue_apart : ∀ worker, task_destination ≠ worker_destination worker).
Implicit Types (w : W) (Q : W → Prop).

Abbreviation holds := (rg True control_inv records_grow).
Abbreviation sound m := (holds (λ _, True) m (λ _ _, True)).

Lemma holds_effect {E A} Q (m : prog W E A) effect Post :
  takes_effect ctl_inv same_view effect m → stable records_grow Q → (∀ r, stable records_grow (Post r)) →
  (∀ w w' r, control_inv w → Q w → ctl_inv w' → effect w r w' → control_inv w' ∧ records_grow w w' ∧ Post r w') →
  holds Q m Post.
Proof.
  intros Hm HQ HP Hc. eapply rg_takes_effect; [..|done|done|done|exact Hc].
  - by intros w [? _].
  - intros w w' ???. by apply control_inv_silent.
Qed.

Lemma holds_quiet {E A} Q (m : prog W E A) :
  quiet ctl_inv same_view m → stable records_grow Q → holds Q m (λ _, Q).
Proof.
  intros Hm HQ. eapply rg_quiet; [..|done|exact Hm|done].
  - by intros w [? _].
  - intros w w' ???. by apply control_inv_silent.
Qed.

Lemma holds_env {E A} Q (m : prog env E A) : stable records_grow Q → holds Q (zoom env_l m) (λ _, Q).
Proof. intros. apply holds_quiet; [|done]. apply quiet_zoom. intros w s. apply put_env. Qed.

(** *** Broker and execution store *)

(** Publication to a queue that is not a worker's, or of a recorded assignment. *)
Lemma holds_publish e Q :
  ctl_dest (be_destination e) → stable records_grow Q →
  (∀ w worker, Q w → be_destination e = worker_destination worker → delivery_ok e worker w) →
  holds Q (zoom broker_l (publish e)) (λ _, Q).
Proof.
  intros Hd HQ He. eapply holds_effect; [by apply publish_ok|done|done|].
  intros w w' o HI Hw Hinv (Ht & Hr & Ho). pose proof (records_grow_same _ _ Hr) as Hg.
  split_and!; [|done|by eapply HQ]. eapply control_inv_step; [done..|]. intros worker e'.
  destruct Ho as [Ho|[_ Ho]]; rewrite Ho by done; [|by auto]. intros [?|He']%elem_of_app; [by auto|].
  case_decide as Heq; [|set_solver]. right. apply list_elem_of_singleton in He' as ->. by apply He.
Qed.

Lemma holds_consume d Q :
  ctl_dest d → stable records_grow Q → holds Q (zoom broker_l (consume d)) (λ _, Q).
Proof.
  intros Hd HQ. eapply holds_effect; [by apply consume_ok|done|done|].
  intros w w' o HI Hw Hinv (Ht & Hr & Ho). pose proof (records_grow_same _ _ Hr) as Hg.
  split_and!; [|done|by eapply HQ]. eapply control_inv_step; [done..|]. intros worker e He. left. by eapply Ho.
Qed.

(** A call to the store that lets the records grow. *)
Lemma executions_step w w' :
  control_inv w → ctl_inv w' → same_tables w w' → same_queues w w' → records_grow w w' → control_inv w'.
Proof. intros HI Hinv Ht Hq Hg. eapply control_inv_step; [done..|]. intros worker e. rewrite Hq by done. auto. Qed.

(** A record that was created stays. *)
Lemma holds_create a worker now :
  holds (λ _, True) (zoom executions_l (store_create (make_execution a worker now)))
    (λ o w, is_ok o = true → recorded a worker w).
Proof.
  eapply holds_effect; [apply create_ok|done| |].
  { intros o w w' Hw Hg Ho. by eapply recorded_grow, Hw. }
  intros w w' o HI _ Hinv (Ht & Hq & Ho).
  assert (records_grow w w') as Hg.
  { destruct o; simpl in Ho; [|destruct Ho as [Ho|Ho]; [by apply records_grow_same|]]; by eapply created_grow. }
  split_and!; [by apply (executions_step w)|done|]. destruct o; [intros _|done].
  destruct Ho as (_ & r' & Hsame & Hs). exists r'. simpl in *. rewrite Hs, lookup_insert_eq.
  destruct Hsame as (?&?&?&?&?). done.
Qed.

(** The execution that was found stays the job's. *)
Lemma holds_get id :
  holds (λ _, True) (zoom executions_l (store_get id))
    (λ o w, ∀ x, o = Ok (Some x) → executed id (ex_job_id x) w).
Proof.
  eapply holds_effect; [apply get_ok|done| |].
  { intros o w w' Hw Hg x Hx. by eapply executed_stable, Hg; apply Hw. }
  intros w w' o HI _ Hinv (Ht & Hq & Hs & Ho). pose proof (records_grow_same w w' Hs).
  split_and!; [by apply (executions_step w)|done|]. intros x ->. exists x. rewrite Hs. split; [|done].
  by rewrite (Ho _ eq_refl).
Qed.

Lemma holds_update id st Q : stable records_grow Q → holds Q (update_execution id st) (λ _, Q).
Proof.
  intros HQ. apply rg_rethrow. eapply holds_effect; [apply update_ok|done|done|].
  intros w w' o HI Hw Hinv (Ht & Hq & Ho).
  assert (records_grow w w') as Hg.
  { destruct o; simpl in Ho; [|destruct Ho as [Ho|Ho]; [by apply records_grow_same|]]; by eapply updated_grow. }
  split_and!; [by apply (executions_step w)|done|by eapply HQ].
Qed.

(** *** The job table *)

(** Writing a table that is in order. *)
Lemma write_table w t :
  control_inv w → (table_ok w (view jobs_l w) → table_ok w t) →
  control_inv (put jobs_l t w) ∧ records_grow w (put jobs_l t w).
Proof.
  intros (Hinv & HJ & HD) Hok. destruct (put_table t w Hinv) as (Hinv' & Hq & Hr & Ht).
  pose proof (records_grow_same _ _ Hr) as Hg. split; [|done]. split_and!; [done| |].
  - destruct own_table as [o Ho]. intros i. eapply table_ok_grow; [done|].
    destruct (Ht i) as [->| ->]; [|apply HJ]. apply Hok. rewrite <-Ho. apply HJ.
  - intros worker e. rewrite Hq by done. intros He. by eapply delivery_grow, HD.
Qed.

(** The clock reading that goes with it. *)
Lemma write_clock w e : control_inv w → control_inv (put env_l e w) ∧ records_grow w (put env_l e w).
Proof. intros HI. destruct (put_env e w) as [? ?]; [apply HI|]. by apply control_inv_silent. Qed.

Lemma records_grow_trans w1 w2 w3 : records_grow w1 w2 → records_grow w2 w3 → records_grow w1 w3.
Proof.
  intros H1 H2 id r (r' & Hr' & ?)%H1. destruct (H2 _ _ Hr') as (r'' & ? & ?). exists r''. intuition congruence.
Qed.

Lemma view_table_ok w : control_inv w → table_ok w (mkJobTable (jobs_poisoned (view jobs_l w)) (jobs (view jobs_l w))).
Proof. intros (_ & HJ & _). destruct own_table as [o Ho]. specialize (HJ o). rewrite Ho in HJ. by destruct (view jobs_l w). Qed.

Lemma holds_with_jobs {A} (f : Z → gmap string JobRecord → result Status (gmap string JobRecord * A)) Q :
  stable records_grow Q →
  (∀ w now js js' a p p', Q w → f now js = Ok (js', a) → table_ok w (mkJobTable p js) → table_ok w (mkJobTable p' js')) →
  holds Q (with_jobs f) (λ _, Q).
Proof.
  intros HQ Hf. apply rg_critical; [|done]. intros w HI Hw.
  assert (∀ e : Status, control_inv (w, @Err _ A e).1 ∧ records_grow w (w, @Err _ A e).1 ∧ Q (w, @Err _ A e).1) as Herr
    by (intros e; split_and!; [done|by apply records_grow_same|done]).
  case_match; [apply Herr|]. destruct (f _ _) as [[js a]|e] eqn:He; [|apply Herr]. cbn [fst snd].
  destruct (write_clock w (mkEnv (S (env_ticks (view env_l w))) (env_uuids (view env_l w))) HI) as [HI1 Hg1].
  destruct (write_table _ (mkJobTable false js) HI1) as [HI2 Hg2].
  { intros _. eapply table_ok_grow; [exact Hg1|]. eapply Hf; [exact Hw|exact He|by apply view_table_ok]. }
  pose proof (records_grow_trans _ _ _ Hg1 Hg2) as Hg. split_and!; [done|done|by eapply HQ].
Qed.

Lemma set_running_ok now id r : job_ok id r → job_ok id (set_running now r).
Proof. intros [Hid _]. split; [done|]. right; left. done. Qed.

Lemma set_result_ok now o id r : job_ok id r → job_ok id (set_result now o r).
Proof.
  intros [Hid Hr]. split; [done|]. right; right. exists o. simpl. split; [done|]. split.
  - destruct Hr as [(_&->&_)|[[_ ->]|(?&_&->&_)]]; done.
  - by destruct (jr_failure o).
Qed.

Lemma insert_job_ok w p p' (js : gmap string JobRecord) id r :
  job_ok id r → job_traced id r w → table_ok w (mkJobTable p js) → table_ok w (mkJobTable p' (<[id := r]> js)).
Proof. intros Hr Hx HJ id' r'. cbn [jobs]. intros [[<- <-]|[_ ?]]%lookup_insert_Some; [done|]. by apply HJ. Qed.

(** A report's update of the job of its execution. *)
Lemma holds_mark_running execution id : holds (executed execution id) (mark_job_running id) (λ _ _, True).
Proof.
  eapply rg_post; [done|]. apply holds_with_jobs; [apply executed_stable|].
  intros w now js js' [] p p' Hx (r & Hr%ok_or_Ok & [= <-])%result_bind_Ok HJ. destruct (HJ _ _ Hr) as [Hok [_ Ho]].
  eapply insert_job_ok; [by apply set_running_ok|split|exact HJ]; eauto.
Qed.

Lemma holds_store_job_result id o : holds (executed (jr_execution_id o) id) (store_job_result id o) (λ _ _, True).
Proof.
  eapply rg_post; [done|]. apply holds_with_jobs; [apply executed_stable|].
  intros w now js js' [] p p' Hx (r & Hr%ok_or_Ok & [= <-])%result_bind_Ok HJ. destruct (HJ _ _ Hr) as [Hok _].
  eapply insert_job_ok; [by apply set_result_ok|split|exact HJ]; [by eauto|]. by intros ? [= <-].
Qed.

Lemma holds_insert_job id r : job_ok id r → (∀ w, job_traced id r w) → sound (insert_job id r).
Proof.
  intros Hr Hx. apply rg_critical; [|done]. intros w HI _. case_match; cbn [fst snd].
  - split_and!; [done|by apply records_grow_same|done].
  - destruct (write_table w (mkJobTable false (<[id := r]> (jobs (view jobs_l w)))) HI) as [??]; [|done].
    intros _. eapply insert_job_ok; [done|apply Hx|by apply view_table_ok].
Qed.

Lemma holds_remove_job id : sound (remove_job id).
Proof.
  apply (rg_atomic _ _ _ _ _ (λ _ _, True)); [|done..]. intros w HI _. cbn [fst snd].
  destruct (write_table w (mkJobTable (jobs_poisoned (view jobs_l w)) (delete id (jobs (view jobs_l w)))) HI) as [??]; [|done].
  intros HJ id' r'. cbn [jobs]. intros [_ ?]%lookup_delete_Some. by apply HJ.
Qed.

(** *** One access or call after the other *)

Lemma sound_bind {E A A'} (m : prog W E A) (k : A → prog W E A') :
  sound m → (∀ a, sound (k a)) → sound (m ≫= k).
Proof.
  intros Hm Hk. eapply (rg_bind _ _ _ _ _ _ (λ _ _, True)); [|done]. eapply rg_post; [|exact Hm]. by intros [].
Qed.

Lemma sound_lift {E A} (r : result E A) : sound (lift_result r).
Proof. by apply rg_lift_result. Qed.

Lemma sound_rethrow {E E' A} (f : E → E') (m : prog W E A) : sound m → sound (rethrow f m).
Proof. intros Hm. apply rg_rethrow. exact Hm. Qed.

Lemma sound_attempt {E E' A} (m : prog W E A) : sound m → sound (attempt (E':=E') m).
Proof. intros Hm. apply rg_attempt. exact Hm. Qed.

Lemma sound_quiet {E A} (m : prog W E A) : quiet ctl_inv same_view m → sound m.
Proof. intros Hm. by apply holds_quiet. Qed.

Ltac walk :=
  repeat first
    [ done
    | apply holds_remove_job
    | apply sound_bind; [|intros ?] | apply sound_rethrow | apply sound_attempt | apply sound_lift
    | apply holds_env, true_stable | apply sound_quiet, store_result_quiet
    | apply sound_quiet, register_quiet | apply sound_quiet, heartbeat_quiet | apply sound_quiet, directory_quiet
    | case_match ].

Lemma accepted_job_ok id now request : job_ok id (mkJobRecord (accepted_job id now request) None).
Proof. split; [done|]. by left. Qed.

Lemma accepted_job_traced id now request w : job_traced id (mkJobRecord (accepted_job id now request) None) w.
Proof. by split. Qed.

Lemma sound_accept request : sound (accept task_destination request).
Proof.
  unfold accept. apply sound_bind; [walk|intros now]. apply sound_bind; [walk|intros id].
  apply sound_bind; [walk|intros mid]. apply sound_bind; [apply holds_insert_job; [apply accepted_job_ok|intros w; apply accepted_job_traced]|intros _].
  apply sound_bind; [apply sound_attempt, holds_publish; [done..|]|intros r; walk].
  intros w worker _ Hd. by destruct (task_queue_apart worker).
Qed.

(** Calls in a row that keep an assertion. *)
Lemma holds_seq {E A A'} Q (m : prog W E A) (k : A → prog W E A') :
  holds Q m (λ _, Q) → (∀ a, holds Q (k a) (λ _ _, True)) → holds Q (m ≫= k) (λ _ _, True).
Proof. intros Hm Hk. eapply (rg_bind _ _ _ _ _ _ (λ _, Q)); [|done]. eapply rg_post; [|exact Hm]. by intros []. Qed.

Lemma holds_report_terminal report id state failed :
  holds (executed (re_execution_id report) id) (report_terminal report id state failed) (λ _ _, True).
Proof.
  unfold report_terminal. apply holds_seq; [by apply rg_lift_result|intros out]. case_match; [done|].
  apply holds_seq; [apply rg_rethrow, holds_quiet; [apply store_result_quiet|apply executed_stable]|intros _].
  apply holds_seq; [apply holds_update, executed_stable|intros _].
  apply (holds_store_job_result id (own_outcome (re_execution_id report) out)).
Qed.

Lemma holds_apply_report report id state :
  holds (executed (re_execution_id report) id) (apply_report report id state) (λ _ _, True).
Proof.
  unfold apply_report. destruct state; try apply holds_report_terminal; try done.
  apply holds_seq; [apply holds_update, executed_stable|intros _]. apply holds_mark_running.
Qed.

Lemma sound_report report : sound (core_report_execution report).
Proof.
  unfold core_report_execution. apply sound_bind; [walk|intros state].
  eapply (rg_bind _ _ _ _ _ _ (λ found w, ∀ x, found = Some x → executed (re_execution_id report) (ex_job_id x) w)).
  { eapply rg_rethrow, rg_post; [|apply holds_get]. intros [] w _ Hx; simpl in *; [|done]. intros x ->. by apply Hx. }
  intros [x|]; [|done]. eapply (rg_weaken _ _ _ (executed (re_execution_id report) (ex_job_id x))); [naive_solver|].
  cbn [ok_or lift_result mbind prog_bind prog_bind_def].
  eapply (rg_bind _ _ _ _ _ _ (λ _ _, True)); [|done]. eapply rg_post; [|apply holds_apply_report]. by intros [].
Qed.

Lemma sound_heartbeat h : sound (core_report_heartbeat h).
Proof. unfold core_report_heartbeat. walk. Qed.

Lemma sound_register r : sound (core_register_worker r).
Proof. unfold core_register_worker. walk. Qed.

Lemma sound_get_job id : sound (get_job id).
Proof.
  apply rg_critical; [|done]. intros w HI _. assert (records_grow w w) by by apply records_grow_same. by repeat case_match.
Qed.

Lemma sound_dispatch worker : sound (dispatch task_destination worker).
Proof.
  unfold dispatch. apply sound_bind; [by apply holds_consume|intros submitted]. apply sound_bind; [walk|intros request].
  apply sound_bind; [walk|intros job_id]. apply sound_bind; [walk|intros aid]. apply sound_bind; [walk|intros eid].
  apply sound_bind; [walk|intros now]. set (a := make_assignment _ _ _ _).
  eapply (rg_bind _ _ _ _ _ _ (λ _, recorded a worker)).
  { eapply rg_rethrow, rg_post; [|apply holds_create]. intros [] w _ Hr; simpl in *; auto. }
  intros _. eapply (rg_bind _ _ _ _ _ _ (λ _, recorded a worker)).
  { eapply rg_post; [|apply holds_env, recorded_stable]. by intros []. }
  intros mid. eapply (rg_bind _ _ _ _ _ _ (λ _, recorded a worker)).
  { eapply rg_post; [|apply holds_env, recorded_stable]. by intros []. }
  intros t. eapply (rg_bind _ _ _ _ _ _ (λ _ _, True)); [|done].
  eapply rg_post; [|apply (holds_publish _ (recorded a worker)); [apply dest_workers|apply recorded_stable|]]; [by intros []|].
  intros w v Hw Hv. apply worker_destination_inj in Hv as ->. exists a.
  split; [apply decode_encode_assign|]. by split.
Qed.

Lemma sound_scheduler n : sound (scheduler_run task_destination n).
Proof.
  induction n as [|n IH]; [done|]. simpl. apply sound_bind; [|by intros []].
  unfold schedule_one. apply sound_bind; [walk|intros ws]. destruct (head ws); [apply sound_dispatch|done].
Qed.

Lemma sound_serve turns server_end polls : sound (serve_select task_destination turns server_end polls).
Proof.
  eapply rg_weaken; [|apply (rg_select _ _ _ [λ _, True; λ _, True])]; [by repeat constructor| | |].
  - intros w. by apply records_grow_same.
  - by repeat constructor.
  - repeat constructor; [|by destruct server_end]. apply sound_bind; [apply sound_scheduler|intros _; apply rg_never].
Qed.

Lemma sound_detached {E A} (m : prog W E A) : sound m → sound (detached m).
Proof. intros. apply sound_bind; [by apply sound_attempt|done]. Qed.

Lemma control_task_sound m : control_task CS task_destination m → sound m.
Proof.
  intros []; apply sound_detached; [apply sound_accept|apply sound_get_job|apply sound_report|
    apply sound_heartbeat|apply sound_register|apply sound_scheduler|apply sound_serve|by apply holds_consume].
Qed.
End handlers.

(** ** Everything at once *)

(** Tasks that respect the invariant, from a state that has it. *)
Lemma control_reachable_inv `{P : Protocols} {W : Type} `{CV : !ControlView W} (task : prog W Empty_set unit → Prop) w w' ps :
  (∀ m, task m → rg True control_inv records_grow (λ _, True) m (λ _ _, True)) →
  control_inv w → rtc (interleave task) (w, []) (w', ps) → control_inv w'.
Proof. intros Ht Hw Hsteps. by apply (rg_pool_invariant True control_inv records_grow) in Hsteps as [? _]. Qed.
