(* ===== verification/ControlSpec.v ===== *)
(** * The control plane of one server

    A server whose broker, result backend, worker registry and execution store each have
    a state of their own, behind their contracts.  Whatever requests arrive and however
    their accesses interleave, the job table stays coherent and every assignment on its
    way to a worker has its execution record. *)

From S2P Require Import Prelude RustStr Prog Protocol Concrete WorkerRegistry ExecutionStore.
From S2P Require Import Broker ResultBackend Local Control Scheduler CoreService ControlLogic.

Section control_spec.
Context `{P : Protocols} `{PO : !ProtocolsOk P} `{PF : Platform}.
Context {BS XS WS ES : Type}
  `{B : !Broker BS} `{BO : !BrokerOk B} `{K : !BackendResult XS}
  `{G : !WorkerRegistry WS} `{X : !ExecutionStore ES} `{XO : !ExecutionStoreOk X}.
Abbreviation control := (control BS XS WS ES).
Implicit Types c : control.

#[export] Instance control_view : ControlView control :=
  {| ctl_inv _ := True; ctl_server := unit; ctl_table _ := c_jobs; ctl_dest _ := True;
     ctl_queue c := queued (c_broker c); ctl_records c := records (c_executions c) |}.

(** The contracts of the components are what the argument asks for. *)
#[export] Instance control_ok : ControlOk control_state.
Proof.
  split.
  - by exists tt.
  - intros t c _. split_and!; [done..|]. by left.
  - done.
  - intros e _. eapply lin_takes_effect; [apply _|apply publish_lin|..].
    + intros c s _ Hs. split; [done|]. split; [done|]. split; [|done]. intros d _. cbn. by rewrite Hs.
    + intros c s [u|err] _ Ho; (do 3 (split; [done|])); [left; intros d _; apply Ho|].
      destruct Ho as [Ho|Ho]; [right; split; [done|]|left]; intros d _; apply Ho.
  - intros d _. eapply lin_takes_effect; [apply _|apply consume_lin|..].
    + intros c s _ Hs. split; [done|]. split; [done|]. split; [|done]. intros d' _. cbn. by rewrite Hs.
    + intros c s o _ [Hother Ho]. do 3 (split; [done|]). intros d' _ e He. cbn in *.
      destruct (decide (d' = d)) as [->|Hne]; [|by rewrite <-Hother].
      destruct o as [e'|err]; [rewrite Ho; set_solver|]. destruct Ho as [->|[e' ->]]; set_solver.
  - intros r. eapply lin_takes_effect; [apply _|apply create_lin|..]; by intros.
  - intros id. eapply lin_takes_effect; [apply _|apply get_lin|..]; by intros.
  - intros id st. eapply lin_takes_effect; [apply _|apply update_lin|..]; by intros.
  - intros. by apply quiet_zoom.
  - intros. by apply quiet_zoom.
  - intros. by apply quiet_zoom.
  - by apply quiet_zoom.
Qed.

Context (task_destination : string).
(** The task queue is not the queue of a worker. *)
Hypothesis task_queue_apart : ∀ worker, task_destination ≠ worker_destination worker.

Abbreviation server_task := (control_task (control_state (BS:=BS) (XS:=XS) (WS:=WS) (ES:=ES)) task_destination).

(** A server that has just started, on stores that are fresh or that earlier servers have
    left: what is in the workers' queues is recorded. *)
Definition control_start c : Prop :=
  (∃ e b x w s, c = with_stores e b x w s) ∧ deliveries_ok c.

Lemma control_start_inv c : control_start c → control_inv c.
Proof.
  intros [(e & b & x & w & s & ->) Hq]. split_and!; [done| |done].
  intros i id r Hr. cbn in Hr. by rewrite lookup_empty in Hr.
Qed.

Lemma server_reachable_inv c c' ps :
  control_start c → rtc (interleave server_task) (c, []) (c', ps) → control_inv c'.
Proof.
  intros Hc. apply control_reachable_inv; [|by apply control_start_inv]. intros m Hm.
  by eapply (control_task_sound task_destination).
Qed.

(** C20: persist before publish.  From a server's start, on fresh stores or on those an
    earlier server left in this order, however the handlers, the scheduler and the workers
    interleave, and whatever calls fail, every envelope in a worker's queue carries an
    encoded assignment and is correlated with its job, and the execution store already
    has the execution, for that job, assignment and worker.  (The task destination is not a
    worker's queue.) *)
Theorem assignments_recorded_before_delivery c c' ps worker e :
  control_start c →
  rtc (interleave server_task) (c, []) (c', ps) →
  e ∈ queued (c_broker c') (worker_destination worker) →
  ∃ a r, decode_assign (be_payload e) = Ok a
    ∧ be_correlation_id e = Some (ae_job_id a)
    ∧ records (c_executions c') !! ae_execution_id a = Some r
    ∧ ex_execution_id r = ae_execution_id a ∧ ex_job_id r = ae_job_id a
    ∧ ex_assignment_id r = ae_assignment_id a ∧ ex_worker_id r = worker.
Proof.
  intros Hc Hsteps He. destruct (server_reachable_inv _ _ _ Hc Hsteps) as (_ & _ & HD).
  destruct (HD _ _ He) as (a & ? & ? & r & ?). by exists a, r.
Qed.

(** C21: the job table is coherent at every moment of every interleaving: a job is stored
    under its own identifier, and is either accepted, with no attempt and no result;
    running, at its first attempt; or finished at its first attempt, with a result and
    the state this result calls for.  A job that is past its acceptance has an execution in
    the store, and the execution that its result names is recorded for this job.  (The task
    destination is not a worker's queue.) *)
Theorem job_table_coherent c c' ps id r :
  control_start c →
  rtc (interleave server_task) (c, []) (c', ps) →
  jobs (c_jobs c') !! id = Some r → job_ok id r ∧ job_traced id r c'.
Proof. intros Hc Hsteps. destruct (server_reachable_inv _ _ _ Hc Hsteps) as (_ & HJ & _). apply (HJ tt). Qed.

End control_spec.

(** ** Examples *)

Module ControlExamples.
Import Concrete.

Abbreviation demo_control_type :=
  (control LocalBroker RecordingResultBackend MemoryWorkerRegistry MemoryExecutionStore).

Definition demo_worker : WorkerRegistration :=
  {| wr_worker_id := "w1"; wr_node_id := None; wr_generation := "g1";
     wr_implementation_version := "0.1.0"; wr_protocol_versions := [];
     wr_endpoint := ""; wr_executors := []; wr_capacity := None; wr_metadata := None |}.

Definition demo_request : SubmitTaskRequest :=
  {| st_application_namespace := "dev"; st_task_name := "add"; st_arguments := "1";
     st_serialization_format := "json"; st_resources := None; st_metadata := None;
     st_command_id := ""; st_task := None; st_parent_execution_id := None; st_rest := 0%Z |}.

(** A server that has just started; leases last ten seconds. *)
Definition demo_control : demo_control_type :=
  mkControl (mkEnv 0 0) (mkJobTable false ∅) (mkLocalBroker ∅) (mkRecordingResultBackend [])
    (mkMemoryWorkerRegistry false ∅ 10000000000 0) memory_store_default.

(** A worker registers, a task is submitted, the scheduler takes two turns. *)
Definition demo_calls : list (prog demo_control_type Empty_set unit) :=
  [detached (core_register_worker (Some demo_worker));
   detached (submit_task "tasks" demo_request);
   detached (scheduler_run "tasks" 1)].

Definition demo_after : demo_control_type := fold_left (λ c p, (run p c).1) demo_calls demo_control.

Lemma demo_queue_apart worker : "tasks" ≠ worker_destination worker.
Proof. discriminate. Qed.

Lemma demo_start : control_start demo_control.
Proof. split; [by do 5 eexists|]. intros worker e He. by apply not_elem_of_nil in He. Qed.

Lemma demo_tasks : Forall (control_task control_state "tasks") demo_calls.
Proof. repeat constructor. Qed.

Definition demo_envelope : BrokerEnvelope :=
  default (submission_envelope "" "" "" 0 demo_request) (head (local_queue (c_broker demo_after) (worker_destination "w1"))).

Lemma demo_envelope_queued : demo_envelope ∈ queued (c_broker demo_after) (worker_destination "w1").
Proof.
  change (demo_envelope ∈ local_queue (c_broker demo_after) (worker_destination "w1")).
  unfold demo_envelope. generalize (submission_envelope "" "" "" 0 demo_request). intros d.
  apply default_head_elem. vm_refl.
Qed.

Lemma assignments_recorded_before_delivery_witness :
  ∃ a r, decode_assign (be_payload demo_envelope) = Ok a
    ∧ records (c_executions demo_after) !! ae_execution_id a = Some r ∧ ex_worker_id r = "w1".
Proof.
  destruct (interleave_calls (control_task control_state "tasks") demo_control [] demo_calls demo_tasks) as [ps Hsteps].
  destruct (assignments_recorded_before_delivery "tasks" demo_queue_apart demo_control demo_after ps "w1" demo_envelope
    demo_start Hsteps) as (a & r & H1 & _ & H2 & _ & _ & _ & H3).
  - exact demo_envelope_queued.
  - exists a, r. split; [exact H1|split; [exact H2|exact H3]].
Defined.

(** The execution is reported as succeeded. *)
Definition demo_outcome : JobResult :=
  {| jr_payload := "2"; jr_serialization_format := "json"; jr_failure := None; jr_execution_id := ""; jr_rest := 0%Z |}.
Definition demo_report : ReportExecutionRequest :=
  {| re_report_id := "r"; re_assignment_id := "2"; re_execution_id := "3"; re_sequence_number := 1;
     re_state := execution_state_code ES_Succeeded; re_outcome := Some demo_outcome; re_observed_at := None |}.
Definition finished_calls : list (prog demo_control_type Empty_set unit) :=
  demo_calls ++ [detached (core_report_execution demo_report)].
Definition demo_finished : demo_control_type := fold_left (λ c p, (run p c).1) finished_calls demo_control.
Definition demo_job : JobRecord := default (mkJobRecord (accepted_job "" 0 demo_request) None) (jobs (c_jobs demo_finished) !! "0").

Lemma finished_tasks : Forall (control_task control_state "tasks") finished_calls.
Proof. repeat constructor. Qed.

Definition demo_result : JobResult := default default_job_result (job_result demo_job).

Lemma job_table_coherent_witness :
  job_ok "0" demo_job ∧ executed (CV:=control_view) (jr_execution_id demo_result) "0" demo_finished
  ∧ jr_execution_id demo_result = "3".
Proof.
  destruct (interleave_calls (control_task control_state "tasks") demo_control [] finished_calls finished_tasks) as [ps Hsteps].
  destruct (job_table_coherent "tasks" demo_queue_apart demo_control demo_finished ps "0" demo_job demo_start Hsteps)
    as [Hok [_ Htraced]].
  - apply default_Some. vm_refl.
  - split_and!; [exact Hok| |vm_refl]. apply Htraced. apply default_Some. vm_refl.
Defined.

(** *** A result overwritten by the acknowledgement

    [accept] stores its acknowledgement in the result backend after it has published the
    task.  Between the two, the scheduler may assign the task and a worker finish it. *)
Definition overtaking : list (choice (W:=demo_control_type) (E:=Empty_set) (A:=unit)) :=
  [Arrive (detached (core_register_worker (Some demo_worker)))] ++ replicate 5 (Advance 0)
  ++ [Arrive (detached (submit_task "tasks" demo_request))] ++ replicate 5 (Advance 1)
  ++ [Arrive (detached (scheduler_run "tasks" 1))] ++ replicate 12 (Advance 2)
  ++ [Arrive (detached (core_report_execution demo_report))] ++ replicate 8 (Advance 3)
  ++ replicate 3 (Advance 1).
Definition overtaken : demo_control_type := (follow overtaking (demo_control, [])).1.

(** The job is finished, with its result, in the table; the result backend, which is to
    keep the results, has the acknowledgement of its submission. *)
Lemma acknowledgement_overwrites_result :
  (∃ ps, rtc (interleave (control_task control_state "tasks")) (demo_control, []) (overtaken, ps))
  ∧ (λ r, (job_state (job r), job_result r)) <$> jobs (c_jobs overtaken) !! "0"
    = Some (job_state_code JS_Succeeded, Some (own_outcome "3" demo_outcome))
  ∧ results (c_results overtaken) !! "0" = Some (encode_job_result accepted_job_result).
Proof.
  split_and!; [|vm_refl..]. exists (follow overtaking (demo_control, [])).2. unfold overtaken.
  rewrite <-surjective_pairing. apply follow_interleave. repeat constructor.
Qed.
End ControlExamples.
