(* ===== verification/CoreSpec.v ===== *)
(** * The core service, handler by handler

    What each handler does on every branch when it runs alone: submission with its
    rollback, reports and the order in which they are persisted, and the validation of
    worker registrations and heartbeats. *)

From S2P Require Import Prelude RustStr Prog Protocol Concrete WorkerRegistry ExecutionStore.
From S2P Require Import Broker ResultBackend Local Control CoreService.

Section core_spec.
Context `{P : Protocols} `{PO : !ProtocolsOk P} `{PF : Platform} `{PFO : !PlatformOk PF}.
Context {BS XS WS ES : Type}
  `{B : !Broker BS} `{BO : !BrokerOk B} `{K : !BackendResult XS} `{KO : !BackendResultOk K}
  `{G : !WorkerRegistry WS} `{X : !ExecutionStore ES} `{XO : !ExecutionStoreOk X}.
Abbreviation control := (control BS XS WS ES).
Implicit Types c : control.

(** The identifier the next call to [Uuid::new_v4] returns, and the time it is called at. *)
Definition next_id c : string := uuid_at (env_uuids (c_env c)).
Definition next_time c : Z := system_time_at (env_ticks (c_env c)).

(** Every job was given an identifier drawn before. *)
Definition ids_drawn c : Prop :=
  ∀ id r, jobs (c_jobs c) !! id = Some r → ∃ i, i < env_uuids (c_env c) ∧ id = uuid_at i.

Lemma next_id_fresh c : ids_drawn c → jobs (c_jobs c) !! next_id c = None.
Proof.
  intros Hd. destruct (jobs (c_jobs c) !! next_id c) as [r|] eqn:Hr; [|done].
  destruct (Hd _ _ Hr) as (i & Hi & Heq%uuid_inj). lia.
Qed.

(** The parts of the state a call did not change. *)
Definition same_jobs c c' : Prop := c_jobs c' = c_jobs c.
Definition same_stores c c' : Prop :=
  queued (c_broker c') = queued (c_broker c) ∧ results (c_results c') = results (c_results c)
  ∧ records (c_executions c') = records (c_executions c).

(** The job a submission creates, and the message it publishes. *)
Definition new_job c (request : SubmitTaskRequest) : Job := accepted_job (next_id c) (next_time c) request.
Definition new_message (task_destination : string) c (request : SubmitTaskRequest) : BrokerEnvelope :=
  submission_envelope task_destination (uuid_at (S (env_uuids (c_env c)))) (next_id c) (next_time c) request.

Lemma run_accept task_destination request c :
  jobs_poisoned (c_jobs c) = false →
  run (accept task_destination request) c =
    let c1 := put jobs_l (mkJobTable false (<[next_id c := mkJobRecord (new_job c request) None]> (jobs (c_jobs c))))
                (put env_l (mkEnv (S (env_ticks (c_env c))) (S (S (env_uuids (c_env c))))) c) in
    match run (publish (new_message task_destination c request)) (c_broker c) with
    | (b, Done _) =>
      match run (store_result (next_id c) accepted_job_result) (c_results c) with
      | (x, Done _) =>
        (put results_l x (put broker_l b c1),
         Done {| sr_job := Some (new_job c request); sr_result := Some accepted_result |})
      | (x, Failed _) => (put results_l x (put broker_l b c1), Failed (unavailable "result backend is unavailable"))
      | (x, Panicked s) => (put results_l x (put broker_l b c1), Panicked s)
      | (x, Blocked) => (put results_l x (put broker_l b c1), Blocked)
      end
    | (b, Failed _) =>
      (put broker_l b (put jobs_l (mkJobTable false (delete (next_id c)
         (<[next_id c := mkJobRecord (new_job c request) None]> (jobs (c_jobs c))))) c1),
       Failed (unavailable "task broker is unavailable"))
    | (b, Panicked s) => (put broker_l b c1, Panicked s)
    | (b, Blocked) => (put broker_l b c1, Blocked)
    end.
Proof.
  intros Hp. unfold accept. rewrite run_bind, run_zoom by apply _. simpl. rewrite Hp. simpl.
  change (uuid_at (env_uuids (c_env c))) with (next_id c).
  rewrite run_bind, run_attempt, run_zoom by apply _. cbn [view broker_l c_broker control_state c_broker_l].
  change (submission_envelope _ _ _ _ _) with (new_message task_destination c request).
  destruct (run (publish _) (c_broker c)) as [b [u|e|s|]]; simpl; try done.
  rewrite run_bind, run_rethrow, run_zoom by apply _. cbn [view results_l c_results control_state c_results_l].
  by destruct (run (store_result _ _) (c_results c)) as [x [v|e|s|]].
Qed.

Lemma ids_drawn_insert (js : gmap string JobRecord) n i r id r' :
  (∀ id r, js !! id = Some r → ∃ i, i < n ∧ id = uuid_at i) → i < S (S n) →
  <[uuid_at i := r]> js !! id = Some r' → ∃ i, i < S (S n) ∧ id = uuid_at i.
Proof.
  intros Hd Hi [[<- _]|[_ Hr]]%lookup_insert_Some; [by eauto|].
  destruct (Hd _ _ Hr) as (j & ? & ?). exists j. split; [lia|done].
Qed.

(** C22: a submission draws a fresh identifier.  Accepted, it has put the job in the
    table as [Accepted], the request at the end of the task queue and the acknowledgement
    in the result backend.  Failed, it is [Unavailable], and either the broker's failure
    has taken the job back out of the table, or the job and its message both stand and
    only the acknowledgement is missing.  Executions are not touched. *)
Theorem submit_task_outcome task_destination request c :
  jobs_poisoned (c_jobs c) = false → ids_drawn c →
  let id := next_id c in
  let stored := <[id := mkJobRecord (new_job c request) None]> (jobs (c_jobs c)) in
  let sent c' := appended (new_message task_destination c request) (queued (c_broker c)) (queued (c_broker c')) in
  ∃ c' o, run (submit_task task_destination request) c = (c', o)
    ∧ ids_drawn c' ∧ jobs (c_jobs c) !! id = None ∧ c_executions c' = c_executions c
    ∧ match o with
      | Done response =>
        response = {| sr_job := Some (new_job c request); sr_result := Some accepted_result |}
        ∧ jobs (c_jobs c') = stored ∧ sent c'
        ∧ results (c_results c') = <[id := encode_job_result accepted_job_result]> (results (c_results c))
      | Failed status =>
        status_code status = Unavailable
        ∧ (jobs (c_jobs c') = jobs (c_jobs c) ∧ c_results c' = c_results c
           ∨ jobs (c_jobs c') = stored ∧ sent c')
      | Panicked _ => False
      | Blocked => jobs (c_jobs c') = stored
      end.
Proof.
  intros Hp Hd id stored sent. unfold submit_task. rewrite run_accept by done. cbv zeta.
  pose proof (next_id_fresh c Hd) as Hfresh.
  assert (∀ c', c_env c' = mkEnv (S (env_ticks (c_env c))) (S (S (env_uuids (c_env c)))) →
    jobs (c_jobs c') = stored → ids_drawn c') as Hids.
  { intros c' He Hj i r. rewrite Hj, He. apply ids_drawn_insert; [done|lia]. }
  assert (∀ c', c_env c' = mkEnv (S (env_ticks (c_env c))) (S (S (env_uuids (c_env c)))) →
    jobs (c_jobs c') = jobs (c_jobs c) → ids_drawn c') as Hids'.
  { intros c' He Hj i r. rewrite Hj, He. intros (j & ? & ?)%Hd. exists j. simpl. split; [lia|done]. }
  pose proof (lin_run _ _ _ (c_broker c) (publish_lin (new_message task_destination c request))) as Hpub.
  destruct (run (publish _) _) as [b [u|e|s|]]; [| | |];
    [|eexists _, _; split; [done|]|done|eexists _, _; split; [done|]].
  - pose proof (lin_run _ _ _ (c_results c) (store_result_lin (next_id c) accepted_job_result)) as Hres.
    destruct (run (store_result _ _) _) as [x [v|e|s|]]; [| |done|];
      (eexists _, _; split; [done|]; split; [by apply Hids|]; split; [done|]; split; [done|]); [|by auto..].
    split_and!; [done..|]. by destruct Hres as [Hres|[[? ?] _]].
  - assert (delete (next_id c) stored = jobs (c_jobs c)) as Hdel by (by apply delete_insert_id).
    split; [by apply Hids'|]. do 3 (split; [done|]). by left.
  - by split_and!; [apply Hids|..].
Qed.

(** ** Reports *)

(** What an accepted report has done to the job [id] of its execution. *)
Definition job_effect (report : ReportExecutionRequest) (state : ExecutionState) (id : string) c c' : Prop :=
  ∃ r, jobs (c_jobs c) !! id = Some r ∧ jobs_poisoned (c_jobs c') = false
    ∧ match state with
      | ES_Running =>
        results (c_results c') = results (c_results c)
        ∧ jobs (c_jobs c') = <[id := set_running (next_time c) r]> (jobs (c_jobs c))
      | ES_Succeeded | ES_Failed =>
        ∃ out, re_outcome report = Some out
          ∧ (state = ES_Failed → is_Some (jr_failure out))
          ∧ results (c_results c') =
              <[id := encode_job_result (own_outcome (re_execution_id report) out)]> (results (c_results c))
          ∧ jobs (c_jobs c') =
              <[id := set_result (next_time c) (own_outcome (re_execution_id report) out) r]> (jobs (c_jobs c))
      | _ => False
      end.

(** What a report that was not accepted leaves. *)
Definition job_untouched (status : Status) c c' : Prop :=
  c_jobs c' = c_jobs c ∧ (status_code status = InvalidArgument → same_stores c c').

Lemma same_stores_refl c : same_stores c c.
Proof. done. Qed.

(** The critical sections of the job table on an unpoisoned table. *)
Lemma run_with_jobs {A} (f : Z → gmap string JobRecord → result Status (gmap string JobRecord * A)) c :
  jobs_poisoned (c_jobs c) = false →
  run (with_jobs f) c =
    match f (next_time c) (jobs (c_jobs c)) with
    | Ok (js, a) => (put jobs_l (mkJobTable false js)
        (put env_l (mkEnv (S (env_ticks (c_env c))) (env_uuids (c_env c))) c), Done a)
    | Err e => (c, Failed e)
    end.
Proof.
  intros Hp. unfold with_jobs. rewrite run_critical. cbn [view jobs_l env_l control_state c_jobs_l c_env_l]. rewrite Hp.
  unfold next_time. by destruct (f _ _) as [[js a]|e].
Qed.

Lemma run_update_execution id state c :
  ∃ s o, run (update_execution id state) c = (put executions_l s c, o)
    ∧ match o with
      | Done _ => updated id state (records (c_executions c)) (records s)
      | Failed status => status = unavailable "execution store is unavailable"
      | Panicked _ => False
      | Blocked => records s = records (c_executions c)
      end.
Proof.
  unfold update_execution. rewrite run_rethrow.
  destruct (run_zoom_lin executions_l records _ _ c (update_lin id state)) as (s & o & -> & Ho).
  destruct o; (eexists s, _; split; [reflexivity|done]).
Qed.

(** How a report that reached its branch ends. *)
Definition report_post report state id c (end_ : control * outcome Status unit) : Prop :=
  c_broker end_.1 = c_broker c
  ∧ match end_.2 with
    | Done _ => updated (re_execution_id report) state (records (c_executions c)) (records (c_executions end_.1))
                ∧ job_effect report state id c end_.1
    | Failed status => job_untouched status c end_.1
    | Panicked _ => False
    | Blocked => c_jobs end_.1 = c_jobs c
    end.

Lemma run_report_terminal report id failed c :
  let state := if failed : bool then ES_Failed else ES_Succeeded in
  jobs_poisoned (c_jobs c) = false →
  report_post report state id c (run (report_terminal report id state failed) c).
Proof.
  intros state Hp. unfold report_terminal, report_post, job_untouched. rewrite run_bind, run_lift_result.
  destruct (re_outcome report) as [out|] eqn:Hout; simpl; [|done].
  destruct (failed && _) eqn:Hf; [done|]. rewrite run_bind, run_rethrow.
  set (out' := own_outcome _ _).
  destruct (run_zoom_lin c_results_l results _ _ c (store_result_lin id out')) as (x & o & -> & Hx).
  destruct o as [[]|e|s|]; [|done..].
  assert (results x = <[id := encode_job_result out']> (results (c_results c))) as Hx'
    by (destruct Hx as [Hx|[[? ?] _]]; [exact Hx|done]).
  rewrite run_bind.
  destruct (run_update_execution (re_execution_id report) state (put c_results_l x c)) as (s & o & -> & Ho).
  destruct o as [[]|e|m|]; [|by subst e|done..].
  unfold store_job_result. rewrite run_with_jobs by done. simpl.
  destruct (jobs (c_jobs c) !! id) as [r|] eqn:Hr; simpl; [|done].
  split; [done|]. split; [exact Ho|]. exists r. split; [done|]. split; [done|].
  assert (state = ES_Failed → is_Some (jr_failure out)) as Hfail.
  { unfold state. destruct failed; [|done]. simpl in Hf. by bool_facts. }
  destruct failed; exists out; done.
Qed.

Lemma run_apply_report report id state c :
  jobs_poisoned (c_jobs c) = false → report_post report state id c (run (apply_report report id state) c).
Proof.
  intros Hp. destruct state; [done| |by apply (run_report_terminal _ _ false)|by apply (run_report_terminal _ _ true)|done].
  unfold apply_report, report_post, job_untouched. rewrite run_bind.
  destruct (run_update_execution (re_execution_id report) ES_Running c) as (s & o & -> & Ho).
  destruct o as [[]|e|m|]; [|by subst e|done..].
  unfold mark_job_running. rewrite run_with_jobs by done. simpl.
  destruct (jobs (c_jobs c) !! id) as [r|] eqn:Hr; simpl; [|done].
  split; [done|]. split; [exact Ho|]. by exists r.
Qed.

(** A report, on every branch. *)
Lemma run_core_report_execution report c :
  jobs_poisoned (c_jobs c) = false →
  ∃ c' o, run (core_report_execution report) c = (c', o) ∧ c_broker c' = c_broker c
    ∧ match o with
      | Done response => rer_accepted response = true
          ∧ ∃ state execution, execution_state_of (re_state report) = Some state
              ∧ records (c_executions c) !! re_execution_id report = Some execution
              ∧ updated (re_execution_id report) state (records (c_executions c)) (records (c_executions c'))
              ∧ job_effect report state (ex_job_id execution) c c'
      | Failed status => job_untouched status c c'
      | Panicked _ => False
      | Blocked => c_jobs c' = c_jobs c
      end.
Proof.
  intros Hp. unfold core_report_execution. rewrite run_bind, run_lift_result.
  destruct (execution_state_of (re_state report)) as [state|] eqn:Hst; simpl; [|by eexists _, _].
  rewrite run_bind, run_rethrow.
  destruct (run_zoom_lin c_executions_l records _ _ c (get_lin (re_execution_id report))) as (s & o & -> & Ho).
  destruct o as [found|e|m|]; [|by eexists _, _|done|by eexists _, _].
  destruct Ho as [Hs Hfound]. specialize (Hfound found eq_refl). cbn [view executions_l control_state c_executions_l c_executions] in Hs, Hfound.
  rewrite run_bind, run_lift_result.
  destruct found as [execution|]; simpl; [|by eexists _, _]. rewrite run_bind.
  pose proof (run_apply_report report (ex_job_id execution) state (put c_executions_l s c) Hp) as [Hb Hpost].
  destruct (run (apply_report _ _ _) _) as [c' [[]|e|m|]]; simpl in Hb, Hpost;
    (eexists c', _; split; [reflexivity|split; [exact Hb|]]); [| |done|done].
  - rewrite Hs in Hpost. split; [done|]. exists state, execution. by destruct Hpost.
  - destruct Hpost as [Hj Hsame]. split; [exact Hj|]. intros Hc. destruct (Hsame Hc) as (?&?&He).
    split_and!; [done..|]. rewrite He. exact Hs.
Qed.

(** C23: an execution report is answered [accepted] only when its execution is known, its
    state is running, succeeded or failed, and the execution record, the result backend
    and the job table have all been brought to what it says: a terminal report has its
    outcome stored, tagged with the execution, before the job shows it.  A report that is
    not accepted leaves the job table as it was, and an invalid one changes nothing. *)
Theorem report_execution_outcome report c :
  jobs_poisoned (c_jobs c) = false →
  ∃ c' o, run (core_report_execution report) c = (c', o) ∧ c_broker c' = c_broker c
    ∧ match o with
      | Done response => rer_accepted response = true
          ∧ ∃ state execution, execution_state_of (re_state report) = Some state
              ∧ records (c_executions c) !! re_execution_id report = Some execution
              ∧ updated (re_execution_id report) state (records (c_executions c)) (records (c_executions c'))
              ∧ job_effect report state (ex_job_id execution) c c'
      | Failed status => job_untouched status c c'
      | Panicked _ => False
      | Blocked => c_jobs c' = c_jobs c
      end.
Proof. apply run_core_report_execution. Qed.
End core_spec.

(** ** Examples *)

Module CoreExamples.
Import Concrete.

Abbreviation demo_control_type :=
  (control LocalBroker RecordingResultBackend MemoryWorkerRegistry MemoryExecutionStore).

Definition demo_request : SubmitTaskRequest :=
  {| st_application_namespace := "dev"; st_task_name := "add"; st_arguments := "1";
     st_serialization_format := "json"; st_resources := None; st_metadata := None;
     st_command_id := ""; st_task := None; st_parent_execution_id := None; st_rest := 0%Z |}.

Definition demo_control : demo_control_type :=
  mkControl (mkEnv 0 0) (mkJobTable false ∅) (mkLocalBroker ∅) (mkRecordingResultBackend [])
    (mkMemoryWorkerRegistry false ∅ 10000000000 0) memory_store_default.

Lemma demo_ids : ids_drawn demo_control.
Proof. intros id r H. exfalso. cbn in H. rewrite lookup_empty in H. discriminate H. Qed.

Lemma submit_task_outcome_witness :
  ∃ c', run (submit_task "tasks" demo_request) demo_control =
    (c', Done {| sr_job := Some (accepted_job "0" 1700000000000000000 demo_request);
                 sr_result := Some accepted_result |})
    ∧ ids_drawn c'.
Proof.
  destruct (submit_task_outcome "tasks" demo_request demo_control eq_refl demo_ids) as (c' & o & H & Hids & _).
  exists c'. split; [|exact Hids].
  assert ((run (submit_task "tasks" demo_request) demo_control).2 =
    Done {| sr_job := Some (accepted_job "0" 1700000000000000000 demo_request);
            sr_result := Some accepted_result |}) as Ho by vm_refl.
  rewrite H in *. cbn [snd] in Ho. rewrite Ho. exact eq_refl.
Defined.

(** The job submitted above, with an execution of it on a worker. *)
Definition demo_execution : ExecutionRecord :=
  {| ex_execution_id := "e"; ex_job_id := "0"; ex_assignment_id := "a"; ex_worker_id := "w";
     ex_state := ES_Running; ex_created_at := 0; ex_updated_at := 0 |}.

Definition demo_running : demo_control_type :=
  put executions_l (mkMemoryExecutionStore false {[ "e" := demo_execution ]} 0)
    (run (submit_task "tasks" demo_request) demo_control).1.

Definition demo_report : ReportExecutionRequest :=
  {| re_report_id := "r"; re_assignment_id := "a"; re_execution_id := "e"; re_sequence_number := 2;
     re_state := 3; re_outcome := Some {| jr_payload := "2"; jr_serialization_format := "json";
       jr_failure := None; jr_execution_id := ""; jr_rest := 0%Z |};
     re_observed_at := None |}.

Lemma report_execution_outcome_witness :
  ∃ c', run (core_report_execution demo_report) demo_running = (c', Done {| rer_accepted := true |})
    ∧ c_broker c' = c_broker demo_running.
Proof.
  destruct (report_execution_outcome demo_report demo_running) as (c' & o & H & Hb & _); [vm_refl|].
  exists c'. split; [|exact Hb].
  assert ((run (core_report_execution demo_report) demo_running).2 = Done {| rer_accepted := true |}) as Ho by vm_refl.
  rewrite H in *. cbn [snd] in Ho. rewrite Ho. exact eq_refl.
Defined.

(** What the server holds of the execution and of its job. *)
Definition states_of (c : demo_control_type) : option ExecutionState * option Z :=
  (ex_state <$> records (c_executions c) !! "e", (λ r, job_state (job r)) <$> jobs (c_jobs c) !! "0").

Definition contradictory_report : ReportExecutionRequest :=
  {| re_report_id := "r"; re_assignment_id := "a"; re_execution_id := "e"; re_sequence_number := 2;
     re_state := 3; re_outcome := Some {| jr_payload := ""; jr_serialization_format := "json";
       jr_failure := Some (mkProtoError "boom" "" None); jr_execution_id := ""; jr_rest := 0%Z |};
     re_observed_at := None |}.

(** A report of success that carries a failure is accepted, and leaves an execution that
    succeeded with a job that failed. *)
Lemma contradictory_report_splits_states :
  (run (core_report_execution contradictory_report) demo_running).2 = Done {| rer_accepted := true |}
  ∧ states_of (run (core_report_execution contradictory_report) demo_running).1
    = (Some ES_Succeeded, Some (job_state_code JS_Failed)).
Proof. split; vm_refl. Qed.

Definition late_running_report : ReportExecutionRequest :=
  {| re_report_id := "r"; re_assignment_id := "a"; re_execution_id := "e"; re_sequence_number := 1;
     re_state := 2; re_outcome := None; re_observed_at := None |}.

(** The server does not compare sequence numbers: a report of the start that arrives after
    the report of success takes the execution and the job back to running. *)
Lemma late_report_reopens_job :
  states_of (run (core_report_execution late_running_report)
               (run (core_report_execution demo_report) demo_running).1).1
  = (Some ES_Running, Some (job_state_code JS_Running)).
Proof. vm_refl. Qed.
End CoreExamples.
