(* ===== verification/SchedulerSpec.v ===== *)
(** * The scheduler's decisions

    What one turn of the scheduler does: it defers without consuming when no worker is
    available, and otherwise moves the first submitted task, recorded, to the first
    worker's queue. *)

From S2P Require Import Prelude RustStr Prog Protocol Concrete WorkerRegistry.
From S2P Require Import WorkerRegistrySpec ExecutionStore Broker Local Control Scheduler.

Section scheduler_spec.
Context `{P : Protocols} `{PO : !ProtocolsOk P} `{PF : Platform}.
Context {BS XS WS ES : Type}
  `{B : !Broker BS} `{BO : !BrokerOk B} `{D : !WorkerDirectory WS}
  `{X : !ExecutionStore ES} `{XO : !ExecutionStoreOk X}.
Abbreviation control := (control BS XS WS ES).
Implicit Types c : control.

(** With no worker available the scheduler defers, and has consumed and recorded
    nothing: all it did was to look at the directory. *)
Lemma no_worker_defers task_destination c s :
  run available_workers (c_workers c) = (s, Done []) →
  run (schedule_one task_destination) c = (put workers_l s c, Done (Deferred NoWorkerAvailable)).
Proof.
  intros Hw. unfold schedule_one. rewrite run_bind, run_rethrow, run_zoom by apply _.
  change (view workers_l c) with (c_workers c). by rewrite Hw.
Qed.

(** The state [c'] after the task at the front of the task queue was moved to [worker] as
    the assignment [a]. *)
Definition dispatched (task_destination worker : string) (a : AssignExecutionRequest) c c' : Prop :=
  ∃ submitted request message now i,
    queued (c_broker c) task_destination = submitted :: queued (c_broker c') task_destination
    ∧ decode_submit (be_payload submitted) = Ok request
    ∧ a = make_assignment (uuid_at i) (uuid_at (S i)) (ae_job_id a) request
    ∧ (∀ id, be_correlation_id submitted = Some id → ae_job_id a = id)
    ∧ queued (c_broker c') (worker_destination worker) = queued (c_broker c) (worker_destination worker) ++ [message]
    ∧ decode_assign (be_payload message) = Ok a ∧ be_correlation_id message = Some (ae_job_id a)
    ∧ (∀ d, d ≠ task_destination → d ≠ worker_destination worker → queued (c_broker c') d = queued (c_broker c) d)
    ∧ created (make_execution a worker now) (records (c_executions c)) (records (c_executions c'))
    ∧ c_jobs c' = c_jobs c ∧ c_results c' = c_results c ∧ c_workers c' = c_workers c.

(** The job identifier: the message's correlation, or a new one. *)
Lemma job_id_outcome submitted c c' id :
  run (match be_correlation_id submitted with Some id => mret id | None => zoom env_l new_uuid end) c
    = (c', Done id : outcome BrokerError string) →
  (∃ e, c' = put env_l e c) ∧ ∀ i, be_correlation_id submitted = Some i → id = i.
Proof.
  destruct (be_correlation_id submitted) as [i|]; simpl.
  - intros [= <- <-]. split; [exists (c_env c); by destruct c|]. by intros ? [= ->].
  - intros [= <- <-]. split; [by eexists|done].
Qed.

Lemma new_uuid_outcome c c' id :
  run (zoom env_l new_uuid) c = (c', Done id : outcome BrokerError string) →
  id = uuid_at (env_uuids (c_env c)) ∧ c' = put env_l (mkEnv (env_ticks (c_env c)) (S (env_uuids (c_env c)))) c.
Proof. by intros [= <- <-]. Qed.

Lemma dispatch_outcome task_destination worker c c' decision :
  task_destination ≠ worker_destination worker →
  run (dispatch task_destination worker) c = (c', Done decision) →
  ∃ a, decision = Assigned worker a ∧ dispatched task_destination worker a c c'.
Proof.
  intros Hne. unfold dispatch.
  intros (c1 & submitted & (b & Hcons & ->)%run_zoom_Done & H)%run_bind_Done; [|apply _].
  apply run_bind_Done in H as (c2 & request & [-> Hreq%map_err_Ok]%run_lift_Done & H).
  apply run_bind_Done in H as (c3 & id & [[e0 ->] Hid]%job_id_outcome & H).
  apply run_bind_Done in H as (c4 & aid & [-> ->]%new_uuid_outcome & H).
  apply run_bind_Done in H as (c5 & eid & [-> ->]%new_uuid_outcome & H).
  apply run_bind_Done in H as (c6 & now & (e3 & _ & ->)%run_zoom_Done & H); [|apply _].
  apply run_bind_Done in H as (c7 & [] & Hc7%run_rethrow_Done & H).
  apply run_zoom_Done in Hc7 as (s & Hcreate & ->); [|apply _].
  apply run_bind_Done in H as (c8 & mid & (e4 & _ & ->)%run_zoom_Done & H); [|apply _].
  apply run_bind_Done in H as (c9 & t & (e5 & _ & ->)%run_zoom_Done & H); [|apply _].
  apply run_bind_Done in H as (c10 & [] & (b' & Hpub & ->)%run_zoom_Done & H); [|apply _].
  injection H as <- <-. eexists. split; [done|].
  apply (lin_Done _ _ _ _ _ _ (consume_lin _)) in Hcons as [Hother Htask].
  apply (lin_Done _ _ _ _ _ _ (publish_lin _)) in Hpub.
  apply (lin_Done _ _ _ _ _ _ (create_lin _)) in Hcreate.
  cbn [view put broker_l env_l executions_l c_broker c_env c_executions control_state c_broker_l c_env_l c_executions_l] in *.
  unfold publish_spec, appended in Hpub.
  assert (queued b' task_destination = queued b task_destination) as Ht.
  { rewrite (Hpub task_destination). cbn [be_destination assignment_envelope].
    by rewrite decide_False, app_nil_r. }
  eexists submitted, request, _, now, _. simpl. rewrite Ht. split_and!; try done.
  - rewrite (Hpub (worker_destination worker)). cbn [be_destination assignment_envelope].
    by rewrite decide_True, Hother.
  - apply decode_encode_assign.
  - done.
  - intros d Hd1 Hd2. rewrite (Hpub d). cbn [be_destination assignment_envelope].
    by rewrite decide_False, app_nil_r, Hother.
Qed.

(** C25: a decision to assign took the task at the front of the queue, decoded it, and
    gave it to the first worker of the directory: the assignment carries the request's
    arguments, task, resources and metadata under fresh identifiers and the message's
    job, its execution is recorded as assigned to that worker and it is at the end of that
    worker's queue; no other queue, no job and no result has changed.  (The task destination
    is not a worker's queue.) *)
Theorem assigned_task_dispatched task_destination c c' worker a :
  (∀ worker, task_destination ≠ worker_destination worker) →
  run (schedule_one task_destination) c = (c', Done (Assigned worker a)) →
  ∃ s workers, run available_workers (c_workers c) = (s, Done (worker :: workers))
    ∧ dispatched task_destination worker a (put workers_l s c) c'.
Proof.
  intros Hne (c1 & ws & Hc1%run_rethrow_Done & H)%run_bind_Done.
  apply run_zoom_Done in Hc1 as (s & Hws & ->); [|apply _].
  destruct ws as [|w ws]; simpl in H; [done|].
  apply dispatch_outcome in H as (a' & [= <- <-] & Hd); [|done]. by exists s, ws.
Qed.

End scheduler_spec.

(** ** Examples *)

Module SchedulerExamples.
Import Concrete.

Abbreviation demo_control_type := (control LocalBroker unit MemoryWorkerRegistry MemoryExecutionStore).

Definition demo_submission : BrokerEnvelope :=
  {| be_message_id := "m"; be_message_kind := ""; be_schema_version := "v1"; be_source := "";
     be_destination := "tasks"; be_created_at := None; be_expires_at := None;
     be_payload := encode_submit
       {| st_application_namespace := "dev"; st_task_name := "add"; st_arguments := "1";
          st_serialization_format := "json"; st_resources := None; st_metadata := None;
          st_command_id := ""; st_task := None; st_parent_execution_id := None; st_rest := 0%Z |};
     be_content_type := None; be_correlation_id := Some "job"; be_causation_id := None;
     be_trace_context := None; be_routing_headers := None |}.

(** A task waits; the registry has the given workers. *)
Definition demo_state (m : MemoryWorkerRegistry) : demo_control_type :=
  mkControl (mkEnv 0 0) (mkJobTable false ∅) (mkLocalBroker {[ "tasks" := [demo_submission] ]}) tt m memory_store_default.

Lemma idle_turn_defers :
  (run (schedule_one "tasks") (demo_state RegistryExamples.demo_fresh)).2 = Done (Deferred NoWorkerAvailable).
Proof.
  rewrite (no_worker_defers "tasks" (demo_state RegistryExamples.demo_fresh)
    (run available_workers RegistryExamples.demo_fresh).1); [exact eq_refl|apply run_eta; vm_refl].
Defined.

Definition demo_busy : demo_control_type := demo_state RegistryExamples.demo_two.
Definition demo_assignment : AssignExecutionRequest :=
  make_assignment "0" "1" "job"
    {| st_application_namespace := "dev"; st_task_name := "add"; st_arguments := "1";
       st_serialization_format := "json"; st_resources := None; st_metadata := None;
       st_command_id := ""; st_task := None; st_parent_execution_id := None; st_rest := 0%Z |}.

Lemma assigned_task_dispatched_witness :
  ∃ s workers, run available_workers (c_workers demo_busy) = (s, Done ("w1" :: workers))
    ∧ dispatched "tasks" "w1" demo_assignment (put workers_l s demo_busy) (run (schedule_one "tasks") demo_busy).1.
Proof.
  apply (assigned_task_dispatched "tasks" demo_busy (run (schedule_one "tasks") demo_busy).1 "w1" demo_assignment).
  - discriminate.
  - apply run_eta. vm_refl.
Defined.
End SchedulerExamples.
