(* ===== verification/RuntimeService.v ===== *)
(** * The worker's runtime service ([src/worker/runtime.rs], [WorkerRuntimeService])

    Runtimes connect to a worker through sessions: the worker sends them assignments and
    cancellations over a channel, and they answer with events, which the worker checks
    against its pending executions and forwards to Core.  A session task is a program
    over [worker_state]; the lock around the pending executions is held for one critical
    section at a time. *)

From S2P Require Import Prelude RustStr Prog Protocol Pending.

(** ** Core as the worker sees it: the trait [CoreWorkerClient] *)

Class CoreWorkerClient `{P : Protocols} (S : Type) := {
  client_register_worker : WorkerRegistration → prog S Status RegisterWorkerResponse;
  client_report_heartbeat : RuntimeHeartbeat → prog S Status ReportHeartbeatResponse;
  client_report_execution : ReportExecutionRequest → prog S Status ReportExecutionResponse
}.

(** ** State *)

Section runtime.
Context `{P : Protocols} `{PF : Platform} `{HO : HashMapOrder}.
Context {BS KS : Type} `{C : !CoreWorkerClient KS}.

(** [mpsc::channel(32)]: what was sent and not yet received, and whether the receiving
    half still exists. *)
Record channel := mkChannel { ch_buffer : list (result Status WorkerCommand); ch_open : bool }.
Definition channel_capacity : nat := 32.

Record worker_state := mkWorkerState {
  w_env : env;
  w_pending : PendingState;
  w_channels : list channel;
  w_broker : BS;
  w_core : KS
}.

Definition wenv_l : lens worker_state env :=
  Lens w_env (λ x w, mkWorkerState x (w_pending w) (w_channels w) (w_broker w) (w_core w)).
Definition pending_l : lens worker_state PendingState :=
  Lens w_pending (λ x w, mkWorkerState (w_env w) x (w_channels w) (w_broker w) (w_core w)).
Definition channels_l : lens worker_state (list channel) :=
  Lens w_channels (λ x w, mkWorkerState (w_env w) (w_pending w) x (w_broker w) (w_core w)).
Definition wbroker_l : lens worker_state BS :=
  Lens w_broker (λ x w, mkWorkerState (w_env w) (w_pending w) (w_channels w) x (w_core w)).
Definition wcore_l : lens worker_state KS :=
  Lens w_core (λ x w, mkWorkerState (w_env w) (w_pending w) (w_channels w) (w_broker w) x).

#[export] Instance wenv_l_ok : LensOk wenv_l.
Proof. by split; try intros []; intros. Qed.
#[export] Instance pending_l_ok : LensOk pending_l.
Proof. by split; try intros []; intros. Qed.
#[export] Instance channels_l_ok : LensOk channels_l.
Proof. by split; try intros []; intros. Qed.
#[export] Instance wbroker_l_ok : LensOk wbroker_l.
Proof. by split; try intros []; intros. Qed.
#[export] Instance wcore_l_ok : LensOk wcore_l.
Proof. by split; try intros []; intros. Qed.

(** ** Access to the pending executions *)

(** A method of [PendingExecutions]: one critical section, with the clock reading it may
    take. *)
Definition with_pending {A} (f : Z → PendingState → PendingState * result Status A)
    : prog worker_state Status A :=
  critical (λ w,
    let now := instant_at (env_ticks (w_env w)) in
    let '(st, r) := f now (w_pending w) in
    (put pending_l st (put wenv_l (mkEnv (S (env_ticks (w_env w))) (env_uuids (w_env w))) w), r)).

(** [next_for]: waits while the queue is empty, and may go on once it is not; the
    notification that wakes it is the [Notify]'s. *)
Definition take_next {E} (session : string) : prog worker_state E AssignExecutionRequest :=
  section (λ w,
    match next_for session (w_pending w) with
    | (st, NextAssignment a) => (put pending_l st w, Done a)
    | (st, NextEmpty) => (w, Blocked)
    | (st, NextPanic) => (put pending_l st w, Panicked "queued assignment exists")
    end).

Definition disconnect_session {E} (session : string) : prog worker_state E unit :=
  section (λ w,
    match disconnect session (w_pending w) with
    | Some (st, _) => (put pending_l st w, Done tt)
    | None => (w, Panicked "selected record exists")
    end).

(** [Sender::send]: waits while the buffer is full, fails once the receiver is gone. *)
Definition send (sender : nat) (message : result Status WorkerCommand) : prog worker_state unit unit :=
  section (λ w,
    match w_channels w !! sender with
    | Some ch =>
      if negb (ch_open ch) then (w, Failed tt)
      else if bool_decide (channel_capacity ≤ length (ch_buffer ch)) then (w, Blocked)
      else (put channels_l (<[sender := mkChannel (ch_buffer ch ++ [message]) true]> (w_channels w)) w, Done tt)
    | None => (w, Failed tt)
    end).

(** [PendingExecutions::cancel] *)
Definition cancel (assignment_id : string) (reason : option string) : prog worker_state Status unit :=
  target ← with_pending (λ _ st, (st, cancel_command assignment_id reason st));
  rethrow (λ _, unavailable "runtime session disconnected") (send target.1 (Ok target.2)).

(** ** Reports *)

(** [report_for]: the identifier is drawn, and the clock read when the event has no time. *)
Definition report_for (assignment_id execution_id : string) (sequence_number : Z) (state : ExecutionState)
    (outcome : option JobResult) (observed_at : option Timestamp) : prog worker_state Status ReportExecutionRequest :=
  report_id ← zoom wenv_l new_uuid;
  observed ← match observed_at with
             | Some t => mret t
             | None => now ← zoom wenv_l system_time_now; mret (timestamp_from now)
             end;
  mret {| re_report_id := report_id;
          re_assignment_id := assignment_id;
          re_execution_id := execution_id;
          re_sequence_number := sequence_number;
          re_state := execution_state_code state;
          re_outcome := outcome;
          re_observed_at := Some observed |}.

Definition forward (report : ReportExecutionRequest) : prog worker_state Status unit :=
  response ← zoom wcore_l (client_report_execution report);
  if negb (rer_accepted response) then Throw (internal "Core did not accept execution report")
  else mret tt.

(** ** Events *)

Definition completed (event : ExecutionCompleted) : prog worker_state Status unit :=
  result ← lift_result (ok_or (ec_result event) (invalid_argument "completed event requires a result"));
  if bool_decide (is_Some (jr_failure result)) then
    Throw (invalid_argument "completed result cannot contain failure")
  else
    _ ← with_pending (λ now, terminal now (ec_assignment_id event) (ec_execution_id event)
                               (ec_sequence_number event) true);
    report ← report_for (ec_assignment_id event) (ec_execution_id event) (ec_sequence_number event)
               ES_Succeeded (Some result) (ec_observed_at event);
    forward report.

(** [JobResult { failure: Some(failure), ..Default::default() }] *)
Definition failure_result (failure : ProtoError) : JobResult :=
  {| jr_payload := jr_payload default_job_result;
     jr_serialization_format := jr_serialization_format default_job_result;
     jr_failure := Some failure;
     jr_execution_id := jr_execution_id default_job_result;
     jr_rest := jr_rest default_job_result |}.

Definition failed (event : ExecutionFailed) : prog worker_state Status unit :=
  failure ← lift_result (ok_or (ef_failure event) (invalid_argument "failed event requires failure information"));
  _ ← with_pending (λ now, terminal now (ef_assignment_id event) (ef_execution_id event)
                             (ef_sequence_number event) false);
  report ← report_for (ef_assignment_id event) (ef_execution_id event) (ef_sequence_number event)
             ES_Failed (Some (failure_result failure)) (ef_observed_at event);
  forward report.

Definition handle_event (event : RuntimeEvent) : prog worker_state Status unit :=
  payload ← lift_result (ok_or (ev_payload event) (invalid_argument "runtime event payload is required"));
  match payload with
  | EvReady _ => mret tt
  | EvHeartbeat _ => mret tt
  | EvExecutionStarted e =>
    _ ← with_pending (λ now, started now e);
    report ← report_for (es_assignment_id e) (es_execution_id e) (es_sequence_number e)
               ES_Running None (es_observed_at e);
    forward report
  | EvExecutionProgress e => with_pending (λ _, progress e)
  | EvExecutionMetrics e => with_pending (λ _, metrics e)
  | EvExecutionCompleted e => completed e
  | EvExecutionFailed e => failed e
  end.

(** ** Sessions *)

(** The branch [select!] takes at one turn of the session loop: the next item of the
    inbound stream (its end is [None], a read error [Some (Err _)]), or the next
    assignment. *)
Inductive select : Type :=
| SelEvent (item : option (result Status RuntimeEvent))
| SelAssignment.

(** The session loop along one choice of branches.  It ends by [disconnect] on the end of
    the stream, a read error, a refused event or a closed channel; when the choices run
    out the session is still open. *)
Fixpoint session_loop (session : string) (sender : nat) (branches : list select)
    : prog worker_state Empty_set unit :=
  match branches with
  | [] => mret tt
  | SelEvent (Some (Ok event)) :: branches =>
    handled ← attempt (handle_event event);
    match handled with
    | Err status =>
      _ ← attempt (send sender (Err status));
      disconnect_session session
    | Ok _ => session_loop session sender branches
    end
  | SelEvent _ :: _ => disconnect_session session
  | SelAssignment :: branches =>
    assignment ← take_next session;
    let command := {| wc_payload := Some (CmdAssignExecution assignment) |} in
    sent ← attempt (send sender (Ok command));
    match sent with
    | Err _ => disconnect_session session
    | Ok _ => session_loop session sender branches
    end
  end.

(** The channel [mpsc::channel(32)] makes: the sender is its index. *)
Definition new_channel {E} : prog worker_state E nat :=
  atomic (λ w, (put channels_l (w_channels w ++ [mkChannel [] true]) w, length (w_channels w))).

(** [runtime_session], with the task it spawns. *)
Definition runtime_session (branches : list select) : prog worker_state Empty_set unit :=
  session ← zoom wenv_l new_uuid;
  sender ← new_channel;
  _ ← atomic (λ w, (put pending_l (register_session session sender (w_pending w)) w, tt));
  session_loop session sender branches.

(** ** The other methods of the service *)

(** A report sent outside a session is forwarded as it is, for a known assignment. *)
Definition worker_report_execution (report : ReportExecutionRequest)
    : prog worker_state Status ReportExecutionResponse :=
  _ ← with_pending (λ _ st,
        (st, ok_or (assignment <$> assignments st !! re_assignment_id report) (not_found "assignment not found")));
  _ ← forward report;
  mret {| rer_accepted := true |}.

Definition worker_register_runtime : prog worker_state Status unit :=
  Throw (unimplemented "registration is outside the runtime session").
Definition worker_report_heartbeat : prog worker_state Status unit :=
  Throw (unimplemented "runtime heartbeats use RuntimeSession").
Definition worker_register_worker : prog worker_state Status unit :=
  Throw (unimplemented "worker registration belongs to Core").
Definition worker_assign_execution : prog worker_state Status unit :=
  Throw (unimplemented "assignments arrive through the broker").
End runtime.
Arguments worker_state {_} BS KS.
