(* ===== verification/Remote.v ===== *)
(** * Core as a worker reaches it ([src/worker/worker.rs], [GrpcCoreWorkerClient])

    The worker's client connects to Core for every call and sends one request.  The
    transport is [tonic]'s; over it, the client's calls run the handlers of the server, so
    that worker and server are one system. *)

From S2P Require Import Prelude RustStr Prog Protocol WorkerRegistry ExecutionStore Broker ResultBackend.
From S2P Require Import Control CoreService RuntimeService.

(** What becomes of a call: the handler runs and its answer arrives, the call fails before
    it reaches the server, or its answer is lost. *)
Inductive call_fate : Set :=
| Reached
| NotSent (status : Status)
| AnswerLost (status : Status).

(** [RuntimeServiceClient::connect], whose errors are their texts, and the fate of a call. *)
Class Transport (T : Type) := {
  transport_connect : T → T * result string unit;
  transport_send : T → T * call_fate
}.

Section remote.
Context `{P : Protocols} `{PF : Platform}.
Context {T BS XS WS ES : Type} `{N : !Transport T} `{B : !Broker BS} `{K : !BackendResult XS}
  `{G : !WorkerRegistry WS} `{X : !ExecutionStore ES}.

(** The transport and the server behind it. *)
Record remote_core := mkRemoteCore { rc_transport : T; rc_control : control BS XS WS ES }.

Definition transport_l : lens remote_core T := Lens rc_transport (λ x r, mkRemoteCore x (rc_control r)).
Definition control_l : lens remote_core (control BS XS WS ES) := Lens rc_control (λ x r, mkRemoteCore (rc_transport r) x).

#[export] Instance transport_l_ok : LensOk transport_l.
Proof. by split; try intros []; intros. Qed.
#[export] Instance control_l_ok : LensOk control_l.
Proof. by split; try intros []; intros. Qed.

(** One call of the client: connect, then the handler at the server, if the call gets
    there. *)
Definition grpc_call {A} (handler : prog (control BS XS WS ES) Status A) : prog remote_core Status A :=
  _ ← rethrow (λ error, unavailable ("cannot connect to Core: " +:+ error)) (zoom transport_l (critical transport_connect));
  fate ← zoom transport_l (atomic transport_send);
  match fate with
  | Reached => zoom control_l handler
  | NotSent status => Throw status
  | AnswerLost status => _ ← attempt (zoom control_l handler); Throw status
  end.

#[export] Instance grpc_core_worker_client : CoreWorkerClient remote_core :=
  {| client_register_worker registration := grpc_call (core_register_worker (Some registration));
     client_report_heartbeat beat := grpc_call (core_report_heartbeat (Some beat));
     client_report_execution report := grpc_call (core_report_execution report) |}.

(** A call that returned ran its handler once. *)
Lemma run_grpc_call_Done {A} (handler : prog (control BS XS WS ES) Status A) r r' a :
  run (grpc_call handler) r = (r', Done a) → run handler (rc_control r) = (rc_control r', Done a).
Proof.
  unfold grpc_call. intros (r1 & [] & H1%run_rethrow_Done & H)%run_bind_Done.
  apply run_zoom_Done in H1 as (t1 & _ & ->); [|apply _].
  apply run_bind_Done in H as (r2 & fate & (t2 & _ & ->)%run_zoom_Done & H); [|apply _].
  destruct fate as [|st|st]; [|done|].
  - apply run_zoom_Done in H as (c & Hc & ->); [|apply _]. exact Hc.
  - by apply run_bind_Done in H as (? & ? & _ & ?).
Qed.
End remote.
Arguments remote_core {_} T BS XS WS ES.
