(* ===== verification/Serde.v ===== *)
(** * Deserialisation of structures ([serde])

    The boundary to the data format: [Deserializer] is what the configuration relies on of
    [serde]'s trait of that name (for [serde_yaml], a node of the document), and [visit_map]
    is the loop that [#[derive(Deserialize)]] with [deny_unknown_fields] stands for.  Its
    reference reading, [reads], looks every field up in the mapping. *)

From S2P Require Import Prelude RustStr.

(** The errors of [serde::de::Error]; [Malformed] are the format's own. *)
Inductive de_error : Type :=
| Custom (message : string)
| MissingField (field : string)
| UnknownField (field : string) (expected : list string)
| DuplicateField (field : string)
| Malformed (message : string).

#[export] Instance de_error_eq_dec : EqDecision de_error.
Proof. solve_decision. Defined.

(** A node of a document, read as what the program asks for.  A mapping is its entries in
    document order, the keys read as field identifiers; [de_option] is [None] for a null. *)
Class Deserializer (N : Type) := {
  de_map : N → result de_error (list (string * N));
  de_seq : N → result de_error (list N);
  de_string : N → result de_error string;
  de_u64 : N → result de_error Z;
  de_option : N → option N;
  show_error : de_error → string;
  de_u64_range n z : de_u64 n = Ok z → (0 ≤ z ≤ u64_max)%Z
}.

(** ** The fields of a structure *)

(** Each field with the name and the reader of its value. *)
Inductive fields (N : Type) : Type :=
| NoFields
| Field {T : Type} (name : string) (read : N → result de_error T) (rest : fields N).
Arguments NoFields {N}.
Arguments Field {N T} name read rest.

(** The variables the derived code collects the values in. *)
Fixpoint slots {N} (fs : fields N) : Type :=
  match fs with
  | NoFields => unit
  | @Field _ T _ _ rest => option T * slots rest
  end.

Fixpoint no_values {N} (fs : fields N) : slots fs :=
  match fs with
  | NoFields => tt
  | Field _ _ rest => (None, no_values rest)
  end.

Fixpoint field_names {N} (fs : fields N) : list string :=
  match fs with
  | NoFields => []
  | Field name _ rest => name :: field_names rest
  end.

(** The entry [key: value]; [None] when no field has that name. *)
Fixpoint fill {N} (fs : fields N) (key : string) (value : N) : slots fs → option (result de_error (slots fs)) :=
  match fs with
  | NoFields => λ _, None
  | Field name read rest => λ '(v, vs),
      if bool_decide (key = name) then
        Some (match v with
              | Some _ => Err (DuplicateField key)
              | None => t ← read value; Ok (Some t, vs)
              end)
      else (λ r, vs' ← r; Ok (v, vs')) <$> fill rest key value vs
  end.

(** The derived [visit_map]: the entries in document order. *)
Fixpoint visit_entries {N} (fs : fields N) (entries : list (string * N)) (vs : slots fs) : result de_error (slots fs) :=
  match entries with
  | [] => Ok vs
  | (key, value) :: entries =>
    match fill fs key value vs with
    | None => Err (UnknownField key (field_names fs))
    | Some r => vs ← r; visit_entries fs entries vs
    end
  end.

Definition visit_map {N} (fs : fields N) (entries : list (string * N)) : result de_error (slots fs) :=
  visit_entries fs entries (no_values fs).

(** A field without default, after the entries. *)
Definition required {T} (field : string) (v : option T) : result de_error T :=
  ok_or v (MissingField field).

(** [Option<T>] and [Vec<T>]; an absent [Option] field is [None]. *)
Definition deserialize_option {N} `{D : !Deserializer N} {T} (read : N → result de_error T) (n : N)
    : result de_error (option T) :=
  match de_option n with
  | None => Ok None
  | Some n => t ← read n; Ok (Some t)
  end.

Fixpoint read_each {N T} (read : N → result de_error T) (l : list N) : result de_error (list T) :=
  match l with
  | [] => Ok []
  | n :: l => t ← read n; ts ← read_each read l; Ok (t :: ts)
  end.

Definition deserialize_vec {N} `{D : !Deserializer N} {T} (read : N → result de_error T) (n : N)
    : result de_error (list T) :=
  l ← de_seq n; read_each read l.

(** ** The reference reading *)

(** The value an entry gives to each field, or nothing where no entry has its name. *)
Fixpoint reads {N} (fs : fields N) (m : gmap string N) : slots fs → Prop :=
  match fs with
  | NoFields => λ _, True
  | Field name read rest => λ '(v, vs),
      match m !! name with
      | None => v = None
      | Some n => ∃ t, read n = Ok t ∧ v = Some t
      end ∧ reads rest m vs
  end.

(** The entries as a mapping; their keys are distinct where it is used. *)
Definition mapping {N} (entries : list (string * N)) : gmap string N := list_to_map entries.
Arguments mapping : simpl never.

Lemma reads_empty {N} (fs : fields N) : reads fs ∅ (no_values fs).
Proof. induction fs as [|T name read rest IH]; simpl; [done|]. by rewrite lookup_empty. Qed.

Lemma reads_empty_inv {N} (fs : fields N) vs : reads fs ∅ vs → vs = no_values fs.
Proof.
  induction fs as [|T name read rest IH]; [by destruct vs|]. destruct vs as [v vs]. simpl. rewrite lookup_empty.
  intros [-> ?]. f_equal. auto.
Qed.

(** The reading is a function of the mapping, and defined on the smaller ones. *)
Lemma reads_fun {N} (fs : fields N) m vs vs' : reads fs m vs → reads fs m vs' → vs = vs'.
Proof.
  induction fs as [|T name read rest IH]; [by destruct vs, vs'|]. destruct vs as [v vs], vs' as [v' vs']. simpl.
  intros [Hv Hvs] [Hv' Hvs']. f_equal; [|eauto]. destruct (m !! name) as [n|]; [|congruence].
  destruct Hv as (t & Ht & ->), Hv' as (t' & Ht' & ->). congruence.
Qed.

Lemma reads_submap {N} (fs : fields N) m m' vs : m' ⊆ m → reads fs m vs → ∃ vs', reads fs m' vs'.
Proof.
  intros Hsub. induction fs as [|T name read rest IH]; [by exists tt|]. destruct vs as [v vs]. simpl.
  intros [Hv Hvs]. destruct (IH _ Hvs) as [vs' Hvs']. destruct (m' !! name) as [n|] eqn:Hn.
  - rewrite (lookup_weaken _ _ _ _ Hn Hsub) in Hv. destruct Hv as (t & Ht & _). exists (Some t, vs'). eauto.
  - by exists (None, vs').
Qed.

(** A name that no field has does not matter. *)
Lemma reads_irrelevant {N} (fs : fields N) m key n vs :
  key ∉ field_names fs → reads fs (<[key := n]> m) vs ↔ reads fs m vs.
Proof.
  induction fs as [|T name read rest IH]; [done|]. destruct vs as [v vs]. simpl. intros Hk.
  rewrite lookup_insert_ne by set_solver. rewrite IH by set_solver. done.
Qed.

(** One entry more, for a name that had none. *)
Lemma fill_reads {N} (fs : fields N) m key n vs vs' :
  NoDup (field_names fs) → m !! key = None → reads fs m vs →
  fill fs key n vs = Some (Ok vs') → key ∈ field_names fs ∧ reads fs (<[key := n]> m) vs'.
Proof.
  induction fs as [|T name read rest IH]; [done|]. destruct vs as [v vs], vs' as [v' vs']. simpl.
  intros [Hn Hnd]%NoDup_cons Hm [Hv Hvs]. case_bool_decide as Hk.
  - subst name. rewrite Hm in Hv. subst v. intros [= H]. apply result_bind_Ok in H as (t & Ht & [= <- <-]).
    split; [set_solver|]. rewrite lookup_insert_eq. split; [eauto|]. by apply reads_irrelevant.
  - intros (r & Hf & Hr)%fmap_Some. symmetry in Hr. apply result_bind_Ok in Hr as (ws & -> & [= <- <-]).
    destruct (IH _ _ Hnd Hm Hvs Hf) as [??]. split; [set_solver|]. by rewrite lookup_insert_ne.
Qed.

(** A name that already had an entry is refused. *)
Lemma fill_duplicate {N} (fs : fields N) m key n n' vs vs' :
  m !! key = Some n' → reads fs m vs → fill fs key n vs ≠ Some (Ok vs').
Proof.
  induction fs as [|T name read rest IH]; [done|]. destruct vs as [v vs], vs' as [v' vs']. simpl.
  intros Hm [Hv Hvs]. case_bool_decide as Hk.
  - subst name. rewrite Hm in Hv. destruct Hv as (t & _ & ->). done.
  - intros (r & Hf & Hr)%fmap_Some. symmetry in Hr. apply result_bind_Ok in Hr as (ws & -> & _). by eapply IH.
Qed.

(** Where the reference reads the entry, so does the loop. *)
Lemma reads_fill {N} (fs : fields N) m key n vs vs' :
  NoDup (field_names fs) → m !! key = None → key ∈ field_names fs → reads fs m vs →
  reads fs (<[key := n]> m) vs' → fill fs key n vs = Some (Ok vs').
Proof.
  induction fs as [|T name read rest IH]; simpl; [set_solver|]. destruct vs as [v vs], vs' as [v' vs'].
  intros [Hn Hnd]%NoDup_cons Hm Hin [Hv Hvs] [Hv' Hvs']. case_bool_decide as Hk.
  - subst name. rewrite Hm in Hv. rewrite lookup_insert_eq in Hv'. destruct Hv' as (t & Ht & ->). subst v.
    rewrite Ht. simpl. do 3 f_equal. apply reads_irrelevant in Hvs'; [|done]. by eapply reads_fun.
  - rewrite (IH vs vs'); [|done|done|set_solver|done|done]. simpl. do 3 f_equal.
    rewrite lookup_insert_ne in Hv' by done. destruct (m !! name) as [k|]; [|congruence].
    destruct Hv as (t & Ht & ->), Hv' as (t' & Ht' & ->). congruence.
Qed.

Lemma mapping_insert_ne {N} (m : gmap string N) key n entries :
  m !! key = None → key ∉ entries.*1 → mapping entries ∪ <[key := n]> m = mapping ((key, n) :: entries) ∪ m.
Proof.
  intros Hm Hk. unfold mapping. simpl. rewrite <-insert_union_l, insert_union_r; [done|].
  by apply not_elem_of_list_to_map_1.
Qed.

(** The loop, from the values of the entries before. *)
Lemma visit_entries_exact {N} (fs : fields N) entries m vs vs' :
  NoDup (field_names fs) → reads fs m vs →
  visit_entries fs entries vs = Ok vs'
  ↔ NoDup entries.*1 ∧ (∀ k, k ∈ entries.*1 → m !! k = None ∧ k ∈ field_names fs)
    ∧ reads fs (mapping entries ∪ m) vs'.
Proof.
  intros Hnd. revert m vs. induction entries as [|[key n] entries IH]; intros m vs Hvs; simpl.
  { unfold mapping. simpl. rewrite (left_id_L ∅ (∪)). split.
    - intros [= <-]. split_and!; [constructor|set_solver|done].
    - intros (_ & _ & H). f_equal. by eapply reads_fun. }
  split.
  - destruct (fill fs key n vs) as [r|] eqn:Hf; [|done]. intros (ws & -> & H)%result_bind_Ok.
    destruct (m !! key) as [n'|] eqn:Hm; [by destruct (fill_duplicate fs m key n n' vs ws)|].
    destruct (fill_reads fs m key n vs ws) as [Hin Hws]; [done..|].
    apply (IH _ _ Hws) in H as (Hnd' & Hks & Hr).
    assert (key ∉ entries.*1) as Hk by (intros Hk; destruct (Hks key Hk) as [H _]; by rewrite lookup_insert_eq in H).
    split_and!; [by constructor| |by rewrite <-mapping_insert_ne].
    intros k [->|Hk']%elem_of_cons; [done|]. destruct (Hks k Hk') as [Hl ?]. split; [|done].
    by apply lookup_insert_None in Hl as [??].
  - intros ([Hk Hnd']%NoDup_cons & Hks & Hr). destruct (Hks key) as [Hm Hin]; [set_solver|].
    rewrite <-mapping_insert_ne in Hr by done.
    destruct (reads_submap fs (mapping entries ∪ <[key := n]> m) (<[key := n]> m) vs') as [ws Hws]; [|done|].
    { apply map_union_subseteq_r, map_disjoint_spec. intros k x y Hx%elem_of_list_to_map_2 Hy.
      assert (k ∈ entries.*1) as Hkin by (apply list_elem_of_fmap; by exists (k, x)).
      destruct (Hks k) as [Hm' _]; [set_solver|].
      rewrite lookup_insert_ne in Hy by (intros ->; done). congruence. }
    rewrite (reads_fill fs m key n vs ws) by done. simpl. apply (IH _ _ Hws). split_and!; [done| |done].
    intros k Hk'. destruct (Hks k) as [??]; [set_solver|]. split; [|done].
    apply lookup_insert_None. split; [done|]. by intros ->.
Qed.

(** The derived code reads a mapping exactly when its keys are distinct names of fields and
    every value can be read; each field then has the value of its entry, wherever it is. *)
Lemma visit_map_exact {N} (fs : fields N) entries vs :
  NoDup (field_names fs) →
  visit_map fs entries = Ok vs
  ↔ NoDup entries.*1 ∧ entries.*1 ⊆ field_names fs ∧ reads fs (mapping entries) vs.
Proof.
  intros Hnd. unfold visit_map. rewrite (visit_entries_exact fs entries ∅); [|done|apply reads_empty].
  rewrite (right_id_L ∅ (∪)). set_solver.
Qed.

(** The order of the entries does not matter. *)
Lemma visit_map_permutation {N} (fs : fields N) entries entries' vs :
  NoDup (field_names fs) → entries ≡ₚ entries' → visit_map fs entries = Ok vs → visit_map fs entries' = Ok vs.
Proof.
  intros Hnd Hp. rewrite !visit_map_exact by done. intros (He & Hs & Hr).
  assert (NoDup entries'.*1) as He' by (by rewrite <-Hp). split_and!; [done|by rewrite <-Hp|].
  unfold mapping in *. by rewrite <-(list_to_map_proper entries entries').
Qed.

(** ** What a structure denotes *)

Section denotes.
Context {N : Type} `{D : !Deserializer N}.
Implicit Types (n : N) (m : gmap string N).

(** The field [name] has the value [v]: what its entry denotes, or else the default [d]. *)
Definition field_is {T} m (name : string) (R : N → T → Prop) (d : option T) (v : T) : Prop :=
  match m !! name with
  | None => d = Some v
  | Some n => R n v
  end.

(** A mapping with distinct keys, all of them among [names]. *)
Definition struct_is n (names : list string) (fields : gmap string N → Prop) : Prop :=
  ∃ entries, de_map n = Ok entries ∧ NoDup entries.*1 ∧ entries.*1 ⊆ names ∧ fields (mapping entries).

Definition option_is {T} (R : N → T → Prop) n (o : option T) : Prop :=
  match de_option n, o with
  | None, None => True
  | Some n, Some t => R n t
  | _, _ => False
  end.

Definition vec_is {T} (R : N → T → Prop) n (l : list T) : Prop :=
  ∃ ns, de_seq n = Ok ns ∧ Forall2 R ns l.

Definition string_is n (s : string) : Prop := de_string n = Ok s.

(** A reader that accepts exactly what [R] relates. *)
Definition reads_as {T} (read : N → result de_error T) (R : N → T → Prop) : Prop :=
  ∀ n t, read n = Ok t ↔ R n t.

Lemma string_reads : reads_as de_string string_is.
Proof. done. Qed.

Lemma option_reads {T} (read : N → result de_error T) R : reads_as read R → reads_as (deserialize_option read) (option_is R).
Proof.
  unfold reads_as. intros H n o. unfold deserialize_option, option_is. destruct (de_option n) as [m|]; [|destruct o; naive_solver].
  rewrite result_bind_Ok. destruct o as [t|]; [rewrite <-H|]; naive_solver.
Qed.

Lemma vec_reads {T} (read : N → result de_error T) R : reads_as read R → reads_as (deserialize_vec read) (vec_is R).
Proof.
  unfold reads_as. intros H n l. unfold deserialize_vec, vec_is. rewrite result_bind_Ok. apply exist_proper. intros ns.
  assert (read_each read ns = Ok l ↔ Forall2 R ns l) as ->; [|done].
  revert l. induction ns as [|k ns IH]; intros l; simpl.
  - split; [by intros [= <-]|]. by intros ->%Forall2_nil_inv_l.
  - rewrite result_bind_Ok. split.
    + intros (t & Ht%H & (ts & Hts%IH & [= <-])%result_bind_Ok). by constructor.
    + intros (t & ts & Ht%H & Hts%IH & ->)%Forall2_cons_inv_l. exists t. by rewrite Hts.
Qed.

(** The variable of a field, and the value the structure gets from it. *)
Definition slot_is {T} m (name : string) (read : N → result de_error T) (v : option T) : Prop :=
  match m !! name with
  | None => v = None
  | Some n => ∃ t, read n = Ok t ∧ v = Some t
  end.

Lemma slot_required {T} (read : N → result de_error T) R m name t : reads_as read R →
  (∃ v, slot_is m name read v ∧ required name v = Ok t) ↔ field_is m name R None t.
Proof.
  unfold reads_as. intros H. unfold slot_is, field_is, required. setoid_rewrite ok_or_Ok. destruct (m !! name) as [n|]; [|naive_solver].
  rewrite <-H. naive_solver.
Qed.

Lemma slot_default {T} (read : N → result de_error T) R m name d t : reads_as read R →
  (∃ v, slot_is m name read v ∧ t = default d v) ↔ field_is m name R (Some d) t.
Proof.
  unfold reads_as. intros H. unfold slot_is, field_is. destruct (m !! name) as [n|]; [|naive_solver]. rewrite <-H. naive_solver.
Qed.

(** A node read as a structure: the derived code, and what the entries denote. *)
Lemma struct_reads (fs : fields N) {A} n (k : slots fs → result de_error A) a (denoted : gmap string N → Prop) :
  NoDup (field_names fs) → (∀ m, (∃ vs, reads fs m vs ∧ k vs = Ok a) ↔ denoted m) →
  (entries ← de_map n; vs ← visit_map fs entries; k vs) = Ok a ↔ struct_is n (field_names fs) denoted.
Proof.
  intros Hnd Hk. rewrite result_bind_Ok. unfold struct_is. apply exist_proper. intros entries.
  rewrite <-Hk, result_bind_Ok. setoid_rewrite (visit_map_exact fs); [|done]. naive_solver.
Qed.
End denotes.

(** ** Documents as trees *)

(** An instance that computes: the tree of a YAML document, with its scalars as written. *)
Module Tree.
Inductive yaml : Type :=
| Null
| Scalar (s : string)
| Sequence (l : list yaml)
| Mapping (entries : list (string * yaml)).

Definition invalid_type : de_error := Malformed "invalid type".

(** An empty node is an empty mapping to a structure. *)
Definition tree_map (n : yaml) : result de_error (list (string * yaml)) :=
  match n with
  | Mapping entries => Ok entries
  | Null => Ok []
  | _ => Err invalid_type
  end.

Definition tree_seq (n : yaml) : result de_error (list yaml) :=
  match n with
  | Sequence l => Ok l
  | _ => Err invalid_type
  end.

Definition tree_string (n : yaml) : result de_error string :=
  match n with
  | Scalar s => Ok s
  | _ => Err invalid_type
  end.

Definition tree_u64 (n : yaml) : result de_error Z :=
  s ← tree_string n; ok_or (parse_u64 s) invalid_type.

Definition tree_option (n : yaml) : option yaml :=
  match n with
  | Null => None
  | _ => Some n
  end.

Definition tree_error (e : de_error) : string :=
  match e with
  | Custom message | Malformed message => message
  | MissingField field => "missing field `" +:+ field +:+ "`"
  | UnknownField field _ => "unknown field `" +:+ field +:+ "`"
  | DuplicateField field => "duplicate field `" +:+ field +:+ "`"
  end.

#[export, program] Instance yaml_tree : Deserializer yaml := {|
  de_map := tree_map; de_seq := tree_seq; de_string := tree_string;
  de_u64 := tree_u64; de_option := tree_option; show_error := tree_error |}.
Next Obligation. intros n z (s & _ & H%ok_or_Ok)%result_bind_Ok. by eapply parse_u64_bounds. Qed.
End Tree.
