(* ===== verification/Config.v ===== *)
(** * Configuration ([src/config/mod.rs])

    The configuration records with their defaults, their deserialisation from the nodes of
    a document, with the checks on worker resources, and the role-specific sections.
    Reading the file and its YAML syntax are the operating system's and [serde_yaml]'s;
    [load] has them as parameters. *)

From S2P Require Import Prelude RustStr Serde.

Record ServerConfig := mkServerConfig { bind_address : string }.

Record RedisConfig := mkRedisConfig { redis_url : string; worker_membership_ttl_seconds : Z }.

Definition default_worker_membership_ttl_seconds : Z := 30.

Record BrokerConfig := mkBrokerConfig { bc_key_prefix : string; bc_task_destination : string }.

Record WorkerResourcesConfig := mkWorkerResourcesConfig { cfg_cpu : Z; cfg_memory : Z }.

Definition worker_resources_default : WorkerResourcesConfig := mkWorkerResourcesConfig 0 0.

Record WorkerConfig := mkWorkerConfig {
  cfg_name : option string;
  cfg_core_endpoint : string;
  cfg_runtime_address : string;
  cfg_resources : WorkerResourcesConfig;
  cfg_capabilities : list string
}.

Definition default_worker_runtime_address : string := "0.0.0.0:50052".

Definition worker_config_default : WorkerConfig :=
  mkWorkerConfig None "" default_worker_runtime_address worker_resources_default [].

Record Config := mkConfig {
  cfg_server : option ServerConfig;
  cfg_redis : RedisConfig;
  cfg_broker : BrokerConfig;
  cfg_worker : option WorkerConfig
}.

(** ** Worker resources *)

Definition memory_units : list (string * Z) :=
  [("TiB", Z.shiftl 1 40); ("GiB", Z.shiftl 1 30); ("MiB", Z.shiftl 1 20); ("KiB", Z.shiftl 1 10);
   ("TB", 1000000000000); ("GB", 1000000000); ("MB", 1000000)]%Z.

(** [u64::checked_add] *)
Definition checked_add (a b : Z) : option Z :=
  if bool_decide (a + b ≤ u64_max)%Z then Some (a + b)%Z else None.

(** [u64::checked_mul] *)
Definition checked_mul (a b : Z) : option Z :=
  if bool_decide (a * b ≤ u64_max)%Z then Some (a * b)%Z else None.

(** The loop over the units. *)
Fixpoint parse_units (units : list (string * Z)) (value : string) : result string Z :=
  match units with
  | [] => Err "worker memory must use one of KiB, MiB, GiB, TiB, MB, GB, or TB"
  | (suffix, multiplier) :: units =>
    match strip_suffix suffix value with
    | Some number =>
      number ← ok_or (parse_u64 (trim number))
                 ("worker memory must be an integer followed by " +:+ suffix);
      ok_or (checked_mul number multiplier) "worker memory exceeds the supported range"
    | None => parse_units units value
    end
  end.

Definition parse_memory (value : string) : result string Z := parse_units memory_units (trim value).

(** ** Deserialisation *)

Section deserialize.
Context {N : Type} `{D : !Deserializer N}.

Definition deserialize_cpu (n : N) : result de_error Z :=
  cpu ← de_u64 n;
  if bool_decide (u64_max / 1000 < cpu)%Z
  then Err (Custom "worker CPU exceeds the protocol millicore range")
  else Ok cpu.

Definition deserialize_memory (n : N) : result de_error Z :=
  value ← de_string n;
  map_err Custom (parse_memory value).

(** The derived [Deserialize] of each structure: its entries, then the fields that have
    none, in the order of their declaration. *)
Definition server_fields : fields N := Field "bind_address" de_string NoFields.

Definition deserialize_server (n : N) : result de_error ServerConfig :=
  entries ← de_map n;
  '(address, _) ← visit_map server_fields entries;
  address ← required "bind_address" address;
  Ok (mkServerConfig address).

Definition redis_fields : fields N :=
  Field "url" de_string (Field "worker_membership_ttl_seconds" de_u64 NoFields).

Definition deserialize_redis (n : N) : result de_error RedisConfig :=
  entries ← de_map n;
  '(url, (ttl, _)) ← visit_map redis_fields entries;
  url ← required "url" url;
  Ok (mkRedisConfig url (default default_worker_membership_ttl_seconds ttl)).

Definition broker_fields : fields N :=
  Field "key_prefix" de_string (Field "task_destination" de_string NoFields).

Definition deserialize_broker (n : N) : result de_error BrokerConfig :=
  entries ← de_map n;
  '(key_prefix, (task_destination, _)) ← visit_map broker_fields entries;
  key_prefix ← required "key_prefix" key_prefix;
  task_destination ← required "task_destination" task_destination;
  Ok (mkBrokerConfig key_prefix task_destination).

Definition resources_fields : fields N :=
  Field "cpu" deserialize_cpu (Field "memory" deserialize_memory NoFields).

Definition deserialize_resources (n : N) : result de_error WorkerResourcesConfig :=
  entries ← de_map n;
  '(cpu, (memory, _)) ← visit_map resources_fields entries;
  Ok (mkWorkerResourcesConfig (default 0%Z cpu) (default 0%Z memory)).

Definition worker_fields : fields N :=
  Field "name" (deserialize_option de_string)
  (Field "core_endpoint" de_string
  (Field "runtime_address" de_string
  (Field "resources" deserialize_resources
  (Field "capabilities" (deserialize_vec de_string) NoFields)))).

Definition deserialize_worker (n : N) : result de_error WorkerConfig :=
  entries ← de_map n;
  '(name, (core_endpoint, (runtime_address, (resources, (capabilities, _))))) ← visit_map worker_fields entries;
  core_endpoint ← required "core_endpoint" core_endpoint;
  Ok {| cfg_name := default None name;
        cfg_core_endpoint := core_endpoint;
        cfg_runtime_address := default default_worker_runtime_address runtime_address;
        cfg_resources := default worker_resources_default resources;
        cfg_capabilities := default [] capabilities |}.

Definition config_fields : fields N :=
  Field "server" (deserialize_option deserialize_server)
  (Field "redis" deserialize_redis
  (Field "broker" deserialize_broker
  (Field "worker" (deserialize_option deserialize_worker) NoFields))).

Definition deserialize_config (n : N) : result de_error Config :=
  entries ← de_map n;
  '(server, (redis, (broker, (worker, _)))) ← visit_map config_fields entries;
  redis ← required "redis" redis;
  broker ← required "broker" broker;
  Ok {| cfg_server := default None server;
        cfg_redis := redis;
        cfg_broker := broker;
        cfg_worker := default None worker |}.

(** [Config::load], for a file system [open] and the YAML reader [document]. *)
Definition load {File : Type} (open : string → result string File) (document : File → result de_error N)
    (path : string) : result string Config :=
  file ← map_err (λ error, "cannot open configuration file " +:+ path +:+ ": " +:+ error) (open path);
  map_err (λ error, "cannot parse configuration file " +:+ path +:+ ": " +:+ show_error error)
    (n ← document file; deserialize_config n).
End deserialize.

(** ** Roles *)

Definition server_config (c : Config) : result string ServerConfig :=
  ok_or (cfg_server c) "server configuration is required for the server role".

Definition worker_config (c : Config) : result string WorkerConfig :=
  ok_or (cfg_worker c) "worker configuration is required for the worker role".
