(* ===== verification/Worker.v ===== *)
(** * The worker process ([src/worker/worker.rs])

    A worker's identity and advertised capacity, its registration with Core, its
    heartbeats, and the loop that moves assignments from the broker to the pending
    executions. *)

From S2P Require Import Prelude RustStr Prog Protocol WorkerRegistry Broker Pending.
From S2P Require Import RuntimeService Config.

Definition SUPPORTED_PROTOCOL_VERSIONS : list string :=
  ["common/v1"; "artifacts/v1"; "broker/v1"; "execution/v1"; "runtime/v1"].

(** [HEARTBEAT_INTERVAL], in nanoseconds. *)
Definition HEARTBEAT_INTERVAL : Z := 10 * 1000000000.

(** [WorkerError] is its message. *)
Abbreviation WorkerError := string (only parsing).

Record WorkerIdentity := mkWorkerIdentity {
  id_worker_id : string; id_generation : string; id_name : string }.

Record WorkerResources := mkWorkerResources { cpu_cores : Z; memory_bytes : Z }.

Record AdvertisedCapacity := mkAdvertisedCapacity {
  ac_resources : WorkerResources; ac_capabilities : list string }.

Record Worker := mkWorker {
  wk_destination : string;
  wk_identity : WorkerIdentity;
  wk_advertised_capacity : AdvertisedCapacity;
  wk_heartbeat_interval : Z;
  wk_runtime_address : string
}.

(** [default_worker_name], from the variable [HOSTNAME] and the file [/etc/hostname]
    where they can be read. *)
Definition default_worker_name (hostname : option string) (etc_hostname : option string) : string :=
  let named (o : option string) := name ← o; if bool_decide (name = "") then None else Some name in
  match name ← hostname; if is_blank name then None else Some name with
  | Some name => name
  | None => default "localhost" (named (trim <$> etc_hostname))
  end.

Section worker.
Context `{P : Protocols} `{PF : Platform}.
Context {BS KS : Type} `{B : !Broker BS} `{C : !CoreWorkerClient KS}.
Abbreviation worker_state := (worker_state BS KS).

(** ** Construction *)

(** [WorkerIdentity::new]; [host_name] is [default_worker_name()]. *)
Definition identity_new {E} (host_name : string) (name : option string) : prog worker_state E WorkerIdentity :=
  worker_id ← zoom wenv_l new_uuid;
  generation ← zoom wenv_l new_uuid;
  mret (mkWorkerIdentity worker_id generation (default host_name name)).

(** [Worker::with_core_client]; [Worker::new] is the same with the gRPC client. *)
Definition worker_new {E} (host_name : string) (config : WorkerConfig) : prog worker_state E Worker :=
  identity ← identity_new host_name (cfg_name config);
  mret {| wk_destination := worker_destination (id_worker_id identity);
          wk_identity := identity;
          wk_advertised_capacity :=
            {| ac_resources := mkWorkerResources (cfg_cpu (cfg_resources config)) (cfg_memory (cfg_resources config));
               ac_capabilities := cfg_capabilities config |};
          wk_heartbeat_interval := HEARTBEAT_INTERVAL;
          wk_runtime_address := cfg_runtime_address config |}.

(** [ResourceRequirements::from]: the multiplication of two [u64] wraps in release builds
    and panics in debug builds ([None]) on overflow. *)
Definition resource_requirements (resources : WorkerResources) : option ResourceRequirements :=
  millicores ← checked_mul (cpu_cores resources) 1000;
  Some {| rr_cpu_millicores := millicores;
          rr_memory_bytes := memory_bytes resources;
          rr_required_capabilities := [];
          rr_rest := opaque_default |}.

(** [registration]; [version] is the crate's version. *)
Definition worker_registration (version : string) (w : Worker) : option WorkerRegistration :=
  capacity ← resource_requirements (ac_resources (wk_advertised_capacity w));
  Some {| wr_worker_id := id_worker_id (wk_identity w);
          wr_node_id := None;
          wr_generation := id_generation (wk_identity w);
          wr_implementation_version := version;
          wr_protocol_versions := SUPPORTED_PROTOCOL_VERSIONS;
          wr_endpoint := wk_runtime_address w;
          wr_executors := [];
          wr_capacity := Some {| rr_cpu_millicores := rr_cpu_millicores capacity;
                                 rr_memory_bytes := rr_memory_bytes capacity;
                                 rr_required_capabilities := ac_capabilities (wk_advertised_capacity w);
                                 rr_rest := rr_rest capacity |};
          wr_metadata := Some (mkMetadata {[ "worker_name" := id_name (wk_identity w) ]}) |}.

(** ** The assignment loop *)

(** [Status]'s text inside the error of [execute_one]. *)
Definition execute_one (w : Worker) : prog worker_state BrokerError AssignExecutionRequest :=
  envelope ← zoom wbroker_l (consume (wk_destination w));
  assignment ← lift_result (map_err (λ error, "invalid AssignExecutionRequest: " +:+ error)
                              (decode_assign (be_payload envelope)));
  _ ← rethrow (λ error, "cannot queue assignment: " +:+ show_status error)
        (with_pending (λ _, enqueue assignment));
  mret assignment.

(** [turns] turns of the loop, which only an error ends. *)
Fixpoint assignment_loop (w : Worker) (turns : nat) : prog worker_state WorkerError unit :=
  match turns with
  | 0 => mret tt
  | S turns => _ ← execute_one w; assignment_loop w turns
  end.

(** ** Heartbeats *)

Definition heartbeat_message (w : Worker) (resources : ResourceRequirements) (sequence_number now : Z)
    : RuntimeHeartbeat :=
  {| hb_runtime_id := worker_incarnation_id (id_worker_id (wk_identity w)) (id_generation (wk_identity w));
     hb_sequence_number := sequence_number;
     hb_status := runtime_status_ready;
     hb_available_resources := Some resources;
     hb_observed_at := Some (timestamp_from now) |}.

(** One turn, from its tick: the available resources are computed again, and the answer is
    only logged. *)
Definition heartbeat_turn (w : Worker) (sequence_number : Z) : prog worker_state Empty_set unit :=
  match resource_requirements (ac_resources (wk_advertised_capacity w)) with
  | None => Panic "attempt to multiply with overflow"
  | Some resources =>
    now ← zoom wenv_l system_time_now;
    _ ← attempt (zoom wcore_l (client_report_heartbeat (heartbeat_message w resources sequence_number now)));
    mret tt
  end.

(** The heartbeat loop over [ticks] ticks of its interval, after which it waits for the
    next; it never returns.  [sequence_number] is a [u64]: its increment panics on overflow
    in debug builds. *)
Fixpoint heartbeat_loop (w : Worker) (sequence_number : Z) (ticks : nat) : prog worker_state Empty_set Empty_set :=
  match ticks with
  | 0 => never
  | S ticks =>
    match checked_add sequence_number 1 with
    | None => Panic "attempt to add with overflow"
    | Some sequence_number =>
      _ ← heartbeat_turn w sequence_number;
      heartbeat_loop w sequence_number ticks
    end
  end.

(** ** Registration and shutdown *)

(** The first part of [run_until_shutdown]: the worker goes on only if Core accepted it. *)
Definition register_with_core (registration : WorkerRegistration) : prog worker_state WorkerError unit :=
  response ← attempt (zoom wcore_l (client_register_worker registration));
  match response with
  | Ok response =>
    if rwr_accepted response then mret tt else Throw "Core did not accept worker registration"
  | Err failure => Throw (show_status failure)
  end.

(** The final [select!]: the assignment loop (0), the heartbeats (1), the runtime API server
    (2) and the shutdown signal (3), each advanced when it is polled, whatever the others
    wait for, and dropped where it is when another one ends.  Server and signal end when
    they are polled: with [server_end], and with the shutdown.  The assignment loop is given
    [turns] turns. *)
Definition worker_select (w : Worker) (turns : nat) (server_end : result WorkerError unit) (polls : list nat)
    : prog worker_state WorkerError unit :=
  select_polls
    [ assignment_loop w turns ≫= (λ _, never);
      rethrow (Empty_set_rect _) (heartbeat_loop w 0 (length polls)) ≫= Empty_set_rect _;
      lift_result server_end;
      mret tt ] polls.

Definition run_until_shutdown (version : string) (w : Worker) (turns : nat) (server_end : result WorkerError unit)
    (polls : list nat) : prog worker_state WorkerError unit :=
  match worker_registration version w with
  | None => Panic "attempt to multiply with overflow"
  | Some registration =>
    _ ← register_with_core registration;
    worker_select w turns server_end polls
  end.

(** [Worker::run]: the shutdown signal is the interrupt from the terminal; when it cannot be
    listened for, the worker shuts down as well. *)
Definition worker_run (version : string) (w : Worker) (turns : nat) (server_end : result WorkerError unit)
    (polls : list nat) : prog worker_state WorkerError unit :=
  run_until_shutdown version w turns server_end polls.
End worker.

(** ** Display of memory sizes *)

Definition format_units : list (string * Z) :=
  [("TiB", Z.shiftl 1 40); ("GiB", Z.shiftl 1 30); ("MiB", Z.shiftl 1 20); ("KiB", Z.shiftl 1 10)]%Z.

Fixpoint format_with (units : list (string * Z)) (bytes : Z) : string :=
  match units with
  | [] => show bytes +:+ "B"
  | (suffix, divisor) :: units =>
    if bool_decide (divisor ≤ bytes)%Z && bool_decide (bytes mod divisor = 0)%Z
    then show (bytes / divisor)%Z +:+ suffix
    else format_with units bytes
  end.

Definition format_memory (bytes : Z) : string := format_with format_units bytes.
