(* ===== verification/ConfigSpec.v ===== *)
(** * Correctness of the configuration

    Memory sizes: what the parser accepts and what it computes, and that the display form is
    accepted back.  Documents: what they denote, that loading a file gives exactly that, and
    that everything loaded stays within the machine integers the protocol uses. *)

From Stdlib Require Import Ascii.
From S2P Require Import Prelude RustStr Prog Protocol Concrete Serde Config Broker Pending RuntimeService Worker.

(** ** Units *)

Lemma memory_units_positive u n : (u, n) ∈ memory_units → (0 < n ≤ u64_max)%Z.
Proof.
  unfold memory_units. rewrite !elem_of_cons, elem_of_nil. unfold u64_max.
  intros H. repeat destruct H as [[= -> ->]|H]; [..|done]; (split; [reflexivity|vm_compute; discriminate]).
Qed.

(** The reference reading of a size: the number before the first unit that ends it. *)
Definition denotes (value : string) (bytes : Z) : Prop :=
  ∃ suffix number multiplier n, (suffix, multiplier) ∈ memory_units
    ∧ trim value = number +:+ suffix ∧ parse_u64 (trim number) = Some n ∧ bytes = (n * multiplier)%Z.

(** No unit is a suffix of another one. *)
Definition unit_apart (u v : string) : bool :=
  bool_decide (strip_suffix u v = None).

Lemma units_apart : forallb (λ u, forallb (λ v, bool_decide (u = v) || unit_apart u v) memory_units.*1) memory_units.*1 = true.
Proof. vm_compute. done. Qed.

(** Two suffixes of one string: one is a suffix of the other. *)
Lemma suffixes_nested (a b u v : string) :
  a +:+ u = b +:+ v → (∃ w, u = w +:+ v) ∨ ∃ w, v = w +:+ u.
Proof.
  intros H%(f_equal chars). rewrite !chars_app in H. apply app_eq_app in H as [l [[_ H]|[_ H]]].
  - right. exists (String.string_of_list_ascii l). apply chars_inj. by rewrite chars_app, String.list_ascii_of_string_of_list_ascii.
  - left. exists (String.string_of_list_ascii l). apply chars_inj. by rewrite chars_app, String.list_ascii_of_string_of_list_ascii.
Qed.

Lemma units_unique u v a b :
  u ∈ memory_units.*1 → v ∈ memory_units.*1 → a +:+ u = b +:+ v → u = v.
Proof.
  intros Hu Hv Heq. pose proof units_apart as H. rewrite forallb_forall in H.
  assert (∀ u v w, u ∈ memory_units.*1 → v ∈ memory_units.*1 → v = w +:+ u → u = v) as Hone.
  { clear -H. intros u v w Hu Hv Hw. specialize (H u ltac:(by apply list_elem_of_In)).
    rewrite forallb_forall in H. specialize (H v ltac:(by apply list_elem_of_In)).
    apply orb_true_iff in H as [H|H]; bool_facts; [done|].
    unfold unit_apart in H. bool_facts. rewrite strip_suffix_None in H. by destruct (H w). }
  apply suffixes_nested in Heq as [[w ?]|[w ?]]; [symmetry|]; eauto.
Qed.

(** The loop finds the unit the value ends with, whichever it is. *)
Lemma parse_units_hit units suffix multiplier number n :
  units.*1 ⊆ memory_units.*1 → NoDup units.*1 → (suffix, multiplier) ∈ units →
  parse_u64 (trim number) = Some n →
  parse_units units (number +:+ suffix) = ok_or (checked_mul n multiplier) "worker memory exceeds the supported range".
Proof.
  intros Hsub Hnd Hin Hn. induction units as [|[s m] units IH]; [set_solver|]. simpl.
  destruct (strip_suffix s (number +:+ suffix)) as [r|] eqn:Hs.
  - apply strip_suffix_Some in Hs. assert (suffix = s) as ->.
    { eapply units_unique; [..|exact Hs]; [|set_solver].
      apply Hsub, list_elem_of_fmap. by exists (suffix, multiplier). }
    assert (r = number) as ->.
    { apply (f_equal String.rev) in Hs. rewrite !str_rev_app in Hs. apply str_app_inv_len in Hs as [_ Hs]; [|done].
      by rewrite <-(str_rev_rev number), <-(str_rev_rev r), Hs. }
    assert (m = multiplier) as ->.
    { apply elem_of_cons in Hin as [[= ->]|Hin]; [done|]. apply NoDup_cons in Hnd as [Hnot _].
      destruct Hnot. apply list_elem_of_fmap. by exists (s, multiplier). }
    by rewrite Hn.
  - apply IH; [set_solver|by apply NoDup_cons in Hnd as [_ ?]|].
    apply elem_of_cons in Hin as [[= -> ->]|Hin]; [|done]. rewrite strip_suffix_None in Hs. by destruct (Hs number).
Qed.

Lemma parse_units_Ok units value bytes :
  parse_units units value = Ok bytes →
  ∃ suffix number multiplier n, (suffix, multiplier) ∈ units ∧ value = number +:+ suffix
    ∧ parse_u64 (trim number) = Some n ∧ bytes = (n * multiplier)%Z ∧ (bytes ≤ u64_max)%Z.
Proof.
  induction units as [|[s m] units IH]; simpl; [done|].
  destruct (strip_suffix s value) as [r|] eqn:Hs.
  - apply strip_suffix_Some in Hs as ->. intros (n & Hn%ok_or_Ok & Hb%ok_or_Ok)%result_bind_Ok.
    unfold checked_mul in Hb. case_bool_decide; simplify_eq. exists s, r, m, n. split; [by left|done].
  - intros H. destruct (IH H) as (suffix & number & multiplier & n & ? & ?). exists suffix, number, multiplier, n.
    split; [by right|done].
Qed.

Lemma memory_units_NoDup : NoDup memory_units.*1.
Proof. apply (bool_decide_unpack _). vm_compute. done. Qed.

(** [parse_memory] accepts a string exactly when, blanks aside, it is a decimal number
    followed by one of the seven units and the size fits 64 bits; the value is the number
    times the unit, whichever place the unit has in the table. *)
Lemma parse_memory_iff value bytes :
  parse_memory value = Ok bytes ↔ denotes value bytes ∧ (bytes ≤ u64_max)%Z.
Proof.
  unfold parse_memory, denotes. split.
  - intros (suffix & number & multiplier & n & ?&?&?&?&?)%parse_units_Ok. eauto 10.
  - intros [(suffix & number & multiplier & n & Hin & -> & Hn & ->) Hle].
    rewrite (parse_units_hit _ _ multiplier _ n); [|done|apply memory_units_NoDup|done|done].
    unfold checked_mul. by rewrite bool_decide_true.
Qed.

(** ** Round trip with the display form *)

(** A number with a unit is its own [trim]. *)
Lemma trim_number_unit n u : (0 ≤ n)%Z → u ∈ memory_units.*1 → trim (show n +:+ u) = show n +:+ u.
Proof.
  intros Hn Hu. destruct (show_head n Hn) as (c & s & Hs & Hc). rewrite Hs, str_app_cons.
  assert (∃ t d, u = t +:+ String d "" ∧ is_graph d) as (t & d & -> & Hd).
  { unfold memory_units in Hu. simpl in Hu. rewrite !elem_of_cons, elem_of_nil in Hu.
    destruct Hu as [->|[->|[->|[->|[->|[->|[->|[]]]]]]]];
      [exists "Ti"|exists "Gi"|exists "Mi"|exists "Ki"|exists "T"|exists "G"|exists "M"]; by exists "B"%char. }
  apply (trim_graph _ _ d (String c s +:+ t)); [by apply is_digit_graph|done|].
  by rewrite str_app_assoc, str_app_cons.
Qed.

Lemma format_parses units bytes :
  units ⊆ memory_units → (0 ≤ bytes ≤ u64_max)%Z → (∃ u d, (u, d) ∈ units ∧ (d ≤ bytes)%Z ∧ (bytes mod d = 0)%Z) →
  parse_memory (format_with units bytes) = Ok bytes.
Proof.
  intros Hsub Hb. induction units as [|[u d] units IH]; [intros (u & d & []%not_elem_of_nil & _)|].
  intros (u' & d' & Hin & Hle & Hmod). simpl. destruct (_ && _) eqn:Hd.
  - bool_facts. assert ((u, d) ∈ memory_units) as Hu by (apply Hsub; by left).
    pose proof (memory_units_positive _ _ Hu). apply parse_memory_iff. split; [|lia].
    assert (0 ≤ bytes / d ≤ u64_max)%Z as Hq.
    { split; [apply Z.div_pos; lia|]. etrans; [apply Z.div_le_upper_bound with (q := bytes)|]; [lia|nia|lia]. }
    exists u, (show (bytes / d)), d, (bytes / d)%Z. split_and!; [done| | |].
    + apply trim_number_unit; [lia|]. apply list_elem_of_fmap. by exists (u, d).
    + rewrite trim_show by lia. by apply parse_u64_show.
    + pose proof (Z.div_mod bytes d). lia.
  - apply IH; [set_solver|]. exists u', d'. split; [|done].
    apply elem_of_cons in Hin as [[= -> ->]|?]; [|done]. apply andb_false_iff in Hd as [Hd|Hd]; bool_facts; lia.
Qed.

(** The display form of every positive multiple of 1024 bytes that fits 64 bits is
    accepted by the configuration parser and denotes the same number of bytes. *)
Lemma format_memory_roundtrip bytes :
  (0 < bytes ≤ u64_max)%Z → (bytes mod 1024 = 0)%Z → parse_memory (format_memory bytes) = Ok bytes.
Proof.
  intros Hb Hm. apply format_parses; [|lia|].
  - unfold format_units, memory_units. set_solver.
  - exists "KiB", 1024%Z. split_and!; [unfold format_units; set_solver| |done].
    pose proof (Z.div_mod bytes 1024). lia.
Qed.

(** ** Documents

    What a document denotes, declaratively: each structure is a mapping with distinct keys
    that are its fields, in any order; each field has what its entry denotes or its
    default. *)

Section documents.
Context {N : Type} `{D : !Deserializer N}.
Implicit Types (n : N) (m : gmap string N) (c : Config).

Definition cpu_is n (cpu : Z) : Prop := de_u64 n = Ok cpu ∧ (cpu * 1000 ≤ u64_max)%Z.

Definition memory_is n (bytes : Z) : Prop :=
  ∃ text, de_string n = Ok text ∧ denotes text bytes ∧ (bytes ≤ u64_max)%Z.

Definition server_is n (s : ServerConfig) : Prop :=
  struct_is n ["bind_address"] (λ m, field_is m "bind_address" string_is None (bind_address s)).

Definition redis_is n (r : RedisConfig) : Prop :=
  struct_is n ["url"; "worker_membership_ttl_seconds"] (λ m,
    field_is m "url" string_is None (redis_url r)
    ∧ field_is m "worker_membership_ttl_seconds" (λ n ttl, de_u64 n = Ok ttl) (Some 30%Z) (worker_membership_ttl_seconds r)).

Definition broker_is n (b : BrokerConfig) : Prop :=
  struct_is n ["key_prefix"; "task_destination"] (λ m,
    field_is m "key_prefix" string_is None (bc_key_prefix b)
    ∧ field_is m "task_destination" string_is None (bc_task_destination b)).

Definition resources_is n (r : WorkerResourcesConfig) : Prop :=
  struct_is n ["cpu"; "memory"] (λ m,
    field_is m "cpu" cpu_is (Some 0%Z) (cfg_cpu r) ∧ field_is m "memory" memory_is (Some 0%Z) (cfg_memory r)).

Definition worker_is n (w : WorkerConfig) : Prop :=
  struct_is n ["name"; "core_endpoint"; "runtime_address"; "resources"; "capabilities"] (λ m,
    field_is m "name" (option_is string_is) (Some None) (cfg_name w)
    ∧ field_is m "core_endpoint" string_is None (cfg_core_endpoint w)
    ∧ field_is m "runtime_address" string_is (Some "0.0.0.0:50052") (cfg_runtime_address w)
    ∧ field_is m "resources" resources_is (Some (mkWorkerResourcesConfig 0 0)) (cfg_resources w)
    ∧ field_is m "capabilities" (vec_is string_is) (Some []) (cfg_capabilities w)).

Definition config_is n c : Prop :=
  struct_is n ["server"; "redis"; "broker"; "worker"] (λ m,
    field_is m "server" (option_is server_is) (Some None) (cfg_server c)
    ∧ field_is m "redis" redis_is None (cfg_redis c)
    ∧ field_is m "broker" broker_is None (cfg_broker c)
    ∧ field_is m "worker" (option_is worker_is) (Some None) (cfg_worker c)).

Ltac names_distinct := apply (bool_decide_unpack _); vm_compute; exact I.

Lemma cpu_reads : reads_as deserialize_cpu cpu_is.
Proof.
  intros n cpu. unfold deserialize_cpu, cpu_is. rewrite result_bind_Ok.
  pose proof (Z.mul_div_le u64_max 1000) as Hle. pose proof (Z.div_le_lower_bound u64_max 1000 cpu) as Hge.
  split.
  - intros (z & Hz & H). case_bool_decide; simplify_eq. split; [done|lia].
  - intros [-> Hcpu]. exists cpu. split; [done|]. rewrite bool_decide_false; [done|].
    lia.
Qed.

Lemma memory_reads : reads_as deserialize_memory memory_is.
Proof.
  intros n bytes. unfold deserialize_memory, memory_is. rewrite result_bind_Ok. apply exist_proper. intros text.
  by rewrite map_err_Ok, parse_memory_iff.
Qed.

(** Each structure: the variables of its fields are what its entries denote. *)

Lemma server_reads : reads_as deserialize_server server_is.
Proof.
  intros n s. apply (struct_reads server_fields); [names_distinct|]. intros m.
  rewrite <-(slot_required de_string string_is) by apply string_reads. destruct s as [a]. simpl. split.
  - intros ([v []] & [Hv _] & (t & Ht & [= <-])%result_bind_Ok). eauto.
  - intros (v & Hv & Hr). exists (v, tt). rewrite Hr. done.
Qed.

Lemma redis_reads : reads_as deserialize_redis redis_is.
Proof.
  intros n r. apply (struct_reads redis_fields); [names_distinct|]. intros m.
  rewrite <-(slot_required de_string string_is) by apply string_reads.
  rewrite <-(slot_default de_u64 (λ n ttl, de_u64 n = Ok ttl)) by done. destruct r as [u t]. simpl. split.
  - intros ((v & w & []) & (Hv & Hw & _) & (z & Hz & [= <- <-])%result_bind_Ok). eauto 10.
  - intros [(v & Hv & Hr) (w & Hw & ->)]. exists (v, (w, tt)). rewrite Hr. done.
Qed.

Lemma broker_reads : reads_as deserialize_broker broker_is.
Proof.
  intros n r. apply (struct_reads broker_fields); [names_distinct|]. intros m.
  rewrite <-!(slot_required de_string string_is) by apply string_reads. destruct r as [u t]. simpl. split.
  - intros ((v & w & []) & (Hv & Hw & _) & (z & Hz & (z' & Hz' & [= <- <-])%result_bind_Ok)%result_bind_Ok). eauto 10.
  - intros [(v & Hv & Hr) (w & Hw & Hr')]. exists (v, (w, tt)). rewrite Hr. simpl. rewrite Hr'. done.
Qed.

Lemma resources_reads : reads_as deserialize_resources resources_is.
Proof.
  intros n r. apply (struct_reads resources_fields); [names_distinct|]. intros m.
  rewrite <-(slot_default _ _ _ _ _ _ cpu_reads), <-(slot_default _ _ _ _ _ _ memory_reads). destruct r as [u t]. simpl. split.
  - intros ((v & w & []) & (Hv & Hw & _) & [= <- <-]). eauto 10.
  - intros [(v & Hv & ->) (w & Hw & ->)]. exists (v, (w, tt)). done.
Qed.

Lemma worker_reads : reads_as deserialize_worker worker_is.
Proof.
  intros n w. apply (struct_reads worker_fields); [names_distinct|]. intros m.
  rewrite <-(slot_default _ _ _ _ _ _ (option_reads _ _ string_reads)), <-(slot_required _ _ _ _ _ string_reads),
    <-(slot_default _ _ _ _ _ _ string_reads), <-(slot_default _ _ _ _ _ _ resources_reads),
    <-(slot_default _ _ _ _ _ _ (vec_reads _ _ string_reads)).
  destruct w. simpl. split.
  - intros ((v1 & v2 & v3 & v4 & v5 & []) & (?&?&?&?&?&_) & (z & Hz & [= <- <- <- <- <-])%result_bind_Ok). eauto 20.
  - intros ((v1 & ? & ->) & (v2 & ? & Hr) & (v3 & ? & ->) & (v4 & ? & ->) & (v5 & ? & ->)).
    exists (v1, (v2, (v3, (v4, (v5, tt))))). rewrite Hr. done.
Qed.

Lemma config_reads : reads_as deserialize_config config_is.
Proof.
  intros n c. apply (struct_reads config_fields); [names_distinct|]. intros m.
  rewrite <-(slot_default _ _ _ _ _ _ (option_reads _ _ server_reads)), <-(slot_required _ _ _ _ _ redis_reads),
    <-(slot_required _ _ _ _ _ broker_reads), <-(slot_default _ _ _ _ _ _ (option_reads _ _ worker_reads)).
  destruct c. simpl. split.
  - intros ((v1 & v2 & v3 & v4 & []) & (?&?&?&?&_) & (z & Hz & (z' & Hz' & [= <- <- <- <-])%result_bind_Ok)%result_bind_Ok).
    eauto 20.
  - intros ((v1 & ? & ->) & (v2 & ? & Hr) & (v3 & ? & Hr') & (v4 & ? & ->)).
    exists (v1, (v2, (v3, (v4, tt)))). rewrite Hr. simpl. rewrite Hr'. done.
Qed.

(** C26: loading a configuration file succeeds exactly with the configuration its document
    denotes.  Unknown, repeated and missing fields are refused in every section, the order
    of the entries does not matter, an absent field has its default and a null section or
    name is absent, the CPU count fits the protocol in millicores and the memory is the
    size its text denotes. *)
Theorem load_exact {File} (open : string → result string File) (document : File → result de_error N) path c :
  load open document path = Ok c
  ↔ ∃ file n, open path = Ok file ∧ document file = Ok n ∧ config_is n c.
Proof.
  unfold load. rewrite result_bind_Ok. split.
  - intros (file & Hf%map_err_Ok & (n & Hn & Hc%config_reads)%map_err_Ok%result_bind_Ok). eauto.
  - intros (file & n & Hf & Hn & Hc%config_reads). exists file. rewrite Hf, Hn. simpl. by rewrite Hc.
Qed.

(** ** Bounds *)

(** A section in its range: the value of a field with a default in range. *)
Lemma field_default {T} m name (R : N → T → Prop) d v (Q : T → Prop) :
  field_is m name R (Some d) v → Q d → (∀ n t, R n t → Q t) → Q v.
Proof. unfold field_is. destruct (m !! name); naive_solver. Qed.

Lemma memory_is_range n bytes : memory_is n bytes → (0 ≤ bytes ≤ u64_max)%Z.
Proof.
  intros (s & _ & (u & num & mult & k & Hin & _ & Hn & ->) & ?).
  apply memory_units_positive in Hin. apply parse_u64_bounds in Hn. nia.
Qed.

Definition resources_fit (r : WorkerResourcesConfig) : Prop :=
  (0 ≤ cfg_cpu r ∧ cfg_cpu r * 1000 ≤ u64_max)%Z ∧ (0 ≤ cfg_memory r ≤ u64_max)%Z.

Lemma worker_is_fits n w : worker_is n w → resources_fit (cfg_resources w).
Proof.
  intros (es & _ & _ & _ & _ & _ & _ & Hres & _). eapply field_default; [exact Hres|done|].
  intros k r (es' & _ & _ & _ & Hcpu & Hmem). split.
  - eapply (field_default _ _ _ _ _ (λ z, 0 ≤ z ∧ z * 1000 ≤ u64_max)%Z); [exact Hcpu|done|].
    intros ? ? [?%de_u64_range ?]. lia.
  - eapply (field_default _ _ _ _ _ (λ z, 0 ≤ z ≤ u64_max)%Z); [exact Hmem|done|]. intros. by eapply memory_is_range.
Qed.

Lemma config_is_ttl n c : config_is n c → (0 ≤ worker_membership_ttl_seconds (cfg_redis c) ≤ u64_max)%Z.
Proof.
  intros (es & _ & _ & _ & _ & Hr & _). unfold field_is in Hr. destruct (mapping es !! _); [|done].
  destruct Hr as (es' & _ & _ & _ & _ & Httl). eapply (field_default _ _ _ _ _ (λ z, 0 ≤ z ≤ u64_max)%Z); [exact Httl|done|].
  intros ? ? ?%de_u64_range. done.
Qed.

Lemma config_is_worker n c w : config_is n c → worker_config c = Ok w → resources_fit (cfg_resources w).
Proof.
  intros (es & _ & _ & _ & _ & _ & _ & Hw) Hc%ok_or_Ok. revert w Hc.
  eapply (field_default _ _ _ _ _ (λ o, ∀ w, o = Some w → resources_fit (cfg_resources w))); [exact Hw|done|].
  intros k o Ho w ->. unfold option_is in Ho. destruct (de_option k); [|done]. by eapply worker_is_fits.
Qed.
End documents.

(** C28: a configuration that loads is well typed at the widths the program computes with,
    and a worker built from it registers.  Whatever the document, the membership TTL, the
    memory and the CPU count fit 64 bits; the multiplication to millicores does not
    overflow, so the registration of the worker exists and carries the exact values. *)
Theorem loaded_config_typed `{P : Protocols} `{PF : Platform} {BS KS N File E} `{D : !Deserializer N}
    (open : string → result string File) (document : File → result de_error N) path c :
  load open document path = Ok c →
  (0 ≤ worker_membership_ttl_seconds (cfg_redis c) ≤ u64_max)%Z
  ∧ ∀ wc, worker_config c = Ok wc →
    resources_fit (cfg_resources wc)
    ∧ ∀ host version (ws ws' : worker_state BS KS) w,
        run (worker_new (E:=E) host wc) ws = (ws', Done w) →
        ∃ reg capacity, worker_registration version w = Some reg ∧ wr_capacity reg = Some capacity
          ∧ rr_cpu_millicores capacity = (1000 * cfg_cpu (cfg_resources wc))%Z
          ∧ (0 ≤ rr_cpu_millicores capacity ≤ u64_max)%Z
          ∧ rr_memory_bytes capacity = cfg_memory (cfg_resources wc).
Proof.
  unfold load. intros (file & _ & (n & _ & Hn%config_reads)%map_err_Ok%result_bind_Ok)%result_bind_Ok.
  split; [by eapply config_is_ttl|]. intros wc Hwc. pose proof (config_is_worker _ _ _ Hn Hwc) as Hfit.
  split; [done|]. destruct Hfit as [Hcpu _]. intros host version ws ws' w [= _ <-].
  unfold worker_registration, resource_requirements, checked_mul. simpl. rewrite bool_decide_true by lia. simpl.
  do 2 eexists. split_and!; [done|done|..]; simpl; lia.
Qed.

Module ConfigExamples.
Import Concrete.Concrete Serde.Tree.

(** The document of [threadweave.yaml]. *)
Definition threadweave_yaml : yaml :=
  Mapping
    [("server", Mapping [("bind_address", Scalar "127.0.0.1:0")]);
     ("redis", Mapping [("url", Scalar "redis://127.0.0.1:6379/")]);
     ("broker", Mapping [("key_prefix", Scalar "threadweave:broker"); ("task_destination", Scalar "tasks")]);
     ("worker", Mapping
        [("core_endpoint", Scalar "http://127.0.0.1:50051");
         ("runtime_address", Scalar "0.0.0.0:50052");
         ("resources", Mapping [("cpu", Scalar "1"); ("memory", Scalar "1GiB")]);
         ("capabilities", Sequence [])])].

Definition shipped_worker : WorkerConfig :=
  mkWorkerConfig None "http://127.0.0.1:50051" "0.0.0.0:50052" (mkWorkerResourcesConfig 1 1073741824) [].

Definition shipped_config : Config :=
  mkConfig (Some (mkServerConfig "127.0.0.1:0")) (mkRedisConfig "redis://127.0.0.1:6379/" 30)
    (mkBrokerConfig "threadweave:broker" "tasks") (Some shipped_worker).

(** A directory with that file. *)
Definition open_shipped (path : string) : result string yaml :=
  if bool_decide (path = "threadweave.yaml") then Ok threadweave_yaml else Err "No such file or directory (os error 2)".

Definition fresh_worker : worker_state unit unit :=
  mkWorkerState (mkEnv 0 0) (mkPendingState [] ∅ ∅) [] tt tt.

Lemma loaded_config_typed_witness :
  load open_shipped Ok "threadweave.yaml" = Ok shipped_config
  ∧ ∃ reg capacity,
      worker_registration "0.1.10"
        (mkWorker (worker_destination (uuid_at 0)) (mkWorkerIdentity (uuid_at 0) (uuid_at 1) "host")
           (mkAdvertisedCapacity (mkWorkerResources 1 1073741824) []) HEARTBEAT_INTERVAL "0.0.0.0:50052") = Some reg
      ∧ wr_capacity reg = Some capacity ∧ rr_cpu_millicores capacity = 1000%Z ∧ rr_memory_bytes capacity = 1073741824%Z.
Proof.
  assert (load open_shipped Ok "threadweave.yaml" = Ok shipped_config) as Hload by vm_refl.
  split; [exact Hload|].
  destruct (loaded_config_typed (BS:=unit) (KS:=unit) (E:=Empty_set) open_shipped Ok "threadweave.yaml" shipped_config Hload) as [_ H].
  destruct (H shipped_worker eq_refl) as [_ H1].
  destruct (H1 "host" "0.1.10" fresh_worker (run (worker_new (E:=Empty_set) "host" shipped_worker) fresh_worker).1
              (mkWorker (worker_destination (uuid_at 0)) (mkWorkerIdentity (uuid_at 0) (uuid_at 1) "host")
                 (mkAdvertisedCapacity (mkWorkerResources 1 1073741824) []) HEARTBEAT_INTERVAL "0.0.0.0:50052"))
    as (reg & cap & Hr & Hc & Hm & _ & Hb); [vm_refl|].
  exists reg, cap. split_and!; [exact Hr|exact Hc|exact Hm|exact Hb].
Defined.
End ConfigExamples.
