(* ===== verification/RuntimeSpec.v ===== *)
(** * The worker under concurrency

    Runtime sessions, the assignment loop, the heartbeats, cancellations and direct
    reports share one [worker_state].  Whatever interleaving: the pending executions keep
    their invariant, no task panics, and what is not handed to the worker's own
    [report_execution] is reported to Core as the worker has recorded it. *)

From S2P Require Import Prelude RustStr Prog Protocol Concrete Broker Local Pending PendingSpec.
From S2P Require Import RuntimeService Config Worker.

(** ** The contract of the Core client

    [sent] are the execution reports that reached Core, in order.  A report that fails
    may have arrived. *)
Section contract.
Context `{P : Protocols}.
Implicit Types l : list ReportExecutionRequest.

Definition report_sent (r : ReportExecutionRequest) l (o : result Status ReportExecutionResponse) l' : Prop :=
  l' = l ++ [r] ∨ (∃ e, o = Err e) ∧ l' = l.

Definition nothing_sent {A} l (o : result Status A) l' : Prop := l' = l.
End contract.

Class CoreWorkerClientOk `{P : Protocols} {S} (C : CoreWorkerClient S) := {
  sent : S → list ReportExecutionRequest;
  client_report_lin r : lin sent (report_sent r) (client_report_execution r);
  client_register_lin r : lin sent nothing_sent (client_register_worker r);
  client_heartbeat_lin h : lin sent nothing_sent (client_report_heartbeat h)
}.

Section runtime_spec.
Context `{P : Protocols} `{PF : Platform} `{HO : HashMapOrder}.
Context {BS KS : Type} `{B : !Broker BS} `{BO : !BrokerOk B}
  `{C : !CoreWorkerClient KS} `{CO : !CoreWorkerClientOk C}.
Abbreviation worker_state := (worker_state BS KS).
Implicit Types (w : worker_state) (st : PendingState).

(** ** What a report says of a record *)

(** A report of [state] with [outcome] for a record: a start, of a record that started;
    a success without failure, of a record that succeeded; a failure with its error, of
    a record that failed.  It is not newer than the record. *)
Definition reports (execution_id : string) (sequence state : Z) (outcome : option JobResult)
    (r : AssignmentRecord) : Prop :=
  execution_id = ae_execution_id (assignment r)
  ∧ (∃ last, last_sequence_number r = Some last ∧ (sequence ≤ last)%Z)
  ∧ (state = execution_state_code ES_Running ∧ outcome = None
       ∧ (ar_state r = AS_Running ∨ ar_state r = AS_Succeeded ∨ ar_state r = AS_Failed)
     ∨ state = execution_state_code ES_Succeeded ∧ ar_state r = AS_Succeeded
       ∧ (∃ o, outcome = Some o ∧ jr_failure o = None)
     ∨ state = execution_state_code ES_Failed ∧ ar_state r = AS_Failed
       ∧ (∃ o, outcome = Some o ∧ is_Some (jr_failure o))).

(** Calls keep what was said of a record true. *)
Lemma reports_evolves o id r r' e s x out :
  entry_ok id r → evolves o r r' → reports e s x out r → reports e s x out r'.
Proof.
  intros (_ & _ & _ & _ & Hok) Hev (He & (last & Hl & Hle) & Hst).
  assert (ar_state r = AS_Pending ∨ ar_state r = AS_Assigned → last_sequence_number r = None) as Hnone
    by (intros [Hs|Hs]; rewrite Hs in Hok; by destruct_and!).
  destruct Hev as [o r|c r Hs|c r Hs|now ev r Hs Hn|ev r Hs Hn|ev r Hs Hn|now aid eid seq ok d r Hs Hn].
  - split_and!; eauto.
  - rewrite Hnone in Hl by auto. done.
  - split_and!; [done|by exists last|]. simpl. case_decide as Ha; [|done].
    rewrite Hnone in Hl by auto. done.
  - rewrite Hnone in Hl by auto. done.
  - apply Hn in Hl. split_and!; [done|eexists; split; [done|lia]|]. simpl. naive_solver.
  - apply Hn in Hl. split_and!; [done|eexists; split; [done|lia]|]. simpl. naive_solver.
  - apply Hn in Hl. split_and!; [done|eexists; split; [done|lia]|]. rewrite Hs in Hst. simpl.
    destruct Hst as [(?&?&_)|[(_&?&_)|(_&?&_)]]; [|done..]. left. destruct ok; auto.
Qed.

(** ** The invariant *)

(** The worker has recorded what the report says. *)
Definition announced (assignment_id execution_id : string) (sequence state : Z) (outcome : option JobResult) w : Prop :=
  ∃ r, assignments (w_pending w) !! assignment_id = Some r ∧ reports execution_id sequence state outcome r.

Definition announced_report (r : ReportExecutionRequest) w : Prop :=
  announced (re_assignment_id r) (re_execution_id r) (re_sequence_number r) (re_state r) (re_outcome r) w.

Definition known (assignment_id : string) w : Prop := is_Some (assignments (w_pending w) !! assignment_id).

(** [direct]: the reports runtimes may hand to the worker outside their sessions. *)
Context (direct : ReportExecutionRequest → Prop).

Definition worker_inv w : Prop :=
  pending_wf (w_pending w)
  ∧ ∀ r, r ∈ sent (w_core w) → known (re_assignment_id r) w ∧ (announced_report r w ∨ direct r).

(** What every access respects. *)
Definition pending_moves w w' : Prop :=
  (∀ id, known id w → known id w')
  ∧ ∀ id e s x out, announced id e s x out w → announced id e s x out w'.

Lemma pending_moves_same w w' : w_pending w' = w_pending w → pending_moves w w'.
Proof. intros H. split; unfold known, announced; by rewrite H. Qed.

Lemma pending_moves_op o w w' st :
  pending_wf (w_pending w) → apply_op o (w_pending w) = Some st → w_pending w' = st → pending_moves w w'.
Proof.
  intros Hwf Hop Hst. split; unfold known, announced; rewrite Hst.
  - intros id [r Hr]. destruct (apply_op_record _ _ _ _ _ Hwf Hop Hr) as (r' & Hr' & _). eauto.
  - intros id e s x out (r & Hr & Hrep). destruct (apply_op_record _ _ _ _ _ Hwf Hop Hr) as (r' & Hr' & Hev).
    exists r'. split; [done|]. eapply reports_evolves; [by eapply wf_entry|done|done].
Qed.

Lemma worker_inv_moves w w' :
  pending_wf (w_pending w') → sent (w_core w') = sent (w_core w) → pending_moves w w' →
  worker_inv w → worker_inv w'.
Proof.
  intros Hwf Hsent [Hk Ha] [_ Hlog]. split; [done|]. intros r. rewrite Hsent.
  intros [? Hr]%Hlog. split; [auto|]. destruct Hr; [left; by apply Ha|by right].
Qed.

Lemma worker_inv_same w w' :
  w_pending w' = w_pending w → sent (w_core w') = sent (w_core w) → worker_inv w → worker_inv w'.
Proof.
  intros Hp Hs Hinv. apply (worker_inv_moves w); [rewrite Hp; apply Hinv|done|by apply pending_moves_same|done].
Qed.

(** An access that makes a call of the pending executions. *)
Lemma worker_inv_op o w w' st :
  worker_inv w → apply_op o (w_pending w) = Some st → w_pending w' = st → sent (w_core w') = sent (w_core w) →
  worker_inv w' ∧ pending_moves w w'.
Proof.
  intros Hinv Hop Hst Hs. pose proof Hinv as [Hwf _].
  assert (pending_moves w w') as Hm by by eapply pending_moves_op.
  split; [|done]. apply (worker_inv_moves w); [|done..]. rewrite Hst. by eapply apply_op_wf.
Qed.

Lemma stable_true : stable pending_moves (λ _ : worker_state, True).
Proof. done. Qed.

Lemma stable_known id : stable pending_moves (known id).
Proof. intros w w' ? [Hk _]. auto. Qed.

Lemma stable_announced id e s x out : stable pending_moves (announced id e s x out).
Proof. intros w w' ? [_ Ha]. auto. Qed.

Lemma worker_stable_same (Q : worker_state → Prop) w w' :
  stable pending_moves Q → Q w → w_pending w' = w_pending w → Q w'.
Proof. intros HQ Hw Hp. eapply HQ; [exact Hw|by apply pending_moves_same]. Qed.

#[local] Hint Resolve stable_true stable_known stable_announced : core.

Abbreviation holds := (rg False worker_inv pending_moves).

(** ** Accesses *)

Lemma worker_holds_env {E A} (f : env → env * A) Q :
  stable pending_moves Q → holds Q (zoom (E:=E) wenv_l (atomic f)) (λ _, Q).
Proof.
  intros HQ w w' a HI Hw Hact. simpl in Hact. destruct (f (w_env w)) as [e a']. simplify_eq/=.
  split; [by apply (worker_inv_same w)|]. split; [by apply pending_moves_same|].
  exists Q. split; [by apply (worker_stable_same Q w)|]. split; [done|]. by simpl.
Qed.

(** A critical section that is a call of the pending executions, or only looks at them;
    [Post] is what an answer says. *)
Lemma holds_with_pending {A} (f : Z → PendingState → PendingState * result Status A)
    (Q : worker_state → Prop) (Post : A → worker_state → Prop) :
  stable pending_moves Q → (∀ a, stable pending_moves (Post a)) →
  (∀ now st, (f now st).1 = st ∨ ∃ o, apply_op o st = Some (f now st).1) →
  (∀ now w a, Q w → (f now (w_pending w)).2 = Ok a →
     ∀ w', w_pending w' = (f now (w_pending w)).1 → Post a w') →
  holds Q (with_pending f) (λ o w, match o with Ok a => Post a w | Err _ => Q w end).
Proof.
  intros HQ HPost Hop Hans. apply rg_critical; [|intros []; auto].
  intros w HI Hw. specialize (Hop (instant_at (env_ticks (w_env w))) (w_pending w)).
  specialize (Hans (instant_at (env_ticks (w_env w))) w).
  destruct (f _ _) as [st o] eqn:Hf. simpl in *.
  assert (∀ w', w_pending w' = st → sent (w_core w') = sent (w_core w) → worker_inv w' ∧ pending_moves w w') as Hm.
  { intros w' Hp Hs. destruct Hop as [->|[c Hop]]; [|by eapply worker_inv_op].
    split; [by apply (worker_inv_same w)|by apply pending_moves_same]. }
  rewrite Hf. simpl. split; [by apply Hm|]. split; [by apply Hm|].
  destruct o as [a|e]; [by apply (Hans a)|]. eapply HQ; [exact Hw|by apply Hm].
Qed.

(** Sending, on a channel. *)
Lemma holds_send i m Q : stable pending_moves Q → holds Q (send i m) (λ _, Q).
Proof.
  intros HQ. apply rg_section; [|done]. intros w HI Hw.
  assert (∀ w', w_pending w' = w_pending w → sent (w_core w') = sent (w_core w) →
    worker_inv w' ∧ pending_moves w w' ∧ Q w') as Hsame.
  { intros w' Hp Hs. split; [by apply (worker_inv_same w)|]. split; [by apply pending_moves_same|].
    by apply (worker_stable_same Q w). }
  destruct (w_channels w !! i) as [ch|]; [|by apply Hsame].
  destruct (ch_open ch); [|by apply Hsame]. simpl. destruct (bool_decide _); [done|]. by apply Hsame.
Qed.

Lemma holds_new_channel {E} Q : stable pending_moves Q → holds Q (new_channel (E:=E)) (λ _, Q).
Proof.
  intros HQ. apply (rg_atomic _ _ _ _ _ (λ _, Q)); [|done|done]. intros w HI Hw.
  split; [by apply (worker_inv_same w)|]. split; [by apply pending_moves_same|]. by apply (worker_stable_same Q w).
Qed.

(** Taking the next assignment never finds the queue naming an unknown one. *)
Lemma holds_take_next {E} session Q :
  stable pending_moves Q → holds Q (take_next (E:=E) session) (λ _, Q).
Proof.
  intros HQ. apply rg_section; [|done]. intros w HI Hw.
  destruct (next_for session (w_pending w)) as [st []] eqn:Hn; [|done|].
  - assert (apply_op (OpNextFor session) (w_pending w) = Some st) as Hop by (simpl; by rewrite Hn).
    destruct (worker_inv_op _ w (put pending_l st w) st HI Hop) as [? Hm]; [done..|].
    split_and!; [done..|]. by eapply HQ.
  - exfalso. destruct HI as [[[_ Hq] _] _]. unfold next_for in Hn.
    destruct (queue (w_pending w)) as [|id q] eqn:Hqe; [done|].
    destruct (proj1 (Hq id)) as (r & Hr & _); [set_solver|]. simpl in Hn. by rewrite Hr in Hn.
Qed.

Lemma holds_disconnect {E} session Q :
  stable pending_moves Q → holds Q (disconnect_session (E:=E) session) (λ _, Q).
Proof.
  intros HQ. apply rg_section; [|done]. intros w HI Hw.
  destruct (disconnect session (w_pending w)) as [[st b]|] eqn:Hd; [|by rewrite disconnect_eq in Hd].
  assert (apply_op (OpDisconnect session) (w_pending w) = Some st) as Hop by (simpl; by rewrite Hd).
  destruct (worker_inv_op _ w (put pending_l st w) st HI Hop) as [? Hm]; [done..|].
  split_and!; [done..|]. by eapply HQ.
Qed.

(** Calls to the broker and to Core that report nothing. *)
Lemma worker_holds_consume d Q : stable pending_moves Q → holds Q (zoom wbroker_l (consume d)) (λ _, Q).
Proof.
  intros HQ. eapply rg_zoom_lin; [apply _|apply consume_lin| |done|done|].
  - intros w s HI _. split; [by apply (worker_inv_same w)|by apply pending_moves_same].
  - intros w s o HI Hw _. split; [by apply (worker_inv_same w)|]. split; [by apply pending_moves_same|].
    by apply (worker_stable_same Q w).
Qed.

Lemma holds_core {A} (m : prog KS Status A) Q :
  lin sent nothing_sent m → stable pending_moves Q → holds Q (zoom wcore_l m) (λ _, Q).
Proof.
  intros Hm HQ. eapply rg_zoom_lin; [apply _|exact Hm| |done|done|].
  - intros w s HI Hs. split; [by apply (worker_inv_same w)|by apply pending_moves_same].
  - intros w s o HI Hw Hs. split; [by apply (worker_inv_same w)|]. split; [by apply pending_moves_same|].
    by apply (worker_stable_same Q w).
Qed.

(** A report may be sent once the worker has recorded what it says. *)
Lemma holds_report r Q :
  stable pending_moves Q →
  (∀ w, Q w → known (re_assignment_id r) w ∧ (announced_report r w ∨ direct r)) →
  holds Q (zoom wcore_l (client_report_execution r)) (λ _, Q).
Proof.
  intros HQ Hr. eapply rg_zoom_lin; [apply _|apply client_report_lin| |done|done|].
  - intros w s HI Hs. split; [by apply (worker_inv_same w)|by apply pending_moves_same].
  - intros w s o HI Hw Ho. split_and!; [|by apply pending_moves_same|by apply (worker_stable_same Q w)].
    destruct Ho as [Ho|[_ Ho]]; [|by apply (worker_inv_same w)].
    destruct HI as [Hwf Hlog]. split; [done|]. intros r' Hr'. simpl in Hr'. rewrite Ho in Hr'.
    apply elem_of_app in Hr' as [Hr'|Hr']; [exact (Hlog _ Hr')|].
    apply list_elem_of_singleton in Hr' as ->. exact (Hr w Hw).
Qed.

Lemma holds_forward r Q :
  stable pending_moves Q →
  (∀ w, Q w → known (re_assignment_id r) w ∧ (announced_report r w ∨ direct r)) →
  holds Q (forward r) (λ _, Q).
Proof.
  intros HQ Hr. unfold forward. eapply (rg_bind _ _ _ _ _ _ (λ _, Q)).
  - eapply rg_post; [|by apply holds_report]. by intros [].
  - intros a. destruct (rer_accepted a); by intros w _ ?.
Qed.

(** ** Events *)

(** A program that keeps the invariant, whatever it answers. *)
Abbreviation sound m := (holds (λ _, True) m (λ _ _, True)).

Lemma sound_of {E A} Q (m : prog worker_state E A) : holds Q m (λ _, Q) → (∀ w, Q w) → sound m.
Proof.
  intros Hm HQ. eapply (rg_weaken _ _ _ Q); [auto|]. by eapply rg_post; [|exact Hm].
Qed.

Lemma worker_sound_bind {E A A'} (m : prog worker_state E A) (k : A → prog worker_state E A') :
  sound m → (∀ a, sound (k a)) → sound (m ≫= k).
Proof.
  intros Hm Hk. eapply (rg_bind _ _ _ _ _ _ (λ _ _, True)); [|done]. eapply rg_post; [|exact Hm]. by intros [].
Qed.

Lemma worker_sound_attempt {E E' A} (m : prog worker_state E A) : sound m → sound (attempt (E':=E') m).
Proof. intros Hm. apply rg_attempt. exact Hm. Qed.

Lemma worker_sound_rethrow {E E' A} (f : E → E') (m : prog worker_state E A) : sound m → sound (rethrow f m).
Proof. intros Hm. apply rg_rethrow. exact Hm. Qed.

(** The report made for an event has the fields it was made from. *)
Lemma holds_report_for aid eid seq state out t Q :
  stable pending_moves Q →
  holds Q (report_for aid eid seq state out t)
    (λ o w, Q w ∧ ∀ r, o = Ok r → re_assignment_id r = aid ∧ re_execution_id r = eid
       ∧ re_sequence_number r = seq ∧ re_state r = execution_state_code state ∧ re_outcome r = out).
Proof.
  intros HQ. unfold report_for. eapply (rg_bind _ _ _ _ _ _ (λ _, Q)).
  { eapply rg_post; [|by apply worker_holds_env]. intros [] w _ Hw; [done|]. by split. }
  intros id. eapply (rg_bind _ _ _ _ _ _ (λ _, Q)).
  { destruct t as [t|]; [by intros w _ ?|]. eapply (rg_bind _ _ _ _ _ _ (λ _, Q)).
    - eapply rg_post; [|by apply worker_holds_env]. intros [] w _ Hw; [done|]. by split.
    - by intros now w _ ?. }
  intros t' w _ Hw. split; [done|]. by intros r [= <-].
Qed.

(** Recording an event, then reporting it. *)
Lemma sound_announce {A} (f : Z → PendingState → PendingState * result Status A) aid eid seq state out t :
  (∀ now st, (f now st).1 = st ∨ ∃ o, apply_op o st = Some (f now st).1) →
  (∀ now w a w', (f now (w_pending w)).2 = Ok a → w_pending w' = (f now (w_pending w)).1 →
     announced aid eid seq (execution_state_code state) out w') →
  sound (_ ← with_pending f; r ← report_for aid eid seq state out t; forward r).
Proof.
  intros Hop Hann. set (Q := announced aid eid seq (execution_state_code state) out).
  eapply (rg_bind _ _ _ _ _ _ (λ _, Q)).
  { eapply rg_post; [|apply (holds_with_pending f (λ _, True) (λ _, Q)); try done].
    - by intros [].
    - intros _. apply stable_announced.
    - intros now w a _ Ha w' Hp. by eapply Hann. }
  intros _. eapply (rg_bind _ _ _ _ _ _ (λ r w, Q w ∧ announced_report r w)).
  { eapply rg_post; [|apply (holds_report_for aid eid seq state out t Q), stable_announced].
    intros [r|] w _ [Hw Hr]; [|done]. split; [done|]. destruct (Hr r eq_refl) as (Ha & He & Hs & Hx & Ho).
    unfold announced_report. rewrite Ha, He, Hs, Hx, Ho. exact Hw. }
  intros r. eapply rg_weaken; [|eapply rg_post, (holds_forward r (announced_report r)); [done|apply stable_announced|]].
  - by intros w _ [_ ?].
  - intros w Hr. split; [|by left]. destruct Hr as (rec & Hrec & _). by exists rec.
Qed.

(** Each event call of the pending executions is one of its operations. *)
Lemma started_op now e st : ∃ o, apply_op o st = Some (started now e st).1.
Proof. by exists (OpStarted now e). Qed.

Lemma terminal_op now aid eid seq ok st : ∃ o, apply_op o st = Some (terminal now aid eid seq ok st).1.
Proof. by exists (OpTerminal now aid eid seq ok). Qed.

Lemma started_announces now e st a :
  (started now e st).2 = Ok a →
  ∃ r, assignments (started now e st).1 !! es_assignment_id e = Some r
    ∧ reports (es_execution_id e) (es_sequence_number e) (execution_state_code ES_Running) None r.
Proof.
  unfold started. destruct (validate _ _ _ _) as [r|] eqn:Hv; [|done].
  apply validate_Ok in Hv as (_ & He & _). case_match; [done|]. intros _. simpl.
  rewrite lookup_insert_eq. eexists. split; [done|]. split; [by simpl|]. split; [eexists; split; [done|lia]|].
  left. split_and!; [done..|]. by left.
Qed.

Lemma terminal_announces now aid eid seq ok st a out :
  (terminal now aid eid seq ok st).2 = Ok a →
  (if ok : bool then jr_failure out = None else is_Some (jr_failure out)) →
  ∃ r, assignments (terminal now aid eid seq ok st).1 !! aid = Some r
    ∧ reports eid seq (execution_state_code (if ok then ES_Succeeded else ES_Failed)) (Some out) r.
Proof.
  unfold terminal. destruct (validate _ _ _ _) as [r|] eqn:Hv; [|done].
  apply validate_Ok in Hv as (_ & He & _). case_match; [done|]. case_match; [|done]. intros _ Hout. simpl.
  rewrite lookup_insert_eq. eexists. split; [done|]. split; [by simpl|]. split; [eexists; split; [done|lia]|].
  right. destruct ok; [left|right]; (split_and!; [done..|by exists out]).
Qed.

Lemma sound_lift_bind {E A A'} (r : result E A) (k : A → prog worker_state E A') :
  (∀ a, r = Ok a → sound (k a)) → sound (lift_result r ≫= k).
Proof. destruct r as [a|e]; intros Hk; [by apply Hk|done]. Qed.

Lemma sound_completed e : sound (completed e).
Proof.
  unfold completed. apply sound_lift_bind. intros out _. case_bool_decide as Hf; [done|].
  apply sound_announce; [intros; right; apply terminal_op|].
  intros now w a w' Ha Hp. unfold announced. rewrite Hp.
  apply (terminal_announces _ _ _ _ true _ a); [done|]. by apply eq_None_not_Some.
Qed.

Lemma sound_failed e : sound (failed e).
Proof.
  unfold failed. apply sound_lift_bind. intros failure _.
  apply sound_announce; [intros; right; apply terminal_op|].
  intros now w a w' Ha Hp. unfold announced. rewrite Hp.
  apply (terminal_announces _ _ _ _ false _ a); [done|]. by eexists.
Qed.

(** A call of the pending executions alone. *)
Lemma sound_with_pending {A} (f : Z → PendingState → PendingState * result Status A) :
  (∀ now st, (f now st).1 = st ∨ ∃ o, apply_op o st = Some (f now st).1) → sound (with_pending f).
Proof.
  intros Hop. eapply rg_post; [|apply (holds_with_pending f (λ _, True) (λ _ _, True)); done]. done.
Qed.

Lemma sound_handle_event e : sound (handle_event e).
Proof.
  unfold handle_event. apply sound_lift_bind. intros [ready|h|ev|ev|ev|ev|ev] _; [done|done| | | | |].
  - apply sound_announce; [intros; right; apply started_op|].
    intros now w a w' Ha Hp. unfold announced. rewrite Hp. by eapply started_announces.
  - apply sound_with_pending. intros now st. right. by exists (OpProgress ev).
  - apply sound_with_pending. intros now st. right. by exists (OpMetrics ev).
  - apply sound_completed.
  - apply sound_failed.
Qed.

(** ** Sessions and loops *)

Lemma sound_session session sender branches : sound (session_loop session sender branches).
Proof.
  induction branches as [|[[[event|status]|]|] branches IH]; cbn [session_loop];
    [done| |by apply holds_disconnect..|].
  - apply worker_sound_bind; [apply worker_sound_attempt, sound_handle_event|]. intros [[]|status]; [done|].
    apply worker_sound_bind; [by apply worker_sound_attempt, holds_send|]. intros _. by apply holds_disconnect.
  - apply worker_sound_bind; [by apply holds_take_next|]. intros a.
    apply worker_sound_bind; [by apply worker_sound_attempt, holds_send|]. intros [[]|[]]; [done|]. by apply holds_disconnect.
Qed.

Lemma sound_register_session id sender :
  sound (atomic (E:=Empty_set) (λ w, (put pending_l (register_session id sender (w_pending w)) w, tt))).
Proof.
  apply (rg_atomic _ _ _ _ _ (λ _ _, True)); [|done..]. intros w HI _.
  destruct (worker_inv_op (OpRegisterSession id sender) w
    (put pending_l (register_session id sender (w_pending w)) w) _ HI eq_refl) as [? ?]; done.
Qed.

Lemma sound_runtime_session branches : sound (runtime_session branches).
Proof.
  unfold runtime_session. apply worker_sound_bind; [by apply worker_holds_env|]. intros id.
  apply worker_sound_bind; [by apply holds_new_channel|]. intros sender.
  apply worker_sound_bind; [apply sound_register_session|]. intros _. apply sound_session.
Qed.

Lemma sound_cancel aid reason : sound (cancel aid reason).
Proof.
  unfold cancel. apply worker_sound_bind; [apply sound_with_pending; by left|]. intros target.
  by apply worker_sound_rethrow, holds_send.
Qed.

Lemma sound_execute_one k : sound (execute_one k).
Proof.
  unfold execute_one. apply worker_sound_bind; [by apply worker_holds_consume|]. intros envelope.
  apply sound_lift_bind. intros a _. apply worker_sound_bind; [|done].
  apply worker_sound_rethrow, sound_with_pending. intros now st. right. by exists (OpEnqueue a).
Qed.

Lemma sound_assignment_loop k n : sound (assignment_loop k n).
Proof. induction n as [|n IH]; cbn [assignment_loop]; [done|]. apply worker_sound_bind; [apply sound_execute_one|done]. Qed.

(** A worker whose advertised capacity fits, as every configured one's does. *)
Definition capacity_fits (k : Worker) : Prop := is_Some (resource_requirements (ac_resources (wk_advertised_capacity k))).

Lemma sound_heartbeat_turn k n : capacity_fits k → sound (heartbeat_turn k n).
Proof.
  intros [resources Hr]. unfold heartbeat_turn. rewrite Hr. apply worker_sound_bind; [by apply worker_holds_env|]. intros now.
  apply worker_sound_bind; [|done]. apply worker_sound_attempt, holds_core; [apply client_heartbeat_lin|done].
Qed.

Lemma sound_heartbeat_loop k n ticks :
  capacity_fits k → (n + Z.of_nat ticks ≤ u64_max)%Z → sound (heartbeat_loop k n ticks).
Proof.
  intros Hk. revert n. induction ticks as [|ticks IH]; intros n Hn; cbn [heartbeat_loop]; [apply rg_never|].
  unfold checked_add. rewrite bool_decide_true by lia.
  apply worker_sound_bind; [by apply sound_heartbeat_turn|]. intros _. apply IH. lia.
Qed.

Lemma sound_worker_select k turns server_end polls :
  capacity_fits k → (Z.of_nat (length polls) ≤ u64_max)%Z → sound (worker_select k turns server_end polls).
Proof.
  intros Hk Hp. eapply rg_weaken; [|apply (rg_select _ _ _ [λ _, True; λ _, True; λ _, True; λ _, True])];
    [by repeat constructor|intros w; by apply pending_moves_same|by repeat constructor|].
  apply Forall2_cons; split; [|apply Forall2_cons; split; [|apply Forall2_cons; split;
    [by destruct server_end|by repeat constructor]]].
  - apply worker_sound_bind; [apply sound_assignment_loop|intros _; apply rg_never].
  - apply worker_sound_bind; [by apply worker_sound_rethrow, sound_heartbeat_loop|by intros []].
Qed.

Lemma sound_run_until_shutdown version k turns server_end polls :
  capacity_fits k → (Z.of_nat (length polls) ≤ u64_max)%Z →
  sound (run_until_shutdown version k turns server_end polls).
Proof.
  intros Hk Hp. unfold run_until_shutdown, worker_registration. destruct (Hk) as [resources ->]. cbn.
  apply worker_sound_bind; [|intros _; by apply sound_worker_select]. unfold register_with_core.
  apply worker_sound_bind; [apply worker_sound_attempt, holds_core; [apply client_register_lin|done]|].
  intros [response|failure]; [by case_match|done].
Qed.

Lemma sound_direct report : direct report → sound (worker_report_execution report).
Proof.
  intros Hd. unfold worker_report_execution.
  eapply (rg_bind _ _ _ _ _ _ (λ _, known (re_assignment_id report))).
  { eapply rg_post; [|apply (holds_with_pending _ (λ _, True) (λ _, known (re_assignment_id report)))];
      [by intros []|done|intros _; apply stable_known|by left|].
    intros now w a _ Ha w' Hp. unfold known. rewrite Hp. simpl in *.
    apply ok_or_Ok, fmap_Some in Ha as (r & Hr & _). by exists r. }
  intros _. eapply (rg_bind _ _ _ _ _ _ (λ _ _, True)); [|done].
  eapply rg_post; [|apply (holds_forward report (known (re_assignment_id report)))];
    [by intros []|apply stable_known|by auto].
Qed.

(** ** Everything at once *)

(** What the network does to a channel: the runtime receives a command, or goes away. *)
Definition receive (i : nat) : prog worker_state Empty_set unit :=
  atomic (λ w, (put channels_l (alter (λ ch, mkChannel (drop 1 (ch_buffer ch)) (ch_open ch)) i (w_channels w)) w, tt)).
Definition hang_up (i : nat) : prog worker_state Empty_set unit :=
  atomic (λ w, (put channels_l (alter (λ ch, mkChannel (ch_buffer ch) false) i (w_channels w)) w, tt)).

Definition working {E A} (m : prog worker_state E A) : prog worker_state Empty_set unit :=
  _ ← attempt m; mret tt.

(** What may start at any time in a worker. *)
Inductive worker_task : prog worker_state Empty_set unit → Prop :=
| TaskSession branches : worker_task (working (runtime_session branches))
| TaskAssignments k turns : worker_task (working (assignment_loop k turns))
| TaskHeartbeats k ticks :
    capacity_fits k → (Z.of_nat ticks ≤ u64_max)%Z → worker_task (working (heartbeat_loop k 0 ticks))
| TaskWorker version k turns server_end polls :
    capacity_fits k → (Z.of_nat (length polls) ≤ u64_max)%Z →
    worker_task (working (run_until_shutdown version k turns server_end polls))
| TaskCancel assignment_id reason : worker_task (working (cancel assignment_id reason))
| TaskDirect report : direct report → worker_task (working (worker_report_execution report))
| TaskReceive i : worker_task (receive i)
| TaskHangUp i : worker_task (hang_up i).

Lemma sound_channels f : sound (atomic (E:=Empty_set) (λ w, (put channels_l (f (w_channels w)) w, tt))).
Proof.
  apply (rg_atomic _ _ _ _ _ (λ _ _, True)); [|done..]. intros w HI _.
  split; [by apply (worker_inv_same w)|]. split; [by apply pending_moves_same|done].
Qed.

Lemma worker_task_sound m : worker_task m → sound m.
Proof.
  assert (∀ E A (m : prog worker_state E A), sound m → sound (working m)) as Hw.
  { intros E A m' Hm. apply worker_sound_bind; [by apply worker_sound_attempt|done]. }
  intros []; try apply Hw; [apply sound_runtime_session|apply sound_assignment_loop|by apply sound_heartbeat_loop|by apply sound_run_until_shutdown
    |apply sound_cancel|by apply sound_direct|apply (sound_channels (alter _ _))..].
Qed.

(** A worker that has just started. *)
Definition worker_start w : Prop := w_pending w = pending_default ∧ sent (w_core w) = [].

Lemma worker_start_inv w : worker_start w → worker_inv w.
Proof.
  intros [Hp Hs]. split; [rewrite Hp; apply pending_wf_default|]. intros r. rewrite Hs. by intros ?%not_elem_of_nil.
Qed.

Lemma worker_reachable_inv w w' ps :
  worker_start w → rtc (interleave worker_task) (w, []) (w', ps) →
  worker_inv w' ∧ ∀ msg, Panic msg ∉ ps.
Proof.
  intros Hw Hsteps.
  destruct (rg_pool_invariant False worker_inv pending_moves _ _ _ _ worker_task_sound (worker_start_inv _ Hw) Hsteps).
  eauto.
Qed.
End runtime_spec.

(** ** The theorems *)

Section theorems.
Context `{P : Protocols} `{PF : Platform} `{HO : HashMapOrder}.
Context {BS KS : Type} `{B : !Broker BS} `{BO : !BrokerOk B}
  `{C : !CoreWorkerClient KS} `{CO : !CoreWorkerClientOk C}.
Implicit Types w : worker_state BS KS.

(** C30: however sessions, the assignment loop, heartbeats, cancellations, direct reports
    and whole runs of the worker (its registration and the final [select!], whose branches
    advance independently and are dropped where they are) interleave, and whenever runtimes
    hang up, no task of the worker panics, the pending executions keep their invariant, and
    Core only ever hears of assignments the worker has.  (The capacity of the worker fits in
    millicores, as C28 shows of every loaded configuration, and there are fewer than 2^64
    heartbeats.) *)
Theorem worker_tasks_safe w w' ps :
  worker_start w → rtc (interleave (worker_task (λ _, True))) (w, []) (w', ps) →
  (∀ msg, Panic msg ∉ ps) ∧ pending_wf (w_pending w')
  ∧ ∀ r, r ∈ sent (w_core w') → is_Some (assignments (w_pending w') !! re_assignment_id r).
Proof.
  intros Hw Hsteps. destruct (worker_reachable_inv (λ _, True) w w' ps Hw Hsteps) as [[Hwf Hlog] Hp].
  split_and!; [done|done|]. by intros r [? _]%Hlog.
Qed.

(** C31: whatever reports [direct] runtimes hand to the worker's [report_execution], which
    the worker forwards as they are for an assignment it has, every other report Core has
    received says what the worker has recorded: it names the assignment's own execution,
    is not newer than the record, and is a start without outcome of an execution that
    started, a success without failure of one that succeeded, or a failure with its error
    of one that failed. *)
Theorem session_reports_faithful (direct : ReportExecutionRequest → Prop) w w' ps r :
  worker_start w → rtc (interleave (worker_task direct)) (w, []) (w', ps) →
  r ∈ sent (w_core w') →
  ∃ record, assignments (w_pending w') !! re_assignment_id r = Some record
    ∧ (¬ direct r → reports (re_execution_id r) (re_sequence_number r) (re_state r) (re_outcome r) record).
Proof.
  intros Hw Hsteps Hr. destruct (worker_reachable_inv direct w w' ps Hw Hsteps) as [[_ Hlog] _].
  destruct (Hlog _ Hr) as [[record Hk] [(record' & Hrec & Hrep)|Hd]]; [by exists record'|by exists record].
Qed.
End theorems.

(** ** Examples *)

Module RuntimeExamples.
Import Concrete.

(** A Core that accepts everything and keeps the reports. *)
Record LocalCore := mkLocalCore { core_reports : list ReportExecutionRequest }.

#[export] Instance local_core : CoreWorkerClient LocalCore := {|
  client_register_worker _ := mret {| rwr_accepted := true; rwr_lease_id := None |};
  client_report_heartbeat _ := mret {| rhr_accepted := true |};
  client_report_execution r :=
    atomic (λ c, (mkLocalCore (core_reports c ++ [r]), {| rer_accepted := true |}))
|}.

#[export] Instance local_core_ok : CoreWorkerClientOk local_core.
Proof.
  refine {| sent := core_reports |}; [|done..].
  intros r s s' b [= <- <-]. right. by left.
Defined.

Abbreviation demo_worker_type := (worker_state LocalBroker LocalCore).

Definition demo_assignment : AssignExecutionRequest :=
  {| ae_assignment_id := "a"; ae_execution_id := "e"; ae_job_id := "j"; ae_task := None; ae_arguments := "";
     ae_serialization_format := ""; ae_reserved_resources := None; ae_deadline := None; ae_metadata := None |}.

Definition demo_message : BrokerEnvelope :=
  {| be_message_id := "m"; be_message_kind := ""; be_schema_version := "v1"; be_source := "";
     be_destination := "workers.w"; be_created_at := None; be_expires_at := None;
     be_payload := encode_assign demo_assignment;
     be_content_type := None; be_correlation_id := Some "j"; be_causation_id := None;
     be_trace_context := None; be_routing_headers := None |}.

Definition demo_worker : Worker :=
  {| wk_destination := "workers.w"; wk_identity := mkWorkerIdentity "w" "g" "name";
     wk_advertised_capacity := mkAdvertisedCapacity (mkWorkerResources 1 0) [];
     wk_heartbeat_interval := HEARTBEAT_INTERVAL; wk_runtime_address := "" |}.

(** The worker's queue has one assignment. *)
Definition demo_state : demo_worker_type :=
  mkWorkerState (mkEnv 0 0) pending_default [] (mkLocalBroker {[ "workers.w" := [demo_message] ]}) (mkLocalCore []).

Definition demo_started : RuntimeEvent :=
  mkRuntimeEvent (Some (EvExecutionStarted
    {| es_assignment_id := "a"; es_execution_id := "e"; es_sequence_number := 1;
       es_observed_at := None; es_rest := 0%Z |})).

Definition demo_completed : RuntimeEvent :=
  mkRuntimeEvent (Some (EvExecutionCompleted
    {| ec_assignment_id := "a"; ec_execution_id := "e"; ec_sequence_number := 2;
       ec_result := Some {| jr_payload := "42"; jr_serialization_format := "json"; jr_failure := None;
                            jr_execution_id := ""; jr_rest := 0%Z |};
       ec_observed_at := None; ec_rest := 0%Z |})).

(** The assignment is fetched, taken by a session, started and completed. *)
Definition demo_calls : list (prog demo_worker_type Empty_set unit) :=
  [working (assignment_loop demo_worker 1);
   working (runtime_session [SelAssignment; SelEvent (Some (Ok demo_started));
     SelEvent (Some (Ok demo_completed)); SelEvent None])].

Definition demo_end : demo_worker_type := fold_left (λ w p, (run p w).1) demo_calls demo_state.

Lemma demo_worker_tasks direct : Forall (worker_task direct) demo_calls.
Proof. repeat constructor. Qed.

Lemma worker_tasks_safe_witness : pending_wf (w_pending demo_end).
Proof.
  destruct (interleave_calls (worker_task (λ _, True)) demo_state [] demo_calls (demo_worker_tasks (λ _, True))) as [ps Hsteps].
  destruct (worker_tasks_safe demo_state demo_end ps) as (_ & H & _); [split; reflexivity|exact Hsteps|exact H].
Defined.

(** A report of a failure that never happened, handed to the worker directly. *)
Definition demo_direct : ReportExecutionRequest :=
  {| re_report_id := "d"; re_assignment_id := "a"; re_execution_id := "x"; re_sequence_number := 9;
     re_state := 4; re_outcome := None; re_observed_at := None |}.

Definition demo_both_calls : list (prog demo_worker_type Empty_set unit) :=
  [working (assignment_loop demo_worker 1); working (worker_report_execution demo_direct);
   working (runtime_session [SelAssignment; SelEvent (Some (Ok demo_started));
     SelEvent (Some (Ok demo_completed)); SelEvent None])].

Definition demo_both : demo_worker_type := fold_left (λ w p, (run p w).1) demo_both_calls demo_state.

Definition demo_reports : list ReportExecutionRequest := core_reports (w_core demo_both).

(** The direct report arrived as it was given, then the session's two, and the last of
    them is what the worker recorded. *)
Lemma session_reports_faithful_witness :
  re_execution_id <$> demo_reports = ["x"; "e"; "e"]
  ∧ ∃ r record, last demo_reports = Some r ∧ re_sequence_number r = 2%Z
    ∧ reports (re_execution_id r) (re_sequence_number r) (re_state r) (re_outcome r) record.
Proof.
  split; [vm_refl|].
  assert (last demo_reports = Some (default demo_direct (last demo_reports))) as Hr
    by (apply default_Some; vm_refl).
  set (r := default demo_direct (last demo_reports)) in *.
  assert (re_sequence_number r = 2%Z) as Hs by vm_refl.
  destruct (interleave_calls (worker_task (λ d, d = demo_direct)) demo_state [] demo_both_calls) as [ps Hsteps].
  { repeat constructor. }
  destruct (session_reports_faithful (λ d, d = demo_direct) demo_state demo_both ps r) as (record & _ & H).
  - split; reflexivity.
  - exact Hsteps.
  - change (r ∈ demo_reports). apply last_Some in Hr as [l' Hr]. rewrite Hr.
    apply elem_of_app. right. apply list_elem_of_singleton. reflexivity.
  - exists r, record. split; [exact Hr|]. split; [exact Hs|]. apply H.
    intros Hd. rewrite Hd in Hs. discriminate Hs.
Defined.
End RuntimeExamples.
