(* ===== verification/SessionSpec.v ===== *)
(** * What a session does with an assignment

    One turn of a runtime session's loop that takes an assignment
    ([src/worker/runtime.rs], the second branch of the [select!] in [runtime_session]):
    the front of the queue goes to the runtime, waits for room in the session's channel,
    or, when the runtime is gone, back to the queue with everything else the session held. *)

From S2P Require Import Prelude RustStr Prog Protocol Concrete Broker Local Pending PendingSpec.
From S2P Require Import RuntimeService RuntimeSpec.

Section session.
Context `{P : Protocols} `{PF : Platform} `{HO : HashMapOrder}.
Context {BS KS : Type} `{C : !CoreWorkerClient KS}.
Implicit Types (w : worker_state BS KS) (st : PendingState) (r : AssignmentRecord).

(** The command that carries an assignment. *)
Definition assign_command (a : AssignExecutionRequest) : result Status WorkerCommand :=
  Ok {| wc_payload := Some (CmdAssignExecution a) |}.

(** The pending executions with the front of the queue handed to the session. *)
Definition handed_to (session id : string) (rest : list string) r st : PendingState :=
  mkPendingState rest (<[id := assign_to session r]> (assignments st)) (sessions st).

Lemma next_for_front session st id rest :
  reachable st → queue st = id :: rest →
  ∃ r, assignments st !! id = Some r ∧ ar_state r = AS_Pending ∧ ae_assignment_id (assignment r) = id
    ∧ next_for session st = (handed_to session id rest r st, NextAssignment (assignment r)).
Proof.
  intros Hwf%reachable_wf Hq. pose proof Hwf as [[_ Hin] _].
  destruct (proj1 (Hin id)) as (r & Hr & Hs); [rewrite Hq; set_solver|]. exists r.
  destruct (wf_entry _ _ _ Hwf Hr) as (Hid & _). split_and!; [done..|].
  unfold next_for. rewrite Hq. cbn [assignments]. by rewrite Hr.
Qed.

Lemma run_take_next session w id rest r E :
  next_for session (w_pending w) = (handed_to session id rest r (w_pending w), NextAssignment (assignment r)) →
  run (take_next (E:=E) session) w
  = (put pending_l (handed_to session id rest r (w_pending w)) w, Done (assignment r)).
Proof. intros Hn. unfold take_next. rewrite run_section. by rewrite Hn. Qed.

Lemma run_send sender message w ch :
  w_channels w !! sender = Some ch →
  run (send sender message) w =
    if negb (ch_open ch) then (w, Failed tt)
    else if bool_decide (channel_capacity ≤ length (ch_buffer ch)) then (w, Blocked)
    else (put channels_l (<[sender := mkChannel (ch_buffer ch ++ [message]) true]> (w_channels w)) w, Done tt).
Proof. intros Hch. unfold send. rewrite run_section, Hch.
  destruct (ch_open ch); [|done]. simpl. by case_bool_decide. Qed.

Lemma run_disconnect session w E st b :
  disconnect session (w_pending w) = Some (st, b) →
  run (disconnect_session (E:=E) session) w = (put pending_l st w, Done tt).
Proof. intros Hd. unfold disconnect_session. rewrite run_section. by rewrite Hd. Qed.

(** The turn up to the [send], and what follows it. *)
Lemma run_assignment_turn session sender branches w id rest r ch :
  next_for session (w_pending w) = (handed_to session id rest r (w_pending w), NextAssignment (assignment r)) →
  w_channels w !! sender = Some ch →
  let w1 := put pending_l (handed_to session id rest r (w_pending w)) w in
  run (session_loop session sender (SelAssignment :: branches)) w =
    if negb (ch_open ch) then run (disconnect_session session) w1
    else if bool_decide (channel_capacity ≤ length (ch_buffer ch)) then (w1, Blocked)
    else run (session_loop session sender branches)
           (put channels_l (<[sender := mkChannel (ch_buffer ch ++ [assign_command (assignment r)]) true]> (w_channels w)) w1).
Proof.
  intros Hn Hch w1. cbn [session_loop]. rewrite run_bind, (run_take_next _ _ id rest r) by done.
  cbv zeta. rewrite run_bind, run_attempt, (run_send _ _ _ ch) by done.
  destruct (ch_open ch); [|done]. simpl. by case_bool_decide.
Qed.

(** C27: a turn of a session's loop that takes the assignment at the front of the queue
    never loses it.  When the session's channel is open and has room, the loop goes on with
    the assignment, complete, at the end of the channel and recorded as held by the session.
    When the channel is full, the session waits, holding the assignment, and sends nothing.
    When the runtime is gone, the loop ends: the assignment and every other unstarted one of
    the session are at the back of the queue, as they were when they came, nothing refers to
    the session any more, and it can no longer be sent anything.  No other record, and no
    other channel, is touched by the first two. *)
Theorem assignment_turn_never_loses w session sender id rest ch branches :
  reachable (w_pending w) → queue (w_pending w) = id :: rest → w_channels w !! sender = Some ch →
  ∃ r, assignments (w_pending w) !! id = Some r ∧ ae_assignment_id (assignment r) = id
  ∧ let w1 := put pending_l (mkPendingState rest (<[id := assign_to session r]> (assignments (w_pending w)))
                               (sessions (w_pending w))) w in
    (ch_open ch = true → length (ch_buffer ch) < channel_capacity →
       run (session_loop session sender (SelAssignment :: branches)) w
       = run (session_loop session sender branches)
           (put channels_l (<[sender := mkChannel (ch_buffer ch ++ [assign_command (assignment r)]) true]> (w_channels w)) w1))
    ∧ (ch_open ch = true → channel_capacity ≤ length (ch_buffer ch) →
       run (session_loop session sender (SelAssignment :: branches)) w = (w1, Blocked))
    ∧ (ch_open ch = false →
       ∃ st back, run (session_loop session sender (SelAssignment :: branches)) w = (put pending_l st w, Done tt)
         ∧ queue st = rest ++ back ∧ assignments st !! id = Some (fresh_record (assignment r))
         ∧ (∀ j, j ∈ back ↔ j = id ∨ ∃ r', assignments (w_pending w) !! j = Some r'
                                           ∧ ar_state r' = AS_Assigned ∧ session_id r' = Some session)
         ∧ (∀ j r', assignments st !! j = Some r' → session_id r' ≠ Some session)
         ∧ sessions st = delete session (sessions (w_pending w))).
Proof.
  intros Hr Hq Hch. destruct (next_for_front session _ _ _ Hr Hq) as (r & Hid & Hs & Ha & Hn).
  exists r. split_and!; [done..|]. intros w1.
  rewrite (run_assignment_turn session sender branches w id rest r ch Hn Hch). fold w1.
  split_and!; intros Hopen.
  - intros Hroom. rewrite Hopen. simpl. by rewrite bool_decide_false by lia.
  - intros Hfull. rewrite Hopen. simpl. by rewrite bool_decide_true.
  - rewrite Hopen. cbn [negb].
    assert (reachable (w_pending w1)) as Hr1.
    { apply (reach_op (OpNextFor session) (w_pending w)); [done|]. simpl. by rewrite Hn. }
    apply reachable_wf in Hr1 as Hwf1.
    rewrite (run_disconnect session w1 _ _ _ (disconnect_eq session (w_pending w1))).
    eexists _, (requeued_ids session (assignments (w_pending w1))). split; [done|]. cbn [queue assignments sessions].
    split_and!; [done| | | |done].
    + rewrite lookup_fmap. simpl. rewrite lookup_insert_eq. simpl. f_equal.
      destruct (wf_entry _ _ _ (reachable_wf _ Hr) Hid) as (_ & _ & _ & [_ Hm] & Hok). rewrite Hs in Hok.
      destruct Hok as (_ & Hl & Hst & Hd). unfold release_if, release, fresh_record. simpl.
      rewrite decide_True, Hl, Hst, Hd by done. f_equal.
      rewrite Hl in Hm. destruct (ar_metrics r); [done|]. apply Forall_cons in Hm. naive_solver.
    + intros j. rewrite elem_of_requeued. simpl. destruct (decide (j = id)) as [->|Hne].
      * rewrite lookup_insert_eq. split; [by left|]. intros _. by eexists.
      * rewrite lookup_insert_ne by done. naive_solver.
    + intros j r'. rewrite lookup_fmap, fmap_Some. intros (r0 & _ & ->). unfold release_if.
      by case_decide.
Qed.
End session.

(** ** Examples *)

Module SessionExamples.
Import Concrete RuntimeExamples.

(** Two assignments wait; session [s] holds a third; its channel has one command in it. *)
Definition held_record (id : string) (state : AssignmentState) (session : option string) : AssignmentRecord :=
  mkAssignmentRecord (PendingExamples.demo_assignment id "e") state None session None None [].

Definition demo_held : list op :=
  [OpEnqueue (PendingExamples.demo_assignment "a1" "e"); OpEnqueue (PendingExamples.demo_assignment "a2" "e");
   OpEnqueue (PendingExamples.demo_assignment "a3" "e"); OpRegisterSession "s" 0; OpNextFor "s"].

Definition demo_pending : PendingState := default pending_default (run_ops demo_held pending_default).

Definition demo_session (open : bool) (queued : nat) : demo_worker_type :=
  mkWorkerState (mkEnv 0 0) demo_pending
    [mkChannel (repeat (assign_command (PendingExamples.demo_assignment "a1" "e")) queued) open]
    (mkLocalBroker ∅) (mkLocalCore []).

Lemma demo_pending_reachable : reachable demo_pending.
Proof. eapply (run_ops_reachable demo_held); [constructor|]. apply default_Some. vm_refl. Qed.

Lemma assignment_turn_never_loses_witness :
  (run (session_loop "s" 0 [SelAssignment]) (demo_session true 32)).2 = Blocked
  ∧ ∃ st back, queue st = ["a3"] ++ back ∧ "a1" ∈ back ∧ "a2" ∈ back
    ∧ run (session_loop "s" 0 [SelAssignment]) (demo_session false 1) = (put pending_l st (demo_session false 1), Done tt).
Proof.
  split.
  - destruct (assignment_turn_never_loses (demo_session true 32) "s" 0 "a2" ["a3"]
      (mkChannel (repeat (assign_command (PendingExamples.demo_assignment "a1" "e")) 32) true) [])
      as (r & _ & _ & _ & H & _); [exact demo_pending_reachable|vm_refl|reflexivity|].
    rewrite H; [reflexivity|reflexivity|]. cbn [ch_buffer]. rewrite repeat_length. unfold channel_capacity. lia.
  - destruct (assignment_turn_never_loses (demo_session false 1) "s" 0 "a2" ["a3"]
      (mkChannel (repeat (assign_command (PendingExamples.demo_assignment "a1" "e")) 1) false) [])
      as (r & _ & _ & _ & _ & H); [exact demo_pending_reachable|vm_refl|reflexivity|].
    destruct (H eq_refl) as (st & back & Hrun & Hq & _ & Hback & _).
    exists st, back. split_and!; [exact Hq| | |exact Hrun].
    + apply Hback. right.
      assert (assignments demo_pending !! "a1" = Some (held_record "a1" AS_Assigned (Some "s"))) as Ha by vm_refl.
      eexists. split; [exact Ha|]. split; reflexivity.
    + apply Hback. by left.
Defined.
End SessionExamples.
