(* ===== verification/Redis.v ===== *)
(** * Redis, as the program uses it

    The server and the crate [redis] are outside the repository.  [Redis S] is a server
    with its connection, over the server's state [S]; what the program relies on is in
    [RedisOk], clause by clause from the documentation of the commands: which keys and
    values each command reads and writes, that expired keys are gone, that a script runs
    without interleaving, and what a full iteration of [SCAN] returns.

    The scripts the program sends are its own code; they are [script]s, sequences of
    [redis.call]s that the server runs at once. *)

From Stdlib Require Import Ascii.
From S2P Require Import Prelude RustStr Prog Protocol.

(** ** Commands, by the type of their answers *)

Inductive command : Type → Type :=
| EXISTS (key : string) : command Z
| HGET (key field : string) : command (option bytes)
| HMGET (key : string) (fields : list string) : command (list (option bytes))
| HSET (key : string) (values : list (string * bytes)) : command Z
| PEXPIRE (key : string) (milliseconds : Z) : command Z
| RPUSH (key : string) (value : bytes) : command Z
| BLPOP (key : string) : command (option (bytes * bytes))
| SET (key : string) (value : bytes) : command unit
| SCAN (cursor : Z) (pattern : string) (count : Z) : command (Z * list bytes).

(** What becomes of a request: it is executed and answered, it never arrives, or it is
    executed and the answer is lost. *)
Inductive delivery : Set :=
| Delivered
| Lost (error : string)
| ReplyLost (error : string).

(** [redis_open] is [Client::open]'s check of the URL, [redis_connect] opens a
    connection, [redis_deliver] decides a request's fate, [redis_exec] executes one
    command at the server, [redis_not_utf8] is the error of an answer read as a [String]
    that is not one.  Errors are their texts. *)
Class Redis (S : Type) := {
  redis_open : string → result string unit;
  redis_connect : S → S * result string unit;
  redis_deliver : S → S * delivery;
  redis_exec : ∀ {A}, command A → S → S * result string A;
  redis_not_utf8 : string
}.

(** ** The client *)

(** The server as one process sees it, with the clock readings the process has taken. *)
Record redis_node (S : Type) := mkNode { node_server : S; node_ticks : nat }.
Arguments mkNode {S} node_server node_ticks.
Arguments node_server {S} r.
Arguments node_ticks {S} r.

(** A Lua script: it goes on while its calls succeed, and an error ends it, with the
    effects of the calls before. *)
Definition script (S A : Type) : Type := S → S * result string A.

#[export] Instance script_ret S : MRet (script S) := λ A a s, (s, Ok a).
#[export] Instance script_bind S : MBind (script S) := λ A B k m s,
  match m s with
  | (s', Ok a) => k a s'
  | (s', Err e) => (s', Err e)
  end.

Section client.
Context `{PF : Platform} {S : Type} `{R : !Redis S}.
Abbreviation node := (redis_node S).

(** [redis.call] *)
Definition call {A} (c : command A) : script S A := redis_exec c.

(** [SystemTime::now()] in the process. *)
Definition node_time {E} : prog node E Z :=
  atomic (λ n, (mkNode (node_server n) (Datatypes.S (node_ticks n)), system_time_at (node_ticks n))).

(** [get_multiplexed_async_connection] *)
Definition connect : prog node string unit :=
  critical (λ n, let '(s, r) := redis_connect (node_server n) in (mkNode s (node_ticks n), r)).

(** One request: a command or a script.  The requests that load a script the server does
    not have yet touch no key. *)
Definition request {A} (f : script S A) (n : node) : node * result string A :=
  let '(s, d) := redis_deliver (node_server n) in
  match d with
  | Delivered => let '(s', r) := f s in (mkNode s' (node_ticks n), r)
  | Lost e => (mkNode s (node_ticks n), Err e)
  | ReplyLost e => (mkNode (f s).1 (node_ticks n), Err e)
  end.

Definition invoke {A} (f : script S A) : prog node string A := critical (request f).
Definition query {A} (c : command A) : prog node string A := invoke (call c).

(** Answers read as [String]s. *)
Definition string_from (b : bytes) : result string string :=
  if utf8 b then Ok b else Err redis_not_utf8.

Fixpoint strings_from (l : list bytes) : result string (list string) :=
  match l with
  | [] => Ok []
  | b :: l => s ← string_from b; rest ← strings_from l; Ok (s :: rest)
  end.

Fixpoint optional_strings_from (l : list (option bytes)) : result string (list (option string)) :=
  match l with
  | [] => Ok []
  | None :: l => rest ← optional_strings_from l; Ok (None :: rest)
  | Some b :: l => s ← string_from b; rest ← optional_strings_from l; Ok (Some s :: rest)
  end.

(** A request that waits at the server while there is nothing to answer. *)
Definition query_waiting {A} (c : command (option A)) : prog node string A :=
  section (λ n,
    match request (call c) n with
    | (n', Ok (Some a)) => (n', Done a)
    | (n', Ok None) => (n', Blocked)
    | (n', Err e) => (n', Failed e)
    end).
End client.

(** ** What the documentation says *)

(** The values the program stores. *)
Inductive redis_value : Type :=
| RString (value : bytes)
| RHash (fields : gmap string bytes)
| RList (elements : list bytes).

(** The keys that exist, with their values and, for a key that expires, its deadline on
    the server's clock, in milliseconds. *)
Record redis_db := mkDb {
  db_time : Z;
  db_values : gmap string redis_value;
  db_deadlines : gmap string Z
}.

Implicit Type d : redis_db.

(** Time passes: the keys whose deadline has come are gone. *)
Definition expired (t : Z) d (key : string) : bool :=
  match db_deadlines d !! key with
  | Some deadline => bool_decide (deadline ≤ t)%Z
  | None => false
  end.

Definition at_time (t : Z) d : redis_db :=
  mkDb t (filter (λ kv, expired t d kv.1 = false) (db_values d))
         (filter (λ kv, expired t d kv.1 = false) (db_deadlines d)).

Definition elapsed d d' : Prop := ∃ t, (db_time d ≤ t)%Z ∧ d' = at_time t d.

(** A key that does not exist reads as an empty hash and an empty list. *)
Definition hash_at d (key : string) : option (gmap string bytes) :=
  match db_values d !! key with
  | None => Some ∅
  | Some (RHash h) => Some h
  | Some _ => None
  end.

Definition list_at d (key : string) : option (list bytes) :=
  match db_values d !! key with
  | None => Some []
  | Some (RList l) => Some l
  | Some _ => None
  end.

Definition set_value (key : string) (v : redis_value) d : redis_db :=
  mkDb (db_time d) (<[key := v]> (db_values d)) (db_deadlines d).

Definition set_deadline (key : string) (t : Z) d : redis_db :=
  mkDb (db_time d) (db_values d) (<[key := t]> (db_deadlines d)).

Definition remove_key (key : string) d : redis_db :=
  mkDb (db_time d) (delete key (db_values d)) (delete key (db_deadlines d)).

Definition set_fields (values : list (string * bytes)) (h : gmap string bytes) : gmap string bytes :=
  foldl (λ h fv, <[fv.1 := fv.2]> h) h values.

(** An expiry a signed 64-bit count of milliseconds can hold. *)
Definition i64_max : Z := 2 ^ 63 - 1.

(** The effect of a command that was executed without error, in its documentation's
    words: [HSET] keeps the deadline, [SET] drops it, a list that becomes empty is
    removed. *)
Definition effect (glob_match : string → string → bool) {A} (c : command A)
    : redis_db → A → redis_db → Prop :=
  match c in command A return redis_db → A → redis_db → Prop with
  | EXISTS key => λ d a d', d' = d ∧ a = if bool_decide (is_Some (db_values d !! key)) then 1%Z else 0%Z
  | HGET key field => λ d a d', d' = d ∧ ∃ h, hash_at d key = Some h ∧ a = h !! field
  | HMGET key fields => λ d a d', d' = d ∧ ∃ h, hash_at d key = Some h ∧ a = (λ f, h !! f) <$> fields
  | HSET key values => λ d _ d', ∃ h, hash_at d key = Some h ∧ d' = set_value key (RHash (set_fields values h)) d
  | PEXPIRE key ms => λ d a d',
      if bool_decide (is_Some (db_values d !! key))
      then a = 1%Z ∧ d' = if bool_decide (0 < ms)%Z then set_deadline key (db_time d + ms) d else remove_key key d
      else a = 0%Z ∧ d' = d
  | RPUSH key value => λ d _ d', ∃ l, list_at d key = Some l ∧ d' = set_value key (RList (l ++ [value])) d
  | BLPOP key => λ d a d', ∃ l, list_at d key = Some l ∧
      match l with
      | [] => a = None ∧ d' = d
      | v :: l' => a = Some (key, v) ∧ d' = match l' with [] => remove_key key d | _ => set_value key (RList l') d end
      end
  | SET key value => λ d _ d',
      d' = mkDb (db_time d) (<[key := RString value]> (db_values d)) (delete key (db_deadlines d))
  | SCAN _ pattern _ => λ d a d', d' = d ∧ ∀ key, key ∈ a.2 → is_Some (db_values d !! key) ∧ glob_match pattern key = true
  end.

(** The commands that cannot fail on the types and numbers they are given. *)
Definition acceptable {A} (c : command A) d : Prop :=
  match c with
  | HGET key _ | HMGET key _ | HSET key _ => is_Some (hash_at d key)
  | RPUSH key _ | BLPOP key => is_Some (list_at d key)
  | PEXPIRE _ ms => (0 ≤ ms)%Z ∧ (db_time d + ms ≤ i64_max)%Z
  | EXISTS _ | SET _ _ | SCAN _ _ _ => True
  end.

Definition is_glob_char (c : ascii) : bool :=
  bool_decide (c ∈ ["*"%char; "?"%char; "["%char; "\"%char]).

Class RedisOk {S} (R : Redis S) := {
  db : S → redis_db;
  (** the server takes commands: it is not out of memory, loading or read-only *)
  serving : S → Prop;
  connect_db s : elapsed (db s) (db (redis_connect s).1);
  deliver_db s : elapsed (db s) (db (redis_deliver s).1);
  (** the matching of [SCAN]'s patterns: a plain character stands for itself, a
      backslash takes the next character's meaning away, a final star matches all *)
  glob_match : string → string → bool;
  glob_nil key : glob_match "" key = bool_decide (key = "");
  glob_plain c p c' key : is_glob_char c = false →
    glob_match (String c p) (String c' key) = bool_decide (c = c') && glob_match p key;
  glob_escaped c p c' key :
    glob_match (String "\" (String c p)) (String c' key) = bool_decide (c = c') && glob_match p key;
  glob_short c p : c ≠ "*"%char → glob_match (String c p) "" = false;
  glob_star key : glob_match "*" key = true;
  (** a command that fails changes nothing *)
  exec_db {A} (c : command A) s :
    match redis_exec c s with
    | (s', Ok a) => effect glob_match c (db s) a (db s')
    | (s', Err _) => db s' = db s
    end;
  exec_serving {A} (c : command A) s : serving s → serving (redis_exec c s).1;
  exec_ok {A} (c : command A) s : serving s → acceptable c (db s) → ∃ a, (redis_exec c s).2 = Ok a;
  (** a full iteration of [SCAN] returns every key that exists from its start to its
      end; [scan_left s c key]: [key] is still to come from the cursor [c] on *)
  scan_left : S → Z → string → Prop;
  scan_start s key : is_Some (db_values (db s) !! key) → scan_left s 0 key;
  scan_next s c p n s' next keys key :
    redis_exec (SCAN c p n) s = (s', Ok (next, keys)) → scan_left s c key →
    is_Some (db_values (db s) !! key) → glob_match p key = true →
    key ∈ keys ∨ next ≠ 0%Z ∧ scan_left s' next key;
  scan_kept_deliver s c key :
    scan_left s c key → is_Some (db_values (db (redis_deliver s).1) !! key) → scan_left (redis_deliver s).1 c key;
  scan_kept_hget s k f c key : scan_left s c key → scan_left (redis_exec (HGET k f) s).1 c key;
  (** and it ends, on a keyspace that does not grow *)
  scan_rank : S → Z → nat;
  scan_rank_next s c p n s' next keys :
    redis_exec (SCAN c p n) s = (s', Ok (next, keys)) → next ≠ 0%Z → scan_rank s' next < scan_rank s c;
  scan_rank_deliver s c : scan_rank (redis_deliver s).1 c ≤ scan_rank s c;
  scan_rank_hget s k f c : scan_rank (redis_exec (HGET k f) s).1 c ≤ scan_rank s c
}.
