(* ===== verification/RedisFacts.v ===== *)
(** * Reasoning about clients of Redis

    The part of the keyspace under a prefix as a map, how commands and the passage of
    time change it, and when a method that connects and sends one request takes effect at
    one point. *)

From S2P Require Import Prelude RustStr Prog Protocol Redis.

(** ** The keys under a prefix *)

Section submap.
Context {V A : Type}.
Implicit Types (p : string) (f : V → option A) (m : gmap string V).

(** The entries of the keys [p ++ id], read by [f], by [id]. *)
Definition submap p f m : gmap string A :=
  list_to_map (omap (λ kv, id ← strip_prefix p kv.1; a ← f kv.2; Some (id, a)) (map_to_list m)).

Lemma elem_of_submap_list p f m id a :
  (id, a) ∈ omap (λ kv, id ← strip_prefix p kv.1; a ← f kv.2; Some (id, a)) (map_to_list m)
  ↔ ∃ v, m !! (p +:+ id) = Some v ∧ f v = Some a.
Proof.
  rewrite list_elem_of_omap. split.
  - intros ([k v] & Hin & H). apply elem_of_map_to_list in Hin. simpl in H.
    apply bind_Some in H as (id' & Hid & H). apply bind_Some in H as (a' & Ha & H). simplify_eq.
    apply strip_prefix_Some in Hid as ->. eauto.
  - intros (v & Hm & Hf). exists (p +:+ id, v). split; [by apply elem_of_map_to_list|]. simpl.
    rewrite (proj2 (strip_prefix_Some p _ id)) by done. simpl. by rewrite Hf.
Qed.

Lemma lookup_submap p f m id : submap p f m !! id = m !! (p +:+ id) ≫= f.
Proof.
  apply option_eq. intros a. rewrite bind_Some, <-elem_of_submap_list. symmetry.
  unfold submap. apply elem_of_list_to_map'. intros a' H1%elem_of_submap_list.
  intros H. apply elem_of_submap_list in H. destruct H as (?&?&?), H1 as (?&?&?). by simplify_eq.
Qed.

Lemma submap_insert p f m id v a : f v = Some a → submap p f (<[p +:+ id := v]> m) = <[id := a]> (submap p f m).
Proof.
  intros Hf. apply map_eq. intros i. rewrite lookup_submap. destruct (decide (i = id)) as [->|Hi].
  - by rewrite !lookup_insert_eq.
  - rewrite !lookup_insert_ne by (first [done|intros H; by apply str_app_inv_len in H as [_ ?]]).
    by rewrite lookup_submap.
Qed.
End submap.

(** ** Time *)

Lemma lookup_at_time t d key v :
  db_values (at_time t d) !! key = Some v ↔ db_values d !! key = Some v ∧ expired t d key = false.
Proof. unfold at_time. simpl. by rewrite map_lookup_filter_Some. Qed.

Lemma deadline_at_time t d key u :
  db_deadlines (at_time t d) !! key = Some u ↔ db_deadlines d !! key = Some u ∧ (t < u)%Z.
Proof.
  unfold at_time, expired. simpl. rewrite map_lookup_filter_Some. simpl.
  split; intros [H1 H2]; rewrite H1 in *; (split; [done|]).
  - apply bool_decide_eq_false_1 in H2. lia.
  - apply bool_decide_eq_false_2. lia.
Qed.

(** A key without a deadline stays. *)
Lemma elapsed_lasting d d' key :
  elapsed d d' → db_deadlines d !! key = None →
  db_values d' !! key = db_values d !! key ∧ db_deadlines d' !! key = None.
Proof.
  intros (t & _ & ->) Hd. split.
  - apply option_eq. intros v. rewrite lookup_at_time. unfold expired. rewrite Hd. naive_solver.
  - apply eq_None_not_Some. intros [u Hu]. apply deadline_at_time in Hu as [? _]. congruence.
Qed.

Lemma expired_value d d' key :
  elapsed d d' → is_Some (db_values d' !! key) → db_values d !! key = db_values d' !! key.
Proof. intros (t & _ & ->) [v Hv]. rewrite Hv. by apply lookup_at_time in Hv as [-> _]. Qed.

(** ** Clients that take effect at one point *)

(** The database inside a client's state. *)
Abbreviation node_db n := (db (node_server n)).

Section client.
Context `{PF : Platform} {S : Type} `{R : !Redis S} `{RO : !RedisOk R}.
Context {V E A : Type} (inv : redis_db → Prop) (abs : redis_db → V) (spec : V → result E A → V → Prop).
Hypothesis in_time : ∀ d d', inv d → elapsed d d' → inv d' ∧ abs d' = abs d.
Abbreviation ninv := (λ n : redis_node S, inv (node_db n)).
Abbreviation nabs := (λ n : redis_node S, abs (node_db n)).

Lemma lin_on_connect (f : string → E) k :
  (∀ e v, spec v (Err (f e)) v) → lin_on ninv nabs spec (k tt) →
  lin_on ninv nabs spec (rethrow f connect ≫= k).
Proof.
  intros Herr Hk n n' b Hn [= H]. pose proof (connect_db (node_server n)) as Ht.
  destruct (redis_connect (node_server n)) as [s r]. injection H as <- <-. simpl in *.
  destruct (in_time _ _ Hn Ht) as [? ?]. split; [done|]. left. split; [done|].
  destruct r as [[]|e]; [exact Hk|exact (Herr e)].
Qed.

Lemma lin_on_time (k : Z → prog (redis_node S) E A) :
  (∀ t, lin_on ninv nabs spec (k t)) → lin_on ninv nabs spec (node_time ≫= k).
Proof. intros Hk n n' b Hn [= <- <-]. simpl. eauto. Qed.

(** The request decides: executed or not, the state it leaves fits the answer. *)
Lemma lin_on_request {B} (f : script S B) (g : string → E) (k : B → prog (redis_node S) E A) :
  (∀ v e, spec v (Err (g e)) v) →
  (∀ s, inv (db s) →
     let '(s', r) := f s in
     inv (db s')
     ∧ (∀ e, spec (abs (db s)) (Err (g e)) (abs (db s')))
     ∧ settled (λ o, spec (abs (db s)) o (abs (db s'))) (lift_result (map_err g r) ≫= k)) →
  lin_on ninv nabs spec (rethrow g (invoke f) ≫= k).
Proof.
  intros Herr Hf n n' r Hn [= H]. pose proof (deliver_db (node_server n)) as Ht. unfold request in H.
  destruct (redis_deliver (node_server n)) as [s dl]. simpl in *.
  destruct (in_time _ _ Hn Ht) as [Hs Habs]. specialize (Hf s Hs). rewrite <-Habs.
  destruct (f s) as [s' r'] eqn:Hfs, Hf as (Hinv & Herr' & Hset). destruct dl as [|e|e].
  - injection H as <- <-. simpl. split; [done|]. right. by destruct r'.
  - injection H as <- <-. simpl. split; [done|]. right. apply Herr.
  - injection H as <- <-. simpl. split; [done|]. right. apply Herr'.
Qed.
End client.

(** One more command of a script: its documented effect, or its error. *)
Ltac exec_step s' a Heff :=
  match goal with
  | |- context [redis_exec ?c ?s] =>
    let e := fresh "e" in
    pose proof (exec_db c s) as Heff;
    destruct (redis_exec c s) as [s' [a|e]]; simpl in Heff; cbv beta iota
  end.

(** The fields of a hash after [HSET]. *)
Ltac hash_lookups :=
  unfold set_fields; cbn [fmap list_fmap foldl fst snd];
  repeat (rewrite lookup_insert_eq || rewrite lookup_insert_ne by done).

(** A test on the answer of a call that is known. *)
Ltac decide_closed :=
  match goal with
  | |- context [bool_decide (?a = ?b)] =>
    first [replace (bool_decide (a = b)) with true by done|replace (bool_decide (a = b)) with false by done];
    cbv beta iota
  end.

(** ** A reachable server *)

(** The next connection opens, and the request that follows is executed and answered by
    a server that takes commands; [served s] is the server that executes it. *)
Definition served {S : Type} `{R : !Redis S} (s : S) : S := (redis_deliver (redis_connect s).1).1.
Definition link_up {S : Type} `{R : !Redis S} `{RO : !RedisOk R} (s : S) : Prop :=
  (redis_connect s).2 = Ok tt ∧ (redis_deliver (redis_connect s).1).2 = Delivered ∧ serving (served s).

Lemma elapsed_trans d1 d2 d3 : elapsed d1 d2 → elapsed d2 d3 → elapsed d1 d3.
Proof.
  intros (t & Ht & ->) (u & Hu & ->). simpl in *. exists u. split; [lia|].
  assert (∀ key, expired u (at_time t d1) key = false ∧ expired t d1 key = false ↔ expired u d1 key = false) as Hkey.
  { intros key. unfold expired at 1 3. pose proof (deadline_at_time t d1 key) as Hd.
    destruct (db_deadlines d1 !! key) as [v|] eqn:Hv; unfold expired.
    - rewrite Hv. destruct (decide (t < v)%Z) as [Hlt|Hge].
      + rewrite (proj2 (Hd v)) by done. rewrite (bool_decide_false (v ≤ t)%Z) by lia. naive_solver.
      + rewrite (bool_decide_true (v ≤ t)%Z), (bool_decide_true (v ≤ u)%Z) by lia. naive_solver.
    - rewrite Hv. destruct (db_deadlines (at_time t d1) !! key) as [w|]; [|done].
      by destruct (proj1 (Hd w) eq_refl) as [? _]. }
  symmetry. unfold at_time at 1. symmetry. transitivity
    (mkDb u (filter (λ kv, expired u (at_time t d1) kv.1 = false) (db_values (at_time t d1)))
       (filter (λ kv, expired u (at_time t d1) kv.1 = false) (db_deadlines (at_time t d1)))); [done|].
  f_equal; apply map_eq; intros key; apply option_eq; intros v; cbn [at_time db_values db_deadlines];
    rewrite !map_lookup_filter_Some; cbn [fst]; rewrite <-Hkey; naive_solver.
Qed.

Lemma served_elapsed {S : Type} `{R : !Redis S} `{RO : !RedisOk R} (s : S) : elapsed (db s) (db (served s)).
Proof. eapply elapsed_trans; [apply connect_db|apply deliver_db]. Qed.

Section up.
Context `{PF : Platform} {S : Type} `{R : !Redis S}.
Implicit Types n : redis_node S.

Lemma run_connect_up {E A} (f : string → E) (k : unit → prog (redis_node S) E A) n :
  (redis_connect (node_server n)).2 = Ok tt →
  run (rethrow f connect ≫= k) n = run (k tt) (mkNode (redis_connect (node_server n)).1 (node_ticks n)).
Proof.
  intros H. cbn. destruct (redis_connect (node_server n)) as [s r]. cbn in *. by subst.
Qed.

Lemma run_invoke_up {E A B} (g : string → E) (f : script S B) (k : B → prog (redis_node S) E A) n :
  (redis_deliver (node_server n)).2 = Delivered →
  run (rethrow g (invoke f) ≫= k) n
  = run (lift_result (map_err g (f (redis_deliver (node_server n)).1).2) ≫= k)
      (mkNode (f (redis_deliver (node_server n)).1).1 (node_ticks n)).
Proof.
  intros H. cbn. unfold request. destruct (redis_deliver (node_server n)) as [s d]. cbn in *. subst.
  by destruct (f s) as [s' []].
Qed.
End up.

(** A command that must succeed, with its effect. *)
Lemma exec_done {S : Type} `{R : !Redis S} `{RO : !RedisOk R} {A} (c : command A) s :
  serving s → acceptable c (db s) →
  ∃ s' a, redis_exec c s = (s', Ok a) ∧ serving s' ∧ effect glob_match c (db s) a (db s').
Proof.
  intros Hs Hc. destruct (exec_ok c s Hs Hc) as [a Ha]. pose proof (exec_db c s) as He.
  pose proof (exec_serving c s Hs). destruct (redis_exec c s) as [s' r]. simpl in *. subst. by exists s', a.
Qed.

(** A method that returned had its request executed, some time after it was called. *)
Lemma run_request_Done `{PF : Platform} {S : Type} `{R : !Redis S} `{RO : !RedisOk R} {E A B}
    (f g : string → E) (scr : script S B) (k : B → prog (redis_node S) E A) n n1 a :
  run (rethrow f connect ≫= λ _, rethrow g (invoke scr) ≫= k) n = (n1, Done a) →
  ∃ s s' b, elapsed (node_db n) (db s) ∧ scr s = (s', Ok b) ∧ run (k b) (mkNode s' (node_ticks n)) = (n1, Done a).
Proof.
  intros H. apply run_bind_Done in H as (n2 & [] & Hc & H).
  apply run_rethrow_Done in Hc. unfold connect in Hc. rewrite run_critical in Hc.
  apply run_bind_Done in H as (n3 & b & Hi & H). apply run_rethrow_Done in Hi.
  unfold invoke in Hi. rewrite run_critical in Hi. unfold request in Hi.
  pose proof (connect_db (node_server n)) as Hel1. destruct (redis_connect (node_server n)) as [s1 []]; simplify_eq/=.
  pose proof (deliver_db s1) as Hel2. destruct (redis_deliver s1) as [s2 [|e|e]]; simplify_eq/=.
  destruct (scr s2) as [s3 [b'|e]] eqn:Hs; simplify_eq/=. exists s2, s3, b. split; [by eapply elapsed_trans|done].
Qed.

(** The same for a request that may wait: waiting changes nothing, and a connection that
    breaks while it waits is an error. *)
Lemma lin_on_waiting `{PF : Platform} {S : Type} `{R : !Redis S} `{RO : !RedisOk R} {V E A B}
    (inv : redis_db → Prop) (abs : redis_db → V) (spec : V → result E A → V → Prop)
    (in_time : ∀ d d', inv d → elapsed d d' → inv d' ∧ abs d' = abs d)
    (c : command (option B)) (g : string → E) (k : B → prog (redis_node S) E A) :
  (∀ v e, spec v (Err (g e)) v) →
  (∀ s, inv (db s) →
     let '(s', r) := redis_exec c s in
     inv (db s')
     ∧ (∀ e, spec (abs (db s)) (Err (g e)) (abs (db s')))
     ∧ match r with
       | Ok (Some b) => settled (λ o, spec (abs (db s)) o (abs (db s'))) (k b)
       | Ok None | Err _ => True
       end) →
  lin_on (λ n, inv (node_db n)) (λ n, abs (node_db n)) spec (rethrow g (query_waiting c) ≫= k).
Proof.
  intros Herr Hf n n' r Hn H. pose proof (deliver_db (node_server n)) as Ht. unfold request, call in H.
  destruct (redis_deliver (node_server n)) as [s dl]. simpl in Ht.
  destruct (in_time _ _ Hn Ht) as [Hs Habs]. specialize (Hf s Hs). rewrite <-Habs.
  destruct (redis_exec c s) as [s' r'], Hf as (Hinv & Herr' & Hset). destruct dl as [|e|e].
  - destruct r' as [[b|]|e]; simplify_eq/=; (split; [done|]); right; [done|apply Herr'].
  - simplify_eq/=. split; [done|]. right. apply Herr.
  - simplify_eq/=. split; [done|]. right. apply Herr'.
Qed.
