(* ===== verification/RedisConcrete.v ===== *)
(** * A Redis server that can be evaluated

    An instance of [Redis] that has the documented behaviour, so the assumptions of
    [RedisOk] can hold; the evaluated examples run on it.  The fate of each request is
    drawn from a list, and every request takes a millisecond. *)

From Stdlib Require Import Ascii.
From S2P Require Import Prelude RustStr Prog Protocol Redis.

Module RedisConcrete.

Record server := mkServer { sv_db : redis_db; sv_fates : list delivery }.

Definition wrong_type : string := "WRONGTYPE Operation against a key holding the wrong kind of value".

(** ** Patterns *)

Fixpoint suffixes (s : string) : list string :=
  s :: match s with "" => [] | String _ s' => suffixes s' end.

Fixpoint glob (p s : string) : bool :=
  match p with
  | "" => bool_decide (s = "")
  | String c p' =>
    if bool_decide (c = "*"%char) then existsb (glob p') (suffixes s)
    else match s with
    | "" => false
    | String c' s' =>
      if bool_decide (c = "\"%char) then
        match p' with
        | "" => bool_decide (s = p)
        | String e p'' => bool_decide (e = c') && glob p'' s'
        end
      else if bool_decide (c = "["%char) then false
      else (bool_decide (c = "?"%char) || bool_decide (c = c')) && glob p' s'
    end
  end.

Lemma glob_all s : glob "*" s = true.
Proof. simpl. apply existsb_exists. exists "". split; [|done]. induction s; simpl; auto. Qed.

(** ** Execution *)

Definition tick (s : server) : server := mkServer (at_time (db_time (sv_db s) + 1) (sv_db s)) (sv_fates s).

Definition on_db {A} (s : server) (d : redis_db) (a : A) : server * result string A :=
  (mkServer d (sv_fates s), Ok a).

Definition exec {A} (c : command A) (s : server) : server * result string A :=
  let d := sv_db s in
  match c in command A return server * result string A with
  | EXISTS key => on_db s d (if bool_decide (is_Some (db_values d !! key)) then 1%Z else 0%Z)
  | HGET key field =>
    match hash_at d key with Some h => on_db s d (h !! field) | None => (s, Err wrong_type) end
  | HMGET key fields =>
    match hash_at d key with Some h => on_db s d ((λ f, h !! f) <$> fields) | None => (s, Err wrong_type) end
  | HSET key values =>
    match hash_at d key with
    | Some h => on_db s (set_value key (RHash (set_fields values h)) d) (Z.of_nat (length values))
    | None => (s, Err wrong_type)
    end
  | PEXPIRE key ms =>
    if bool_decide (db_time d + ms ≤ i64_max)%Z then
      if bool_decide (is_Some (db_values d !! key))
      then on_db s (if bool_decide (0 < ms)%Z then set_deadline key (db_time d + ms) d else remove_key key d) 1%Z
      else on_db s d 0%Z
    else (s, Err "ERR invalid expire time in 'pexpire' command")
  | RPUSH key value =>
    match list_at d key with
    | Some l => on_db s (set_value key (RList (l ++ [value])) d) (Z.of_nat (S (length l)))
    | None => (s, Err wrong_type)
    end
  | BLPOP key =>
    match list_at d key with
    | Some [] => on_db s d None
    | Some (v :: l') =>
      on_db s (match l' with [] => remove_key key d | _ => set_value key (RList l') d end) (Some (key, v))
    | None => (s, Err wrong_type)
    end
  | SET key value =>
    on_db s (mkDb (db_time d) (<[key := RString value]> (db_values d)) (delete key (db_deadlines d))) tt
  | SCAN _ pattern _ =>
    on_db s d (0%Z, filter (λ k, glob pattern k = true) (map_to_list (db_values d)).*1)
  end.

#[export] Instance concrete_redis : Redis server :=
  {| redis_open url := if bool_decide (strip_prefix "redis://" url = None) then Err "Redis URL did not parse" else Ok tt;
     redis_connect s := (tick s, Ok tt);
     redis_deliver s :=
       (mkServer (sv_db (tick s)) (tail (sv_fates s)), default Delivered (head (sv_fates s)));
     redis_exec := @exec;
     redis_not_utf8 := "Invalid UTF-8" |}.

Lemma tick_elapsed s : elapsed (sv_db s) (sv_db (tick s)).
Proof. eexists. split; [|done]. lia. Qed.

Lemma exec_effect {A} (c : command A) s :
  match exec c s with
  | (s', Ok a) => effect glob c (sv_db s) a (sv_db s')
  | (s', Err _) => sv_db s' = sv_db s
  end.
Proof.
  destruct c; unfold exec, on_db; cbn.
  - done.
  - destruct (hash_at _ _) as [h|]; cbn; [|done]. split; [done|]. by exists h.
  - destruct (hash_at _ _) as [h|]; cbn; [|done]. split; [done|]. by exists h.
  - destruct (hash_at _ _) as [h|]; cbn; [|done]. by exists h.
  - repeat case_bool_decide; done.
  - destruct (list_at _ _) as [l|]; cbn; [|done]. by exists l.
  - destruct (list_at _ _) as [[|v l]|]; cbn; [by exists []|by exists (v :: l)|done].
  - done.
  - split; [done|]. intros k [Hg Hk]%list_elem_of_filter. split; [|done].
    apply list_elem_of_fmap in Hk as ([k' v] & -> & Hk). apply elem_of_map_to_list in Hk. by exists v.
Qed.

#[export] Instance concrete_redis_ok : RedisOk concrete_redis.
Proof.
  refine {| db := sv_db; serving := λ _, True; glob_match := glob;
            scan_left := λ _ _ _, True; scan_rank := λ _ _, 0 |}.
  - intros s. apply tick_elapsed.
  - intros s. apply (tick_elapsed s).
  - done.
  - intros c p c' key Hc. unfold is_glob_char in Hc. apply bool_decide_eq_false_1 in Hc.
    cbn [glob]. rewrite !bool_decide_false with (P := c = _) by (intros ->; apply Hc; set_solver). done.
  - done.
  - intros c p Hc. cbn. by rewrite bool_decide_false.
  - apply glob_all.
  - intros A c s. apply exec_effect.
  - done.
  - intros A c s _ Hc. cbn [redis_exec concrete_redis].
    destruct c; unfold exec, on_db; cbn [acceptable] in Hc; [eauto| | | | | | |eauto..].
    1,2,3: destruct Hc as [h ->]; by eexists.
    + rewrite bool_decide_true by lia. case_bool_decide; by eexists.
    + destruct Hc as [l ->]. by eexists.
    + destruct Hc as [[|v l] ->]; by eexists.
  - done.
  - intros s c p n s' next keys key Hs _ [v Hv] Hg. left. injection Hs as <- <- <-.
    apply list_elem_of_filter. split; [done|]. apply list_elem_of_fmap. exists (key, v). by rewrite elem_of_map_to_list.
  - done.
  - done.
  - intros s c p n s' next keys [= _ <- _]. done.
  - done.
  - done.
Defined.

End RedisConcrete.
