(* ===== verification/RedisExecutionStore.v ===== *)
(** * Execution records in Redis ([src/execution_store.rs], [RedisExecutionStore])

    One hash per execution, created and updated by scripts.  On databases whose record
    keys hold records, the store meets the contract of [ExecutionStore]. *)

From Stdlib Require Import Ascii.
From S2P Require Import Prelude RustStr Prog Protocol Concrete ExecutionStore Redis RedisFacts RedisConcrete.

(** ** Times *)

(** Milliseconds since the epoch; earlier times read as the epoch. *)
Definition unix_millis (time : Z) : Z :=
  let millis := ((if bool_decide (time < 0) then 0 else time) / 1000000)%Z in
  if bool_decide (millis ≤ u64_max)%Z then millis else u64_max.

Definition system_time (millis : Z) : Z := (millis * 1000000)%Z.

Section store.
Context `{P : Protocols} `{PF : Platform} {S : Type} `{R : !Redis S}.
Abbreviation node := (redis_node S).

Record RedisExecutionStore := mkRedisExecutionStore { xs_key_prefix : string }.

Definition redis_store_new (redis_url key_prefix : string) : result ExecutionStoreError RedisExecutionStore :=
  match redis_open redis_url with
  | Ok _ => Ok (mkRedisExecutionStore (trim_end_matches ":"%char key_prefix))
  | Err error => Err ("invalid Redis URL: " +:+ error)
  end.

Definition execution_key (x : RedisExecutionStore) (execution_id : string) : string :=
  xs_key_prefix x +:+ ":" +:+ execution_id.

Definition store_connection : prog node ExecutionStoreError unit :=
  rethrow (λ error, "cannot connect to Redis: " +:+ error) connect.

(** ** [create] *)

Definition create_script (key : string) (execution : ExecutionRecord) : script S Z :=
  found ← call (EXISTS key);
  if bool_decide (found = 1%Z) then mret 0%Z
  else
    _ ← call (HSET key
          [("execution_id", ex_execution_id execution); ("job_id", ex_job_id execution);
           ("assignment_id", ex_assignment_id execution); ("worker_id", ex_worker_id execution);
           ("state", show (execution_state_code (ex_state execution)));
           ("created_at_ms", show (unix_millis (ex_created_at execution)));
           ("updated_at_ms", show (unix_millis (ex_updated_at execution)))]);
    mret 1%Z.

Definition redis_create (x : RedisExecutionStore) (execution : ExecutionRecord)
    : prog node ExecutionStoreError unit :=
  _ ← store_connection;
  created ← rethrow (λ error, "cannot create execution: " +:+ error)
              (invoke (create_script (execution_key x (ex_execution_id execution)) execution));
  if bool_decide (created = 1%Z) then mret tt else Throw "execution already exists".

(** ** [get] *)

Definition record_fields : list string :=
  ["execution_id"; "job_id"; "assignment_id"; "worker_id"; "state"; "created_at_ms"; "updated_at_ms"].

(** The record in the values of its fields; no record when the first has none. *)
Definition record_from (values : list (option string)) : result ExecutionStoreError (option ExecutionRecord) :=
  let field (index : nat) : result ExecutionStoreError string :=
    ok_or (values !! index ≫= id) "execution record is missing a required field" in
  match head values ≫= id with
  | None => Ok None
  | Some _ =>
    state_text ← field 4;
    state_value ← ok_or (parse_i32 state_text) "invalid execution state in Redis";
    state ← ok_or (execution_state_of state_value) "unknown execution state in Redis";
    created_text ← field 5;
    created_at ← ok_or (parse_u64 created_text) "invalid execution created_at in Redis";
    updated_text ← field 6;
    updated_at ← ok_or (parse_u64 updated_text) "invalid execution updated_at in Redis";
    execution_id ← field 0;
    job_id ← field 1;
    assignment_id ← field 2;
    worker_id ← field 3;
    Ok (Some (mkExecutionRecord execution_id job_id assignment_id worker_id state
                (system_time created_at) (system_time updated_at)))
  end.

Definition redis_get_execution (x : RedisExecutionStore) (execution_id : string)
    : prog node ExecutionStoreError (option ExecutionRecord) :=
  _ ← store_connection;
  let unreadable := λ error, "cannot read execution: " +:+ error in
  values ← rethrow unreadable (query (HMGET (execution_key x execution_id) record_fields));
  lift_result (map_err unreadable (optional_strings_from values) ≫= record_from).

(** ** [update_state] *)

Definition update_script (key : string) (state : ExecutionState) (now : Z) : script S Z :=
  found ← call (EXISTS key);
  if bool_decide (found = 0%Z) then mret 0%Z
  else
    _ ← call (HSET key [("state", show (execution_state_code state)); ("updated_at_ms", show (unix_millis now))]);
    mret 1%Z.

Definition redis_update_state (x : RedisExecutionStore) (execution_id : string) (state : ExecutionState)
    : prog node ExecutionStoreError unit :=
  _ ← store_connection;
  now ← node_time;
  updated ← rethrow (λ error, "cannot update execution: " +:+ error)
              (invoke (update_script (execution_key x execution_id) state now));
  if bool_decide (updated = 1%Z) then mret tt else Throw "execution not found".

Definition redis_execution_store (x : RedisExecutionStore) : ExecutionStore node :=
  {| store_create := redis_create x;
     store_get := redis_get_execution x;
     store_update_state := redis_update_state x |}.

(** ** Records in the database *)

Definition hash_values (h : gmap string bytes) : list (option string) := (λ f, h !! f) <$> record_fields.

Definition record_of (v : redis_value) : option ExecutionRecord :=
  match v with
  | RHash h => match record_from (hash_values h) with Ok r => r | Err _ => None end
  | _ => None
  end.

Definition stored_records (x : RedisExecutionStore) (d : redis_db) : gmap string ExecutionRecord :=
  submap (xs_key_prefix x +:+ ":") record_of (db_values d).

(** Under the store's prefix there are records only, and they do not expire. *)
Definition records_only (x : RedisExecutionStore) (d : redis_db) : Prop :=
  ∀ id, db_deadlines d !! execution_key x id = None
    ∧ ∀ v, db_values d !! execution_key x id = Some v → ∃ r, record_of v = Some r.
End store.

(** ** The contract *)

Section contract.
Context `{P : Protocols} `{PO : !ProtocolsOk P} `{PF : Platform} {S : Type} `{R : !Redis S} `{RO : !RedisOk R}.
Implicit Types (x : RedisExecutionStore) (d : redis_db) (h : gmap string bytes).

Lemma unix_millis_bounds t : (0 ≤ unix_millis t ≤ u64_max)%Z.
Proof.
  unfold unix_millis. repeat case_bool_decide; split; try done; try lia; apply Z.div_pos; lia.
Qed.

(** The record as it can be read back: its times cut to the millisecond. *)
Definition truncated (r : ExecutionRecord) : ExecutionRecord :=
  mkExecutionRecord (ex_execution_id r) (ex_job_id r) (ex_assignment_id r) (ex_worker_id r) (ex_state r)
    (system_time (unix_millis (ex_created_at r))) (system_time (unix_millis (ex_updated_at r))).

Lemma state_text s : parse_i32 (show (execution_state_code s)) = Some (execution_state_code s).
Proof. apply parse_i32_show, execution_state_code_i32. Qed.

Lemma millis_text t : parse_u64 (show (unix_millis t)) = Some (unix_millis t).
Proof. apply parse_u64_show, unix_millis_bounds. Qed.

Lemma record_from_fields id job a w s c u :
  record_from [Some id; Some job; Some a; Some w; Some (show (execution_state_code s));
               Some (show (unix_millis c)); Some (show (unix_millis u))]
  = Ok (Some (mkExecutionRecord id job a w s (system_time (unix_millis c)) (system_time (unix_millis u)))).
Proof.
  unfold record_from. cbn. rewrite state_text. cbn. rewrite execution_state_of_code. cbn.
  rewrite !millis_text. done.
Qed.

Lemma record_from_Some v0 v1 v2 v3 v4 v5 v6 r :
  record_from [v0; v1; v2; v3; v4; v5; v6] = Ok (Some r) →
  v0 = Some (ex_execution_id r) ∧ v1 = Some (ex_job_id r) ∧ v2 = Some (ex_assignment_id r)
  ∧ v3 = Some (ex_worker_id r) ∧ ∃ c, v5 ≫= parse_u64 = Some c ∧ ex_created_at r = system_time c.
Proof.
  unfold record_from. cbn. intros H.
  destruct v0; [|done]. destruct v4 as [t4|]; cbn in H; [|done].
  destruct (parse_i32 t4) as [z|]; cbn in H; [|done]. destruct (execution_state_of z); cbn in H; [|done].
  destruct v5 as [t5|]; cbn in H; [|done]. destruct (parse_u64 t5) as [c|] eqn:Hc; cbn in H; [|done].
  destruct v6 as [t6|]; cbn in H; [|done]. destruct (parse_u64 t6); cbn in H; [|done].
  destruct v1; cbn in H; [|done]. destruct v2; cbn in H; [|done]. destruct v3; cbn in H; [|done].
  injection H as <-. cbn. eauto 10.
Qed.

(** A record is a hash with its identifiers in its fields. *)
Lemma record_of_fields v r :
  record_of v = Some r →
  ∃ h, v = RHash h ∧ h !! "execution_id" = Some (ex_execution_id r) ∧ h !! "job_id" = Some (ex_job_id r)
    ∧ h !! "assignment_id" = Some (ex_assignment_id r) ∧ h !! "worker_id" = Some (ex_worker_id r).
Proof.
  destruct v as [|h|]; [done| |done]. cbn [record_of]. intros H. exists h. split; [done|].
  destruct (record_from (hash_values h)) as [[r'|]|] eqn:Hr; simplify_eq.
  by apply record_from_Some in Hr as (? & ? & ? & ? & _).
Qed.

(** The record after the update script. *)
Lemma record_of_update h r st now :
  record_of (RHash h) = Some r →
  record_of (RHash (set_fields [("state", show (execution_state_code st)); ("updated_at_ms", show (unix_millis now))] h))
  = Some (with_state st (system_time (unix_millis now)) r).
Proof.
  unfold record_of, hash_values. cbn. intros H.
  destruct (record_from _) as [[r'|]|] eqn:Hr in H; simplify_eq.
  apply record_from_Some in Hr as (H0 & H1 & H2 & H3 & c & H5 & Hc).
  hash_lookups. rewrite H0, H1, H2, H3.
  apply bind_Some in H5 as (t & H5 & Ht). rewrite H5. unfold record_from. cbn.
  rewrite state_text. cbn. rewrite execution_state_of_code. cbn. rewrite Ht. cbn. rewrite millis_text. cbn.
  unfold with_state. by rewrite Hc.
Qed.

(** What the create script leaves in a fresh hash. *)
Definition record_hash (r : ExecutionRecord) : gmap string bytes :=
  set_fields
    [("execution_id", ex_execution_id r); ("job_id", ex_job_id r); ("assignment_id", ex_assignment_id r);
     ("worker_id", ex_worker_id r); ("state", show (execution_state_code (ex_state r)));
     ("created_at_ms", show (unix_millis (ex_created_at r))); ("updated_at_ms", show (unix_millis (ex_updated_at r)))] ∅.

Lemma record_hash_values r :
  hash_values (record_hash r) =
    [Some (ex_execution_id r); Some (ex_job_id r); Some (ex_assignment_id r); Some (ex_worker_id r);
     Some (show (execution_state_code (ex_state r)));
     Some (show (unix_millis (ex_created_at r))); Some (show (unix_millis (ex_updated_at r)))].
Proof.
  unfold hash_values, record_fields, record_hash. by hash_lookups.
Qed.

Lemma record_of_create r : record_of (RHash (record_hash r)) = Some (truncated r).
Proof. unfold record_of. by rewrite record_hash_values, record_from_fields. Qed.

(** *** Records and keys *)

Lemma lookup_records x d id : stored_records x d !! id = db_values d !! execution_key x id ≫= record_of.
Proof. unfold stored_records, execution_key. by rewrite lookup_submap, str_app_assoc. Qed.

Lemma execution_key_inj x id id' : execution_key x id = execution_key x id' → id = id'.
Proof.
  unfold execution_key. intros H. apply str_app_inv_len in H as [_ H]; [|done]. by injection H.
Qed.

Lemma lookup_records_None x d id :
  records_only x d → stored_records x d !! id = None ↔ db_values d !! execution_key x id = None.
Proof.
  intros Hx. rewrite lookup_records. destruct (db_values d !! execution_key x id) as [v|] eqn:Hv; [|done].
  destruct (Hx id) as [_ Hr]. destruct (Hr v Hv) as [r Hr']. simpl. by rewrite Hr'.
Qed.

Lemma records_in_time x d d' :
  records_only x d → elapsed d d' → records_only x d' ∧ stored_records x d' = stored_records x d.
Proof.
  intros Hx He. split.
  - intros id. destruct (Hx id) as [Hd Hv]. destruct (elapsed_lasting _ _ _ He Hd) as [-> ->]. done.
  - apply map_eq. intros id. rewrite !lookup_records. by destruct (elapsed_lasting _ _ _ He (proj1 (Hx id))) as [-> _].
Qed.

(** Writing a record under its key. *)
Lemma records_set x d id h r :
  records_only x d → record_of (RHash h) = Some r →
  records_only x (set_value (execution_key x id) (RHash h) d)
  ∧ stored_records x (set_value (execution_key x id) (RHash h) d) = <[id := r]> (stored_records x d).
Proof.
  intros Hx Hr. split.
  - intros id'. destruct (Hx id') as [Hd Hv]. split; [done|]. intros v. simpl.
    destruct (decide (id' = id)) as [->|Hne].
    + rewrite lookup_insert_eq. intros [= <-]. eauto.
    + rewrite lookup_insert_ne; [apply Hv|]. intros H. by apply execution_key_inj in H.
  - unfold stored_records, set_value, execution_key. simpl. rewrite <-str_app_assoc. by apply submap_insert.
Qed.

(** *** The scripts *)

Lemma create_script_effect x r s :
  records_only x (db s) →
  match create_script (execution_key x (ex_execution_id r)) r s with
  | (s', Ok z) =>
      z = 0%Z ∧ db s' = db s ∧ is_Some (stored_records x (db s) !! ex_execution_id r)
      ∨ z = 1%Z ∧ stored_records x (db s) !! ex_execution_id r = None
        ∧ db s' = set_value (execution_key x (ex_execution_id r)) (RHash (record_hash r)) (db s)
  | (s', Err _) => db s' = db s
  end.
Proof.
  intros Hx. unfold create_script, call, mbind, script_bind. exec_step s1 found H1; [|done].
  destruct H1 as [H1 ->]. pose proof (lookup_records_None x (db s) (ex_execution_id r) Hx) as Hnone.
  destruct (db_values (db s) !! execution_key x (ex_execution_id r)) as [v|] eqn:Hv.
  - decide_closed. left. split_and!; [done..|]. apply not_eq_None_Some. naive_solver.
  - decide_closed. exec_step s2 n H2; [|congruence]. right. rewrite H1 in H2. destruct H2 as (h & Hh & ->).
    unfold hash_at in Hh. rewrite Hv in Hh. injection Hh as <-.
    split_and!; [done|naive_solver|done].
Qed.

Lemma update_script_effect x id st now s :
  records_only x (db s) →
  match update_script (execution_key x id) st now s with
  | (s', Ok z) =>
      z = 0%Z ∧ db s' = db s ∧ stored_records x (db s) !! id = None
      ∨ z = 1%Z ∧ ∃ r h, stored_records x (db s) !! id = Some r
          ∧ record_of (RHash h) = Some (with_state st (system_time (unix_millis now)) r)
          ∧ db s' = set_value (execution_key x id) (RHash h) (db s)
  | (s', Err _) => db s' = db s
  end.
Proof.
  intros Hx. unfold update_script, call, mbind, script_bind. exec_step s1 found H1; [|done].
  destruct H1 as [H1 ->]. destruct (db_values (db s) !! execution_key x id) as [v|] eqn:Hv.
  - decide_closed. exec_step s2 n H2; [|congruence]. right. rewrite H1 in H2. destruct H2 as (h & Hh & ->).
    unfold hash_at in Hh. rewrite Hv in Hh. destruct v as [|h'|]; simplify_eq.
    destruct (proj2 (Hx id) _ Hv) as [r Hr]. split; [done|]. exists r. eexists.
    split_and!; [by rewrite lookup_records, Hv|by apply record_of_update|done].
  - decide_closed. left. split_and!; [done..|]. by rewrite lookup_records, Hv.
Qed.

(** *** The operations *)

Abbreviation store_lin x spec := (lin_on (λ n : redis_node S, records_only x (node_db n)) (λ n, stored_records x (node_db n)) spec).

Lemma redis_create_lin x r : store_lin x (create_spec r) (redis_create x r).
Proof.
  apply (lin_on_connect _ _ _ (records_in_time x)); [by left|].
  apply (lin_on_request _ _ _ (records_in_time x)); [by left|]. intros s Hx.
  pose proof (create_script_effect x r s Hx) as Hs. destruct (create_script _ r s) as [s' [z|e]]; simpl in *.
  - destruct Hs as [(-> & -> & _)|(-> & Hn & ->)]; simpl.
    + split_and!; [done|by left|by left].
    + destruct (records_set x (db s) (ex_execution_id r) _ _ Hx (record_of_create r)) as [? ->].
      assert (created r (stored_records x (db s)) (<[ex_execution_id r := truncated r]> (stored_records x (db s)))) as ?.
      { split; [done|]. exists (truncated r). by split. }
      split_and!; [done|by right|done].
  - rewrite Hs. split_and!; [done|by left|by left].
Qed.

Lemma redis_update_lin x id st : store_lin x (update_spec id st) (redis_update_state x id st).
Proof.
  apply (lin_on_connect _ _ _ (records_in_time x)); [by left|]. apply lin_on_time. intros now.
  apply (lin_on_request _ _ _ (records_in_time x)); [by left|]. intros s Hx.
  pose proof (update_script_effect x id st now s Hx) as Hs. destruct (update_script _ st now s) as [s' [z|e]]; simpl in *.
  - destruct Hs as [(-> & -> & _)|(-> & r & h & Hr & Hh & ->)]; simpl.
    + split_and!; [done|by left|by left].
    + destruct (records_set x (db s) id h _ Hx Hh) as [? ->].
      assert (updated id st (stored_records x (db s))
                (<[id := with_state st (system_time (unix_millis now)) r]> (stored_records x (db s)))) as ?.
      { exists r. by eexists. }
      split_and!; [done|by right|done].
  - rewrite Hs. split_and!; [done|by left|by left].
Qed.

(** A conversion to strings that succeeds changes nothing. *)
Lemma optional_strings_Ok l l' : optional_strings_from l = Ok l' → l' = l.
Proof.
  revert l'. induction l as [|[b|] l IH]; intros l'; cbn; [by intros [= <-]|unfold string_from; destruct (utf8 b); [|done]|];
    destruct (optional_strings_from l) as [rest|]; cbn; try done; intros [= <-]; by rewrite (IH rest).
Qed.

Lemma record_of_values x d id h r :
  hash_at d (execution_key x id) = Some h → record_from (hash_values h) = Ok r → r = stored_records x d !! id.
Proof.
  intros Hh Hr. rewrite lookup_records. unfold hash_at in Hh.
  destruct (db_values d !! execution_key x id) as [[| |]|]; simplify_eq/=; [by rewrite Hr|].
  by injection Hr.
Qed.

Lemma redis_get_lin x id : store_lin x (get_spec id) (redis_get_execution x id).
Proof.
  apply (lin_on_connect _ _ _ (records_in_time x)); [done|].
  apply (lin_on_request _ _ _ (records_in_time x)); [done|]. intros s Hx. unfold call.
  pose proof (exec_db (HMGET (execution_key x id) record_fields) s) as Hs.
  destruct (redis_exec _ s) as [s' [l|e]]; simpl in Hs; cbn [map_err lift_result mbind prog_bind prog_bind_def].
  - destruct Hs as (-> & h & Hh & ->). split_and!; [done..|]. apply settled_lift. split; [done|].
    intros r Hr. apply result_bind_Ok in Hr as (values & Hv & Hr). apply map_err_Ok, optional_strings_Ok in Hv as ->.
    by eapply record_of_values.
  - rewrite Hs. split_and!; done.
Qed.

(** The store over the databases that hold its records meets the contract. *)
Definition confined_store x : ExecutionStore {n : redis_node S | records_only x (node_db n)} :=
  {| store_create r := confine _ _ (lin_on_preserves _ _ _ _ (redis_create_lin x r));
     store_get id := confine _ _ (lin_on_preserves _ _ _ _ (redis_get_lin x id));
     store_update_state id st := confine _ _ (lin_on_preserves _ _ _ _ (redis_update_lin x id st)) |}.

#[export] Instance confined_store_ok x : ExecutionStoreOk (confined_store x).
Proof.
  refine {| records := λ n, stored_records x (node_db (`n)) |}; intros;
    apply (lin_confine _ (λ n : redis_node S, stored_records x (node_db n)));
    [apply redis_create_lin|apply redis_get_lin|apply redis_update_lin].
Defined.

(** ** The theorems *)

(** C32: on a database that keeps execution records only under the store's prefix, the
    Redis store is a store: each of its calls, with its connection, clock reading and
    script, appears to happen at one instant whatever other clients do in between;
    [create] adds a record under a new identifier and never overwrites one, [update_state]
    changes exactly the state and the time of an existing record, [get] reads; a failed
    call took effect entirely or not at all, and the records stay well-formed. *)
Theorem redis_store_refines_map x r id st :
  lin_on (λ n : redis_node S, records_only x (node_db n)) (λ n, stored_records x (node_db n))
    (create_spec r) (redis_create x r)
  ∧ lin_on (λ n : redis_node S, records_only x (node_db n)) (λ n, stored_records x (node_db n))
    (get_spec id) (redis_get_execution x id)
  ∧ lin_on (λ n : redis_node S, records_only x (node_db n)) (λ n, stored_records x (node_db n))
    (update_spec id st) (redis_update_state x id st).
Proof. split_and!; [apply redis_create_lin|apply redis_get_lin|apply redis_update_lin]. Qed.

Lemma optional_strings_utf8 l : Forall (λ o, from_option utf8 true o = true) l → optional_strings_from l = Ok l.
Proof.
  induction 1 as [|[b|] l Hb _ IH]; cbn; [done| |by rewrite IH].
  unfold string_from. simpl in Hb. rewrite Hb. cbn. by rewrite IH.
Qed.

Definition utf8_record (r : ExecutionRecord) : bool :=
  utf8 (ex_execution_id r) && utf8 (ex_job_id r) && utf8 (ex_assignment_id r) && utf8 (ex_worker_id r).

(** A creation that succeeded left its hash in the database. *)
Lemma created_hash x r n n1 :
  records_only x (node_db n) → run (redis_create x r) n = (n1, Done tt) →
  records_only x (node_db n1)
  ∧ db_values (node_db n1) !! execution_key x (ex_execution_id r) = Some (RHash (record_hash r)).
Proof.
  intros Hx Hrun. apply run_request_Done in Hrun as (s & s' & b & He & Hs & Hrun).
  apply (records_in_time x) in He as [Hx' _]; [|done].
  pose proof (create_script_effect x r s Hx') as Heff. rewrite Hs in Heff.
  destruct Heff as [(-> & _)|(-> & _ & Hdb)]; [done|]. injection Hrun as <-. cbn [node_server].
  rewrite Hdb. split; [by eapply records_set, record_of_create|]. simpl. by rewrite lookup_insert_eq.
Qed.

(** C33: a record that was created is read back, later and over a working connection, as
    it was, but for its times, which are cut to the millisecond: they lose less than one. *)
Theorem redis_record_roundtrip x r n n1 n2 :
  records_only x (node_db n) → utf8_record r →
  run (redis_create x r) n = (n1, Done tt) →
  elapsed (node_db n1) (node_db n2) → link_up (node_server n2) →
  (∃ n3, run (redis_get_execution x (ex_execution_id r)) n2 = (n3, Done (Some (truncated r))))
  ∧ ∀ t, (0 ≤ t < 1000000 * 2 ^ 64)%Z → (0 ≤ t - system_time (unix_millis t) < 1000000)%Z.
Proof.
  intros Hx Hutf Hrun He (Hc & Hd & Hs). split.
  - destruct (created_hash x r n n1 Hx Hrun) as [Hx1 Hh].
    assert (elapsed (node_db n1) (db (served (node_server n2)))) as Ht by (eapply elapsed_trans; [done|apply served_elapsed]).
    assert (hash_at (db (served (node_server n2))) (execution_key x (ex_execution_id r)) = Some (record_hash r)) as Hat.
    { unfold hash_at. destruct (elapsed_lasting _ _ _ Ht (proj1 (Hx1 (ex_execution_id r)))) as [-> _]. by rewrite Hh. }
    unfold redis_get_execution, store_connection. rewrite run_connect_up by done.
    cbv zeta. unfold query. rewrite run_invoke_up by done. cbn [node_server node_ticks]. fold (served (node_server n2)).
    destruct (exec_done (HMGET (execution_key x (ex_execution_id r)) record_fields) _ Hs) as (s' & a & Hex & _ & _ & h & Hh' & ->);
      [by eexists|]. rewrite Hat in Hh'. injection Hh' as <-. unfold call. rewrite Hex. cbn [fst snd map_err].
    fold (hash_values (record_hash r)). eexists. cbn [lift_result mbind prog_bind prog_bind_def].
    rewrite run_lift_result, record_hash_values, optional_strings_utf8.
    + cbn [map_err mbind result_bind]. by rewrite record_from_fields.
    + unfold utf8_record in Hutf. rewrite !andb_True in Hutf. destruct Hutf as [[[??]?]?].
      repeat constructor; simpl; first [by apply Is_true_true|apply show_utf8].
  - intros t Ht. unfold unix_millis, system_time. rewrite (bool_decide_false (t < 0)%Z) by lia.
    pose proof (Z.div_mod t 1000000). pose proof (Z.mod_pos_bound t 1000000).
    rewrite bool_decide_true; [lia|]. unfold u64_max. assert (t / 1000000 < 2 ^ 64)%Z; [|lia].
    apply Z.div_lt_upper_bound; lia.
Qed.
End contract.

(** ** Examples *)

Module RedisStoreExamples.
Import Concrete RedisConcrete.

Definition demo_store : RedisExecutionStore := mkRedisExecutionStore "threadweave:executions".
Definition demo_node : redis_node server := mkNode (mkServer (mkDb 0 ∅ ∅) []) 0.
Definition demo_record : ExecutionRecord :=
  mkExecutionRecord "execution-1" "job-1" "assignment-1" "worker-1" ES_Assigned 1234567 89.
Definition demo_created : redis_node server := (run (redis_create demo_store demo_record) demo_node).1.

Lemma demo_records_only : records_only demo_store (node_db demo_node).
Proof. intros id. split; [done|]. intros v. cbn. by rewrite lookup_empty. Qed.

Lemma demo_creates : run (redis_create demo_store demo_record) demo_node = (demo_created, Done tt).
Proof. apply run_eta. vm_refl. Qed.

Lemma redis_store_refines_map_witness :
  ∃ r', same_execution demo_record r' ∧ stored_records demo_store (node_db demo_created) = {["execution-1" := r']}.
Proof.
  destruct (redis_store_refines_map (S:=server) demo_store demo_record "execution-1" ES_Running) as [Hcreate _].
  destruct (lin_on_Done _ _ _ _ _ _ _ Hcreate demo_records_only demo_creates) as [_ [_ (r' & Hr & Hm)]].
  exists r'. split; [exact Hr|]. cbn beta in Hm. rewrite Hm. reflexivity.
Defined.

Lemma redis_record_roundtrip_witness :
  ∃ n3, run (redis_get_execution demo_store "execution-1") (mkNode (tick (node_server demo_created)) 0)
        = (n3, Done (Some (truncated demo_record)))
    ∧ ex_created_at (truncated demo_record) = 1000000%Z.
Proof.
  destruct (redis_record_roundtrip demo_store demo_record demo_node demo_created
              (mkNode (tick (node_server demo_created)) 0) demo_records_only I demo_creates) as [[n3 H] _].
  - apply tick_elapsed.
  - split; [reflexivity|]. split; [reflexivity|exact I].
  - exists n3. split; [exact H|reflexivity].
Defined.
End RedisStoreExamples.
