(* ===== verification/RedisBroker.v ===== *)
(** * The broker on Redis ([src/broker/redis.rs])

    One list per destination: [publish] pushes at its end, [consume] takes from its
    front and waits while it is empty.  Where the lists do not expire, this is a
    [Broker]. *)

From S2P Require Import Prelude RustStr Prog Protocol Concrete Broker Redis RedisFacts RedisConcrete.

Section broker.
Context `{P : Protocols} `{PF : Platform} {S : Type} `{R : !Redis S}.
Abbreviation node := (redis_node S).

Record RedisBroker := mkRedisBroker { rb_key_prefix : string }.

Definition redis_broker_new (redis_url key_prefix : string) : result BrokerError RedisBroker :=
  match redis_open redis_url with
  | Ok _ => Ok (mkRedisBroker key_prefix)
  | Err error => Err ("invalid Redis URL: " +:+ error)
  end.

Definition broker_key (b : RedisBroker) (destination : string) : string :=
  rb_key_prefix b +:+ ":" +:+ destination.

Definition redis_publish (b : RedisBroker) (envelope : BrokerEnvelope) : prog node BrokerError unit :=
  let key := broker_key b (be_destination envelope) in
  let payload := encode_envelope envelope in
  _ ← rethrow (λ error, "cannot connect to Redis: " +:+ error) connect;
  _ ← rethrow (λ error, "cannot publish to Redis: " +:+ error) (query (RPUSH key payload));
  mret tt.

Definition redis_consume (b : RedisBroker) (destination : string) : prog node BrokerError BrokerEnvelope :=
  let unreadable := λ error, "cannot consume from Redis: " +:+ error in
  _ ← rethrow (λ error, "cannot connect to Redis: " +:+ error) connect;
  reply ← rethrow unreadable (query_waiting (BLPOP (broker_key b destination)));
  lift_result (_ ← map_err unreadable (string_from reply.1);
               map_err (λ error, "invalid broker envelope: " +:+ error) (decode_envelope reply.2)).

Definition redis_broker (b : RedisBroker) : Broker node :=
  {| publish := redis_publish b; consume := redis_consume b |}.

(** ** Queues in the database *)

Definition envelope_of (payload : bytes) : option BrokerEnvelope :=
  match decode_envelope payload with Ok e => Some e | Err _ => None end.

Definition queue_of (v : redis_value) : option (list BrokerEnvelope) :=
  match v with RList l => Some (omap envelope_of l) | _ => None end.

(** The queues of the destinations among [D], the ones the broker is used for: other
    components keep other keys under longer prefixes. *)
Definition stored_queues (b : RedisBroker) (D : string → bool) (d : redis_db) : string → list BrokerEnvelope :=
  let queues := filter (λ kv, D kv.1 = true) (submap (rb_key_prefix b +:+ ":") queue_of (db_values d)) in
  λ dest, default [] (queues !! dest).

(** Their lists do not expire. *)
Definition queues_last (b : RedisBroker) (D : string → bool) (d : redis_db) : Prop :=
  ∀ dest, D dest = true → db_deadlines d !! broker_key b dest = None.
End broker.

Section contract.
Context `{P : Protocols} `{PO : !ProtocolsOk P} `{PF : Platform} {S : Type} `{R : !Redis S} `{RO : !RedisOk R}.
Implicit Types (b : RedisBroker) (d : redis_db) (D : string → bool).

Lemma lookup_queues b D d dest :
  stored_queues b D d dest = if D dest then default [] (db_values d !! broker_key b dest ≫= queue_of) else [].
Proof.
  unfold stored_queues, broker_key. cbv zeta. rewrite map_lookup_filter, lookup_submap, str_app_assoc.
  destruct (_ ≫= queue_of) as [q|]; simpl; [|by destruct (D dest)].
  destruct (D dest) eqn:HD; [by rewrite option_guard_True|by rewrite option_guard_False by congruence].
Qed.

Lemma broker_key_inj b dest dest' : broker_key b dest = broker_key b dest' → dest = dest'.
Proof. unfold broker_key. intros H. apply str_app_inv_len in H as [_ H]; [|done]. by injection H. Qed.

(** The queues depend on the keys of the broker's destinations only. *)
Lemma queues_same b D d d' :
  (∀ dest, D dest = true → db_values d' !! broker_key b dest = db_values d !! broker_key b dest) →
  stored_queues b D d' = stored_queues b D d.
Proof.
  intros Hd. unfold stored_queues. assert (filter (λ kv, D kv.1 = true) (submap (rb_key_prefix b +:+ ":") queue_of (db_values d'))
    = filter (λ kv, D kv.1 = true) (submap (rb_key_prefix b +:+ ":") queue_of (db_values d))) as ->; [|done].
  apply map_filter_strong_ext. intros dest q. split; intros [HD Hq]; (split; [done|]); rewrite lookup_submap in *;
    specialize (Hd dest HD); unfold broker_key in Hd; rewrite str_app_assoc in *; congruence.
Qed.

Lemma queues_in_time b D d d' :
  queues_last b D d → elapsed d d' → queues_last b D d' ∧ stored_queues b D d' = stored_queues b D d.
Proof.
  intros Hb He. split.
  - intros dest HD. by apply (elapsed_lasting d d'); [|apply Hb].
  - apply queues_same. intros dest HD. by apply (elapsed_lasting d d'); [|apply Hb].
Qed.

(** One list changes, the others stay. *)
Lemma queues_set b D d dest l :
  D dest = true → queues_last b D d →
  queues_last b D (set_value (broker_key b dest) (RList l) d)
  ∧ ∀ dest', stored_queues b D (set_value (broker_key b dest) (RList l) d) dest'
      = if decide (dest' = dest) then omap envelope_of l else stored_queues b D d dest'.
Proof.
  intros HD Hb. split; [done|]. intros dest'. rewrite !lookup_queues. simpl. case_decide as Hd.
  - subst. by rewrite HD, lookup_insert_eq.
  - rewrite lookup_insert_ne; [done|]. intros H. by apply broker_key_inj in H.
Qed.

Lemma queues_remove b D d dest :
  D dest = true → queues_last b D d →
  queues_last b D (remove_key (broker_key b dest) d)
  ∧ ∀ dest', stored_queues b D (remove_key (broker_key b dest) d) dest'
      = if decide (dest' = dest) then [] else stored_queues b D d dest'.
Proof.
  intros HD Hb. split.
  - intros dest' HD'. simpl. apply lookup_delete_None. right. by apply Hb.
  - intros dest'. rewrite !lookup_queues. simpl. case_decide as Hd.
    + subst. by rewrite HD, lookup_delete_eq.
    + rewrite lookup_delete_ne; [done|]. intros H. by apply broker_key_inj in H.
Qed.

Lemma queue_at b D d dest l :
  D dest = true → list_at d (broker_key b dest) = Some l → stored_queues b D d dest = omap envelope_of l.
Proof.
  intros HD. rewrite lookup_queues, HD. unfold list_at. destruct (db_values d !! _) as [[| |]|]; intros; by simplify_eq/=.
Qed.

Abbreviation broker_lin b D spec :=
  (lin_on (λ n : redis_node S, queues_last b D (node_db n)) (λ n, stored_queues b D (node_db n)) spec).

Lemma redis_publish_lin b D e : D (be_destination e) = true → broker_lin b D (publish_spec e) (redis_publish b e).
Proof.
  intros HD. apply (lin_on_connect _ _ _ (queues_in_time b D)); [by left|].
  apply (lin_on_request _ _ _ (queues_in_time b D)); [by left|]. intros s Hb. unfold call. exec_step s' a Hs.
  - destruct Hs as (l & Hl & ->). destruct (queues_set b D (db s) (be_destination e) (l ++ [encode_envelope e]) HD Hb) as [? Hq].
    assert (appended e (stored_queues b D (db s)) (stored_queues b D
        (set_value (broker_key b (be_destination e)) (RList (l ++ [encode_envelope e])) (db s)))) as Happ.
    { intros dest. rewrite Hq. case_decide; [subst|by rewrite app_nil_r]. rewrite (queue_at _ _ _ _ _ HD Hl), omap_app.
      cbn. unfold envelope_of at 2. by rewrite decode_encode_envelope. }
    split_and!; [done|by right|done].
  - rewrite Hs. split_and!; [done|by left|by left].
Qed.

Lemma redis_consume_lin b D dest : D dest = true → broker_lin b D (consume_spec dest) (redis_consume b dest).
Proof.
  intros HD. assert (∀ q e, consume_spec dest q (Err e) q) as Hnone by (split; [done|by left]).
  apply (lin_on_connect _ _ _ (queues_in_time b D)); [done|].
  apply (lin_on_waiting _ _ _ (queues_in_time b D)); [done|]. intros s Hb.
  pose proof (exec_db (BLPOP (broker_key b dest)) s) as Hs.
  destruct (redis_exec _ s) as [s' [r|e]]; cbn [effect] in Hs; [|rewrite Hs; by split_and!].
  destruct Hs as ([|v l] & Hl & Hs).
  { destruct Hs as [-> ->]. by split_and!. }
  destruct Hs as [-> Hs]. pose proof (queue_at _ _ _ _ _ HD Hl) as Hq.
  assert (queues_last b D (db s') ∧ ∀ dest', stored_queues b D (db s') dest'
      = if decide (dest' = dest) then omap envelope_of l else stored_queues b D (db s) dest') as [Hb' Hq'].
  { rewrite Hs. destruct l; [by apply queues_remove|by apply queues_set]. }
  assert (∀ e, consume_spec dest (stored_queues b D (db s)) (Err e) (stored_queues b D (db s'))) as Herr.
  { intros e. split; [intros dest' Hd; by rewrite Hq', decide_False|]. rewrite Hq, Hq', decide_True by done.
    cbn. destruct (envelope_of v); eauto. }
  split_and!; [done|auto|]. apply settled_lift. cbn [fst snd].
  destruct (map_err _ (string_from _)) as [k|e] eqn:Hk; [|apply Herr]. cbn [mbind result_bind].
  destruct (decode_envelope v) as [env|e] eqn:Hv; [|apply Herr]. cbn [map_err].
  split; [intros dest' Hd; by rewrite Hq', decide_False|]. rewrite Hq, Hq', decide_True by done.
  cbn. unfold envelope_of at 1. by rewrite Hv.
Qed.

Lemma redis_consume_waits b D dest n n' :
  D dest = true → queues_last b D (node_db n) → run (redis_consume b dest) n = (n', Blocked) →
  stored_queues b D (node_db n) dest = [].
Proof.
  intros HD Hb. unfold redis_consume. rewrite run_bind, run_rethrow. unfold connect. rewrite run_critical.
  pose proof (connect_db (node_server n)) as H1. destruct (redis_connect (node_server n)) as [s1 [[]|e]]; simpl in H1; cbn [fst snd]; [|done].
  destruct (queues_in_time b D _ _ Hb H1) as [Hb1 <-].
  rewrite run_bind, run_rethrow. unfold query_waiting. rewrite run_section. unfold request, call. cbn [node_server node_ticks].
  pose proof (deliver_db s1) as H2. destruct (redis_deliver s1) as [s2 dl]. simpl in H2.
  destruct (queues_in_time b D _ _ Hb1 H2) as [_ <-].
  pose proof (exec_db (BLPOP (broker_key b dest)) s2) as Hs.
  destruct dl as [|e|e], (redis_exec _ s2) as [s3 [[r|]|e']]; cbn [effect fst snd] in *; try done.
  - rewrite run_lift_result. by destruct (_ ≫= _).
  - destruct Hs as ([|v l] & Hl & Hs); [|naive_solver]. intros _. by rewrite (queue_at _ _ _ _ _ HD Hl).
Qed.

(** Where no list under the prefix expires, the broker meets the contract for every
    destination. *)
Definition all_destinations (dest : string) : bool := true.

Definition confined_broker b : Broker {n : redis_node S | queues_last b all_destinations (node_db n)} :=
  {| publish e := confine _ _ (lin_on_preserves _ _ _ _ (redis_publish_lin b all_destinations e eq_refl));
     consume dest := confine _ _ (lin_on_preserves _ _ _ _ (redis_consume_lin b all_destinations dest eq_refl)) |}.

#[export] Instance confined_broker_ok b : BrokerOk (confined_broker b).
Proof.
  refine {| queued := λ n, stored_queues b all_destinations (node_db (`n)) |}.
  - intros e. apply (lin_confine _ (λ n : redis_node S, stored_queues b all_destinations (node_db n))).
    by apply redis_publish_lin.
  - intros dest. apply (lin_confine _ (λ n : redis_node S, stored_queues b all_destinations (node_db n))).
    by apply redis_consume_lin.
  - intros dest s s' Hrun. eapply (redis_consume_waits b all_destinations dest (`s) (`s')); [done|apply (proj2_sig s)|].
    rewrite (run_confine _ _ (lin_on_preserves _ _ _ _ (redis_consume_lin b all_destinations dest eq_refl)) s).
    cbn [consume confined_broker] in Hrun. by rewrite Hrun.
Defined.

(** ** The theorem *)

(** C34: for any set of destinations whose lists do not expire, whatever else the database
    holds, [publish] adds its envelope at the end of its destination and [consume] takes
    the one at the front, each at one instant whatever other clients do in between; an
    envelope is read back as it was published.  A failed call took effect or not, entries
    that are no envelopes are dropped with an error, no other destination changes, and
    [consume] waits only for an empty queue. *)
Theorem redis_broker_refines_queues b D e dest n n' :
  D (be_destination e) = true → D dest = true →
  lin_on (λ n : redis_node S, queues_last b D (node_db n)) (λ n, stored_queues b D (node_db n))
    (publish_spec e) (redis_publish b e)
  ∧ lin_on (λ n : redis_node S, queues_last b D (node_db n)) (λ n, stored_queues b D (node_db n))
    (consume_spec dest) (redis_consume b dest)
  ∧ (queues_last b D (node_db n) → run (redis_consume b dest) n = (n', Blocked) → stored_queues b D (node_db n) dest = []).
Proof.
  intros He Hd. split_and!; [by apply redis_publish_lin|by apply redis_consume_lin|by apply redis_consume_waits].
Qed.
End contract.

(** ** Examples *)

Module RedisBrokerExamples.
Import Concrete RedisConcrete.

Definition demo_broker : RedisBroker := mkRedisBroker "threadweave".
Definition empty_node : redis_node server := mkNode (mkServer (mkDb 0 ∅ ∅) []) 0.
Definition demo_message : BrokerEnvelope :=
  {| be_message_id := "m-1"; be_message_kind := "command"; be_schema_version := "1"; be_source := "core";
     be_destination := "tasks"; be_created_at := None; be_expires_at := None; be_payload := "payload";
     be_content_type := None; be_correlation_id := None; be_causation_id := None;
     be_trace_context := None; be_routing_headers := None |}.
Definition published : redis_node server := (run (redis_publish demo_broker demo_message) empty_node).1.

Definition task_queue_only (dest : string) : bool := bool_decide (dest = "tasks").

Lemma empty_lasts : queues_last demo_broker task_queue_only (node_db empty_node).
Proof. done. Qed.

Lemma demo_published : run (redis_publish demo_broker demo_message) empty_node = (published, Done tt).
Proof. apply run_eta. vm_refl. Qed.

Lemma redis_broker_refines_queues_witness :
  stored_queues demo_broker task_queue_only (node_db published) "tasks" = [demo_message]
  ∧ stored_queues demo_broker task_queue_only (node_db empty_node) "tasks" = [].
Proof.
  destruct (redis_broker_refines_queues demo_broker task_queue_only demo_message "tasks" empty_node
              (run (redis_consume demo_broker "tasks") empty_node).1 eq_refl eq_refl) as (Hp & _ & Hw).
  split; [|apply Hw; [done|apply run_eta; vm_refl]].
  destruct (lin_on_Done _ _ _ _ _ _ _ Hp empty_lasts demo_published) as [_ Happ].
  specialize (Happ "tasks"). cbn beta in Happ. rewrite Happ. reflexivity.
Defined.
End RedisBrokerExamples.
