(* ===== verification/RedisResultBackend.v ===== *)
(** * Results in Redis ([src/result_backend/redis.rs])

    One string per job, its encoded result. *)

From S2P Require Import Prelude RustStr Prog Protocol ResultBackend Redis RedisFacts.

Section backend.
Context `{P : Protocols} `{PF : Platform} {S : Type} `{R : !Redis S}.
Abbreviation node := (redis_node S).

Record RedisResultBackend := mkRedisResultBackend { rr_key_prefix : string }.

Definition redis_backend_new (redis_url key_prefix : string) : result ResultBackendError RedisResultBackend :=
  match redis_open redis_url with
  | Ok _ => Ok (mkRedisResultBackend key_prefix)
  | Err error => Err ("invalid Redis URL: " +:+ error)
  end.

Definition result_key (x : RedisResultBackend) (job_id : string) : string :=
  rr_key_prefix x +:+ ":" +:+ job_id.

Definition redis_store_result (x : RedisResultBackend) (job_id : string) (r : JobResult)
    : prog node ResultBackendError unit :=
  _ ← rethrow (λ error, "cannot connect to Redis: " +:+ error) connect;
  _ ← rethrow (λ error, "cannot store result in Redis: " +:+ error)
        (query (SET (result_key x job_id) (encode_job_result r)));
  mret tt.

Definition redis_result_backend (x : RedisResultBackend) : BackendResult node :=
  {| store_result := redis_store_result x |}.

(** ** Results in the database *)

Definition stored_results (x : RedisResultBackend) (d : redis_db) : gmap string bytes :=
  submap (rr_key_prefix x +:+ ":") (λ v, match v with RString b => Some b | _ => None end) (db_values d).

(** The results do not expire. *)
Definition results_last (x : RedisResultBackend) (d : redis_db) : Prop :=
  ∀ job, db_deadlines d !! result_key x job = None.

Context `{RO : !RedisOk R}.

Lemma results_in_time x d d' : results_last x d → elapsed d d' → results_last x d' ∧ stored_results x d' = stored_results x d.
Proof.
  intros Hx He. split.
  - intros job. by apply (elapsed_lasting d d').
  - apply map_eq. intros job. unfold stored_results. rewrite !lookup_submap.
    destruct (elapsed_lasting _ _ _ He (Hx job)) as [Hd _]. unfold result_key in Hd. by rewrite str_app_assoc, Hd.
Qed.

Lemma redis_store_result_lin x job r :
  lin_on (λ n : node, results_last x (node_db n)) (λ n, stored_results x (node_db n))
    (store_result_spec job r) (redis_store_result x job r).
Proof.
  assert (∀ m (e : string), store_result_spec job r m (Err e) m) as Hnone by (right; eauto).
  apply (lin_on_connect _ _ _ (results_in_time x)); [auto|].
  apply (lin_on_request _ _ _ (results_in_time x)); [auto|]. intros s Hx. unfold call. exec_step s' a Hs.
  - rewrite Hs. assert (∀ o, store_result_spec job r (stored_results x (db s)) o (stored_results x
        (mkDb (db_time (db s)) (<[result_key x job := RString (encode_job_result r)]> (db_values (db s)))
           (delete (result_key x job) (db_deadlines (db s)))))) as Hset.
    { left. unfold stored_results, result_key. cbn [db_values]. rewrite <-str_app_assoc. by apply submap_insert. }
    split_and!; [|auto|apply Hset]. intros job'. cbn [db_deadlines]. apply lookup_delete_None. right. apply Hx.
  - rewrite Hs. split_and!; [done|auto|apply Hnone].
Qed.

Definition confined_backend x : BackendResult {n : node | results_last x (node_db n)} :=
  {| store_result job r := confine _ _ (lin_on_preserves _ _ _ _ (redis_store_result_lin x job r)) |}.

#[export] Instance confined_backend_ok x : BackendResultOk (confined_backend x).
Proof.
  refine {| results := λ n, stored_results x (node_db (`n)) |}. intros job r.
  apply (lin_confine _ (λ n : node, stored_results x (node_db n))), redis_store_result_lin.
Defined.
End backend.
