(* ===== verification/RedisWorkerRegistry.v ===== *)
(** * Worker membership in Redis ([src/worker_registry.rs], [RedisWorkerRegistry])

    One hash per worker, whose expiry is the lease.  Registrations and heartbeats are
    scripts; the directory iterates over the keys with [SCAN]. *)

From Stdlib Require Import Ascii.
From S2P Require Import Prelude RustStr Prog Protocol WorkerRegistry Redis RedisFacts.

(** ** Patterns *)

Definition escape_redis_pattern (value : string) : string :=
  replace_char "["%char "\[" (replace_char "?"%char "\?" (replace_char "*"%char "\*" (replace_char "\"%char "\\" value))).

(** Milliseconds since the epoch; earlier times read as the epoch. *)
Definition registry_unix_millis (now : Z) : Z :=
  let millis := ((if bool_decide (now < 0) then 0 else now) / 1000000)%Z in
  if bool_decide (millis ≤ u64_max)%Z then millis else u64_max.

Section registry.
Context `{P : Protocols} `{PF : Platform} {S : Type} `{R : !Redis S}.
Abbreviation node := (redis_node S).

(** [rw_membership_ttl] in nanoseconds. *)
Record RedisWorkerRegistry := mkRedisWorkerRegistry { rw_key_prefix : string; rw_membership_ttl : Z }.

Definition redis_registry_new (redis_url key_prefix : string) (membership_ttl : Z)
    : result WorkerRegistryError RedisWorkerRegistry :=
  if bool_decide (membership_ttl = 0)%Z then Err "worker membership TTL must be positive"
  else match redis_open redis_url with
  | Ok _ => Ok (mkRedisWorkerRegistry (trim_end_matches ":"%char key_prefix) membership_ttl)
  | Err error => Err ("invalid Redis URL: " +:+ error)
  end.

Definition worker_key (x : RedisWorkerRegistry) (worker_id : string) : string :=
  rw_key_prefix x +:+ ":worker:" +:+ worker_id.

Definition ttl_millis (x : RedisWorkerRegistry) : Z :=
  let millis := (rw_membership_ttl x / 1000000)%Z in
  if bool_decide (millis ≤ u64_max)%Z then millis else u64_max.

(** ** [register] *)

Definition register_script (key generation : string) (payload : bytes) (now ttl : Z) : script S Z :=
  old_generation ← call (HGET key "generation");
  if bool_decide (old_generation = Some generation) then
    _ ← call (PEXPIRE key ttl);
    mret 1%Z
  else
    _ ← call (HSET key [("generation", generation); ("registration", payload);
                        ("registered_at_ms", show now); ("last_heartbeat_at_ms", "")]);
    _ ← call (PEXPIRE key ttl);
    mret (match old_generation with Some _ => 2%Z | None => 0%Z end).

Definition redis_register (x : RedisWorkerRegistry) (registration : WorkerRegistration)
    : prog node WorkerRegistryError RegistrationOutcome :=
  let key := worker_key x (wr_worker_id registration) in
  let payload := encode_registration registration in
  _ ← rethrow (λ error, "cannot connect to Redis: " +:+ error) connect;
  now ← node_time;
  answer ← rethrow (λ error, "cannot register worker: " +:+ error)
             (invoke (register_script key (wr_generation registration) payload (registry_unix_millis now) (ttl_millis x)));
  if bool_decide (answer = 0%Z) then mret New
  else if bool_decide (answer = 1%Z) then mret Idempotent
  else if bool_decide (answer = 2%Z) then mret Replaced
  else Throw "invalid Redis registration response".

(** ** [heartbeat] *)

Definition heartbeat_script (key generation : string) (now ttl : Z) : script S Z :=
  old_generation ← call (HGET key "generation");
  match old_generation with
  | None => mret 0%Z
  | Some old =>
    if negb (bool_decide (old = generation)) then mret 1%Z
    else
      _ ← call (HSET key [("last_heartbeat_at_ms", show now)]);
      _ ← call (PEXPIRE key ttl);
      mret 2%Z
  end.

Definition redis_heartbeat (x : RedisWorkerRegistry) (worker_id generation : string)
    : prog node HeartbeatError unit :=
  _ ← rethrow (λ _, RegistryUnavailable) connect;
  now ← node_time;
  answer ← rethrow (λ _, RegistryUnavailable)
             (invoke (heartbeat_script (worker_key x worker_id) generation (registry_unix_millis now) (ttl_millis x)));
  if bool_decide (answer = 0%Z) then Throw UnknownWorker
  else if bool_decide (answer = 1%Z) then Throw StaleGeneration
  else if bool_decide (answer = 2%Z) then mret tt
  else Throw RegistryUnavailable.

(** ** [available_workers] *)

Definition worker_pattern (x : RedisWorkerRegistry) : string :=
  escape_redis_pattern (rw_key_prefix x) +:+ ":worker:*".

(** The loop over the keys of one page. *)
Fixpoint read_workers (keys : list string) (worker_ids : list string) : prog node WorkerDirectoryError (list string) :=
  match keys with
  | [] => mret worker_ids
  | key :: keys =>
    payload ← rethrow (λ error, "cannot read worker: " +:+ error) (query (HGET key "registration"));
    match payload with
    | None => read_workers keys worker_ids
    | Some payload =>
      registration ← lift_result (map_err (λ error, "invalid worker registration in Redis: " +:+ error)
                                    (decode_registration payload));
      read_workers keys (worker_ids ++ [wr_worker_id registration])
    end
  end.

(** The loop over the pages, [fuel] of them at most; the source has no bound. *)
Fixpoint scan_workers (x : RedisWorkerRegistry) (fuel : nat) (cursor : Z) (worker_ids : list string)
    : prog node WorkerDirectoryError (list string) :=
  match fuel with
  | 0 => Panic "out of fuel"
  | Datatypes.S fuel =>
    let unlisted := λ error, "cannot list workers: " +:+ error in
    page ← rethrow unlisted (query (SCAN cursor (worker_pattern x) 100));
    keys ← lift_result (map_err unlisted (strings_from page.2));
    worker_ids ← read_workers keys worker_ids;
    if bool_decide (page.1 = 0%Z) then mret worker_ids
    else scan_workers x fuel page.1 worker_ids
  end.

Definition redis_available_workers (x : RedisWorkerRegistry) (fuel : nat)
    : prog node WorkerDirectoryError (list string) :=
  _ ← rethrow (λ error, "cannot connect to Redis: " +:+ error) connect;
  worker_ids ← scan_workers x fuel 0 [];
  mret (dedup (sort_strings worker_ids)).

Definition redis_directory (x : RedisWorkerRegistry) (fuel : nat) : WorkerDirectory node :=
  {| available_workers := redis_available_workers x fuel |}.

Definition redis_worker_registry (x : RedisWorkerRegistry) (fuel : nat) : WorkerRegistry node :=
  {| registry_directory := redis_directory x fuel;
     register := redis_register x;
     heartbeat := redis_heartbeat x |}.
End registry.
