(* ===== verification/RedisRegistrySpec.v ===== *)
(** * What the Redis worker registry guarantees

    The escaped pattern selects exactly the registry's keys; registrations and heartbeats
    answer as the in-memory registry does and leave the same members; the directory ends
    and lists exactly the members. *)

From Stdlib Require Import Ascii.
From S2P Require Import Prelude RustStr Prog Protocol Concrete WorkerRegistry Redis RedisFacts RedisConcrete.
From S2P Require Import RedisWorkerRegistry.

(** ** Patterns *)

Section patterns.
Context {S : Type} `{R : !Redis S} `{RO : !RedisOk R}.

Lemma escape_cons c s :
  escape_redis_pattern (String c s) =
    if is_glob_char c then String "\" (String c (escape_redis_pattern s)) else String c (escape_redis_pattern s).
Proof.
  unfold is_glob_char. case_bool_decide as Hc.
  - rewrite !elem_of_cons, elem_of_nil in Hc. by destruct Hc as [->|[->|[->|[->|[]]]]].
  - assert (∀ c' to t, c' ∈ ["*"%char; "?"%char; "["%char; "\"%char] →
      replace_char c' to (String c t) = String c (replace_char c' to t)) as Hr.
    { intros c' to t Hin. cbn. destruct (ascii_dec c' c) as [->|]; [by destruct Hc|done]. }
    unfold escape_redis_pattern. by rewrite !Hr by set_solver.
Qed.

Lemma glob_escape p q key :
  glob_match (escape_redis_pattern p +:+ q) key = true ↔ ∃ rest, key = p +:+ rest ∧ glob_match q rest = true.
Proof.
  revert key. induction p as [|c p IH]; intros key.
  { change (escape_redis_pattern "") with "". rewrite str_nil_app. split; [by exists key|]. by intros (? & -> & ?). }
  rewrite escape_cons. destruct (is_glob_char c) eqn:Hc; rewrite !str_app_cons; (destruct key as [|c' key];
    [rewrite glob_short; [|by (done || (intros ->; by vm_compute in Hc))];
       split; [done|intros (rest & H & _); by rewrite str_app_cons in H]|]).
  - rewrite glob_escaped, andb_true_iff, bool_decide_eq_true, IH. split.
    + intros (<- & rest & -> & ?). by exists rest.
    + intros (rest & H & ?). rewrite str_app_cons in H. injection H as -> ->. eauto.
  - rewrite glob_plain, andb_true_iff, bool_decide_eq_true, IH by done. split.
    + intros (<- & rest & -> & ?). by exists rest.
    + intros (rest & H & ?). rewrite str_app_cons in H. injection H as -> ->. eauto.
Qed.

(** Whatever characters the configured prefix has, also those with a meaning in patterns,
    the pattern of the directory's iteration matches exactly the keys of the registry. *)
Lemma worker_pattern_keys x key : glob_match (worker_pattern x) key = true ↔ ∃ id, key = worker_key x id.
Proof.
  unfold worker_pattern, worker_key. rewrite glob_escape.
  change ":worker:*" with (escape_redis_pattern ":worker:" +:+ "*"). setoid_rewrite glob_escape. split.
  - intros (rest & -> & id & -> & _). by exists id.
  - intros (id & ->). eexists. split; [done|]. exists id. split; [done|apply glob_star].
Qed.
End patterns.

(** ** Members *)

Section members.
Context `{P : Protocols} `{PO : !ProtocolsOk P} `{PF : Platform} {S : Type} `{R : !Redis S} `{RO : !RedisOk R}.
Implicit Types (x : RedisWorkerRegistry) (d : redis_db) (n : redis_node S) (s : S).

Definition generation_of (v : redis_value) : option string :=
  match v with RHash h => h !! "generation" | _ => None end.

(** The workers with a running lease, and the generation that holds it. *)
Definition members x d : gmap string string := submap (rw_key_prefix x +:+ ":worker:") generation_of (db_values d).

(** The hash of a registered worker. *)
Definition worker_hash (id : string) (h : gmap string bytes) : Prop :=
  is_Some (h !! "generation")
  ∧ ∃ p r, h !! "registration" = Some p ∧ decode_registration p = Ok r ∧ wr_worker_id r = id.

(** Under the registry's prefix there are worker hashes only. *)
Definition workers_only x d : Prop :=
  ∀ id v, db_values d !! worker_key x id = Some v → ∃ h, v = RHash h ∧ worker_hash id h.

(** The lease is not empty, and its end is a time the server can hold. *)
Definition lease_ok x d : Prop := (0 < ttl_millis x)%Z ∧ (db_time d + ttl_millis x ≤ i64_max)%Z.

Lemma worker_key_split x id : worker_key x id = (rw_key_prefix x +:+ ":worker:") +:+ id.
Proof. unfold worker_key. by rewrite str_app_assoc. Qed.

Lemma worker_key_inj x id id' : worker_key x id = worker_key x id' → id = id'.
Proof. rewrite !worker_key_split. intros H. by apply str_app_inv_len in H as [_ ?]. Qed.

Lemma lookup_members x d id : members x d !! id = db_values d !! worker_key x id ≫= generation_of.
Proof. unfold members. by rewrite lookup_submap, worker_key_split. Qed.

Lemma workers_hash_at x d id :
  workers_only x d →
  ∃ h, hash_at d (worker_key x id) = Some h ∧ members x d !! id = h !! "generation"
    ∧ (is_Some (h !! "generation") → db_values d !! worker_key x id = Some (RHash h) ∧ worker_hash id h).
Proof.
  intros Hx. rewrite lookup_members. unfold hash_at. destruct (db_values d !! worker_key x id) as [v|] eqn:Hv.
  - destruct (Hx _ _ Hv) as (h & -> & ?). by exists h.
  - exists ∅. split_and!; [done..|]. rewrite lookup_empty. by intros [].
Qed.

Lemma members_later x d d' id :
  elapsed d d' → members x d' !! id = members x d !! id ∨ members x d' !! id = None.
Proof.
  intros He. rewrite !lookup_members. destruct (db_values d' !! worker_key x id) eqn:Hv; [left|by right].
  rewrite (expired_value _ _ _ He), Hv by (by rewrite Hv). done.
Qed.

Lemma workers_only_later x d d' : workers_only x d → elapsed d d' → workers_only x d'.
Proof. intros Hx He id v Hv. apply Hx. by rewrite (expired_value _ _ _ He), Hv by (by rewrite Hv). Qed.

(** A lease given to a worker. *)
Definition leased x (id : string) (h : gmap string bytes) d : redis_db :=
  set_deadline (worker_key x id) (db_time d + ttl_millis x) (set_value (worker_key x id) (RHash h) d).

Lemma members_leased x id h g d :
  h !! "generation" = Some g → members x (leased x id h d) = <[id := g]> (members x d).
Proof. intros Hh. unfold members, leased. simpl. rewrite worker_key_split. by apply submap_insert. Qed.

Lemma workers_only_leased x id h d : worker_hash id h → workers_only x d → workers_only x (leased x id h d).
Proof.
  intros Hh Hx id' v. simpl. destruct (decide (id' = id)) as [->|Hne].
  - rewrite lookup_insert_eq. intros [= <-]. eauto.
  - rewrite lookup_insert_ne; [apply Hx|]. intros H. by apply worker_key_inj in H.
Qed.

(** *** The scripts *)

Lemma register_script_effect x r now s :
  serving s → workers_only x (db s) → lease_ok x (db s) →
  ∃ s' h, register_script (worker_key x (wr_worker_id r)) (wr_generation r) (encode_registration r) now (ttl_millis x) s
    = (s', Ok (match members x (db s) !! wr_worker_id r with
               | None => 0%Z
               | Some g => if bool_decide (g = wr_generation r) then 1%Z else 2%Z
               end))
    ∧ db s' = leased x (wr_worker_id r) h (db s)
    ∧ h !! "generation" = Some (wr_generation r) ∧ worker_hash (wr_worker_id r) h.
Proof.
  intros Hs Hx [Httl Hend]. set (key := worker_key x (wr_worker_id r)).
  destruct (workers_hash_at x (db s) (wr_worker_id r) Hx) as (h & Hh & Hm & Hlive). fold key in Hh, Hlive.
  unfold register_script, call, mbind, script_bind.
  destruct (exec_done (HGET key "generation") s Hs) as (s1 & a & Hex & Hs1 & Hd1 & h' & Hh' & ->); [by eexists|].
  rewrite Hh in Hh'. injection Hh' as <-. rewrite Hex, Hm. clear Hex. cbn in Hd1.
  destruct (decide (h !! "generation" = Some (wr_generation r))) as [Hg|Hg].
  - rewrite (bool_decide_true (_ = Some _)) by done. rewrite Hg, bool_decide_true by done.
    destruct (Hlive (ex_intro _ _ Hg)) as [Hv Hhash].
    destruct (exec_done (PEXPIRE key (ttl_millis x)) s1 Hs1) as (s2 & a & Hex & _ & He); [rewrite Hd1; simpl; lia|].
    rewrite Hex. cbn [effect] in He. rewrite Hd1, Hv, (bool_decide_true (0 < _)%Z) in He by lia. destruct He as [_ He].
    exists s2, h. split_and!; [done| |done..]. rewrite He. unfold leased, set_deadline, set_value. fold key. simpl. by rewrite (insert_id _ _ _ Hv).
  - rewrite (bool_decide_false (_ = Some _)) by done.
    set (fields := [("generation", wr_generation r); _; _; _]).
    destruct (exec_done (HSET key fields) s1 Hs1) as (s2 & a & Hex & Hs2 & h' & Hh' & Hd2);
      [rewrite Hd1; simpl; by eexists|]. rewrite Hex. clear Hex.
    rewrite Hd1, Hh in Hh'. injection Hh' as <-.
    destruct (exec_done (PEXPIRE key (ttl_millis x)) s2 Hs2) as (s3 & b & Hex & _ & He); [rewrite Hd2, Hd1; simpl; lia|].
    rewrite Hex. cbn [effect] in He. rewrite Hd2, Hd1 in He. simpl in He.
    rewrite lookup_insert_eq, (bool_decide_true (0 < _)%Z) in He by lia. destruct He as [_ He].
    exists s3, (set_fields fields h). split_and!.
    + f_equal. f_equal. destruct (h !! "generation") as [g|] eqn:Hg'; [|done]. rewrite bool_decide_false; [done|congruence].
    + by rewrite He.
    + unfold fields. by hash_lookups.
    + unfold fields. split; [by hash_lookups|]. exists (encode_registration r), r.
      split_and!; [by hash_lookups|apply decode_encode_registration|done].
Qed.

Lemma heartbeat_script_effect x id g now s :
  serving s → workers_only x (db s) → lease_ok x (db s) →
  ∃ s', heartbeat_script (worker_key x id) g now (ttl_millis x) s
    = (s', Ok (match members x (db s) !! id with
               | None => 0%Z
               | Some g' => if bool_decide (g' = g) then 2%Z else 1%Z
               end))
    ∧ if bool_decide (members x (db s) !! id = Some g)
      then ∃ h, db s' = leased x id h (db s) ∧ h !! "generation" = Some g ∧ worker_hash id h
      else db s' = db s.
Proof.
  intros Hs Hx [Httl Hend]. set (key := worker_key x id).
  destruct (workers_hash_at x (db s) id Hx) as (h & Hh & Hm & Hlive). fold key in Hh, Hlive.
  unfold heartbeat_script, call, mbind, script_bind.
  destruct (exec_done (HGET key "generation") s Hs) as (s1 & a & Hex & Hs1 & Hd1 & h' & Hh' & ->); [by eexists|].
  rewrite Hh in Hh'. injection Hh' as <-. rewrite Hex, Hm. clear Hex. cbn in Hd1.
  destruct (h !! "generation") as [g'|] eqn:Hg.
  2: { exists s1. split; [done|]. by rewrite bool_decide_false. }
  destruct (decide (g' = g)) as [->|Hne].
  2: { exists s1. rewrite !bool_decide_false by congruence. done. }
  rewrite !bool_decide_true by done. cbn [negb].
  destruct (exec_done (HSET key [("last_heartbeat_at_ms", show now)]) s1 Hs1) as (s2 & a & Hex & Hs2 & h' & Hh' & Hd2);
    [rewrite Hd1; simpl; by eexists|]. rewrite Hex. clear Hex. rewrite Hd1, Hh in Hh'. injection Hh' as <-.
  destruct (exec_done (PEXPIRE key (ttl_millis x)) s2 Hs2) as (s3 & b & Hex & _ & He); [rewrite Hd2, Hd1; simpl; lia|].
  rewrite Hex. cbn [effect] in He. rewrite Hd2, Hd1 in He. simpl in He.
  rewrite lookup_insert_eq, (bool_decide_true (0 < _)%Z) in He by lia. destruct He as [_ He].
  exists s3. split; [done|]. exists (set_fields [("last_heartbeat_at_ms", show now)] h). split; [by rewrite He|].
  destruct (Hlive (ex_intro _ _ eq_refl)) as (_ & _ & p & r & Hp & Hr).
  assert (set_fields [("last_heartbeat_at_ms", show now)] h !! "generation" = Some g) as Hg' by (by hash_lookups).
  split; [done|]. split; [by eexists|]. exists p, r. split; [by hash_lookups|done].
Qed.

(** *** The methods, over a working connection *)

Definition registration_outcome (holder : option string) (generation : string) : RegistrationOutcome :=
  match holder with
  | None => New
  | Some g => if bool_decide (g = generation) then Idempotent else Replaced
  end.

Lemma run_time_up {E A} (k : Z → prog (redis_node S) E A) n :
  run (node_time ≫= k) n = run (k (system_time_at (node_ticks n))) (mkNode (node_server n) (Datatypes.S (node_ticks n))).
Proof. done. Qed.

Lemma redis_register_run x r n :
  workers_only x (node_db n) → link_up (node_server n) → lease_ok x (db (served (node_server n))) →
  let d := db (served (node_server n)) in
  ∃ n' h, run (redis_register x r) n = (n', Done (registration_outcome (members x d !! wr_worker_id r) (wr_generation r)))
    ∧ node_db n' = leased x (wr_worker_id r) h d
    ∧ h !! "generation" = Some (wr_generation r) ∧ worker_hash (wr_worker_id r) h.
Proof.
  intros Hx (Hc & Hd & Hs) Hl d. unfold redis_register. rewrite run_connect_up, run_time_up, run_invoke_up by done.
  cbn [node_server node_ticks]. fold (served (node_server n)).
  destruct (register_script_effect x r (registry_unix_millis (system_time_at (node_ticks n))) (served (node_server n)))
    as (s' & h & Hscr & Hdb & Hg & Hh); [done|by eapply workers_only_later, served_elapsed|done|].
  rewrite Hscr. cbn [fst snd map_err lift_result mbind prog_bind prog_bind_def].
  exists (mkNode s' (Datatypes.S (node_ticks n))), h. split; [|done]. fold d. unfold registration_outcome. by destruct (_ !! _); [case_bool_decide|].
Qed.

Lemma redis_heartbeat_run x id g n :
  workers_only x (node_db n) → link_up (node_server n) → lease_ok x (db (served (node_server n))) →
  let d := db (served (node_server n)) in
  ∃ n', run (redis_heartbeat x id g) n = (n', match members x d !! id with
                                              | None => Failed UnknownWorker
                                              | Some g' => if bool_decide (g' = g) then Done tt else Failed StaleGeneration
                                              end)
    ∧ if bool_decide (members x d !! id = Some g)
      then ∃ h, node_db n' = leased x id h d ∧ h !! "generation" = Some g ∧ worker_hash id h
      else node_db n' = d.
Proof.
  intros Hx (Hc & Hd & Hs) Hl d. unfold redis_heartbeat. rewrite run_connect_up, run_time_up, run_invoke_up by done.
  cbn [node_server node_ticks]. fold (served (node_server n)).
  destruct (heartbeat_script_effect x id g (registry_unix_millis (system_time_at (node_ticks n))) (served (node_server n)))
    as (s' & Hscr & Hdb); [done|by eapply workers_only_later, served_elapsed|done|].
  rewrite Hscr. cbn [fst snd map_err lift_result mbind prog_bind prog_bind_def].
  exists (mkNode s' (Datatypes.S (node_ticks n))). split; [|done].
  fold d. by destruct (members x d !! id) as [g'|]; [destruct (bool_decide (g' = g))|].
Qed.
End members.

(** ** Agreement with the in-memory registry *)

Section equivalence.
Context `{P : Protocols} `{PO : !ProtocolsOk P} `{PF : Platform} `{PFO : !PlatformOk PF} `{HO : HashMapOrder}.
Context {S : Type} `{R : !Redis S} `{RO : !RedisOk R}.
Implicit Types (x : RedisWorkerRegistry) (n : redis_node S) (m : MemoryWorkerRegistry).

Definition entry_generation (e : MemoryEntry) : string := wr_generation (registration (me_worker e)).

(** The same view of the in-memory registry at an instant. *)
Definition memory_members (now : Z) m : gmap string string :=
  entry_generation <$> filter (λ e, (now < expires_at e.2)%Z) (workers m).

Lemma lookup_memory_members now m id :
  memory_members now m !! id = entry_generation <$> live_entry now (workers m) id.
Proof.
  unfold memory_members, live_entry. rewrite lookup_fmap, map_lookup_filter.
  destruct (workers m !! id) as [e|]; [|done]. simpl. by repeat case_guard; repeat case_bool_decide.
Qed.

Lemma memory_members_insert now ws id e k m :
  (now < expires_at e)%Z →
  memory_members now (set_workers (<[id := e]> ws) k m) = <[id := entry_generation e]> (memory_members now (set_workers ws k m)).
Proof.
  intros He. unfold memory_members. simpl. rewrite map_filter_insert_True by done. by rewrite fmap_insert.
Qed.

(** The clock is far from the end of its range, and leases are not empty. *)
Definition memory_lease_ok m : Prop :=
  mw_poisoned m = false ∧ (0 < membership_ttl m)%Z
  ∧ ∀ i, mw_ticks m ≤ i ≤ mw_ticks m + 2 → (instant_at i + membership_ttl m ≤ instant_max)%Z.

Lemma memory_expiry m i :
  memory_lease_ok m → mw_ticks m ≤ i ≤ mw_ticks m + 2 →
  expiry m i = Some (instant_at i + membership_ttl m)%Z ∧ (instant_at (mw_ticks m) < instant_at i + membership_ttl m)%Z.
Proof.
  intros (_ & Httl & Hmax) Hi. unfold expiry. rewrite bool_decide_true by auto. split; [done|].
  pose proof (instant_mono (mw_ticks m) i). lia.
Qed.

Lemma memory_register_run m r :
  memory_lease_ok m →
  let now := instant_at (mw_ticks m) in
  ∃ m', memory_register r m = (m', Done (registration_outcome (memory_members now m !! wr_worker_id r) (wr_generation r)))
    ∧ memory_members now m' = <[wr_worker_id r := wr_generation r]> (memory_members now m).
Proof.
  intros Hok now. unfold memory_register. rewrite (proj1 Hok), lookup_memory_members. fold now.
  destruct (memory_expiry m (Datatypes.S (Datatypes.S (mw_ticks m))) Hok) as [He2 Ht2]; [lia|].
  destruct (memory_expiry m (Datatypes.S (mw_ticks m)) Hok) as [He1 Ht1]; [lia|].
  cbv zeta. rewrite He1, He2. fold now in Ht1, Ht2.
  destruct (live_entry now (workers m) (wr_worker_id r)) as [e|]; simpl.
  2: { eexists. split; [done|]. by rewrite memory_members_insert. }
  unfold entry_generation. case_bool_decide as Hg; eexists; (split; [done|]); rewrite memory_members_insert by done; [|done].
  unfold entry_generation. simpl. by rewrite Hg.
Qed.

Lemma memory_heartbeat_run m id g :
  memory_lease_ok m →
  let now := instant_at (mw_ticks m) in
  ∃ m', memory_heartbeat id g m = (m', match memory_members now m !! id with
                                       | None => Failed UnknownWorker
                                       | Some g' => if bool_decide (g' = g) then Done tt else Failed StaleGeneration
                                       end)
    ∧ memory_members now m' = memory_members now m.
Proof.
  intros Hok now. unfold memory_heartbeat. rewrite (proj1 Hok), lookup_memory_members. fold now.
  destruct (memory_expiry m (Datatypes.S (Datatypes.S (mw_ticks m))) Hok) as [He Ht]; [lia|]. rewrite He. fold now in Ht.
  pose proof (lookup_memory_members now m id) as Hl.
  destruct (live_entry now (workers m) id) as [e|]; simpl; [|by eexists]. fold (entry_generation e).
  case_bool_decide as Hg; simpl; [|by eexists]. eexists. split; [done|].
  rewrite memory_members_insert by done. by apply insert_id.
Qed.

(** C36: the two registries agree.  When the Redis registry and the in-memory one have the
    same members with the same generations at the instant of a call, then a registration
    gets the same answer from both (new, idempotent, replaced), a heartbeat gets the same
    answer from both (accepted, unknown worker, stale generation), and both have the same
    members afterwards. *)
Theorem redis_registry_equivalent x n m r id g :
  workers_only x (node_db n) → link_up (node_server n) → lease_ok x (db (served (node_server n))) →
  memory_lease_ok m →
  members x (db (served (node_server n))) = memory_members (instant_at (mw_ticks m)) m →
  (∃ n' m' o, run (redis_register x r) n = (n', Done o) ∧ memory_register r m = (m', Done o)
     ∧ members x (node_db n') = memory_members (instant_at (mw_ticks m)) m' ∧ workers_only x (node_db n'))
  ∧ ∃ n' m' o, run (redis_heartbeat x id g) n = (n', o) ∧ memory_heartbeat id g m = (m', o)
     ∧ (o = Done tt ∨ o = Failed UnknownWorker ∨ o = Failed StaleGeneration)
     ∧ members x (node_db n') = memory_members (instant_at (mw_ticks m)) m' ∧ workers_only x (node_db n').
Proof.
  intros Hx Hup Hl Hm Heq.
  assert (workers_only x (db (served (node_server n)))) as Hx' by (eapply workers_only_later, served_elapsed; done).
  split.
  - destruct (redis_register_run x r n Hx Hup Hl) as (n' & h & Hrun & Hdb & Hg & Hh).
    destruct (memory_register_run m r Hm) as (m' & Hrun' & Hmem). rewrite Heq in Hrun. eexists n', m', _.
    split_and!; [done|done| |rewrite Hdb; by apply workers_only_leased].
    by rewrite Hdb, Hmem, (members_leased _ _ _ _ _ Hg), Heq.
  - destruct (redis_heartbeat_run x id g n Hx Hup Hl) as (n' & Hrun & Hdb).
    destruct (memory_heartbeat_run m id g Hm) as (m' & Hrun' & Hmem). rewrite Heq in Hrun. eexists n', m', _.
    split_and!; [done|done|by destruct (_ !! _); [case_bool_decide|]; auto|..].
    + rewrite Hmem, <-Heq. case_bool_decide as Hg; [|by rewrite Hdb]. destruct Hdb as (h & -> & Hh & _).
      rewrite (members_leased _ _ _ _ _ Hh). by apply insert_id.
    + case_bool_decide; [|by rewrite Hdb]. destruct Hdb as (h & -> & _ & ?). by apply workers_only_leased.
Qed.
End equivalence.

(** ** The directory *)

Section directory.
Context `{P : Protocols} `{PF : Platform} {S : Type} `{R : !Redis S} `{RO : !RedisOk R}.
Implicit Types (x : RedisWorkerRegistry) (d : redis_db) (n : redis_node S) (s : S).

(** What the requests of an iteration do to the server: time may pass, no key that
    remains leaves the iteration, and the iteration does not get longer. *)
Definition reading s s' : Prop :=
  (db s' = db s ∨ elapsed (db s) (db s'))
  ∧ (∀ c key, scan_left s c key → is_Some (db_values (db s') !! key) → scan_left s' c key)
  ∧ ∀ c, scan_rank s' c ≤ scan_rank s c.

Lemma later_value d d' key :
  d' = d ∨ elapsed d d' → is_Some (db_values d' !! key) → db_values d !! key = db_values d' !! key.
Proof. intros [->|He]; [done|]. by apply expired_value. Qed.

Lemma later_trans d1 d2 d3 : d2 = d1 ∨ elapsed d1 d2 → d3 = d2 ∨ elapsed d2 d3 → d3 = d1 ∨ elapsed d1 d3.
Proof. intros [->|H1] [->|H2]; eauto using elapsed_trans. Qed.

Lemma reading_refl s : reading s s.
Proof. split_and!; [by left|done|done]. Qed.

Lemma reading_trans s1 s2 s3 : reading s1 s2 → reading s2 s3 → reading s1 s3.
Proof.
  intros (H1 & L1 & R1) (H2 & L2 & R2). split_and!; [by eapply later_trans| |].
  - intros c key Hk Hv. apply L2; [|done]. apply L1; [done|]. by rewrite (later_value _ _ _ H2).
  - intros c. etrans; [apply R2|apply R1].
Qed.

Lemma reading_deliver s : reading s (redis_deliver s).1.
Proof. split_and!; [right; apply deliver_db|apply scan_kept_deliver|apply scan_rank_deliver]. Qed.

Lemma reading_hget s k f : reading s (redis_exec (HGET k f) s).1.
Proof.
  split_and!.
  - left. pose proof (exec_db (HGET k f) s) as H. destruct (redis_exec _ s) as [s' [a|e]]; [by destruct H|done].
  - intros c key Hk _. by apply scan_kept_hget.
  - intros c. apply scan_rank_hget.
Qed.

Lemma workers_only_reading x s s' : reading s s' → workers_only x (db s) → workers_only x (db s').
Proof. intros [[->|He] _] Hx; [done|]. by eapply workers_only_later. Qed.

(** How an iteration or a part of it ended: never by a panic or waiting, and not by an
    error where [up] holds. *)
Definition ended {A} (up : Prop) (o : outcome string A) (Q : A → Prop) : Prop :=
  match o with
  | Done a => Q a
  | Failed _ => ¬ up
  | Panicked _ | Blocked => False
  end.

(** Every connection opens, every request is answered, the server takes commands. *)
Definition reliable : Prop :=
  ∀ s, (redis_connect s).2 = Ok tt ∧ (redis_deliver s).2 = Delivered ∧ serving s.

(** The registry's keys are strings of the program. *)
Definition keys_utf8 x d : Prop :=
  ∀ id, is_Some (db_values d !! worker_key x id) → utf8 (worker_key x id) = true.

(** One page of keys. *)
Lemma read_workers_run x keys ids n :
  workers_only x (node_db n) → (∀ key, key ∈ keys → ∃ id, key = worker_key x id) →
  let '(n', o) := run (read_workers keys ids) n in
  reading (node_server n) (node_server n')
  ∧ ended reliable o (λ ids', (∀ id, id ∈ ids → id ∈ ids')
      ∧ (∀ id, id ∈ ids' → id ∈ ids ∨ is_Some (db_values (node_db n) !! worker_key x id))
      ∧ ∀ id, worker_key x id ∈ keys → is_Some (db_values (node_db n') !! worker_key x id) → id ∈ ids').
Proof.
  revert ids n. induction keys as [|key keys IH]; intros ids n Hx Hkeys.
  { cbn. split; [apply reading_refl|]. split_and!; [done|by left|by intros id ?%not_elem_of_nil]. }
  cbn [read_workers]. rewrite run_bind, run_rethrow. unfold query, invoke. rewrite run_critical. unfold request.
  pose proof (reading_deliver (node_server n)) as Hr1.
  assert (reliable → (redis_deliver (node_server n)).2 = Delivered) as Hup by (intros Hup; apply Hup).
  destruct (redis_deliver (node_server n)) as [s1 dl]. simpl in Hr1, Hup.
  unfold call. pose proof (reading_hget s1 key "registration") as Hr2. pose proof (exec_db (HGET key "registration") s1) as He.
  assert (workers_only x (db s1)) as Hx1 by by eapply workers_only_reading.
  destruct (Hkeys key) as [id Hid]; [by left|].
  assert (reliable → ∃ a, (redis_exec (HGET key "registration") s1).2 = Ok a) as Hup'.
  { intros Hrel. apply exec_ok; [apply Hrel|]. destruct (workers_hash_at x (db s1) id Hx1) as (h & Hh & _).
    simpl. rewrite Hid. by eexists. }
  destruct (redis_exec _ s1) as [s2 r]. simpl in Hr2, He, Hup'.
  destruct dl as [|e|e]; cbn [fst snd]; [|split; [done|by intros ?%Hup]|split; [by eapply reading_trans|by intros ?%Hup]].
  destruct r as [payload|e]; [|split; [by eapply reading_trans|intros [? ?]%Hup'; done]]. destruct He as (Hdb & h & Hh & ->).
  assert (reading (node_server n) s2) as Hr by by eapply reading_trans.
  assert (workers_only x (db s2)) as Hx2 by by eapply workers_only_reading.
  set (n2 := mkNode s2 (node_ticks n)).
  assert (∀ key, key ∈ keys → ∃ id, key = worker_key x id) as Hkeys' by (intros; apply Hkeys; by right).
  assert (∀ id', is_Some (db_values (db s2) !! worker_key x id') → is_Some (db_values (node_db n) !! worker_key x id')) as Hback.
  { intros id' Hv. by rewrite (later_value _ _ _ (proj1 Hr)). }
  rewrite Hid in Hh. unfold hash_at in Hh.
  destruct (db_values (db s1) !! worker_key x id) as [v|] eqn:Hv.
  - destruct (Hx1 _ _ Hv) as (h' & -> & _ & p & reg & Hp & Hdec & Hwid). injection Hh as ->.
    rewrite Hp, Hdec. cbn [map_err lift_result mbind prog_bind prog_bind_def]. rewrite Hwid.
    specialize (IH (ids ++ [id]) n2 Hx2 Hkeys'). destruct (run (read_workers keys (ids ++ [id])) n2) as [n' o].
    destruct IH as [Hr' Ho]. split; [by eapply reading_trans|]. destruct o as [ids'| | |]; try done.
    destruct Ho as (H1 & H2 & H3). split_and!.
    + intros i Hi. apply H1. set_solver.
    + intros i [[Hi|Hi]%elem_of_app|Hi]%H2; [by left| |right; by apply Hback].
      apply list_elem_of_singleton in Hi as ->. right. apply Hback. rewrite Hdb, Hv. by eexists.
    + intros i [Hi|Hi]%elem_of_cons Hi'; [|by apply H3]. rewrite Hid in Hi. apply worker_key_inj in Hi as ->. apply H1. set_solver.
  - injection Hh as <-. rewrite lookup_empty.
    specialize (IH ids n2 Hx2 Hkeys'). destruct (run (read_workers keys ids) n2) as [n' o].
    destruct IH as [Hr' Ho]. split; [by eapply reading_trans|]. destruct o as [ids'| | |]; try done.
    destruct Ho as (H1 & H2 & H3). split_and!; [done| |].
    + intros i [Hi|Hi]%H2; [by left|right; by apply Hback].
    + intros i [Hi|Hi]%elem_of_cons Hi'; [|by apply H3]. rewrite Hid in Hi. apply worker_key_inj in Hi as ->.
      rewrite <-(later_value _ _ _ (proj1 Hr')) in Hi' by done. cbn [node_server n2] in Hi'.
      rewrite Hdb, Hv in Hi'. by destruct Hi'.
Qed.

Lemma strings_from_Ok l l' : strings_from l = Ok l' → l' = l.
Proof.
  revert l'. induction l as [|b l IH]; intros l'; cbn; [by intros [= <-]|]. unfold string_from.
  destruct (utf8 b); [|done]. destruct (strings_from l) as [rest|]; [|done]. cbn. intros [= <-]. by rewrite (IH rest).
Qed.

Lemma strings_from_utf8 l : Forall (λ b, utf8 b = true) l → strings_from l = Ok l.
Proof. induction 1 as [|b l Hb _ IH]; cbn; [done|]. unfold string_from. rewrite Hb. cbn. by rewrite IH. Qed.

Lemma later_workers x d d' : d' = d ∨ elapsed d d' → workers_only x d → workers_only x d'.
Proof. intros [->|He] Hx; [done|]. by apply (workers_only_later x d). Qed.

(** One request of the iteration. *)
Lemma scan_page_run {E} (g : string → E) x cursor n :
  let '(n', o) := run (rethrow g (query (SCAN cursor (worker_pattern x) 100))) n in
  (node_db n' = node_db n ∨ elapsed (node_db n) (node_db n'))
  ∧ match o with
    | Done (next, keys) =>
        (∀ key, key ∈ keys → ∃ id, key = worker_key x id ∧ is_Some (db_values (node_db n') !! key))
        ∧ (∀ id, scan_left (node_server n) cursor (worker_key x id) →
             is_Some (db_values (node_db n') !! worker_key x id) →
             worker_key x id ∈ keys ∨ next ≠ 0%Z ∧ scan_left (node_server n') next (worker_key x id))
        ∧ (next ≠ 0%Z → scan_rank (node_server n') next < scan_rank (node_server n) cursor)
    | Failed _ => ¬ reliable
    | Panicked _ | Blocked => False
    end.
Proof.
  rewrite run_rethrow. unfold query, invoke. rewrite run_critical. unfold request.
  destruct (reading_deliver (node_server n)) as (Hl & Hleft & Hrank).
  assert (reliable → (redis_deliver (node_server n)).2 = Delivered) as Hup by (intros Hup; apply Hup).
  destruct (redis_deliver (node_server n)) as [s1 dl]. simpl in Hl, Hleft, Hrank, Hup. unfold call.
  pose proof (exec_db (SCAN cursor (worker_pattern x) 100) s1) as He.
  assert (reliable → ∃ a, (redis_exec (SCAN cursor (worker_pattern x) 100) s1).2 = Ok a) as Hup'
    by (intros Hrel; apply exec_ok; [apply Hrel|done]).
  destruct (redis_exec _ s1) as [s2 r] eqn:Hex. simpl in He, Hup'.
  assert (db s2 = db s1) as Hdb by (destruct r; [by destruct He|done]).
  destruct dl as [|e|e]; cbn [fst snd node_server]; [|split; [done|by intros ?%Hup]|split; [cbn; by rewrite Hdb|by intros ?%Hup]].
  destruct r as [[next keys]|e]; cbn [fst snd node_server]; [|split; [cbn; by rewrite Hdb|by intros [? ?]%Hup']].
  destruct He as [_ Hkeys]. rewrite Hdb. split_and!; [done|..].
  - intros key [Hv Hk]%Hkeys. apply worker_pattern_keys in Hk as [id ->]. eauto.
  - intros id Hk Hv. apply (scan_next _ _ _ _ _ _ _ (worker_key x id) Hex); [by apply Hleft|done|].
    apply worker_pattern_keys. by eexists.
  - intros Hne. pose proof (scan_rank_next _ _ _ _ _ _ _ Hex Hne). specialize (Hrank cursor). lia.
Qed.

(** The iteration from a cursor on. *)
Lemma scan_workers_run x fuel cursor ids n :
  workers_only x (node_db n) → scan_rank (node_server n) cursor < fuel →
  let '(n', o) := run (scan_workers x fuel cursor ids) n in
  (node_db n' = node_db n ∨ elapsed (node_db n) (node_db n'))
  ∧ ended (reliable ∧ keys_utf8 x (node_db n)) o (λ ids', (∀ id, id ∈ ids → id ∈ ids')
      ∧ (∀ id, id ∈ ids' → id ∈ ids ∨ is_Some (db_values (node_db n) !! worker_key x id))
      ∧ ∀ id, scan_left (node_server n) cursor (worker_key x id) →
          is_Some (db_values (node_db n') !! worker_key x id) → id ∈ ids').
Proof.
  revert cursor ids n. induction fuel as [|fuel IH]; intros cursor ids n Hx Hfuel; [lia|].
  cbn [scan_workers]. rewrite run_bind.
  pose proof (scan_page_run (λ error, "cannot list workers: " +:+ error) x cursor n) as Hpage. revert Hpage.
  destruct (run (rethrow _ (query _)) n) as [n2 [[next raw]|e| |]];
    [|intros [? ?]; split; [done|by intros [? _]]|by intros [_ []]..].
  intros (Hl2 & Hkeys & Hnext & Hrank).
  assert (∀ id, is_Some (db_values (node_db n2) !! worker_key x id) → is_Some (db_values (node_db n) !! worker_key x id)) as Hback
    by (intros id Hv; by rewrite (later_value _ _ _ Hl2)).
  cbn [fst snd]. destruct (strings_from raw) as [keys|e] eqn:Hs.
  2: { split; [done|]. intros [_ Hutf]. rewrite strings_from_utf8 in Hs; [done|].
       apply Forall_forall. intros key Hk. destruct (Hkeys _ Hk) as (id & -> & Hv). by apply Hutf, Hback. }
  apply strings_from_Ok in Hs as ->. cbn [map_err lift_result mbind prog_bind prog_bind_def]. rewrite run_bind.
  pose proof (read_workers_run x raw ids n2 (later_workers _ _ _ Hl2 Hx)) as Hread. revert Hread.
  destruct (run (read_workers raw ids) n2) as [n3 o]. intros [(Hl3 & Hleft3 & Hrank3) Ho]; [naive_solver|].
  pose proof (later_trans _ _ _ Hl2 Hl3) as Hl.
  destruct o as [ids3|e| |]; [|split; [done|by intros [? _]]|done..]. destruct Ho as (Hin1 & Hin2 & Hin3).
  assert (∀ id, scan_left (node_server n) cursor (worker_key x id) →
            is_Some (db_values (node_db n3) !! worker_key x id) →
            id ∈ ids3 ∨ next ≠ 0%Z ∧ scan_left (node_server n3) next (worker_key x id)) as Hnext3.
  { intros id Hk Hv. destruct (Hnext id Hk) as [?|[? ?]]; [by rewrite (later_value _ _ _ Hl3)|left; by apply Hin3|].
    right. split; [done|]. by apply Hleft3. }
  case_bool_decide as H0.
  { split; [done|]. split_and!; [done|intros id [?|?]%Hin2; auto|].
    intros id Hk Hv. by destruct (Hnext3 id Hk Hv) as [?|[? _]]. }
  specialize (IH next ids3 n3 (later_workers _ _ _ Hl Hx)). revert IH.
  destruct (run (scan_workers x fuel next ids3) n3) as [n' o].
  intros [Hl' Ho]; [specialize (Hrank H0); specialize (Hrank3 next); lia|].
  split; [by eapply later_trans|]. destruct o as [ids'|e| |]; [|intros [? Hu]; apply Ho; split; [done|]|done..].
  - destruct Ho as (Ho1 & Ho2 & Ho3). split_and!; [auto| |].
    + intros id [[?|?]%Hin2|Hv]%Ho2; [by left|right; by apply Hback|right]. by rewrite (later_value _ _ _ Hl).
    + intros id Hk Hv. destruct (Hnext3 id Hk) as [?|[_ ?]]; [by rewrite (later_value _ _ _ Hl')|auto|by apply Ho3].
  - intros id Hv. apply Hu. by rewrite (later_value _ _ _ Hl).
Qed.

Lemma member_key x d id :
  workers_only x d → is_Some (members x d !! id) ↔ is_Some (db_values d !! worker_key x id).
Proof.
  intros Hx. rewrite lookup_members. destruct (db_values d !! worker_key x id) as [v|] eqn:Hv; [|split; by intros []].
  destruct (Hx _ _ Hv) as (h & -> & Hh & _). simpl. by split.
Qed.

(** C37: the listing ends, after at most as many pages as the server's iteration has, and
    does not panic or wait; a listing that returns is sorted and without duplicates, has
    only workers that were members when it was called, and has every worker that is
    still a member at its end, whichever leases ran out in between.  It fails only if a
    request failed or a key of the registry is not a string of the program. *)
Theorem redis_directory_exact x fuel n :
  workers_only x (node_db n) → scan_rank (redis_connect (node_server n)).1 0 < fuel →
  let '(n', o) := run (redis_available_workers x fuel) n in
  match o with
  | Done ids => Sorted String.le ids ∧ NoDup ids
      ∧ (∀ id, id ∈ ids → is_Some (members x (node_db n) !! id))
      ∧ (∀ id, is_Some (members x (node_db n') !! id) → id ∈ ids)
  | Failed _ => ¬ (reliable ∧ keys_utf8 x (node_db n))
  | Panicked _ | Blocked => False
  end.
Proof.
  intros Hx Hfuel. unfold redis_available_workers. rewrite run_bind, run_rethrow. unfold connect. rewrite run_critical.
  pose proof (connect_db (node_server n)) as He.
  assert (reliable → (redis_connect (node_server n)).2 = Ok tt) as Hup by (intros Hup; apply Hup).
  destruct (redis_connect (node_server n)) as [s1 r]. simpl in He, Hfuel, Hup. cbn [fst snd].
  destruct r as [[]|e]; [|by intros [?%Hup _]]. rewrite run_bind. set (n1 := mkNode s1 (node_ticks n)).
  assert (workers_only x (node_db n1)) as Hx1 by by eapply workers_only_later.
  pose proof (scan_workers_run x fuel 0 [] n1 Hx1 Hfuel) as Hscan.
  destruct (run (scan_workers x fuel 0 []) n1) as [n' o], Hscan as [Hl Ho]. destruct o as [ids|e|msg|]; [| |done..].
  - destruct Ho as (_ & Ho1 & Ho2). cbn [run mret prog_ret].
    destruct (dedup_sorted (sort_strings ids)) as [Hsorted Hnodup]; [apply sort_strings_sorted|].
    split_and!; [done|done| |]; intros id; rewrite elem_of_dedup, (sort_strings_perm ids).
    + intros [?%not_elem_of_nil|Hv]%Ho1; [done|]. apply member_key; [done|]. by rewrite (expired_value _ _ _ He).
    + rewrite member_key by (by eapply later_workers). intros Hv. apply Ho2; [|done]. apply scan_start.
      change s1 with (node_server n1). by rewrite (later_value _ _ _ Hl).
  - intros [Hrel Hutf]. apply Ho. split; [done|]. intros id Hv. apply Hutf. by rewrite (expired_value _ _ _ He).
Qed.
End directory.

(** ** Examples *)

Module RedisRegistryExamples.
Import Concrete RedisConcrete.

Definition demo_registry : RedisWorkerRegistry := mkRedisWorkerRegistry "tw*:workers" 30000000000.
Definition demo_worker_registration : WorkerRegistration :=
  {| wr_worker_id := "w-1"; wr_node_id := None; wr_generation := "g-1"; wr_implementation_version := "0.1.10";
     wr_protocol_versions := ["runtime/v1"]; wr_endpoint := "127.0.0.1:0"; wr_executors := [];
     wr_capacity := None; wr_metadata := None |}.
Definition fresh_node : redis_node server := mkNode (mkServer (mkDb 0 ∅ ∅) []) 0.
Definition fresh_memory : MemoryWorkerRegistry := mkMemoryWorkerRegistry false ∅ 30000000000 0.
Definition registered_node : redis_node server := (run (redis_register demo_registry demo_worker_registration) fresh_node).1.

Lemma fresh_workers_only : workers_only demo_registry (node_db fresh_node).
Proof. intros id v. cbn. by rewrite lookup_empty. Qed.

Lemma fresh_answer : (memory_register demo_worker_registration fresh_memory).2 = Done New.
Proof. vm_refl. Qed.

Lemma redis_registry_equivalent_witness :
  ∃ n' m', run (redis_register demo_registry demo_worker_registration) fresh_node = (n', Done New)
    ∧ memory_register demo_worker_registration fresh_memory = (m', Done New)
    ∧ members demo_registry (node_db n') = memory_members (instant_at 0) m'.
Proof.
  destruct (redis_registry_equivalent demo_registry fresh_node fresh_memory demo_worker_registration "w-1" "g-1")
    as [(n' & m' & o & H1 & H2 & H3 & _) _].
  - exact fresh_workers_only.
  - split; [reflexivity|]. split; [reflexivity|exact I].
  - split; vm_compute; [reflexivity|discriminate].
  - split; [reflexivity|]. split; [reflexivity|]. intros [|[|[|i]]] Hi; [vm_compute; discriminate..|simpl in Hi; lia].
  - reflexivity.
  - pose proof fresh_answer as Hnew. rewrite H2 in Hnew. injection Hnew as ->. exists n', m'. split; [exact H1|]. split; [exact H2|exact H3].
Defined.

Lemma registered_workers_only : workers_only demo_registry (node_db registered_node).
Proof.
  destruct (redis_register_run demo_registry demo_worker_registration fresh_node fresh_workers_only) as (n' & h & Hrun & Hdb & _ & Hh).
  - split; [reflexivity|]. split; [reflexivity|exact I].
  - split; vm_compute; [reflexivity|discriminate].
  - unfold registered_node. rewrite Hrun. cbn [fst]. rewrite Hdb. by apply workers_only_leased.
Qed.

Lemma registered_listing : (run (redis_available_workers demo_registry 5) registered_node).2 = Done ["w-1"].
Proof. vm_refl. Qed.

Lemma redis_directory_exact_witness :
  is_Some (members demo_registry (node_db registered_node) !! "w-1") ∧ Sorted String.le ["w-1"].
Proof.
  pose proof (redis_directory_exact demo_registry 5 registered_node registered_workers_only) as H.
  specialize (H ltac:(simpl; lia)). pose proof registered_listing as Hl.
  destruct (run (redis_available_workers demo_registry 5) registered_node) as [n' o]. cbn [snd] in Hl. subst o.
  destruct H as (Hs & _ & Hm & _). split; [apply Hm; by left|exact Hs].
Defined.

(** A configured TTL beyond the server's range, here of 2^63 milliseconds. *)
Definition oversized_registry : RedisWorkerRegistry := mkRedisWorkerRegistry "tw:workers" (2 ^ 63 * 1000000).

(** The registration fails at [PEXPIRE], after [HSET]: its answer is an error, and the
    worker is a member whose lease never ends. *)
Lemma oversized_ttl_never_expires :
  let after := run (redis_register oversized_registry demo_worker_registration) fresh_node in
  after.2 = Failed "cannot register worker: ERR invalid expire time in 'pexpire' command"
  ∧ members oversized_registry (node_db after.1) !! "w-1" = Some "g-1"
  ∧ db_deadlines (node_db after.1) !! worker_key oversized_registry "w-1" = None.
Proof. split_and!; vm_refl. Qed.
End RedisRegistryExamples.
