(* ===== verification/Assembly.v ===== *)
(** * The deployed server ([src/api/grpc.rs], [serve])

    [serve] opens a result backend, a worker registry and an execution store on the Redis
    server the broker uses, each under its own prefix.  The keys of the four are apart, if
    the task destination has no colon, and none of their operations names or changes
    another's keys. *)

From Stdlib Require Import Ascii.
From S2P Require Import Prelude RustStr Prog Protocol Concrete Broker ExecutionStore Config Redis RedisFacts RedisConcrete.
From S2P Require Import RedisExecutionStore RedisBroker RedisResultBackend RedisWorkerRegistry.

Section assembly.
Context `{P : Protocols} `{PF : Platform} {S : Type} `{R : !Redis S}.

Record deployment := mkDeployment {
  dp_broker : RedisBroker;
  dp_results : RedisResultBackend;
  dp_workers : RedisWorkerRegistry;
  dp_executions : RedisExecutionStore;
  dp_task_destination : string
}.

(** The first part of [serve], up to the construction of the service and the scheduler;
    the listener and the gRPC server are the libraries'. *)
Definition serve_stores (config : Config) (broker : RedisBroker) : result string deployment :=
  let url := redis_url (cfg_redis config) in
  let prefix := bc_key_prefix (cfg_broker config) in
  result_backend ← redis_backend_new url (prefix +:+ ":results");
  worker_registry ← redis_registry_new url (prefix +:+ ":workers")
                      (worker_membership_ttl_seconds (cfg_redis config) * 1000000000);
  execution_store ← redis_store_new url (prefix +:+ ":executions");
  Ok (mkDeployment broker result_backend worker_registry execution_store (bc_task_destination (cfg_broker config))).

(** The keys of each component. *)
Inductive broker_keys (dp : deployment) : string → Prop :=
| task_queue_key : broker_keys dp (broker_key (dp_broker dp) (dp_task_destination dp))
| worker_queue_key w : broker_keys dp (broker_key (dp_broker dp) (worker_destination w)).
Inductive result_keys (dp : deployment) : string → Prop :=
| a_result_key j : result_keys dp (result_key (dp_results dp) j).
Inductive membership_keys (dp : deployment) : string → Prop :=
| a_worker_key w : membership_keys dp (worker_key (dp_workers dp) w).
Inductive execution_keys (dp : deployment) : string → Prop :=
| an_execution_key e : execution_keys dp (execution_key (dp_executions dp) e).
End assembly.

(** ** Isolation *)

Section isolation.
Context `{P : Protocols} `{PF : Platform} {S : Type} `{R : !Redis S} `{RO : !RedisOk R}.
Implicit Types (Q : string → Prop) (d : redis_db).

(** Outside of [Q] the databases have the same keys, values and deadlines. *)
Definition same_outside Q d d' : Prop :=
  ∀ key, ¬ Q key → db_values d' !! key = db_values d !! key ∧ db_deadlines d' !! key = db_deadlines d !! key.

(** Every access of the program, and so every interleaving with others, leaves the keys
    outside of [Q] to the passage of time. *)
Fixpoint isolated {E A} Q (m : prog (redis_node S) E A) : Prop :=
  match m with
  | Ret _ | Throw _ | Panic _ => True
  | Step act k => ∀ n n' b, act n = Some (n', b) →
      (∃ d, (d = node_db n ∨ elapsed (node_db n) d) ∧ same_outside Q d (node_db n')) ∧ isolated Q (k b)
  end.

Lemma same_outside_refl Q d : same_outside Q d d.
Proof. done. Qed.

Lemma same_outside_trans Q d1 d2 d3 : same_outside Q d1 d2 → same_outside Q d2 d3 → same_outside Q d1 d3.
Proof. intros H1 H2 key Hk. destruct (H1 key Hk) as [<- <-]. by apply H2. Qed.

Lemma isolated_bind {E A B} Q (m : prog (redis_node S) E A) (k : A → prog (redis_node S) E B) :
  isolated Q m → (∀ a, isolated Q (k a)) → isolated Q (m ≫= k).
Proof.
  intros Hm Hk. induction m as [a|e|msg|C act j IH]; [apply Hk|done..|].
  intros n n' b Hact. destruct (Hm _ _ _ Hact) as [? ?]. split; [done|by apply IH].
Qed.

Lemma isolated_rethrow {E E' A} Q (f : E → E') (m : prog (redis_node S) E A) : isolated Q m → isolated Q (rethrow f m).
Proof.
  intros Hm. induction m as [a|e|msg|C act j IH]; [done..|].
  intros n n' b Hact. destruct (Hm _ _ _ Hact) as [? ?]. split; [done|by apply IH].
Qed.

Lemma isolated_lift {E A} Q (r : result E A) : isolated Q (lift_result r).
Proof. by destruct r. Qed.

Lemma isolated_connect Q : isolated Q connect.
Proof.
  intros n n' r [= H]. pose proof (connect_db (node_server n)) as Hc.
  destruct (redis_connect (node_server n)) as [s r']. injection H as <- <-.
  split; [|by destruct r']. exists (db s). split; [by right|done].
Qed.

Lemma isolated_time {E} Q : isolated Q (node_time (E:=E)).
Proof. intros n n' r [= <- <-]. split; [|done]. eexists. split; [by left|done]. Qed.

(** A script that touches no key outside of [Q]. *)
Definition script_within {A} Q (f : script S A) : Prop := ∀ s, same_outside Q (db s) (db (f s).1).

Lemma within_bind {A B} Q (m : script S A) (k : A → script S B) :
  script_within Q m → (∀ a, script_within Q (k a)) → script_within Q (m ≫= k).
Proof.
  intros Hm Hk s. specialize (Hm s). unfold mbind, script_bind. destruct (m s) as [s' [a|e]]; [|done].
  eapply same_outside_trans; [exact Hm|apply Hk].
Qed.

Lemma within_ret {A} Q (a : A) : script_within Q (mret a).
Proof. done. Qed.

Definition key_of {A} (c : command A) : option string :=
  match c with
  | EXISTS k | HGET k _ | HMGET k _ | HSET k _ | PEXPIRE k _ | RPUSH k _ | BLPOP k | SET k _ => Some k
  | SCAN _ _ _ => None
  end.

(** A command changes its own key only. *)
Lemma effect_own_key {A} glob (c : command A) d a d' key :
  effect glob c d a d' → key_of c ≠ Some key →
  db_values d' !! key = db_values d !! key ∧ db_deadlines d' !! key = db_deadlines d !! key.
Proof.
  destruct c; cbn; intros He Hk; repeat (case_match || match goal with H : _ ∧ _ |- _ => destruct H | H : ∃ _, _ |- _ => destruct H end);
    simplify_eq/=; try done; rewrite ?lookup_insert_ne, ?lookup_delete_ne by congruence; done.
Qed.

Lemma within_call {A} Q (c : command A) : (∀ key, key_of c = Some key → Q key) → script_within Q (call c).
Proof.
  intros Hc s key Hk. unfold call. pose proof (exec_db c s) as He. destruct (redis_exec c s) as [s' [a|e]]; cbn in *.
  - eapply effect_own_key; [exact He|]. intros H. by apply Hk, Hc.
  - by rewrite He.
Qed.

Lemma isolated_request {A} Q (f : script S A) n : script_within Q f →
  ∃ d, (d = node_db n ∨ elapsed (node_db n) d) ∧ same_outside Q d (node_db (request f n).1).
Proof.
  intros Hf. unfold request. pose proof (deliver_db (node_server n)) as Hd.
  destruct (redis_deliver (node_server n)) as [s dl]. specialize (Hf s). exists (db s). split; [by right|].
  destruct dl; [by destruct (f s)|done|done].
Qed.

Lemma isolated_invoke {A} Q (f : script S A) : script_within Q f → isolated Q (invoke f).
Proof.
  intros Hf n n' r [= H]. pose proof (isolated_request Q f n Hf) as Hr. rewrite H in Hr. split; [done|apply isolated_lift].
Qed.

Lemma isolated_waiting {A} Q (c : command (option A)) :
  (∀ key, key_of c = Some key → Q key) → isolated Q (query_waiting c).
Proof.
  intros Hc n n' o H. pose proof (isolated_request Q (call c) n (within_call Q c Hc)) as Hr.
  destruct (request (call c) n) as [n1 [[a|]|e]]; by simplify_eq/=.
Qed.

(** ** Footprints *)

(** Scripts made of commands that each name one key, of [Q], to read or to write. *)
Inductive names_only Q : ∀ A, script S A → Prop :=
| names_ret A (a : A) : names_only Q A (mret a)
| names_call A (c : command A) key : key_of c = Some key → Q key → names_only Q A (call c)
| names_bind A B (m : script S A) (k : A → script S B) :
    names_only Q A m → (∀ a, names_only Q B (k a)) → names_only Q B (m ≫= k).

(** Operations made of connecting, readings of the clock, and requests that name keys of
    [Q] only. *)
Inductive confined Q : ∀ E A, prog (redis_node S) E A → Prop :=
| confined_connect : confined Q _ _ connect
| confined_time E : confined Q E _ node_time
| confined_invoke A (f : script S A) : names_only Q A f → confined Q _ _ (invoke f)
| confined_waiting A (c : command (option A)) key :
    key_of c = Some key → Q key → confined Q _ _ (query_waiting c)
| confined_lift E A (r : result E A) : confined Q _ _ (lift_result r)
| confined_ret E A (a : A) : confined Q E _ (mret a)
| confined_throw E A (e : E) : confined Q _ A (Throw e)
| confined_bind E A B (m : prog (redis_node S) E A) (k : A → prog (redis_node S) E B) :
    confined Q _ _ m → (∀ a, confined Q _ _ (k a)) → confined Q _ _ (m ≫= k)
| confined_rethrow E E' A (f : E → E') (m : prog (redis_node S) E A) :
    confined Q _ _ m → confined Q _ _ (rethrow f m).

Lemma names_only_within {A} Q (f : script S A) : names_only Q A f → script_within Q f.
Proof.
  induction 1 as [A a|A c key Hc HQ|A B m k _ IHm _ IHk]; [apply within_ret|apply within_call|by apply within_bind].
  by intros k [= <-]%(eq_trans (eq_sym Hc)).
Qed.

(** What is not named is not changed. *)
Lemma confined_isolated {E A} Q (m : prog (redis_node S) E A) : confined Q E A m → isolated Q m.
Proof.
  induction 1 as [|E|A f Hf|A c key Hc HQ|E A r|E A a|E A e|E A B m k _ IHm _ IHk|E E' A f m _ IHm].
  - apply isolated_connect.
  - apply isolated_time.
  - by apply isolated_invoke, names_only_within.
  - apply isolated_waiting. by intros k [= <-]%(eq_trans (eq_sym Hc)).
  - apply isolated_lift.
  - done.
  - done.
  - by apply isolated_bind.
  - by apply isolated_rethrow.
Qed.
End isolation.
Arguments names_only {S R} Q {A} f.
Arguments confined {PF S R} Q {E A} m.

(** Structural search: the only goals left are the keys of the commands. *)
Ltac confine :=
  repeat first
    [ progress intros | progress (unfold query, store_connection) | apply confined_connect | apply confined_time
    | eapply confined_waiting; [reflexivity|] | apply confined_invoke | apply confined_lift | apply confined_rethrow
    | apply confined_ret | apply confined_throw | apply confined_bind
    | eapply names_call; [reflexivity|] | apply names_ret | apply names_bind | case_match ].

Section components.
Context `{P : Protocols} `{PF : Platform} {S : Type} `{R : !Redis S} `{RO : !RedisOk R}.

Implicit Type Q : string → Prop.

Lemma publish_confined Q b e : Q (broker_key b (be_destination e)) → confined (S:=S) Q (redis_publish b e).
Proof. intros HQ. unfold redis_publish. cbv zeta. by confine. Qed.

Lemma consume_confined Q b dest : Q (broker_key b dest) → confined (S:=S) Q (redis_consume b dest).
Proof. intros HQ. unfold redis_consume. cbv zeta. by confine. Qed.

Lemma results_confined Q x job r : Q (result_key x job) → confined (S:=S) Q (redis_store_result x job r).
Proof. intros HQ. unfold redis_store_result. by confine. Qed.

Lemma create_confined Q x r : Q (execution_key x (ex_execution_id r)) → confined (S:=S) Q (redis_create x r).
Proof. intros HQ. unfold redis_create, create_script. cbv zeta. by confine. Qed.

Lemma get_confined Q x id : Q (execution_key x id) → confined (S:=S) Q (redis_get_execution x id).
Proof. intros HQ. unfold redis_get_execution. cbv zeta. by confine. Qed.

Lemma update_confined Q x id st : Q (execution_key x id) → confined (S:=S) Q (redis_update_state x id st).
Proof. intros HQ. unfold redis_update_state, update_script. cbv zeta. by confine. Qed.

Lemma register_confined Q x r : Q (worker_key x (wr_worker_id r)) → confined (S:=S) Q (redis_register x r).
Proof. intros HQ. unfold redis_register, register_script. cbv zeta. by confine. Qed.

Lemma heartbeat_confined Q x id g : Q (worker_key x id) → confined (S:=S) Q (redis_heartbeat x id g).
Proof. intros HQ. unfold redis_heartbeat, heartbeat_script. cbv zeta. by confine. Qed.

(** The directory only reads: it is isolated from every set of keys. *)
Lemma read_only_within {A} Q (c : command A) :
  match c with HGET _ _ | SCAN _ _ _ => True | _ => False end → script_within (S:=S) Q (call c).
Proof.
  intros Hc s key _. unfold call. pose proof (exec_db c s) as He. destruct (redis_exec c s) as [s' [a|e]]; cbn in *.
  - destruct c; try done; by destruct He as [-> _].
  - by rewrite He.
Qed.

Lemma read_workers_isolated Q keys ids : isolated (S:=S) Q (read_workers keys ids).
Proof.
  revert ids. induction keys as [|key keys IH]; intros ids; [done|]. cbn [read_workers].
  apply isolated_bind; [by apply isolated_rethrow, isolated_invoke, read_only_within|]. intros [p|]; [|apply IH].
  apply isolated_bind; [apply isolated_lift|]. intros ?. apply IH.
Qed.

Lemma directory_isolated Q x fuel : isolated (S:=S) Q (redis_available_workers x fuel).
Proof.
  unfold redis_available_workers. apply isolated_bind; [apply isolated_rethrow, isolated_connect|]. intros _.
  apply isolated_bind; [|done]. generalize 0%Z, (@nil string). induction fuel as [|fuel IH]; intros c ids; [done|].
  cbn [scan_workers]. apply isolated_bind; [by apply isolated_rethrow, isolated_invoke, read_only_within|]. intros page.
  apply isolated_bind; [apply isolated_lift|]. intros keys. apply isolated_bind; [apply read_workers_isolated|].
  intros ids'. case_bool_decide; [done|apply IH].
Qed.
End components.

(** ** The deployment *)

Section deployed.
Context `{P : Protocols} `{PF : Platform} {S : Type} `{R : !Redis S} `{RO : !RedisOk R}.

Lemma serve_stores_prefixes config b dp :
  serve_stores config b = Ok dp →
  let p := bc_key_prefix (cfg_broker config) in
  dp_broker dp = b ∧ dp_task_destination dp = bc_task_destination (cfg_broker config)
  ∧ rr_key_prefix (dp_results dp) = p +:+ ":results"
  ∧ rw_key_prefix (dp_workers dp) = p +:+ ":workers"
  ∧ xs_key_prefix (dp_executions dp) = p +:+ ":executions".
Proof.
  unfold serve_stores, redis_backend_new, redis_registry_new, redis_store_new.
  destruct (redis_open _) as [u|e]; [|done]. cbn. case_bool_decide; [done|]. intros [= <-]. cbn.
  change ":workers" with (":worker" +:+ "s"). change ":executions" with (":execution" +:+ "s").
  rewrite <-!str_app_assoc, !trim_end_matches_snoc by done. done.
Qed.

(** Keys under one prefix, by what follows it. *)
Lemma under_prefix (p s t : string) : p +:+ s = p +:+ t → s = t.
Proof. intros H. by apply str_app_inv_len in H as [_ ?]. Qed.

Lemma colon_free (s t u : string) : ":"%char ∉ chars s → s ≠ t +:+ String ":" u.
Proof. intros Hs ->. rewrite chars_app in Hs. set_solver. Qed.

(** The components' keys as prefix and rest. *)
Definition rest_of (p : string) (Q : string → Prop) (form : string → Prop) : Prop :=
  ∀ key, Q key → ∃ rest, key = p +:+ rest ∧ form rest.

Lemma deployed_keys config dp :
  serve_stores config (mkRedisBroker (bc_key_prefix (cfg_broker config))) = Ok dp →
  let p := bc_key_prefix (cfg_broker config) in
  rest_of p (broker_keys dp) (λ s, s = ":" +:+ bc_task_destination (cfg_broker config) ∨ ∃ w, s = ":workers." +:+ w)
  ∧ rest_of p (result_keys dp) (λ s, ∃ j, s = ":results:" +:+ j)
  ∧ rest_of p (membership_keys dp) (λ s, ∃ w, s = ":workers:worker:" +:+ w)
  ∧ rest_of p (execution_keys dp) (λ s, ∃ e, s = ":executions:" +:+ e).
Proof.
  intros (Hb & Ht & Hr & Hw & Hx)%serve_stores_prefixes p. unfold rest_of. split_and!; intros key [].
  - eexists. unfold broker_key. rewrite Hb, Ht. split; [done|]. by left.
  - eexists. unfold broker_key. rewrite Hb. split; [done|]. right. by eexists.
  - eexists. unfold result_key. rewrite Hr, str_app_assoc. split; [done|]. by eexists.
  - eexists. unfold worker_key. rewrite Hw, str_app_assoc. split; [done|]. by eexists.
  - eexists. unfold execution_key. rewrite Hx, str_app_assoc. split; [done|]. by eexists.
Qed.

Definition disjoint_keys (Q Q' : string → Prop) : Prop := ∀ key, Q key → ¬ Q' key.

Lemma disjoint_rests p Q Q' (form form' : string → Prop) :
  rest_of p Q form → rest_of p Q' form' → (∀ s, form s → ¬ form' s) → disjoint_keys Q Q'.
Proof. intros H1 H2 Hf key (s & -> & Hs)%H1 (t & <-%under_prefix & Ht)%H2. by apply (Hf s). Qed.

(** The keys of the components are apart. *)
Definition keys_apart (dp : deployment) : Prop :=
  disjoint_keys (broker_keys dp) (result_keys dp) ∧ disjoint_keys (broker_keys dp) (membership_keys dp)
  ∧ disjoint_keys (broker_keys dp) (execution_keys dp) ∧ disjoint_keys (result_keys dp) (membership_keys dp)
  ∧ disjoint_keys (result_keys dp) (execution_keys dp) ∧ disjoint_keys (membership_keys dp) (execution_keys dp).

Lemma deployed_apart config dp :
  serve_stores config (mkRedisBroker (bc_key_prefix (cfg_broker config))) = Ok dp →
  ":"%char ∉ chars (bc_task_destination (cfg_broker config)) → keys_apart dp.
Proof.
  intros Hdp Hcolon. destruct (deployed_keys config dp Hdp) as (Hb & Hr & Hw & Hx). split_and!;
    (eapply disjoint_rests; [eassumption..|]); simpl; intros s Hs [t ->].
  1,2,3: destruct Hs as [Ht|[w Ht]]; [|discriminate Ht]; injection Ht as Ht; rewrite str_nil_app in Ht; rewrite <-Ht in Hcolon.
  - by apply (colon_free _ "results" t) in Hcolon.
  - by apply (colon_free _ "workers" ("worker:" +:+ t)) in Hcolon.
  - by apply (colon_free _ "executions" t) in Hcolon.
  - by destruct Hs.
  - by destruct Hs.
  - by destruct Hs.
Qed.

(** Named by the operation, and changed by it: keys of [Q] only. *)
Definition keeps_to {E A} (Q : string → Prop) (m : prog (redis_node S) E A) : Prop := confined Q m ∧ isolated Q m.

Lemma confined_keeps_to {E A} Q (m : prog (redis_node S) E A) : confined Q m → keeps_to Q m.
Proof. split; [done|by apply confined_isolated]. Qed.

End deployed.

(** ** Examples *)

Module AssemblyExamples.
Import Concrete RedisConcrete RedisBrokerExamples RedisStoreExamples.

Definition demo_config : Config :=
  mkConfig (Some (mkServerConfig "127.0.0.1:0")) (mkRedisConfig "redis://localhost:6379" 30)
    (mkBrokerConfig "threadweave:broker" "tasks") None.

Definition demo_deployment : deployment :=
  mkDeployment (mkRedisBroker "threadweave:broker") (mkRedisResultBackend "threadweave:broker:results")
    (mkRedisWorkerRegistry "threadweave:broker:workers" 30000000000)
    (mkRedisExecutionStore "threadweave:broker:executions") "tasks".


(** The condition on the task destination is needed: under [results:x] the task queue is
    the key of the result of job [x]. *)
Example colliding_task_destination :
  broker_key (mkRedisBroker "threadweave:broker") "results:x"
  = result_key (mkRedisResultBackend "threadweave:broker:results") "x".
Proof. reflexivity. Qed.
End AssemblyExamples.
