(* ===== verification/Fleet.v ===== *)
(** * Servers that share one Redis database

    The deployment [serve] sets up: any number of server processes, each with the job
    table of its own [CoreExecutionService] and its own scheduler, whose broker, result
    backend, worker registry and execution store are keys of one Redis database.  Requests
    and answers may be lost, leases run out while handlers run, and servers restart.  The
    invariants of [ControlLogic.v] hold all the same, because no component touches the keys
    of another. *)

From Stdlib Require Import Ascii.
From stdpp Require Import vector.
From S2P Require Import Prelude RustStr Prog Protocol Concrete WorkerRegistry ExecutionStore Broker ResultBackend.
From S2P Require Import Control Scheduler CoreService ControlLogic Config Redis RedisFacts RedisConcrete.
From S2P Require Import RedisExecutionStore RedisBroker RedisResultBackend RedisWorkerRegistry Assembly.

(** ** The state *)

Section state.
Context `{P : Protocols} {S : Type} {n : nat}.

(** [n] server processes; clock readings and identifiers are drawn from one supply. *)
Record fleet := mkFleet {
  f_env : env;
  f_jobs : vec JobTable n;
  f_node : redis_node S
}.

Definition fenv_l : lens fleet env := Lens f_env (λ x w, mkFleet x (f_jobs w) (f_node w)).
Definition fjobs_l (i : fin n) : lens fleet JobTable :=
  Lens (λ w, f_jobs w !!! i) (λ x w, mkFleet (f_env w) (vinsert i x (f_jobs w)) (f_node w)).
Definition fnode_l : lens fleet (redis_node S) := Lens f_node (λ x w, mkFleet (f_env w) (f_jobs w) x).

#[export] Instance fenv_l_ok : LensOk fenv_l.
Proof. by split; try intros []; intros. Qed.
#[export] Instance fnode_l_ok : LensOk fnode_l.
Proof. by split; try intros []; intros. Qed.
#[export] Instance fjobs_l_ok i : LensOk (fjobs_l i).
Proof.
  split.
  - intros t w. cbn. apply vlookup_insert.
  - intros [e js nd]. cbn. by rewrite vlookup_insert_self.
  - intros t t' w. cbn. f_equal. apply vec_eq. intros j. destruct (decide (i = j)) as [<-|Hne].
    + by rewrite !vlookup_insert.
    + by rewrite !vlookup_insert_ne.
Qed.

(** Server [i]: its own table, and the database for everything else. *)
Definition fleet_state (i : fin n) : ControlState fleet (redis_node S) (redis_node S) (redis_node S) (redis_node S) :=
  {| env_l := fenv_l; jobs_l := fjobs_l i; broker_l := fnode_l; results_l := fnode_l;
     workers_l := fnode_l; executions_l := fnode_l |}.
End state.
Arguments fleet {_} S n.

(** ** Frames *)

(** A component's operation, with what it leaves of another component. *)
Section frame.
Context `{P : Protocols} `{PF : Platform} {S : Type} `{R : !Redis S} `{RO : !RedisOk R} {n : nat}.
Implicit Types (w : fleet S n) (d : redis_db).

Abbreviation fleet_db w := (node_db (f_node w)).

(** What depends on keys outside of [Q] only and lasts. *)
Definition untouched_by {V} (Q : string → Prop) (inv : redis_db → Prop) (abs : redis_db → V) : Prop :=
  (∀ d d', inv d → elapsed d d' → inv d' ∧ abs d' = abs d)
  ∧ ∀ d d', inv d → same_outside Q d d' → inv d' ∧ abs d' = abs d.

Lemma untouched_step {V} Q inv (abs : redis_db → V) d d1 d' :
  untouched_by Q inv abs → (d1 = d ∨ elapsed d d1) → same_outside Q d1 d' → inv d → inv d' ∧ abs d' = abs d.
Proof.
  intros [Ht Ho] Hd1 Hs Hd. assert (inv d1 ∧ abs d1 = abs d) as [Hi1 <-] by (destruct Hd1 as [->|]; auto).
  by apply Ho.
Qed.

Lemma isolated_takes_effect {E A V1 V2} Q (m : prog (redis_node S) E A) inv1 (abs1 : redis_db → V1) spec
    inv2 (abs2 : redis_db → V2) :
  lin_on (λ n, inv1 (node_db n)) (λ n, abs1 (node_db n)) spec m → isolated Q m → untouched_by Q inv2 abs2 →
  takes_effect (λ w, inv1 (fleet_db w) ∧ inv2 (fleet_db w))
    (λ w w', f_jobs w' = f_jobs w ∧ abs1 (fleet_db w') = abs1 (fleet_db w) ∧ abs2 (fleet_db w') = abs2 (fleet_db w))
    (λ w r w', f_jobs w' = f_jobs w ∧ spec (abs1 (fleet_db w)) r (abs1 (fleet_db w')) ∧ abs2 (fleet_db w') = abs2 (fleet_db w))
    (zoom fnode_l m).
Proof.
  intros Hm Hi Hu. induction m as [a|e|msg|B act k IH]; simpl; [done..|].
  intros w w' b [H1 H2] Hact. destruct (act (f_node w)) as [[nd b']|] eqn:Ha; simplify_eq/=.
  destruct (Hm _ _ _ H1 Ha) as [H1' Hk]. destruct (Hi _ _ _ Ha) as [(d & Hd & Hs) Hik].
  destruct (untouched_step _ _ _ _ _ _ Hu Hd Hs H2) as [H2' Hab]. split; [done|].
  destruct Hk as [[Habs Hk]|Hk]; [left; auto|right]. by destruct (k b).
Qed.

Lemma isolated_quiet {E A V} Q (m : prog (redis_node S) E A) inv (abs : redis_db → V) :
  isolated Q m → untouched_by Q inv abs →
  quiet (λ w, inv (fleet_db w)) (λ w w', f_jobs w' = f_jobs w ∧ abs (fleet_db w') = abs (fleet_db w)) (zoom fnode_l m).
Proof.
  intros Hi Hu. induction m as [a|e|msg|B act k IH]; simpl; [done..|].
  intros w w' b H1 Hact. destruct (act (f_node w)) as [[nd b']|] eqn:Ha; simplify_eq/=.
  destruct (Hi _ _ _ Ha) as [(d & Hd & Hs) Hik]. destruct (untouched_step _ _ _ _ _ _ Hu Hd Hs H1) as [? ?]. auto.
Qed.

Lemma untouched_both {V1 V2} Q inv1 (abs1 : redis_db → V1) inv2 (abs2 : redis_db → V2) :
  untouched_by Q inv1 abs1 → untouched_by Q inv2 abs2 →
  untouched_by Q (λ d, inv1 d ∧ inv2 d) (λ d, (abs1 d, abs2 d)).
Proof.
  intros [A1 B1] [A2 B2]. split; intros d d' [H1 H2] Hd.
  - destruct (A1 _ _ H1 Hd) as [? ->], (A2 _ _ H2 Hd) as [? ->]. done.
  - destruct (B1 _ _ H1 Hd) as [? ->], (B2 _ _ H2 Hd) as [? ->]. done.
Qed.

(** Queues and records, by operations on other keys. *)
Lemma queues_untouched b D Q :
  (∀ dest, D dest = true → ¬ Q (broker_key b dest)) → untouched_by Q (queues_last b D) (stored_queues b D).
Proof.
  intros HQ. split; [intros; by apply queues_in_time|]. intros d d' Hd Hs. split.
  - intros dest HD. destruct (Hs (broker_key b dest)) as [_ ->]; [by apply HQ|by apply Hd].
  - apply queues_same. intros dest HD. by destruct (Hs (broker_key b dest)) as [-> _]; [apply HQ|].
Qed.

Lemma records_untouched x Q :
  (∀ id, ¬ Q (execution_key x id)) → untouched_by Q (records_only x) (stored_records x).
Proof.
  intros HQ. split; [intros; by apply records_in_time|]. intros d d' Hd Hs. split.
  - intros id. destruct (Hs (execution_key x id) (HQ id)) as [-> ->]. apply Hd.
  - apply map_eq. intros id. rewrite !lookup_records. by destruct (Hs (execution_key x id) (HQ id)) as [-> _].
Qed.
End frame.

(** ** The servers *)

Section servers.
Context `{P : Protocols} `{PO : !ProtocolsOk P} `{PF : Platform} {S : Type} `{R : !Redis S} `{RO : !RedisOk R} {n : nat}.
Context (dp : deployment) (fuel : nat).
Implicit Types w : fleet S n.

(** The queues that are used: the task queue and those of the workers. *)
Definition deployed_dest (dest : string) : bool :=
  bool_decide (dest = dp_task_destination dp) || bool_decide (is_Some (strip_prefix "workers." dest)).

Lemma deployed_dest_key dest : deployed_dest dest = true → broker_keys dp (broker_key (dp_broker dp) dest).
Proof.
  intros [H|H]%orb_true_iff; apply bool_decide_eq_true_1 in H; [subst; constructor|].
  destruct H as [w ->%strip_prefix_Some]. apply worker_queue_key.
Qed.

#[local] Instance fleet_broker : Broker (redis_node S) := redis_broker (dp_broker dp).
#[local] Instance fleet_results : BackendResult (redis_node S) := redis_result_backend (dp_results dp).
#[local] Instance fleet_workers : WorkerRegistry (redis_node S) := redis_worker_registry (dp_workers dp) fuel.
#[local] Instance fleet_executions : ExecutionStore (redis_node S) := redis_execution_store (dp_executions dp).

Definition fleet_queues w : string → list BrokerEnvelope := stored_queues (dp_broker dp) deployed_dest (node_db (f_node w)).
Definition fleet_records w : gmap string ExecutionRecord := stored_records (dp_executions dp) (node_db (f_node w)).
Definition fleet_stores_ok w : Prop :=
  queues_last (dp_broker dp) deployed_dest (node_db (f_node w)) ∧ records_only (dp_executions dp) (node_db (f_node w)).

#[local] Instance fleet_view : ControlView (fleet S n) :=
  {| ctl_inv := fleet_stores_ok; ctl_server := fin n; ctl_table i w := f_jobs w !!! i;
     ctl_dest d := deployed_dest d = true; ctl_queue := fleet_queues; ctl_records := fleet_records |}.

Context (apart : keys_apart dp).

Lemma queues_beside (Q : string → Prop) :
  disjoint_keys (broker_keys dp) Q → untouched_by Q (queues_last (dp_broker dp) deployed_dest) (stored_queues (dp_broker dp) deployed_dest).
Proof. intros HQ. apply queues_untouched. intros dest Hd. by apply HQ, deployed_dest_key. Qed.

Lemma records_beside (Q : string → Prop) :
  disjoint_keys Q (execution_keys dp) → untouched_by Q (records_only (dp_executions dp)) (stored_records (dp_executions dp)).
Proof. intros HQ. apply records_untouched. intros id Hid. apply (HQ _ Hid). constructor. Qed.

(** The broker's operations beside the records, and the store's beside the queues. *)
Lemma broker_effect {E A} (m : prog (redis_node S) E A) spec (effect : fleet S n → result E A → fleet S n → Prop) :
  lin_on (λ nd, queues_last (dp_broker dp) deployed_dest (node_db nd))
    (λ nd, stored_queues (dp_broker dp) deployed_dest (node_db nd)) spec m →
  isolated (broker_keys dp) m →
  (∀ w r w', same_tables w w' → same_records w w' → spec (fleet_queues w) r (fleet_queues w') → effect w r w') →
  takes_effect ctl_inv same_view effect (zoom fnode_l m).
Proof.
  intros Hm Hi He. destruct apart as (_ & _ & Hbx & _).
  eapply takes_effect_mono; [..|exact (isolated_takes_effect (n:=n) _ _ _ _ _ _ _ Hm Hi (records_beside _ Hbx))]; [done|..].
  - intros w w' (Ht & Hq & Hr). split; [intros i; cbn; by rewrite Ht|]. split; [|exact Hr]. intros d _. cbn. unfold fleet_queues. by rewrite Hq.
  - intros w r w' (Ht & Hs & Hr). apply He; [intros i; cbn; by rewrite Ht|exact Hr|exact Hs].
Qed.

Lemma store_effect {E A} (m : prog (redis_node S) E A) spec (effect : fleet S n → result E A → fleet S n → Prop) :
  lin_on (λ nd, records_only (dp_executions dp) (node_db nd))
    (λ nd, stored_records (dp_executions dp) (node_db nd)) spec m →
  isolated (execution_keys dp) m →
  (∀ w r w', same_tables w w' → same_queues w w' → spec (fleet_records w) r (fleet_records w') → effect w r w') →
  takes_effect ctl_inv same_view effect (zoom fnode_l m).
Proof.
  intros Hm Hi He. destruct apart as (_ & _ & Hbx & _).
  eapply takes_effect_mono; [..|exact (isolated_takes_effect (n:=n) _ _ _ _ _ _ _ Hm Hi (queues_beside _ Hbx))].
  - intros w. cbn. unfold fleet_stores_ok. tauto.
  - intros w w' (Ht & Hr & Hq). split; [intros i; cbn; by rewrite Ht|]. split; [|exact Hr]. intros d _. cbn. unfold fleet_queues. by rewrite Hq.
  - intros w r w' (Ht & Hs & Hq). apply He; [intros i; cbn; by rewrite Ht| |exact Hs]. intros d _. cbn. unfold fleet_queues. by rewrite Hq.
Qed.

(** The other components beside both. *)
Lemma beside_both {E A} Q (m : prog (redis_node S) E A) :
  isolated Q m → disjoint_keys (broker_keys dp) Q → disjoint_keys Q (execution_keys dp) →
  quiet ctl_inv same_view (zoom fnode_l m).
Proof.
  intros Hi Hb Hx.
  eapply quiet_mono; [..|exact (isolated_quiet (n:=n) _ _ _ _ Hi (untouched_both _ _ _ _ _ (queues_beside Q Hb) (records_beside Q Hx)))]; [done|].
  intros w w' (Ht & Hd). injection Hd as Hq Hr. split; [intros i; cbn; by rewrite Ht|].
  split; [|exact Hr]. intros d _. cbn. unfold fleet_queues. by rewrite Hq.
Qed.

Lemma fleet_ok i : ControlOk (fleet_state (S:=S) i).
Proof.
  destruct apart as (Hbr & Hbw & Hbx & Hrw & Hrx & Hwx). split.
  - by exists i.
  - intros t w Hw. split_and!; [done..|]. intros j. cbn. destruct (decide (i = j)) as [<-|Hne].
    + left. apply vlookup_insert.
    + right. by apply vlookup_insert_ne.
  - done.
  - intros e He. eapply broker_effect; [by apply redis_publish_lin|by apply confined_isolated, publish_confined, deployed_dest_key|].
    intros w r w' Ht Hr Hs. split_and!; [done..|]. destruct r as [u|err]; [left; intros d _; apply Hs|].
    destruct Hs as [Hs|Hs]; [right; split; [done|]|left]; intros d _; apply Hs.
  - intros d Hd. eapply broker_effect; [by apply redis_consume_lin|by apply confined_isolated, consume_confined, deployed_dest_key|].
    intros w r w' Ht Hr [Hother Ho]. split_and!; [done..|]. intros d' _ e He. cbn in *.
    destruct (decide (d' = d)) as [->|Hne]; [|by rewrite <-Hother].
    destruct r as [e'|err]; [rewrite Ho; set_solver|]. destruct Ho as [->|[e' ->]]; set_solver.
  - intros r. eapply store_effect; [apply redis_create_lin|apply confined_isolated, create_confined; constructor|by intros].
  - intros id. eapply store_effect; [apply redis_get_lin|apply confined_isolated, get_confined; constructor|by intros].
  - intros id st. eapply store_effect; [apply redis_update_lin|apply confined_isolated, update_confined; constructor|by intros].
  - intros job r. apply (beside_both (result_keys dp)); [apply confined_isolated, results_confined; constructor|done..].
  - intros r. apply (beside_both (membership_keys dp)); [apply confined_isolated, register_confined; constructor|done..].
  - intros id g. apply (beside_both (membership_keys dp)); [apply confined_isolated, heartbeat_confined; constructor|done..].
  - apply (beside_both (λ _, False)); [apply directory_isolated|by intros ?? []|by intros ? []].
Qed.
(** ** Everything at once *)

(** What may start at any time: a task of one of the servers, or the restart of one, which
    begins with an empty job table; the tasks a crash interrupts do not go on. *)
Inductive fleet_task : prog (fleet S n) Empty_set unit → Prop :=
| FleetServer i m : control_task (fleet_state i) (dp_task_destination dp) m → fleet_task m
| FleetRestart i : fleet_task (atomic (λ w, (put (fjobs_l i) (mkJobTable false ∅) w, tt))).

(** Servers that have just started, on a database that is empty or that earlier servers
    have left. *)
Definition fleet_start w : Prop :=
  (∀ i, f_jobs w !!! i = mkJobTable false ∅) ∧ fleet_stores_ok w ∧ deliveries_ok w.

Context (queue_apart : ∀ worker, dp_task_destination dp ≠ worker_destination worker).

Lemma workers_deployed worker : deployed_dest (worker_destination worker) = true.
Proof. apply orb_true_iff. right. apply bool_decide_eq_true_2. exists worker. by apply strip_prefix_Some. Qed.

Lemma fleet_task_sound m : fleet_task m → rg True control_inv records_grow (λ _, True) m (λ _ _, True).
Proof.
  intros [i m' Hm|i]; pose proof (fleet_ok i).
  - eapply (control_task_sound (dp_task_destination dp)); [|apply workers_deployed|done|exact Hm].
    apply orb_true_iff. left. by apply bool_decide_eq_true_2.
  - apply (rg_atomic _ _ _ _ _ (λ _ _, True)); [|done..]. intros w HI _.
    destruct (write_table (CV:=fleet_view) (CS:=fleet_state i) workers_deployed w (mkJobTable false ∅) HI) as [? ?]; [|done].
    intros _ id r. cbn [jobs]. by rewrite lookup_empty.
Qed.

Lemma fleet_start_inv w : fleet_start w → control_inv w.
Proof.
  intros (Hj & Hs & Hd). split_and!; [done| |done]. intros i id r. cbn [ctl_table fleet_view]. rewrite Hj.
  cbn [jobs]. by rewrite lookup_empty.
Qed.

Lemma fleet_reachable_inv w w' ps :
  fleet_start w → rtc (interleave fleet_task) (w, []) (w', ps) → control_inv w'.
Proof. intros Hw. apply control_reachable_inv; [apply fleet_task_sound|by apply fleet_start_inv]. Qed.

(** A record of the store is a hash in the database. *)
Lemma fleet_record_hash w id r :
  fleet_records w !! id = Some r →
  ∃ h, db_values (node_db (f_node w)) !! execution_key (dp_executions dp) id = Some (RHash h)
    ∧ h !! "execution_id" = Some (ex_execution_id r) ∧ h !! "job_id" = Some (ex_job_id r)
    ∧ h !! "assignment_id" = Some (ex_assignment_id r) ∧ h !! "worker_id" = Some (ex_worker_id r).
Proof.
  unfold fleet_records. rewrite lookup_records. intros (v & Hv & Hr)%bind_Some.
  apply record_of_fields in Hr as (h & -> & ?). by exists h.
Qed.

(** An entry of a worker's list that is an envelope is in the worker's queue. *)
Lemma fleet_queue_entry w worker l payload e :
  db_values (node_db (f_node w)) !! broker_key (dp_broker dp) (worker_destination worker) = Some (RList l) →
  payload ∈ l → decode_envelope payload = Ok e → e ∈ fleet_queues w (worker_destination worker).
Proof.
  intros Hl Hp He. unfold fleet_queues. rewrite lookup_queues, workers_deployed, Hl. cbn.
  apply list_elem_of_omap. exists payload. split; [done|]. unfold envelope_of. by rewrite He.
Qed.
End servers.

(** ** The theorems *)

Section deployed.
Context `{P : Protocols} `{PO : !ProtocolsOk P} `{PF : Platform} {S : Type} `{R : !Redis S} `{RO : !RedisOk R} {n : nat}.
Context (config : Config) (dp : deployment) (fuel : nat).
Abbreviation prefix := (bc_key_prefix (cfg_broker config)).
Abbreviation task_destination := (bc_task_destination (cfg_broker config)).
Hypothesis deployed : serve_stores config (mkRedisBroker prefix) = Ok dp.
Hypothesis no_colon : ":"%char ∉ chars task_destination.
Hypothesis queue_apart : ∀ worker, task_destination ≠ worker_destination worker.
Implicit Types w : fleet S n.

Lemma deployed_inv w w' ps :
  fleet_start dp w → rtc (interleave (fleet_task dp fuel)) (w, []) (w', ps) → control_inv (CV:=fleet_view dp) w'.
Proof.
  apply fleet_reachable_inv; [by eapply deployed_apart|]. intros worker.
  destruct (serve_stores_prefixes _ _ _ deployed) as (_ & -> & _). apply queue_apart.
Qed.

Lemma deployed_execution_key id : execution_key (dp_executions dp) id = prefix +:+ ":executions:" +:+ id.
Proof.
  destruct (serve_stores_prefixes _ _ _ deployed) as (_ & _ & _ & _ & Hx). unfold execution_key.
  by rewrite Hx, str_app_assoc.
Qed.

Lemma deployed_worker_queue_key worker :
  broker_key (dp_broker dp) (worker_destination worker) = prefix +:+ ":workers." +:+ worker.
Proof. destruct (serve_stores_prefixes _ _ _ deployed) as (-> & _). done. Qed.

(** C13: persist before publish, in the database.  Any number of servers of one
    configuration, with their schedulers, share a Redis database with the workers;
    requests and answers may be lost at any point, leases run out, servers restart.  At
    every moment, every envelope in the list of a worker's queue carries an encoded
    assignment, and the database has the hash of its execution under the key of that
    execution, with the fields of this assignment, its job and this worker.  (The task
    destination has no colon and is not a worker's queue.) *)
Theorem fleet_assignments_recorded w w' ps worker l payload e :
  fleet_start dp w → rtc (interleave (fleet_task dp fuel)) (w, []) (w', ps) →
  db_values (node_db (f_node w')) !! (prefix +:+ ":workers." +:+ worker) = Some (RList l) →
  payload ∈ l → decode_envelope payload = Ok e →
  ∃ a h, decode_assign (be_payload e) = Ok a ∧ be_correlation_id e = Some (ae_job_id a)
    ∧ db_values (node_db (f_node w')) !! (prefix +:+ ":executions:" +:+ ae_execution_id a) = Some (RHash h)
    ∧ h !! "execution_id" = Some (ae_execution_id a) ∧ h !! "job_id" = Some (ae_job_id a)
    ∧ h !! "assignment_id" = Some (ae_assignment_id a) ∧ h !! "worker_id" = Some worker.
Proof.
  intros Hw Hsteps Hl Hp He. destruct (deployed_inv _ _ _ Hw Hsteps) as (_ & _ & HD).
  rewrite <-deployed_worker_queue_key in Hl.
  destruct (HD worker e) as (a & Ha & Hc & r & Hr & H1 & H2 & H3 & H4); [by eapply fleet_queue_entry|].
  apply fleet_record_hash in Hr as (h & Hh & F1 & F2 & F3 & F4). rewrite deployed_execution_key in Hh.
  exists a, h. rewrite F1, F2, F3, F4, H1, H2, H3, H4. done.
Qed.

(** C14: the job tables of such servers are coherent and traceable.  At every moment a job
    in the table of any of them is stored under its own identifier as accepted, running or
    finished as its result says; once past its acceptance, the database has the hash of an
    execution of this job; and the execution its result names is one of those, although
    another server may have scheduled it and another one recorded it.  (The task destination
    has no colon and is not a worker's queue.) *)
Theorem fleet_jobs_traced w w' ps i id r :
  fleet_start dp w → rtc (interleave (fleet_task dp fuel)) (w, []) (w', ps) →
  jobs (f_jobs w' !!! i) !! id = Some r →
  let execution_of key := ∃ h, db_values (node_db (f_node w')) !! key = Some (RHash h) ∧ h !! "job_id" = Some id in
  job_ok id r
  ∧ (job_state (job r) ≠ job_state_code JS_Accepted → ∃ x, execution_of (prefix +:+ ":executions:" +:+ x))
  ∧ ∀ o, job_result r = Some o → execution_of (prefix +:+ ":executions:" +:+ jr_execution_id o).
Proof.
  intros Hw Hsteps Hr execution_of. destruct (deployed_inv _ _ _ Hw Hsteps) as (_ & HJ & _).
  destruct (HJ i id r Hr) as [Hok [H1 H2]].
  assert (∀ x, executed (CV:=fleet_view dp) x id w' → execution_of (prefix +:+ ":executions:" +:+ x)) as Hex.
  { intros x (y & Hy & Hid). apply fleet_record_hash in Hy as (h & Hh & _ & Hj & _).
    rewrite deployed_execution_key in Hh. exists h. by rewrite <-Hid. }
  split_and!; [done| |by eauto]. intros Hs. destruct (H1 Hs) as [x Hx]. eauto.
Qed.
End deployed.

(** ** Examples *)

Module FleetExamples.
Import Concrete RedisConcrete AssemblyExamples.

Abbreviation pair := (fleet server 2).
Definition first_server : fin 2 := 0%fin.
Definition second_server : fin 2 := 1%fin.

#[local] Instance pair_broker : Broker (redis_node server) := fleet_broker demo_deployment.
#[local] Instance pair_results : BackendResult (redis_node server) := fleet_results demo_deployment.
#[local] Instance pair_workers : WorkerRegistry (redis_node server) := fleet_workers demo_deployment 3.
#[local] Instance pair_executions : ExecutionStore (redis_node server) := fleet_executions demo_deployment.

(** Two servers on an empty database; the second request of all is executed, but its answer
    is lost. *)
Definition pair_start : pair :=
  mkFleet (mkEnv 0 0) [# mkJobTable false ∅; mkJobTable false ∅]
    (mkNode (mkServer (mkDb 0 ∅ ∅) [Delivered; ReplyLost "connection reset"]) 0).

Definition demo_registration : WorkerRegistration :=
  {| wr_worker_id := "w1"; wr_node_id := None; wr_generation := "g1"; wr_implementation_version := "0.1.0";
     wr_protocol_versions := []; wr_endpoint := ""; wr_executors := []; wr_capacity := None; wr_metadata := None |}.
Definition demo_submission : SubmitTaskRequest :=
  {| st_application_namespace := "dev"; st_task_name := "add"; st_arguments := "1"; st_serialization_format := "json";
     st_resources := None; st_metadata := None; st_command_id := ""; st_task := None;
     st_parent_execution_id := None; st_rest := 0%Z |}.

(** The worker registers with the first server, twice for the lost answer; the task is
    submitted to the second; the first one schedules it. *)
Definition scheduling : list (prog pair Empty_set unit) :=
  [detached (core_register_worker (CS:=fleet_state first_server) (Some demo_registration));
   detached (core_register_worker (CS:=fleet_state first_server) (Some demo_registration));
   detached (submit_task (CS:=fleet_state second_server) "tasks" demo_submission);
   detached (scheduler_run (CS:=fleet_state first_server) "tasks" 1)].

Definition scheduled_pair : pair := fold_left (λ w p, (run p w).1) scheduling pair_start.

(** The list at a key, where there is one. *)
Definition list_of (o : option redis_value) : option (list bytes) :=
  match o with Some (RList l) => Some l | _ => None end.

Lemma list_of_Some o : bool_decide (is_Some (list_of o)) = true → o = Some (RList (default [] (list_of o))).
Proof. intros [l Hl]%bool_decide_eq_true_1. by destruct o as [[]|]. Qed.

Definition worker_list : list bytes :=
  default [] (list_of (db_values (node_db (f_node scheduled_pair)) !! "threadweave:broker:workers.w1")).

Definition worker_entry : bytes := default "" (head worker_list).
Definition worker_message : BrokerEnvelope :=
  ok_value (submission_envelope "" "" "" 0 demo_submission) (decode_envelope worker_entry).

Lemma demo_deployed :
  serve_stores (S:=server) demo_config (mkRedisBroker (bc_key_prefix (cfg_broker demo_config))) = Ok demo_deployment.
Proof. reflexivity. Qed.

Lemma demo_apart worker : bc_task_destination (cfg_broker demo_config) ≠ worker_destination worker.
Proof. discriminate. Qed.

Lemma demo_no_colon : ":"%char ∉ chars (bc_task_destination (cfg_broker demo_config)).
Proof. vm_compute. set_solver. Qed.

Lemma pair_starts : fleet_start demo_deployment pair_start.
Proof.
  split_and!.
  - intros i. by inv_fin i; [|intros i; inv_fin i; [|intros i; inv_fin i]].
  - split; [done|]. intros id. split; [done|]. intros v. cbn. by rewrite lookup_empty.
  - intros worker e. cbn. unfold fleet_queues. rewrite lookup_queues, workers_deployed. cbn.
    rewrite lookup_empty. by intros He%not_elem_of_nil.
Qed.

Lemma scheduling_tasks : Forall (fleet_task demo_deployment 3) scheduling.
Proof.
  repeat constructor; [apply (FleetServer _ _ first_server)|apply (FleetServer _ _ first_server)|
    apply (FleetServer _ _ second_server)|apply (FleetServer _ _ first_server)]; constructor.
Qed.

Lemma fleet_assignments_recorded_witness :
  ∃ a h, decode_assign (be_payload worker_message) = Ok a
    ∧ db_values (node_db (f_node scheduled_pair)) !! ("threadweave:broker:executions:" +:+ ae_execution_id a) = Some (RHash h)
    ∧ h !! "worker_id" = Some "w1".
Proof.
  destruct (interleave_calls (fleet_task demo_deployment 3) pair_start [] scheduling scheduling_tasks) as [ps Hsteps].
  destruct (fleet_assignments_recorded demo_config demo_deployment 3 demo_deployed demo_no_colon demo_apart
    pair_start scheduled_pair ps "w1" worker_list worker_entry worker_message pair_starts Hsteps)
    as (a & h & Ha & _ & Hh & _ & _ & _ & Hw).
  - apply (list_of_Some (db_values _ !! "threadweave:broker:workers.w1")). vm_refl.
  - apply default_head_elem. vm_refl.
  - apply ok_value_Ok. vm_refl.
  - exists a, h. split; [exact Ha|]. split; [exact Hh|exact Hw].
Defined.

(** The execution is reported to the second server, after the first one has restarted. *)
Definition demo_outcome : JobResult :=
  {| jr_payload := "2"; jr_serialization_format := "json"; jr_failure := None; jr_execution_id := ""; jr_rest := 0%Z |}.
Definition demo_report : ReportExecutionRequest :=
  {| re_report_id := "r"; re_assignment_id := "2"; re_execution_id := "3"; re_sequence_number := 1;
     re_state := execution_state_code ES_Succeeded; re_outcome := Some demo_outcome; re_observed_at := None |}.
Definition finishing : list (prog pair Empty_set unit) :=
  scheduling ++ [atomic (λ w, (put (fjobs_l first_server) (mkJobTable false ∅) w, tt));
                 detached (core_report_execution (CS:=fleet_state second_server) demo_report)].
Definition finished_pair : pair := fold_left (λ w p, (run p w).1) finishing pair_start.
Definition finished_job : JobRecord :=
  default (mkJobRecord (accepted_job "" 0 demo_submission) None) (jobs (f_jobs finished_pair !!! second_server) !! "0").

Lemma finishing_tasks : Forall (fleet_task demo_deployment 3) finishing.
Proof.
  apply Forall_app. split; [apply scheduling_tasks|].
  repeat constructor. apply (FleetServer _ _ second_server). constructor.
Qed.

Definition finished_result : JobResult := default default_job_result (job_result finished_job).

Lemma fleet_jobs_traced_witness :
  job_ok "0" finished_job
  ∧ (∃ h, db_values (node_db (f_node finished_pair)) !! ("threadweave:broker:executions:" +:+ jr_execution_id finished_result)
            = Some (RHash h)
      ∧ h !! "job_id" = Some "0")
  ∧ jr_execution_id finished_result = "3".
Proof.
  destruct (interleave_calls (fleet_task demo_deployment 3) pair_start [] finishing finishing_tasks) as [ps Hsteps].
  destruct (fleet_jobs_traced demo_config demo_deployment 3 demo_deployed demo_no_colon demo_apart
    pair_start finished_pair ps second_server "0" finished_job pair_starts Hsteps) as (Hok & _ & Hresult).
  - apply default_Some. vm_refl.
  - split_and!; [exact Hok| |vm_refl]. apply Hresult. apply default_Some. vm_refl.
Defined.
End FleetExamples.
