(* ===== verification/Startup.v ===== *)
(** * Startup ([src/startup.rs], [src/main.rs])

    What the program prints when it starts, and what each role does before it runs: the
    checks of its configuration, the Redis URL, the stores and the listener. *)

From Stdlib Require Import Ascii.
From S2P Require Import Prelude RustStr Prog Protocol Serde Config Redis RedisConcrete.
From S2P Require Import RedisExecutionStore RedisBroker RedisResultBackend RedisWorkerRegistry Assembly.

Definition DESCRIPTION : string := "A language-agnostic, resource-aware distributed execution engine for modern workloads. ThreadWeave orchestrates tasks, scheduling, resources, and observability while letting any language provide its own native runtime through a stable execution protocol.".

Definition PROTOCOL_VERSIONS : string := "common/v1, artifacts/v1, broker/v1, execution/v1, runtime/v1".
Definition PROTOCOLS : list string := ["common/v1"; "artifacts/v1"; "broker/v1"; "execution/v1"; "runtime/v1"].

Definition address_without_credentials (address : string) : string :=
  match split_once "://" address with
  | None => address
  | Some (scheme, remainder) =>
    match rsplit_once "@" remainder with
    | None => address
    | Some (_, endpoint) => scheme +:+ "://" +:+ endpoint
    end
  end.

(** ** The startup information *)

(** The values of [serde_json] the program builds; their text is the library's. *)
Inductive json : Type :=
| JString (s : string)
| JArray (l : list json)
| JObject (fields : list (string * json)).

(** [print_json_to]; [version] is the crate's version. *)
Definition startup_json (version : string) (config : Config) (component : string) : json :=
  let redis_address := address_without_credentials (redis_url (cfg_redis config)) in
  JObject
    [("type", JString "startup");
     ("name", JString "ThreadWeave");
     ("description", JString DESCRIPTION);
     ("component", JString component);
     ("program_version", JString version);
     ("protocols", JArray (JString <$> PROTOCOLS));
     ("broker", JObject
        [("transport", JString "redis");
         ("address", JString redis_address);
         ("key_prefix", JString (bc_key_prefix (cfg_broker config)))]);
     ("result_backend", JObject
        [("transport", JString "redis");
         ("address", JString redis_address);
         ("key_prefix", JString (bc_key_prefix (cfg_broker config) +:+ ":results"))])].

(** The line [announce_ready] prints once the server listens. *)
Definition ready_message (address : string) : json :=
  JObject
    [("type", JString "ready");
     ("endpoint", JString ("http://" +:+ address));
     ("transport", JString "tcp");
     ("protocol", JString "grpc")].

Definition banner_art : string := "
  _______ _                        _ __          __
 |__   __| |                      | |\ \        / /
    | |  | |__  _ __ ___  __ _  __| |\ \  /\  / /__  __ ___   _____
    | |  | '_ \| '__/ _ \/ _` |/ _` | \ \/  \/ / _ \/ _` \ \ / / _ \
    | |  | | | | | |  __/ (_| | (_| |  \  /\  /  __/ (_| |\ V /  __/
    |_|  |_| |_|_|  \___|\__,_|\__,_|   \/  \/ \___|\__,_| \_/ \___|

".

Definition newline : string := String "010" "".

(** [print_banner_to] *)
Definition startup_banner (version : string) (config : Config) (component : string) : string :=
  let redis_address := address_without_credentials (redis_url (cfg_redis config)) in
  let result_prefix := bc_key_prefix (cfg_broker config) +:+ ":results" in
  banner_art
  +:+ " " +:+ DESCRIPTION +:+ newline +:+ newline
  +:+ " ┌──────────────────────────────────────────────────────────────────────" +:+ newline
  +:+ " │ Component       " +:+ component +:+ newline
  +:+ " │ Program version v" +:+ version +:+ newline
  +:+ " │ Protocols       " +:+ PROTOCOL_VERSIONS +:+ newline
  +:+ " │ Broker          redis · " +:+ redis_address +:+ newline
  +:+ " │ Result backend  redis · " +:+ redis_address +:+ " · prefix " +:+ result_prefix +:+ newline
  +:+ " └──────────────────────────────────────────────────────────────────────" +:+ newline +:+ newline.

(** ** Roles *)

(** The subcommand, with its [Options]. *)
Record Options := mkOptions { opt_config : string; opt_json : bool }.
Inductive Role : Type := Server (options : Options) | Worker (options : Options).

Definition component_of (r : Role) : string :=
  match r with Server _ => "server" | Worker _ => "worker" end.
Definition options_of (r : Role) : Options :=
  match r with Server o | Worker o => o end.

(** What is printed: a JSON object on the standard output, or the banner on the standard
    error. *)
Inductive startup_output : Type := Stdout (value : json) | Stderr (text : string).

(** What [main] prints, by [print_json] or [print_banner]. *)
Definition startup_message (version : string) (config : Config) (role : Role) : startup_output :=
  if opt_json (options_of role) then Stdout (startup_json version config (component_of role))
  else Stderr (startup_banner version config (component_of role)).

(** The operating system opens the listener, giving the address it got, and writes the
    output; both may fail. *)
Section roles.
Context {S : Type} `{R : !Redis S}.
Context (bind : string → result string string) (print : startup_output → result string unit).

(** A server that listens: its stores and what it announced on the standard output. *)
Record serving := mkServing { sv_stores : deployment; sv_announced : json }.

(** [serve] up to its [select!], which is [serve_select]. *)
Definition serve (config : Config) (broker : RedisBroker) : result string serving :=
  stores ← serve_stores config broker;
  server ← server_config config;
  address ← bind (bind_address server);
  _ ← print (Stdout (ready_message address));
  Ok (mkServing stores (ready_message address)).

(** What runs after the checks of a role: [serve_select] on the stores, or
    [run_until_shutdown] of the worker that [worker_new] makes from its configuration. *)
Inductive running : Type :=
| RunningServer (s : serving)
| RunningWorker (broker : RedisBroker) (config : WorkerConfig).

Definition run_server (config : Config) : result string running :=
  _ ← server_config config;
  broker ← redis_broker_new (redis_url (cfg_redis config)) (bc_key_prefix (cfg_broker config));
  s ← serve config broker;
  Ok (RunningServer s).

Definition run_worker (config : Config) : result string running :=
  wc ← worker_config config;
  broker ← redis_broker_new (redis_url (cfg_redis config)) (bc_key_prefix (cfg_broker config));
  Ok (RunningWorker broker wc).

(** [main], after [clap] has read the command line: nothing is printed when the
    configuration cannot be loaded. *)
Definition main {N File : Type} `{D : !Deserializer N} (version : string)
    (open : string → result string File) (document : File → result de_error N) (role : Role) : option startup_output * result string running :=
  match load open document (opt_config (options_of role)) with
  | Err error => (None, Err error)
  | Ok config =>
    (Some (startup_message version config role),
     _ ← print (startup_message version config role);
     match role with
     | Server _ => run_server config
     | Worker _ => run_worker config
     end)
  end.
End roles.

(** ** Credentials *)

Lemma split_once_scheme (scheme rest : string) :
  ":"%char ∉ chars scheme → split_once "://" (scheme +:+ "://" +:+ rest) = Some (scheme, rest).
Proof.
  induction scheme as [|c scheme IH]; intros Hs; [done|]. rewrite str_app_cons. cbn [split_once].
  destruct (strip_prefix "://" (String c (scheme +:+ "://" +:+ rest))) as [r|] eqn:Hp.
  - apply strip_prefix_Some in Hp. rewrite str_app_cons in Hp. injection Hp as -> _. set_solver.
  - by rewrite IH by set_solver.
Qed.

(** An address without an at sign is shown as it is. *)
Lemma address_as_it_is (address : string) :
  "@"%char ∉ chars address → address_without_credentials address = address.
Proof.
  intros Ha. unfold address_without_credentials. destruct (split_once "://" address) as [[s r]|] eqn:Hsplit; [|done].
  apply split_once_Some in Hsplit as ->. rewrite (proj2 (rsplit_once_None "@" r)); [done|].
  rewrite !chars_app in Ha. set_solver.
Qed.

Lemma address_stripped (scheme userinfo endpoint : string) :
  ":"%char ∉ chars scheme → "@"%char ∉ chars endpoint →
  address_without_credentials (scheme +:+ "://" +:+ userinfo +:+ "@" +:+ endpoint) = scheme +:+ "://" +:+ endpoint.
Proof.
  intros Hs He. unfold address_without_credentials. rewrite split_once_scheme by done.
  by rewrite (proj2 (rsplit_once_Some "@" _ userinfo endpoint)).
Qed.

(** The configuration with another Redis URL. *)
Definition with_url (url : string) (config : Config) : Config :=
  mkConfig (cfg_server config) (mkRedisConfig url (worker_membership_ttl_seconds (cfg_redis config)))
    (cfg_broker config) (cfg_worker config).

(** C29: the credentials of the Redis URL are not in anything the program prints when it
    starts.  Whatever precedes the last at sign of the URL, with at signs, colons or
    slashes in it, the banner and the JSON object are those of the URL without it. *)
Theorem credentials_never_shown (scheme userinfo endpoint version : string) config role :
  ":"%char ∉ chars scheme → "@"%char ∉ chars scheme → "@"%char ∉ chars endpoint →
  startup_message version (with_url (scheme +:+ "://" +:+ userinfo +:+ "@" +:+ endpoint) config) role
  = startup_message version (with_url (scheme +:+ "://" +:+ endpoint) config) role.
Proof.
  intros Hs Hs' He. unfold startup_message, startup_json, startup_banner, with_url. cbn [cfg_redis cfg_broker redis_url].
  rewrite address_stripped, address_as_it_is; [done| |done..]. rewrite !chars_app. set_solver.
Qed.

Lemma credentials_never_shown_witness :
  startup_message "0.1.10" (with_url "redis://user:p@ss@localhost:6379" AssemblyExamples.demo_config)
    (Server (mkOptions "threadweave.yaml" true))
  = startup_message "0.1.10" (with_url "redis://localhost:6379" AssemblyExamples.demo_config)
    (Server (mkOptions "threadweave.yaml" true)).
Proof.
  apply (credentials_never_shown "redis" "user:p@ss" "localhost:6379"); apply (bool_decide_unpack _); vm_compute; exact I.
Defined.

(** ** Starting a role *)

Section start.
Context {S : Type} `{R : !Redis S} {N File : Type} `{D : !Deserializer N}.
Context (open : string → result string File) (document : File → result de_error N).
Context (bind : string → result string string) (print : startup_output → result string unit).

(** The stores a configuration stands for. *)
Definition configured_stores (config : Config) : deployment :=
  let prefix := bc_key_prefix (cfg_broker config) in
  mkDeployment (mkRedisBroker prefix) (mkRedisResultBackend (prefix +:+ ":results"))
    (mkRedisWorkerRegistry (prefix +:+ ":workers") (worker_membership_ttl_seconds (cfg_redis config) * 1000000000))
    (mkRedisExecutionStore (prefix +:+ ":executions")) (bc_task_destination (cfg_broker config)).

(** Why a role starts with [config]. *)
Definition role_starts (config : Config) (role : Role) (r : running) : Prop :=
  redis_open (redis_url (cfg_redis config)) = Ok tt
  ∧ match role with
    | Server _ => ∃ server address, cfg_server config = Some server
        ∧ worker_membership_ttl_seconds (cfg_redis config) ≠ 0%Z
        ∧ bind (bind_address server) = Ok address
        ∧ print (Stdout (ready_message address)) = Ok tt
        ∧ r = RunningServer (mkServing (configured_stores config) (ready_message address))
    | Worker _ => ∃ wc, cfg_worker config = Some wc
        ∧ r = RunningWorker (mkRedisBroker (bc_key_prefix (cfg_broker config))) wc
    end.

Lemma redis_broker_new_Ok url prefix b :
  redis_broker_new url prefix = Ok b ↔ redis_open url = Ok tt ∧ b = mkRedisBroker prefix.
Proof. unfold redis_broker_new. destruct (redis_open url) as [[]|]; naive_solver. Qed.

(** The stores open with the URL, unless members would never be leased. *)
Lemma serve_stores_Ok config dp :
  redis_open (redis_url (cfg_redis config)) = Ok tt →
  serve_stores config (mkRedisBroker (bc_key_prefix (cfg_broker config))) = Ok dp
  ↔ worker_membership_ttl_seconds (cfg_redis config) ≠ 0%Z ∧ dp = configured_stores config.
Proof.
  intros Hopen. unfold serve_stores, redis_backend_new, redis_registry_new, redis_store_new. rewrite Hopen. simpl.
  change ":workers" with (":worker" +:+ "s"). change ":executions" with (":execution" +:+ "s").
  rewrite <-!str_app_assoc, !trim_end_matches_snoc by done. unfold configured_stores. rewrite !str_app_assoc.
  case_bool_decide as Httl; simpl; [split; [done|lia]|]. split; [intros [= <-]; split; [lia|done]|]. by intros [_ ->].
Qed.

Lemma run_server_Ok config r :
  run_server bind print config = Ok r ↔ ∃ options, role_starts config (Server options) r.
Proof.
  unfold run_server, serve, server_config. rewrite result_bind_Ok. split.
  - intros (sc & Hsc%ok_or_Ok & (b & [Hopen ->]%redis_broker_new_Ok & H)%result_bind_Ok).
    apply result_bind_Ok in H as (s & (dp & Hdp & (sc' & Hsc'%ok_or_Ok & (a & Ha & ([] & Hpr & [= <-])%result_bind_Ok)%result_bind_Ok)%result_bind_Ok)%result_bind_Ok & [= <-]).
    apply serve_stores_Ok in Hdp as [? ->]; [|done]. exists (mkOptions "" false). split; [done|]. eauto 10.
  - intros (_ & Hopen & sc & a & Hsc & Httl & Ha & Hpr & ->). exists sc. rewrite Hsc. split; [done|].
    rewrite (proj2 (redis_broker_new_Ok _ _ _) (conj Hopen eq_refl)). simpl.
    rewrite (proj2 (serve_stores_Ok config _ Hopen) (conj Httl eq_refl)). simpl. rewrite Ha. simpl. by rewrite Hpr.
Qed.

Lemma run_worker_Ok config r : run_worker config = Ok r ↔ ∃ options, role_starts config (Worker options) r.
Proof.
  unfold run_worker, worker_config. rewrite result_bind_Ok. split.
  - intros (wc & Hwc%ok_or_Ok & (b & [Hopen ->]%redis_broker_new_Ok & [= <-])%result_bind_Ok).
    exists (mkOptions "" false). split; [done|]. eauto.
  - intros (_ & Hopen & wc & Hwc & ->). exists wc. rewrite Hwc. split; [done|].
    by rewrite (proj2 (redis_broker_new_Ok _ _ _) (conj Hopen eq_refl)).
Qed.

(** C38: what [main] does, for every file system, document, listener and output.  It prints
    the startup information exactly when the configuration loads, in the form the options
    ask for.  The role then starts exactly when the output could be written, its section is
    in the configuration and the Redis URL is valid; the server also needs a membership TTL
    above zero and the listener, announces the address it got and runs on the four stores
    of the configuration, the worker on the broker's. *)
Theorem main_outcome version role :
  let config := load open document (opt_config (options_of role)) in
  let result := main bind print version open document role in
  (∀ out, result.1 = Some out ↔ ∃ c, config = Ok c ∧ out = startup_message version c role)
  ∧ (∀ r, result.2 = Ok r ↔
       ∃ c, config = Ok c ∧ print (startup_message version c role) = Ok tt ∧ role_starts c role r).
Proof.
  unfold main. simpl. destruct (load _ _ _) as [c|e]; simpl; [|naive_solver]. split; [naive_solver|]. intros r.
  rewrite result_bind_Ok. split.
  - intros ([] & Hp & H). exists c. split_and!; [done|done|].
    destruct role as [o|o]; [apply run_server_Ok in H|apply run_worker_Ok in H]; destruct H as [o' H]; exact H.
  - intros (c' & [= <-] & Hp & H). exists tt. split; [done|].
    destruct role as [o|o]; [apply run_server_Ok|apply run_worker_Ok]; by exists o.
Qed.
End start.
