(* ===== verification/SystemSpec.v ===== *)
(** * The system: server and worker together

    The worker's messages are those the server's handlers understand, and what a runtime
    reports of an execution is what the job ends with. *)

From S2P Require Import Prelude RustStr Prog Protocol Concrete WorkerRegistry WorkerRegistrySpec.
From S2P Require Import ExecutionStore Broker ResultBackend Local Control Scheduler CoreService CoreSpec SchedulerSpec.
From S2P Require Import Pending RuntimeService Remote Config Worker RuntimeSpec.

(** ** Registration and heartbeats *)

Section membership.
Context `{P : Protocols} `{PF : Platform} `{PFO : !PlatformOk PF}.
Context {BS KS XS WS ES : Type} `{G : !WorkerRegistry WS}.
Implicit Types (c : control BS XS WS ES) (ws : worker_state BS KS).

(** The answer of a handler that passes a call on to the registry. *)
Definition from_registry {E A B} (c : control BS XS WS ES) (status : E → Status) (answer : B)
    (r : WS * outcome E A) : control BS XS WS ES * outcome Status B :=
  (put workers_l r.1 c,
   match r.2 with
   | Done _ => Done answer
   | Failed e => Failed (status e)
   | Panicked msg => Panicked msg
   | Blocked => Blocked
   end).

(** A new worker's identity: two fresh identifiers. *)
Lemma worker_new_identity {E} host config ws ws1 w :
  run (worker_new (E:=E) host config) ws = (ws1, Done w) →
  ∃ i, id_worker_id (wk_identity w) = uuid_at i ∧ id_generation (wk_identity w) = uuid_at (S i)
    ∧ wk_destination w = worker_destination (uuid_at i).
Proof. intros [= _ <-]. by eexists. Qed.

Lemma uuid_utf8 i : utf8 (uuid_at i) = true.
Proof. apply ascii_utf8. eapply Forall_impl; [apply uuid_chars|]. simpl. apply is_uuid_char_graph. Qed.

(** C39: what a new worker tells Core reaches the registry under the worker's own
    identity.  Its registration passes the server's validation and is handed to the
    registry as it is; each of its heartbeats is taken apart into exactly the worker
    identifier and the generation it registered with, so the registry renews that lease;
    and the queue it reads is the one the scheduler addresses for that identifier. *)
Theorem worker_identity_reaches_registry {E} host config ws ws1 w version reg resources n now c :
  run (worker_new (E:=E) host config) ws = (ws1, Done w) →
  (Z.of_nat (len (id_worker_id (wk_identity w))) ≤ usize_max)%Z →
  worker_registration version w = Some reg →
  let id := id_worker_id (wk_identity w) in
  let generation := id_generation (wk_identity w) in
  wr_worker_id reg = id ∧ wr_generation reg = generation ∧ id ≠ generation
  ∧ wk_destination w = worker_destination id
  ∧ run (core_register_worker (Some reg)) c
    = from_registry c internal {| rwr_accepted := true; rwr_lease_id := None |} (run (register reg) (c_workers c))
  ∧ run (core_report_heartbeat (Some (heartbeat_message w resources n now))) c
    = from_registry c heartbeat_status {| rhr_accepted := true |} (run (heartbeat id generation) (c_workers c)).
Proof.
  intros (i & Hid & Hg & Hd)%worker_new_identity Hlen Hreg id generation.
  assert (wr_worker_id reg = id ∧ wr_generation reg = generation) as [Hrid Hrg].
  { unfold worker_registration in Hreg. apply bind_Some in Hreg as (cap & _ & [= <-]). done. }
  unfold id, generation in *. rewrite Hid, Hg in *. split_and!; try done.
  - intros H%uuid_inj. lia.
  - unfold core_register_worker. cbn [ok_or lift_result mbind prog_bind prog_bind_def].
    rewrite Hrid, Hrg, !uuid_not_blank, run_bind, run_rethrow, run_zoom by apply _.
    change (view workers_l c) with (c_workers c). by destruct (run (register reg) (c_workers c)) as [s []].
  - unfold core_report_heartbeat, heartbeat_message.
    cbn [ok_or lift_result mbind prog_bind prog_bind_def hb_runtime_id]. rewrite Hid, Hg.
    rewrite parse_identity; [|apply uuid_nonempty|apply uuid_nonempty|apply is_char_boundary_app, uuid_utf8|done].
    cbn [ok_or lift_result mbind prog_bind prog_bind_def fst snd]. rewrite run_bind, run_rethrow, run_zoom by apply _.
    change (view workers_l c) with (c_workers c). by destruct (run (heartbeat _ _) (c_workers c)) as [s []].
Qed.
End membership.

(** ** From completion to the job's result *)

Section completion.
Context `{P : Protocols} `{PO : !ProtocolsOk P} `{PF : Platform} `{HO : HashMapOrder}.
Context {T BS XS WS ES : Type} `{N : !Transport T}
  `{B : !Broker BS} `{BO : !BrokerOk B} `{K : !BackendResult XS} `{KO : !BackendResultOk K}
  `{G : !WorkerRegistry WS} `{X : !ExecutionStore ES} `{XO : !ExecutionStoreOk X}.
Implicit Types ws : worker_state BS (remote_core T BS XS WS ES).

(** The server behind a worker's client. *)
Abbreviation server ws := (rc_control (w_core ws)).

(** The assignment, the execution, the outcome and the result of a terminal event. *)
Definition terminal_event (payload : EventPayload) : option (string * string * bool * option JobResult) :=
  match payload with
  | EvExecutionCompleted e => Some (ec_assignment_id e, ec_execution_id e, true, ec_result e)
  | EvExecutionFailed e => Some (ef_assignment_id e, ef_execution_id e, false, failure_result <$> ef_failure e)
  | _ => None
  end.

(** Where success and failure lead, at the worker, in the execution record and in the job. *)
Definition final_assignment (succeeded : bool) : AssignmentState := if succeeded then AS_Succeeded else AS_Failed.
Definition final_execution (succeeded : bool) : ExecutionState := if succeeded then ES_Succeeded else ES_Failed.
Definition final_job (succeeded : bool) : JobState := if succeeded then JS_Succeeded else JS_Failed.

Lemma terminal_done now aid eid seq ok st st' x :
  terminal now aid eid seq ok st = (st', Ok x) →
  ∃ record, assignments st' !! aid = Some record ∧ ar_state record = final_assignment ok
    ∧ ae_execution_id (assignment record) = eid.
Proof.
  unfold terminal. destruct (validate st aid eid seq) as [r|] eqn:Hv; [|done].
  apply validate_Ok in Hv as (_ & He & _). case_match; [done|]. case_match; [|done]. intros [= <- _].
  eexists. split; [apply lookup_insert_eq|]. by destruct ok.
Qed.

(** Drawing the report's identifier and time touches the environment only. *)
Lemma report_for_done aid eid seq state out t ws ws1 report :
  run (report_for aid eid seq state out t) ws = (ws1, Done report) →
  w_pending ws1 = w_pending ws ∧ w_core ws1 = w_core ws
  ∧ re_execution_id report = eid ∧ re_outcome report = out ∧ re_state report = execution_state_code state.
Proof. destruct t; intros [= <- <-]; done. Qed.

(** The common part of completions and failures: the assignment is final, and the report
    was sent and handled. *)
Lemma terminal_forwarded aid eid seq ok state result t ws ws' :
  run (_ ← with_pending (λ now, terminal now aid eid seq ok);
       report ← report_for aid eid seq state (Some result) t; forward report) ws = (ws', Done tt) →
  ∃ report response record,
    assignments (w_pending ws') !! aid = Some record ∧ ar_state record = final_assignment ok
    ∧ ae_execution_id (assignment record) = eid
    ∧ re_execution_id report = eid ∧ re_outcome report = Some result ∧ re_state report = execution_state_code state
    ∧ run (core_report_execution report) (server ws) = (server ws', Done response).
Proof.
  intros (w2 & x & Hterm & H)%run_bind_Done.
  unfold with_pending in Hterm. rewrite run_critical in Hterm.
  destruct (terminal _ _ _ _ _ _) as [st [y|]] eqn:Ht; [|done]. injection Hterm as <- ->.
  apply terminal_done in Ht as (record & Hrec & Hst & Hex).
  apply run_bind_Done in H as (w3 & report & (Hp & Hc & Hr1 & Hr2 & Hr3)%report_for_done & H).
  unfold forward in H. apply run_bind_Done in H as (w4 & response & (k & Hk & ->)%run_zoom_Done & H); [|apply _].
  case_match; [done|]. injection H as <-. apply run_grpc_call_Done in Hk. cbn [view wcore_l] in Hk. rewrite Hc in Hk.
  exists report, response, record. split_and!; try done.
  change (w_pending (put wcore_l k w3)) with (w_pending w3). by rewrite Hp.
Qed.

(** A terminal event the worker has handled. *)
Lemma terminal_event_forwarded payload aid eid ok out ws ws' :
  terminal_event payload = Some (aid, eid, ok, out) →
  run (handle_event (mkRuntimeEvent (Some payload))) ws = (ws', Done tt) →
  ∃ result report response record,
    out = Some result ∧ (ok = true ↔ jr_failure result = None)
    ∧ assignments (w_pending ws') !! aid = Some record ∧ ar_state record = final_assignment ok
    ∧ ae_execution_id (assignment record) = eid
    ∧ re_execution_id report = eid ∧ re_outcome report = Some result
    ∧ re_state report = execution_state_code (final_execution ok)
    ∧ run (core_report_execution report) (server ws) = (server ws', Done response).
Proof.
  destruct payload as [| | | | |e|e]; try done; intros [= <- <- <- <-]; cbn [handle_event ev_payload ok_or lift_result mbind prog_bind prog_bind_def].
  - unfold completed. intros (w1 & result & [-> Hres%ok_or_Ok]%run_lift_Done & H)%run_bind_Done.
    case_bool_decide as Hfail; [done|]. apply terminal_forwarded in H as (report & response & record & ?).
    exists result, report, response, record. split; [done|]. split; [|done]. split; [|done]. intros _. by apply eq_None_not_Some.
  - unfold failed. intros (w1 & failure & [-> Hres%ok_or_Ok]%run_lift_Done & H)%run_bind_Done.
    apply terminal_forwarded in H as (report & response & record & ?).
    exists (failure_result failure), report, response, record. rewrite Hres. split; [done|]. by split.
Qed.

(** C24: a terminal event goes all the way.  When a worker has handled a runtime's
    completion or failure, over a transport that may fail and before any other call, then
    the worker's assignment has succeeded or failed with it; so has the server's execution
    record; the result backend has the event's result, or its failure, tagged with the
    execution, for the execution's job; and the server answers a query for that job with
    the state and the result of the event. *)
Theorem terminal_event_finishes_job payload aid eid ok out ws ws' :
  jobs_poisoned (c_jobs (server ws)) = false →
  terminal_event payload = Some (aid, eid, ok, out) →
  run (handle_event (mkRuntimeEvent (Some payload))) ws = (ws', Done tt) →
  ∃ result record execution j,
    out = Some result ∧ (ok = true ↔ jr_failure result = None)
    ∧ assignments (w_pending ws') !! aid = Some record ∧ ar_state record = final_assignment ok
    ∧ ae_execution_id (assignment record) = eid
    ∧ records (c_executions (server ws)) !! eid = Some execution
    ∧ updated eid (final_execution ok) (records (c_executions (server ws))) (records (c_executions (server ws')))
    ∧ results (c_results (server ws')) =
        <[ex_job_id execution := encode_job_result (own_outcome eid result)]> (results (c_results (server ws)))
    ∧ run (get_job (ex_job_id execution)) (server ws')
      = (server ws', Done {| gj_job := Some j; gj_result := Some (own_outcome eid result) |})
    ∧ job_state j = job_state_code (final_job ok).
Proof.
  intros Hp Hev Hrun. eapply terminal_event_forwarded in Hrun
    as (result & report & response & record & Hres & Hnf & Hrec & Hst & Hex & He & Ho & Hs & Hrun); [|done].
  destruct (run_core_report_execution report (server ws) Hp) as (c' & o & Hrun' & _ & Hpost).
  rewrite Hrun in Hrun'. injection Hrun' as <- <-. rewrite He in Hpost.
  destruct Hpost as (_ & state & execution & Hcode & Hexec & Hup & r & Hr & Hp' & Hjob).
  rewrite Hs, execution_state_of_code in Hcode. injection Hcode as <-.
  assert (∃ out, re_outcome report = Some out
    ∧ results (c_results (server ws')) = <[ex_job_id execution := encode_job_result (own_outcome eid out)]> (results (c_results (server ws)))
    ∧ jobs (c_jobs (server ws')) = <[ex_job_id execution := set_result (next_time (server ws)) (own_outcome eid out) r]> (jobs (c_jobs (server ws))))
    as (out' & Hout & Hresults & Hjobs) by (rewrite <-He; destruct ok; destruct Hjob as (out' & ? & _ & ? & ?); by exists out').
  rewrite Ho in Hout. injection Hout as <-.
  exists result, record, execution. eexists. do 8 (split; [done|]).
  unfold get_job. rewrite run_critical. cbn [view jobs_l control_state c_jobs_l]. rewrite Hp', Hjobs, lookup_insert_eq.
  split; [done|]. simpl. destruct ok; [by rewrite (proj1 Hnf)|].
  destruct (jr_failure result); [done|]. by assert (false = true) by by apply Hnf.
Qed.
End completion.

(** ** Examples *)

Module SystemExamples.
Import Concrete.

Abbreviation demo_server := (control LocalBroker RecordingResultBackend MemoryWorkerRegistry MemoryExecutionStore).
Abbreviation demo_worker_type := (worker_state LocalBroker RuntimeExamples.LocalCore).

(** A server with two registered workers. *)
Definition idle_server : demo_server :=
  mkControl (mkEnv 0 0) (mkJobTable false ∅) (mkLocalBroker ∅) (mkRecordingResultBackend [])
    RegistryExamples.demo_two memory_store_default.
(** The worker [w1], and one that was just built. *)
Definition worker_w1 : Worker :=
  {| wk_destination := "workers.w1"; wk_identity := mkWorkerIdentity "w1" "g" "name";
     wk_advertised_capacity := mkAdvertisedCapacity (mkWorkerResources 1 0) [];
     wk_heartbeat_interval := HEARTBEAT_INTERVAL; wk_runtime_address := "" |}.
Definition fetching : demo_worker_type :=
  mkWorkerState (mkEnv 0 0) pending_default [] (mkLocalBroker ∅) (RuntimeExamples.mkLocalCore []).
Definition new_worker : Worker :=
  {| wk_destination := "workers.0"; wk_identity := mkWorkerIdentity "0" "1" "host";
     wk_advertised_capacity := mkAdvertisedCapacity (mkWorkerResources 0 0) [];
     wk_heartbeat_interval := HEARTBEAT_INTERVAL; wk_runtime_address := default_worker_runtime_address |}.
Definition demo_capacity : ResourceRequirements :=
  {| rr_cpu_millicores := 0; rr_memory_bytes := 0; rr_required_capabilities := []; rr_rest := 0%Z |}.
Definition new_registration : WorkerRegistration :=
  {| wr_worker_id := "0"; wr_node_id := None; wr_generation := "1"; wr_implementation_version := "0.1.10";
     wr_protocol_versions := SUPPORTED_PROTOCOL_VERSIONS; wr_endpoint := default_worker_runtime_address;
     wr_executors := [];
     wr_capacity := Some demo_capacity;
     wr_metadata := Some (mkMetadata {[ "worker_name" := "host" ]}) |}.

Lemma worker_identity_reaches_registry_witness :
  (run (core_report_heartbeat
      (Some (heartbeat_message new_worker demo_capacity 1 0)))
    idle_server).2 = Failed (not_found "worker is not registered").
Proof.
  destruct (worker_identity_reaches_registry (E:=Empty_set) "host" worker_config_default fetching
    (run (worker_new (E:=Empty_set) "host" worker_config_default) fetching).1 new_worker "0.1.10" new_registration
    demo_capacity 1 0 idle_server)
    as (_ & _ & _ & _ & _ & H).
  - apply run_eta. vm_refl.
  - vm_compute. discriminate.
  - reflexivity.
  - rewrite H. vm_refl.
Defined.

(** A transport that never fails, and a worker connected over it to the server of
    [CoreExamples], with the assignment of its execution running. *)
#[export] Instance sure_transport : Transport unit :=
  {| transport_connect t := (t, Ok tt); transport_send t := (t, Reached) |}.

Abbreviation remote_demo := (remote_core unit LocalBroker RecordingResultBackend MemoryWorkerRegistry MemoryExecutionStore).

Definition running_record : AssignmentRecord :=
  mkAssignmentRecord
    {| ae_assignment_id := "a"; ae_execution_id := "e"; ae_job_id := "0"; ae_task := None; ae_arguments := "";
       ae_serialization_format := ""; ae_reserved_resources := None; ae_deadline := None; ae_metadata := None |}
    AS_Running (Some 1%Z) (Some "s") (Some 0%Z) None [].

Definition running_worker : worker_state LocalBroker remote_demo :=
  mkWorkerState (mkEnv 0 0) (mkPendingState [] {[ "a" := running_record ]} {[ "s" := 0 ]}) [mkChannel [] true]
    (mkLocalBroker ∅) (mkRemoteCore tt CoreExamples.demo_running).

Definition demo_completion : ExecutionCompleted :=
  {| ec_assignment_id := "a"; ec_execution_id := "e"; ec_sequence_number := 2;
     ec_result := Some {| jr_payload := "2"; jr_serialization_format := "json"; jr_failure := None;
                          jr_execution_id := ""; jr_rest := 0%Z |};
     ec_observed_at := None; ec_rest := 0%Z |}.

Definition completed_worker : worker_state LocalBroker remote_demo :=
  (run (handle_event (mkRuntimeEvent (Some (EvExecutionCompleted demo_completion)))) running_worker).1.

Lemma demo_completes :
  run (handle_event (mkRuntimeEvent (Some (EvExecutionCompleted demo_completion)))) running_worker
  = (completed_worker, Done tt).
Proof.
  apply (run_eta (handle_event (mkRuntimeEvent (Some (EvExecutionCompleted demo_completion)))) running_worker (Done tt)).
  vm_refl.
Qed.

Lemma terminal_event_finishes_job_witness :
  ∃ execution j response, records (c_executions CoreExamples.demo_running) !! "e" = Some execution
    ∧ run (get_job (ex_job_id execution)) (rc_control (w_core completed_worker))
      = (rc_control (w_core completed_worker), Done response)
    ∧ gj_job response = Some j ∧ job_state j = job_state_code JS_Succeeded.
Proof.
  destruct (terminal_event_finishes_job (EvExecutionCompleted demo_completion) "a" "e" true (ec_result demo_completion)
    running_worker completed_worker)
    as (result & record & execution & j & _ & _ & _ & _ & _ & Hexec & _ & _ & Hget & Hstate).
  - vm_refl.
  - reflexivity.
  - exact demo_completes.
  - exists execution, j, {| gj_job := Some j; gj_result := Some (own_outcome "e" result) |}.
    split; [exact Hexec|]. split; [exact Hget|]. split; [exact eq_refl|exact Hstate].
Defined.
End SystemExamples.
