(* ===== verification/Delivery.v ===== *)
(** * From submission to execution

    A server and its workers, one call after the other: submissions, turns of the
    scheduler, fetches by the workers, reports, heartbeats, registrations and queries, in
    any order and number, whatever each of them answers.  A submitted task moves up in the
    task queue; the turn that reaches it assigns it as it was submitted; its assignment
    moves up in its worker's queue; and the fetch that reaches it makes it pending there. *)

From S2P Require Import Prelude RustStr Prog Protocol Concrete WorkerRegistry WorkerRegistrySpec.
From S2P Require Import ExecutionStore Broker ResultBackend Local Control Scheduler CoreService CoreSpec SchedulerSpec.
From S2P Require Import Pending RuntimeService Config Worker RuntimeSpec SystemSpec.

(** ** The system *)

Section system.
Context `{P : Protocols} `{PF : Platform}.
Context {BS XS WS ES KS : Type}
  `{B : !Broker BS} `{K : !BackendResult XS} `{G : !WorkerRegistry WS} `{X : !ExecutionStore ES}.
Abbreviation control := (control BS XS WS ES).
Abbreviation worker_state := (worker_state BS KS).

(** The server process with the broker, and the workers by their identifiers; the broker a
    worker sees is the server's. *)
Record system := mkSystem {
  sys_control : control;
  sys_workers : gmap string (Worker * worker_state)
}.

Inductive system_call : Type :=
| CallSubmit (request : SubmitTaskRequest)
| CallSchedule
| CallFetch (worker : string)
| CallReport (report : ReportExecutionRequest)
| CallHeartbeat (h : option RuntimeHeartbeat)
| CallRegisterWorker (r : option WorkerRegistration)
| CallGetJob (id : string).

Definition with_control (c : control) (s : system) : system := mkSystem c (sys_workers s).

Definition on_control {E A} (m : prog control E A) (s : system) : system :=
  with_control (run m (sys_control s)).1 s.

(** [execute_one] of a worker of the system, on the system's broker. *)
Definition fetch (worker : string) (s : system) : option (worker_state * outcome BrokerError AssignExecutionRequest) :=
  '(wk, ws) ← sys_workers s !! worker;
  Some (run (execute_one wk) (put wbroker_l (c_broker (sys_control s)) ws)).

Definition after_fetch (worker : string) (s : system) : system :=
  match sys_workers s !! worker with
  | None => s
  | Some (wk, ws) =>
    let ws' := (run (execute_one wk) (put wbroker_l (c_broker (sys_control s)) ws)).1 in
    mkSystem (put broker_l (w_broker ws') (sys_control s)) (<[worker := (wk, ws')]> (sys_workers s))
  end.

Definition system_step (task_destination : string) (s : system) (x : system_call) : system :=
  match x with
  | CallSubmit request => on_control (submit_task task_destination request) s
  | CallSchedule => on_control (schedule_one task_destination) s
  | CallFetch worker => after_fetch worker s
  | CallReport report => on_control (core_report_execution report) s
  | CallHeartbeat h => on_control (core_report_heartbeat h) s
  | CallRegisterWorker r => on_control (core_register_worker r) s
  | CallGetJob id => on_control (get_job id) s
  end.

Definition system_after (task_destination : string) (calls : list system_call) (s : system) : system :=
  fold_left (system_step task_destination) calls s.

(** Every worker reads its own queue, as [worker_new] makes it. *)
Definition deployed (s : system) : Prop :=
  ∀ id wk ws, sys_workers s !! id = Some (wk, ws) → wk_destination wk = worker_destination id.

(** The queue a call takes from. *)
Definition takes_from (task_destination : string) (x : system_call) (d : string) : Prop :=
  match x with
  | CallSchedule => d = task_destination
  | CallFetch worker => d = worker_destination worker
  | _ => False
  end.
End system.
Arguments system {_} BS XS WS ES KS.

(** ** Queues *)

Section queues.
Context `{P : Protocols} `{PF : Platform}.
Context {BS XS WS ES KS : Type}
  `{B : !Broker BS} `{BO : !BrokerOk B} `{K : !BackendResult XS} `{G : !WorkerRegistry WS} `{X : !ExecutionStore ES}.
Implicit Types (c : control BS XS WS ES) (s : system BS XS WS ES KS).

(** Whatever a program answers, it only appends to queues. *)
Definition appends c c' : Prop := ∀ d, queued (c_broker c) d `prefix_of` queued (c_broker c') d.

Definition only_appends {E A} (m : prog (control BS XS WS ES) E A) : Prop := ∀ c, appends c (run m c).1.

Lemma only_appends_bind {E A A'} (m : prog (control BS XS WS ES) E A) (k : A → prog (control BS XS WS ES) E A') :
  only_appends m → (∀ a, only_appends (k a)) → only_appends (m ≫= k).
Proof.
  intros Hm Hk c. rewrite run_bind. specialize (Hm c). destruct (run m c) as [c1 [a|e|msg|]]; try done.
  intros d. etrans; [apply Hm|apply Hk].
Qed.

Lemma only_appends_rethrow {E E' A} (f : E → E') (m : prog (control BS XS WS ES) E A) :
  only_appends m → only_appends (rethrow f m).
Proof. intros Hm c. rewrite run_rethrow. specialize (Hm c). by destruct (run m c) as [c1 []]. Qed.

Lemma only_appends_attempt {E E' A} (m : prog (control BS XS WS ES) E A) :
  only_appends m → only_appends (attempt (E':=E') m).
Proof. intros Hm c. rewrite run_attempt. specialize (Hm c). by destruct (run m c) as [c1 []]. Qed.

(** An access to another part of the state. *)
Lemma only_appends_zoom {T E A} (l : lens (control BS XS WS ES) T) `{!LensOk l} (m : prog T E A) :
  (∀ x c, c_broker (put l x c) = c_broker c) → only_appends (zoom l m).
Proof. intros Hl c d. rewrite run_zoom by apply _. simpl. by rewrite Hl. Qed.

Lemma only_appends_critical {E A} (f : control BS XS WS ES → _ * result E A) :
  (∀ c, c_broker (f c).1 = c_broker c) → only_appends (critical f).
Proof. intros Hf c d. rewrite run_critical. simpl. by rewrite Hf. Qed.

Lemma only_appends_atomic {E A} (f : control BS XS WS ES → _ * A) :
  (∀ c, c_broker (f c).1 = c_broker c) → only_appends (atomic (E:=E) f).
Proof. intros Hf c d. rewrite run_atomic. simpl. by rewrite Hf. Qed.

Lemma only_appends_lift {E A} (r : result E A) : only_appends (lift_result r).
Proof. destruct r; intros c d; done. Qed.

Lemma only_appends_ret {E A} (a : A) : only_appends (E:=E) (mret a).
Proof. by intros c d. Qed.

Lemma only_appends_throw {E A} (e : E) : only_appends (A:=A) (Throw e).
Proof. by intros c d. Qed.

Lemma only_appends_publish e : only_appends (zoom broker_l (publish e)).
Proof.
  intros c d. rewrite run_zoom by apply _. pose proof (lin_run _ _ _ (c_broker c) (publish_lin e)) as Hp.
  change (view broker_l c) with (c_broker c). destruct (run (publish e) (c_broker c)) as [b [u|err|msg|]]; simpl in *.
  - rewrite (Hp d). by apply prefix_app_r.
  - destruct Hp as [Hp|Hp]; rewrite (Hp d); [done|by apply prefix_app_r].
  - done.
  - by rewrite Hp.
Qed.
End queues.

(** Structural search over a handler. *)
Ltac only_appends :=
  repeat first
    [ match goal with |- ∀ _, _ => intros ? end
    | apply only_appends_publish | apply only_appends_lift | apply only_appends_ret | apply only_appends_throw
    | apply only_appends_zoom; [apply _|done] | apply only_appends_rethrow | apply only_appends_attempt
    | apply only_appends_bind | apply only_appends_critical | apply only_appends_atomic | case_match | done ].

Section progress.
Context `{P : Protocols} `{PO : !ProtocolsOk P} `{PF : Platform}.
Context {BS XS WS ES KS : Type}
  `{B : !Broker BS} `{BO : !BrokerOk B} `{K : !BackendResult XS} `{KO : !BackendResultOk K}
  `{G : !WorkerRegistry WS} `{X : !ExecutionStore ES} `{XO : !ExecutionStoreOk X}.
Context (task_destination : string).
Implicit Types (c : control BS XS WS ES) (s : system BS XS WS ES KS) (m : BrokerEnvelope).

Abbreviation queue_at d s := (queued (c_broker (sys_control s)) d).
Abbreviation after := (system_after task_destination).

Abbreviation handler := (prog (control BS XS WS ES)).

Lemma submit_only_appends request : only_appends (submit_task task_destination request : handler _ _).
Proof. unfold submit_task, accept, insert_job, remove_job. cbv zeta. only_appends. Qed.

Lemma report_only_appends report : only_appends (core_report_execution report : handler _ _).
Proof.
  unfold core_report_execution, apply_report, report_terminal, update_execution, mark_job_running, store_job_result.
  cbv zeta. only_appends.
Qed.

Lemma heartbeat_only_appends h : only_appends (core_report_heartbeat h : handler _ _).
Proof. unfold core_report_heartbeat. only_appends. Qed.

Lemma register_only_appends r : only_appends (core_register_worker r : handler _ _).
Proof. unfold core_register_worker. only_appends. Qed.

Lemma get_job_only_appends id : only_appends (get_job id : handler _ _).
Proof. unfold get_job. only_appends. Qed.

(** *** One call, seen from one queue *)

(** The queue has grown at its end, and lost its front if the call takes from it. *)
Definition moves_up (takes : Prop) (q q' : list BrokerEnvelope) : Prop :=
  q `prefix_of` q' ∨ takes ∧ ∃ e rest, q = e :: rest ∧ rest `prefix_of` q'.

Lemma moves_up_then takes q q1 q2 : moves_up takes q q1 → q1 `prefix_of` q2 → moves_up takes q q2.
Proof. intros [H|(H & e & r & -> & Hr)] H2; [left; by etrans|right]. split; [done|]. exists e, r. split; [done|by etrans]. Qed.

Lemma consume_moves_up (b : BS) d d' :
  moves_up (d' = d) (queued b d') (queued (run (consume d) b).1 d').
Proof.
  pose proof (lin_run _ _ _ b (consume_lin d)) as Hc. destruct (run (consume d) b) as [b' [e|err|msg|]]; simpl in *.
  - destruct Hc as [Hother Hd]. destruct (decide (d' = d)) as [->|Hne]; [|left; by rewrite Hother].
    right. split; [done|]. by exists e, (queued b' d).
  - destruct Hc as [Hother Hd]. destruct (decide (d' = d)) as [->|Hne]; [|left; by rewrite Hother].
    destruct Hd as [->|[e ->]]; [by left|]. right. split; [done|]. by exists e, (queued b' d).
  - done.
  - left. by rewrite Hc.
Qed.

Lemma schedule_moves_up c d :
  moves_up (d = task_destination) (queued (c_broker c) d)
    (queued (c_broker (run (schedule_one task_destination) c).1) d).
Proof.
  unfold schedule_one. rewrite run_bind, run_rethrow, run_zoom by apply _.
  destruct (run available_workers _) as [ws [l|e|msg|]]; [|left; reflexivity..]. cbn [fst snd].
  destruct (head l) as [worker|]; [|left; reflexivity]. unfold dispatch. rewrite run_bind, run_zoom by apply _.
  pose proof (consume_moves_up (c_broker c) task_destination d) as Hmove.
  change (view broker_l (put workers_l ws c)) with (c_broker c).
  destruct (run (consume task_destination) (c_broker c)) as [b [e|err|msg|]]; try exact Hmove.
  eapply moves_up_then; [exact Hmove|]. set (c2 := put broker_l b (put workers_l ws c)).
  change (queued b d) with (queued (c_broker c2) d). cbn [fst snd].
  match goal with |- _ `prefix_of` queued (c_broker (run ?m _).1) _ => assert (only_appends m) as Hm end.
  { cbv zeta. only_appends. }
  apply Hm.
Qed.

(** After the [consume], a fetch leaves the broker alone. *)
Lemma execute_one_broker (wk : Worker) (ws : worker_state BS KS) d :
  moves_up (d = wk_destination wk) (queued (w_broker ws) d) (queued (w_broker (run (execute_one wk) ws).1) d).
Proof.
  unfold execute_one. rewrite run_bind, run_zoom by apply _.
  pose proof (consume_moves_up (w_broker ws) (wk_destination wk) d) as Hmove.
  change (view wbroker_l ws) with (w_broker ws).
  destruct (run (consume (wk_destination wk)) (w_broker ws)) as [b [e|err|msg|]]; try exact Hmove. cbn [fst snd].
  rewrite run_bind, run_lift_result. destruct (map_err _ _) as [a|err]; [|exact Hmove].
  rewrite run_bind, run_rethrow. unfold with_pending. rewrite run_critical. cbn [w_pending put wbroker_l fst snd].
  by destruct (enqueue a _) as [st [[]|err]].
Qed.

Lemma system_step_moves_up s x d :
  deployed s → moves_up (takes_from task_destination x d) (queue_at d s) (queue_at d (system_step task_destination s x)).
Proof.
  intros Hs. destruct x as [request| |worker|report|h|r|id]; simpl; unfold on_control; simpl.
  - left. apply submit_only_appends.
  - apply schedule_moves_up.
  - unfold after_fetch. destruct (sys_workers s !! worker) as [[wk ws]|] eqn:Hw; [|by left].
    rewrite <-(Hs _ _ _ Hw). apply (execute_one_broker wk (put wbroker_l (c_broker (sys_control s)) ws)).
  - left. apply report_only_appends.
  - left. apply heartbeat_only_appends.
  - left. apply register_only_appends.
  - left. apply get_job_only_appends.
Qed.

Lemma system_step_deployed s x : deployed s → deployed (system_step task_destination s x).
Proof.
  intros Hs. destruct x as [| |worker| | | |]; try exact Hs. simpl. unfold after_fetch.
  destruct (sys_workers s !! worker) as [[wk ws]|] eqn:Hw; [|done]. intros id wk' ws'. simpl.
  intros [[<- [= <- _]]|[_ ?]]%lookup_insert_Some; eauto.
Qed.

Lemma system_after_deployed calls s : deployed s → deployed (after calls s).
Proof. revert s. induction calls as [|x calls IH]; intros s Hs; [done|]. by apply IH, system_step_deployed. Qed.

Lemma system_after_app calls calls' s : after (calls ++ calls') s = after calls' (after calls s).
Proof. apply fold_left_app. Qed.

(** *** A message, until it is taken *)

(** The message is in the queue, behind at most those of [ahead] that are left. *)
Definition waits_in (d : string) (ahead : list BrokerEnvelope) m s : Prop :=
  ∃ gone left behind, ahead = gone ++ left ∧ queue_at d s = left ++ m :: behind.

Definition at_front (d : string) m s : Prop := ∃ behind, queue_at d s = m :: behind.

Lemma waits_or_reached d ahead m calls s :
  deployed s → waits_in d ahead m s →
  waits_in d ahead m (after calls s)
  ∨ ∃ before x rest, calls = before ++ x :: rest ∧ takes_from task_destination x d ∧ at_front d m (after before s).
Proof.
  revert s. induction calls as [|x calls IH]; intros s Hs Hm; [by left|].
  destruct Hm as (gone & left & behind & Hahead & Hq).
  assert (at_front d m s ∧ takes_from task_destination x d ∨ waits_in d ahead m (system_step task_destination s x))
    as [[Hfront Hx]|Hm].
  { destruct (system_step_moves_up s x d Hs) as [[more Hmore]|(Hx & e & rest & He & [more Hmore])].
    - right. exists gone, left, (behind ++ more). split; [done|]. by rewrite Hmore, Hq, <-(assoc_L (++)).
    - rewrite Hq in He. destruct left as [|e' left]; injection He as <- <-.
      + left. split; [by exists behind|done].
      + right. exists (gone ++ [e']), left, (behind ++ more). rewrite <-!(assoc_L (++)). simpl. split; [done|].
        by rewrite Hmore, <-(assoc_L (++)). }
  - right. by exists [], x, calls.
  - destruct (IH _ (system_step_deployed _ x Hs) Hm) as [?|(before & y & rest & -> & ? & ?)]; [by left|].
    right. by exists (x :: before), y, rest.
Qed.

(** ** From submission to execution *)

(** A submission that was accepted put its message at the end of the task queue. *)
Lemma submitted_message request c c1 response :
  jobs_poisoned (c_jobs c) = false →
  run (submit_task task_destination request) c = (c1, Done response) →
  sr_job response = Some (new_job c request)
  ∧ appended (new_message task_destination c request) (queued (c_broker c)) (queued (c_broker c1)).
Proof.
  intros Hp. unfold submit_task. rewrite run_accept by done. cbv zeta.
  pose proof (lin_run _ _ _ (c_broker c) (publish_lin (new_message task_destination c request))) as Hpub.
  destruct (run (publish _) _) as [b [u|e|msg|]]; [|done..].
  destruct (run (store_result _ _) _) as [x [v|e|msg|]]; [|done..]. by intros [= <- <-].
Qed.

(** An assignment the worker fetched was at the front of its queue and is now pending. *)
Lemma fetched_assignment (wk : Worker) (ws ws' : worker_state BS KS) got :
  run (execute_one wk) ws = (ws', Done got) →
  ∃ message, queued (w_broker ws) (wk_destination wk) = message :: queued (w_broker ws') (wk_destination wk)
    ∧ decode_assign (be_payload message) = Ok got
    ∧ assignments (w_pending ws') = <[ae_assignment_id got := fresh_record got]> (assignments (w_pending ws))
    ∧ queue (w_pending ws') = queue (w_pending ws) ++ [ae_assignment_id got].
Proof.
  unfold execute_one. intros (w1 & message & (b & Hcons & ->)%run_zoom_Done & H)%run_bind_Done; [|apply _].
  apply run_bind_Done in H as (w2 & a & [-> Ha%map_err_Ok]%run_lift_Done & H).
  apply run_bind_Done in H as (w3 & [] & Hq%run_rethrow_Done & H). injection H as <- <-.
  destruct (lin_Done _ _ _ _ _ _ (consume_lin (wk_destination wk)) Hcons) as [_ Hfront].
  unfold with_pending in Hq. rewrite run_critical in Hq. unfold enqueue in Hq. cbn [w_pending put wbroker_l] in Hq.
  destruct (is_blank (ae_assignment_id a) || is_blank (ae_execution_id a)); [done|].
  destruct (assignments (w_pending ws) !! ae_assignment_id a) eqn:Hnew; [done|].
  injection Hq as <-. by exists message.
Qed.

(** The assignment [a] of the job's request to [worker], recorded. *)
Definition assigned_as (request : SubmitTaskRequest) (j : Job) (worker : string) (a : AssignExecutionRequest) c : Prop :=
  a = make_assignment (ae_assignment_id a) (ae_execution_id a) (job_id j) request
  ∧ ∃ r, records (c_executions c) !! ae_execution_id a = Some r
      ∧ ex_job_id r = job_id j ∧ ex_assignment_id r = ae_assignment_id a
      ∧ ex_worker_id r = worker ∧ ex_state r = ES_Assigned.

(** The worker's state after a fetch that made the assignment pending. *)
Definition pending_at (worker : string) (a : AssignExecutionRequest) s (ws' : worker_state BS KS) : Prop :=
  ∃ wk ws, sys_workers s !! worker = Some (wk, ws)
    ∧ assignments (w_pending ws') = <[ae_assignment_id a := fresh_record a]> (assignments (w_pending ws))
    ∧ queue (w_pending ws') = queue (w_pending ws) ++ [ae_assignment_id a].

(** The turn of the scheduler that reaches the message of a submission. *)
Lemma schedule_reached request c0 c c2 worker a :
  (∀ w, task_destination ≠ worker_destination w) →
  (∃ behind, queued (c_broker c) task_destination = new_message task_destination c0 request :: behind) →
  run (schedule_one task_destination) c = (c2, Done (Assigned worker a)) →
  assigned_as request (new_job c0 request) worker a c2
  ∧ ∃ message, decode_assign (be_payload message) = Ok a
      ∧ queued (c_broker c2) (worker_destination worker) = queued (c_broker c) (worker_destination worker) ++ [message].
Proof.
  intros Hne [behind Hfront] Hsched.
  apply run_bind_Done in Hsched as (c1' & wss & Hws%run_rethrow_Done & Hsched).
  apply run_zoom_Done in Hws as (st & _ & ->); [|apply _]. destruct (head wss) as [w0|]; [|done].
  apply dispatch_outcome in Hsched as (a' & [= <- <-] & Hd); [|apply Hne].
  destruct Hd as (sub & req & m & now & i & Hpop & Hreq & Hmk & Hcor & Hpush & Hm & _ & _ & Hrec & _).
  cbn [put workers_l c_broker c_executions control_state c_workers_l c_workers] in Hpop, Hpush, Hrec.
  rewrite Hfront in Hpop. injection Hpop as <- _.
  assert (ae_job_id a = next_id c0) as Hid by (by apply Hcor).
  cbn [new_message submission_envelope be_payload] in Hreq. rewrite decode_encode_submit in Hreq. injection Hreq as <-.
  split; [split|by exists m].
  - change (job_id (new_job c0 request)) with (next_id c0). rewrite <-Hid. rewrite Hmk at 1. by rewrite Hmk.
  - destruct Hrec as [_ (r & Hsame & ->)]. exists r. cbn [make_execution ex_execution_id].
    rewrite lookup_insert_eq. destruct Hsame as (_ & -> & -> & -> & ->). cbn. by rewrite <-Hid.
Qed.

(** A fetch that reaches the message of an assignment. *)
Lemma fetch_reached worker message a s (ws' : worker_state BS KS) got :
  deployed s → at_front (worker_destination worker) message s → decode_assign (be_payload message) = Ok a →
  fetch worker s = Some (ws', Done got) → got = a ∧ pending_at worker got s ws'.
Proof.
  intros Hs [behind Hfront] Ha. unfold fetch. destruct (sys_workers s !! worker) as [[wk ws]|] eqn:Hw; simpl; [|done].
  intros [= Hrun]. apply fetched_assignment in Hrun as (m & Hm & Hdec & Hasg & Hqueue).
  rewrite (Hs _ _ _ Hw) in Hm. cbn [put wbroker_l w_broker] in Hm. rewrite Hfront in Hm. injection Hm as <- _.
  rewrite Ha in Hdec. injection Hdec as <-. split; [done|]. by exists wk, ws.
Qed.

End progress.

(** ** Examples *)

Module DeliveryExamples.
Import Concrete SystemExamples.

Abbreviation demo_system :=
  (system LocalBroker RecordingResultBackend MemoryWorkerRegistry MemoryExecutionStore RuntimeExamples.LocalCore).

(** A task is already waiting when the task of the example is submitted. *)
Definition busy_server : demo_server := (run (submit_task "tasks" CoreExamples.demo_request) idle_server).1.
Definition busy : demo_system := mkSystem busy_server {[ "w1" := (worker_w1, fetching) ]}.
Definition demo_accepted : demo_server := (run (submit_task "tasks" CoreExamples.demo_request) busy_server).1.
Definition demo_response : SubmitTaskResponse :=
  {| sr_job := Some (new_job busy_server CoreExamples.demo_request); sr_result := Some accepted_result |}.

Lemma demo_submits :
  run (submit_task "tasks" CoreExamples.demo_request) busy_server = (demo_accepted, Done demo_response).
Proof. apply (run_eta (submit_task "tasks" CoreExamples.demo_request) busy_server (Done demo_response)). vm_refl. Qed.

(** The scheduler's first turn takes the earlier task, its second the example's; the
    worker's first fetch gets the earlier assignment, its second the example's. *)
Definition demo_calls : list system_call :=
  [CallSchedule; CallGetJob "0"; CallSubmit CoreExamples.demo_request; CallSchedule; CallFetch "w1"; CallFetch "w1"].

Definition demo_after (n : nat) : demo_system :=
  system_after "tasks" (take n demo_calls) (with_control demo_accepted busy).

Definition jobs_in (d : string) (s : demo_system) : list (option string) :=
  be_correlation_id <$> queued (c_broker (sys_control s)) d.

Definition pending_jobs (s : demo_system) : list (option string) :=
  match sys_workers s !! "w1" with
  | None => []
  | Some (_, ws) => (λ id, ae_job_id ∘ assignment <$> assignments (w_pending ws) !! id) <$> queue (w_pending ws)
  end.

Example demo_progress :
  jobs_in "tasks" (demo_after 0) = [Some "0"; Some "2"] ∧ jobs_in "tasks" (demo_after 1) = [Some "2"]
  ∧ jobs_in "workers.w1" (demo_after 4) = [Some "0"; Some "2"]
  ∧ pending_jobs (demo_after 5) = [Some "0"] ∧ pending_jobs (demo_after 6) = [Some "0"; Some "2"].
Proof. split_and!; vm_refl. Qed.

End DeliveryExamples.
