(* ===== verification/Testing.v ===== *)
(** * Tests as programs

    The repository's unit tests, translated: a test is a program that panics when an
    assertion fails.  The files [Tests*.v] hold them, on the doubles the tests define and on
    the concrete instances of the libraries; each is shown to pass by evaluation, so the
    models agree with the code on everything the tests look at. *)

From S2P Require Import Prelude RustStr Prog.

Section assertions.
Context {W E : Type}.

(** [assert!] and [assert_eq!] *)
Definition assert (b : bool) : prog W E unit :=
  if b then mret tt else Panic "assertion failed".

Definition assert_eq {A} `{EqDecision A} (a b : A) : prog W E unit := assert (bool_decide (a = b)).

(** [Result::unwrap], [Result::unwrap_err] and [Option::unwrap] *)
Definition unwrap_ok {E' A} (r : result E' A) : prog W E A :=
  match r with
  | Ok a => mret a
  | Err _ => Panic "called `Result::unwrap()` on an `Err` value"
  end.

Definition unwrap_err {E' A} (r : result E' A) : prog W E E' :=
  match r with
  | Ok _ => Panic "called `Result::unwrap_err()` on an `Ok` value"
  | Err e => mret e
  end.

Definition unwrap_some {A} (o : option A) : prog W E A :=
  match o with
  | Some a => mret a
  | None => Panic "called `Option::unwrap()` on a `None` value"
  end.

(** A call whose result is unwrapped. *)
Definition unwrapped {E' A} (m : prog W E' A) : prog W E A := r ← attempt m; unwrap_ok r.
Definition refused {E' A} (m : prog W E' A) : prog W E E' := r ← attempt m; unwrap_err r.

(** A look at the state of a double. *)
Definition look {A} (f : W → A) : prog W E A := atomic (λ w, (w, f w)).
End assertions.

(** [str::contains] *)
Definition str_contains (needle haystack : string) : bool := bool_decide (is_Some (split_once needle haystack)).

(** [Option::is_none] and the like *)
Definition is_none {A} (o : option A) : bool := match o with None => true | Some _ => false end.

(** The test ends without a panic, alone, from [w]. *)
Definition passes {W} (test : prog W Empty_set unit) (w : W) : bool :=
  match (run test w).2 with
  | Done _ => true
  | _ => false
  end.
