(* ===== verification/TestsScheduler.v ===== *)
(** * The tests of the scheduler

    [scheduler/scheduler.rs], module [tests], with its doubles.  The broker of the tests
    can watch the execution store: both are in one [world], and the broker's part of it
    contains the store's. *)

From Stdlib Require Import Ascii.
From S2P Require Import Prelude RustStr Prog Protocol Concrete WorkerRegistry ExecutionStore Broker.
From S2P Require Import Control Scheduler Testing.
Import Concrete.Concrete.

Module SchedulerTests.

(** ** Doubles *)

Record RecordingExecutionStore := mkRecordingExecutionStore {
  store_records : list ExecutionRecord; fail_create : bool }.

Definition recording_create (execution : ExecutionRecord) (s : RecordingExecutionStore)
    : RecordingExecutionStore * result ExecutionStoreError unit :=
  if fail_create s then (s, Err "injected create failure")
  else (mkRecordingExecutionStore (store_records s ++ [execution]) (fail_create s), Ok tt).

Definition recording_get (execution_id : string) (s : RecordingExecutionStore) : option ExecutionRecord :=
  List.find (λ r, bool_decide (ex_execution_id r = execution_id)) (store_records s).

#[local] Instance recording_execution_store : ExecutionStore RecordingExecutionStore :=
  {| store_create r := critical (recording_create r);
     store_get id := atomic (λ s, (s, recording_get id s));
     store_update_state _ _ := mret tt |}.

Record TestWorkerDirectory := mkTestWorkerDirectory { test_workers : list string }.

#[local] Instance test_worker_directory : WorkerDirectory TestWorkerDirectory :=
  {| available_workers := atomic (λ d, (d, sort_strings (test_workers d))) |}.

(** [tb_watches]: the field [execution_store] is set. *)
Record TestBroker := mkTestBroker {
  incoming : option BrokerEnvelope;
  outgoing : list BrokerEnvelope;
  consumes : nat;
  tb_watches : bool;
  publish_after_create : bool }.

Record world := mkWorld {
  t_env : env;
  t_jobs : JobTable;
  t_broker : TestBroker;
  t_workers : TestWorkerDirectory;
  t_recording : RecordingExecutionStore;
  t_memory : MemoryExecutionStore }.

(** The broker with the store it watches. *)
Definition test_publish (envelope : BrokerEnvelope) (s : TestBroker * RecordingExecutionStore)
    : (TestBroker * RecordingExecutionStore) * result BrokerError unit :=
  let '(b, store) := s in
  let after_create := if tb_watches b then negb (bool_decide (store_records store = [])) else publish_after_create b in
  ((mkTestBroker (incoming b) (outgoing b ++ [envelope]) (consumes b) (tb_watches b) after_create, store), Ok tt).

Definition test_consume (s : TestBroker * RecordingExecutionStore)
    : (TestBroker * RecordingExecutionStore) * result BrokerError BrokerEnvelope :=
  let '(b, store) := s in
  ((mkTestBroker None (outgoing b) (S (consumes b)) (tb_watches b) (publish_after_create b), store),
   ok_or (incoming b) "empty").

#[local] Instance test_broker_instance : Broker (TestBroker * RecordingExecutionStore) :=
  {| publish e := critical (test_publish e); consume _ := critical test_consume |}.

Definition test_broker (watches : bool) : TestBroker :=
  let request :=
    {| st_application_namespace := "dev";
       st_task_name := "demo.add";
       st_arguments := String "001" "";
       st_serialization_format := "json";
       st_resources := None;
       st_metadata := Some (mkMetadata {[ "application" := "demo" ]});
       st_command_id := "";
       st_task := None;
       st_parent_execution_id := None;
       st_rest := opaque_default |} in
  {| incoming := Some
       {| be_message_id := "message-1"; be_message_kind := ""; be_schema_version := ""; be_source := "";
          be_destination := ""; be_created_at := None; be_expires_at := None;
          be_payload := encode_submit request;
          be_content_type := None; be_correlation_id := Some "job-1"; be_causation_id := None;
          be_trace_context := None; be_routing_headers := None |};
     outgoing := [];
     consumes := 0;
     tb_watches := watches;
     publish_after_create := false |}.

(** ** The scheduler's view of the world: the store is one of the two *)

Definition t_env_l : lens world env :=
  Lens t_env (λ x w, mkWorld x (t_jobs w) (t_broker w) (t_workers w) (t_recording w) (t_memory w)).
Definition t_jobs_l : lens world JobTable :=
  Lens t_jobs (λ x w, mkWorld (t_env w) x (t_broker w) (t_workers w) (t_recording w) (t_memory w)).
Definition t_broker_l : lens world (TestBroker * RecordingExecutionStore) :=
  Lens (λ w, (t_broker w, t_recording w))
    (λ x w, mkWorld (t_env w) (t_jobs w) x.1 (t_workers w) x.2 (t_memory w)).
Definition t_workers_l : lens world TestWorkerDirectory :=
  Lens t_workers (λ x w, mkWorld (t_env w) (t_jobs w) (t_broker w) x (t_recording w) (t_memory w)).
Definition t_recording_l : lens world RecordingExecutionStore :=
  Lens t_recording (λ x w, mkWorld (t_env w) (t_jobs w) (t_broker w) (t_workers w) x (t_memory w)).
Definition t_memory_l : lens world MemoryExecutionStore :=
  Lens t_memory (λ x w, mkWorld (t_env w) (t_jobs w) (t_broker w) (t_workers w) (t_recording w) x).

Ltac world_lens := split; [by intros [] []|by intros []|by intros ? ? []].

#[local] Instance t_env_l_ok : LensOk t_env_l.
Proof. world_lens. Qed.
#[local] Instance t_jobs_l_ok : LensOk t_jobs_l.
Proof. world_lens. Qed.
#[local] Instance t_broker_l_ok : LensOk t_broker_l.
Proof. world_lens. Qed.
#[local] Instance t_workers_l_ok : LensOk t_workers_l.
Proof. world_lens. Qed.
#[local] Instance t_recording_l_ok : LensOk t_recording_l.
Proof. world_lens. Qed.
#[local] Instance t_memory_l_ok : LensOk t_memory_l.
Proof. world_lens. Qed.

(** The scheduler has no result backend; any part of the world stands for it. *)
Definition on_recording : ControlState world (TestBroker * RecordingExecutionStore) env TestWorkerDirectory RecordingExecutionStore :=
  {| env_l := t_env_l; jobs_l := t_jobs_l; broker_l := t_broker_l; results_l := t_env_l; workers_l := t_workers_l;
     executions_l := t_recording_l |}.
Definition on_memory : ControlState world (TestBroker * RecordingExecutionStore) env TestWorkerDirectory MemoryExecutionStore :=
  {| env_l := t_env_l; jobs_l := t_jobs_l; broker_l := t_broker_l; results_l := t_env_l; workers_l := t_workers_l;
     executions_l := t_memory_l |}.

(** [test_broker()], the directory and the recording store of a test. *)
Definition test_world (watches : bool) (workers : list string) (fail_create : bool) : world :=
  mkWorld (mkEnv 0 0) (mkJobTable false ∅) (test_broker watches) (mkTestWorkerDirectory workers)
    (mkRecordingExecutionStore [] fail_create) memory_store_default.

(** ** Tests *)

Abbreviation test := (prog world Empty_set unit).

Definition no_worker_defers_without_consuming_the_execution : test :=
  decision ← unwrapped (schedule_one (CS:=on_memory) "tasks");
  _ ← match decision with
      | Deferred NoWorkerAvailable => mret tt
      | Assigned _ _ => Panic "assertion failed"
      end;
  broker ← look t_broker;
  _ ← assert_eq (consumes broker) 0;
  assert (bool_decide (outgoing broker = [])).

Definition one_worker_is_selected_and_appears_in_the_assignment_path : test :=
  decision ← unwrapped (schedule_one (CS:=on_recording) "tasks");
  match decision with
  | Deferred _ => Panic "expected assignment"
  | Assigned worker_id assignment =>
    _ ← assert_eq worker_id "worker-7";
    _ ← assert_eq (ae_job_id assignment) "job-1";
    task ← unwrap_some (ae_task assignment);
    _ ← assert_eq (ti_namespace task) "dev";
    _ ← assert_eq (ti_application task) "demo";
    _ ← assert_eq (ti_name task) "demo.add";
    outgoing ← look (λ w, outgoing (t_broker w));
    sent ← unwrap_some (outgoing !! 0);
    _ ← assert_eq (be_destination sent) (worker_destination worker_id);
    _ ← assert (negb (bool_decide (be_destination sent = "workers.default")));
    decoded ← unwrap_ok (decode_assign (be_payload sent));
    _ ← assert_eq (ae_execution_id decoded) (ae_execution_id assignment);
    records ← look (λ w, store_records (t_recording w));
    _ ← assert_eq (length records) 1;
    record ← unwrap_some (records !! 0);
    _ ← assert_eq (ex_execution_id record) (ae_execution_id assignment);
    _ ← assert_eq (ex_job_id record) "job-1";
    _ ← assert_eq (ex_assignment_id record) (ae_assignment_id assignment);
    _ ← assert_eq (ex_worker_id record) "worker-7";
    _ ← assert_eq (execution_state_code (ex_state record)) (execution_state_code ES_Assigned);
    after_create ← look (λ w, publish_after_create (t_broker w));
    assert after_create
  end.

Definition execution_store_failure_prevents_assignment_publish : test :=
  result ← attempt (schedule_one (CS:=on_recording) "tasks");
  _ ← assert (negb (is_ok result));
  outgoing ← look (λ w, outgoing (t_broker w));
  assert (bool_decide (outgoing = [])).

Definition multiple_workers_use_the_lexicographically_first_worker_id : test :=
  decision ← unwrapped (schedule_one (CS:=on_memory) "tasks");
  _ ← assert match decision with
             | Assigned worker_id _ => bool_decide (worker_id = "worker-a")
             | Deferred _ => false
             end;
  outgoing ← look (λ w, outgoing (t_broker w));
  sent ← unwrap_some (outgoing !! 0);
  assert_eq (be_destination sent) "workers.worker-a".

Lemma scheduler_tests_pass :
  forallb (λ '(t, w), passes t w)
    [(no_worker_defers_without_consuming_the_execution, test_world false [] false);
     (one_worker_is_selected_and_appears_in_the_assignment_path, test_world true ["worker-7"] false);
     (execution_store_failure_prevents_assignment_publish, test_world false ["worker-7"] true);
     (multiple_workers_use_the_lexicographically_first_worker_id,
      test_world false ["worker-z"; "worker-a"; "worker-m"] false)] = true.
Proof. vm_refl. Qed.
End SchedulerTests.
