(* ===== verification/TestsCore.v ===== *)
(** * The tests of the core service

    [api/grpc.rs], module [tests], with its doubles.  The services are made by
    [CoreExecutionService::new], on stores in memory. *)

From Stdlib Require Import Ascii.
From S2P Require Import Prelude RustStr Prog Protocol Concrete WorkerRegistry ExecutionStore Broker.
From S2P Require Import ResultBackend Local Control CoreService Testing.
Import Concrete.Concrete.

Module CoreTests.

#[local] Instance opaque_eq_dec : EqDecision (@Opaque protocol_types).
Proof. exact Z.eq_dec. Defined.
#[local] Instance metadata_eq_dec : EqDecision Metadata.
Proof. solve_decision. Defined.
#[local] Instance proto_error_eq_dec : EqDecision ProtoError.
Proof. solve_decision. Defined.
#[local] Instance job_result_eq_dec : EqDecision JobResult.
Proof. solve_decision. Defined.

(** ** Requests *)

Definition heartbeat_request (worker_id generation : string) : option RuntimeHeartbeat :=
  Some {| hb_runtime_id := worker_incarnation_id worker_id generation;
          hb_sequence_number := 1;
          hb_status := 0;
          hb_available_resources := None;
          hb_observed_at := None |}.

Definition registration_request (worker_id generation version : string) : option WorkerRegistration :=
  Some {| wr_worker_id := worker_id;
          wr_node_id := None;
          wr_generation := generation;
          wr_implementation_version := version;
          wr_protocol_versions := ["runtime/v1"];
          wr_endpoint := "";
          wr_executors := [];
          wr_capacity := None;
          wr_metadata := None |}.

(** [worker_registration] *)
Definition worker_registration_request (worker_id generation : string) : option WorkerRegistration :=
  registration_request worker_id generation "test".

(** ** Doubles *)

Record RecordingBroker := mkRecordingBroker { envelopes : list BrokerEnvelope }.

Definition recording_publish (e : BrokerEnvelope) (b : RecordingBroker) : RecordingBroker * result BrokerError unit :=
  (mkRecordingBroker (envelopes b ++ [e]), Ok tt).

Definition recording_consume (b : RecordingBroker) : RecordingBroker * result BrokerError BrokerEnvelope :=
  match envelopes b with
  | [] => (b, Err "empty")
  | e :: rest => (mkRecordingBroker rest, Ok e)
  end.

#[local] Instance recording_broker : Broker RecordingBroker :=
  {| publish e := critical (recording_publish e); consume _ := critical recording_consume |}.

(** The broker that looks into the job table of the service; [inspects]: its field [jobs]
    has been set. *)
Record InspectingBroker := mkInspectingBroker {
  inspects : bool; job_was_visible : bool; fail_publish : bool }.

Definition inspecting_publish (e : BrokerEnvelope) (s : InspectingBroker * JobTable)
    : (InspectingBroker * JobTable) * outcome BrokerError unit :=
  let '(b, table) := s in
  match be_correlation_id e with
  | None => (s, Panicked "called `Option::unwrap()` on a `None` value")
  | Some job_id =>
    if negb (inspects b) || jobs_poisoned table then (s, Panicked "called `unwrap()`")
    else
      let b := mkInspectingBroker (inspects b) (bool_decide (is_Some (jobs table !! job_id))) (fail_publish b) in
      ((b, table), if fail_publish b then Failed "publish failed" else Done tt)
  end.

#[local] Instance inspecting_broker : Broker (InspectingBroker * JobTable) :=
  {| publish e := section (inspecting_publish e); consume _ := Throw "empty" |}.

(** The service whose job table the broker shares. *)
Record inspected := mkInspected {
  in_service : control InspectingBroker RecordingResultBackend MemoryWorkerRegistry MemoryExecutionStore }.

Definition within {S} (l : lens (control InspectingBroker RecordingResultBackend MemoryWorkerRegistry MemoryExecutionStore) S)
    : lens inspected S :=
  Lens (λ w, view l (in_service w)) (λ x w, mkInspected (put l x (in_service w))).

#[local] Instance within_ok {S} (l : lens _ S) `{!LensOk l} : LensOk (within l).
Proof.
  split; unfold within; simpl.
  - intros. apply view_put.
  - intros []. simpl. by rewrite put_view.
  - intros. by rewrite put_put.
Qed.

Definition inspecting_l : lens inspected (InspectingBroker * JobTable) :=
  Lens (λ w, (c_broker (in_service w), c_jobs (in_service w)))
    (λ x w, mkInspected (put c_broker_l x.1 (put c_jobs_l x.2 (in_service w)))).

#[local] Instance inspecting_l_ok : LensOk inspecting_l.
Proof. split; [by intros [] []|by intros [[]]|by intros ? ? []]. Qed.

#[local] Instance inspected_state :
    ControlState inspected (InspectingBroker * JobTable) RecordingResultBackend MemoryWorkerRegistry MemoryExecutionStore :=
  {| env_l := within c_env_l; jobs_l := within c_jobs_l; broker_l := inspecting_l; results_l := within c_results_l;
     workers_l := within c_workers_l; executions_l := within c_executions_l |}.

(** ** The service under test *)

Abbreviation service := (control RecordingBroker RecordingResultBackend MemoryWorkerRegistry MemoryExecutionStore).
Abbreviation test := (prog service Empty_set unit).

Definition passes_new (t : test) : bool :=
  match core_service_new (mkEnv 0 0) (mkRecordingBroker []) (mkRecordingResultBackend []) with
  | Some s => passes t s
  | None => false
  end.

(** [memory_worker_registry.available_workers()] and [memory_worker_registry.get(..).unwrap()] *)
Definition members : prog service Empty_set (list string) := unwrapped (zoom workers_l available_workers).
Definition member (worker_id : string) : prog service Empty_set RegisteredWorker :=
  o ← look (λ s, memory_get worker_id (c_workers s)); unwrap_some o.

(** ** Workers *)

Definition valid_worker_registration_is_acknowledged_and_recorded : test :=
  response ← unwrapped (core_register_worker (worker_registration_request "worker-1" "generation-1"));
  _ ← assert (rwr_accepted response);
  _ ← assert (is_none (rwr_lease_id response));
  workers ← members;
  assert_eq (length workers) 1.

Definition malformed_worker_registration_is_rejected : test :=
  status ← refused (core_register_worker (worker_registration_request " " "generation-1"));
  _ ← assert_eq (status_code status) InvalidArgument;
  workers ← members;
  assert_eq workers [].

Definition same_worker_generation_registration_is_idempotent : test :=
  _ ← unwrapped (core_register_worker (worker_registration_request "worker-1" "generation-1"));
  _ ← unwrapped (core_register_worker (registration_request "worker-1" "generation-1" "changed-but-same-incarnation"));
  workers ← members;
  _ ← assert_eq (length workers) 1;
  stored ← member "worker-1";
  _ ← assert_eq (wr_generation (registration stored)) "generation-1";
  assert_eq (wr_implementation_version (registration stored)) "test".

Definition new_generation_replaces_previous_worker_incarnation : test :=
  _ ← unwrapped (core_register_worker (worker_registration_request "worker-1" "generation-1"));
  _ ← unwrapped (core_register_worker (worker_registration_request "worker-1" "generation-2"));
  workers ← members;
  _ ← assert_eq (length workers) 1;
  stored ← member "worker-1";
  assert_eq (wr_generation (registration stored)) "generation-2".

Definition heartbeat_for_current_generation_is_accepted_and_updates_last_seen : test :=
  _ ← unwrapped (core_register_worker (worker_registration_request "worker-1" "generation-1"));
  stored ← member "worker-1";
  let registered := registered_at stored in
  response ← unwrapped (core_report_heartbeat (heartbeat_request "worker-1" "generation-1"));
  _ ← assert (rhr_accepted response);
  stored ← member "worker-1";
  last_seen ← unwrap_some (last_heartbeat_at stored);
  assert (bool_decide (registered ≤ last_seen)%Z).

Definition heartbeat_for_unknown_worker_is_rejected : test :=
  status ← refused (core_report_heartbeat (heartbeat_request "unknown" "generation-1"));
  assert_eq (status_code status) NotFound.

Definition heartbeat_for_stale_generation_is_rejected : test :=
  _ ← unwrapped (core_register_worker (worker_registration_request "worker-1" "generation-2"));
  status ← refused (core_report_heartbeat (heartbeat_request "worker-1" "generation-1"));
  _ ← assert_eq (status_code status) FailedPrecondition;
  stored ← member "worker-1";
  assert (is_none (last_heartbeat_at stored)).

Lemma worker_tests_pass :
  forallb passes_new
    [valid_worker_registration_is_acknowledged_and_recorded; malformed_worker_registration_is_rejected;
     same_worker_generation_registration_is_idempotent; new_generation_replaces_previous_worker_incarnation;
     heartbeat_for_current_generation_is_accepted_and_updates_last_seen; heartbeat_for_unknown_worker_is_rejected;
     heartbeat_for_stale_generation_is_rejected] = true.
Proof. vm_refl. Qed.

(** ** Submission *)

Definition request {W BS XS WS ES} `{CS : !ControlState W BS XS WS ES} (payload : bytes) : prog W Empty_set SubmitTaskRequest :=
  command_id ← zoom env_l new_uuid;
  mret {| st_application_namespace := "development";
          st_task_name := "demo.add";
          st_arguments := payload;
          st_serialization_format := "json";
          st_resources := None;
          st_metadata := None;
          st_command_id := command_id;
          st_task := None;
          st_parent_execution_id := None;
          st_rest := opaque_default |}.

(** The payloads of the tests: the bytes of JSON objects. *)
Definition quoted (s : string) : string := String "034" s +:+ String "034" "".
Definition args_payload : bytes := "{" +:+ quoted "args" +:+ ":[1,2]}".
Definition value_payload : bytes := "{" +:+ quoted "value" +:+ ":3}".

Definition submit_task_is_published_before_it_is_accepted : test :=
  request ← request args_payload;
  response ← unwrapped (accept "tasks" request);
  job ← unwrap_some (sr_job response);
  _ ← assert (negb (bool_decide (job_id job = "")));
  _ ← assert_eq (job_state job) (job_state_code JS_Accepted);
  envelopes ← look (λ s, envelopes (c_broker s));
  _ ← assert_eq (length envelopes) 1;
  envelope ← unwrap_some (envelopes !! 0);
  _ ← assert_eq (be_destination envelope) "tasks";
  decoded ← unwrap_ok (decode_submit (be_payload envelope));
  _ ← assert_eq (st_task_name decoded) "demo.add";
  results ← look (λ s, recorded_results (c_results s));
  _ ← assert_eq (length results) 1;
  stored ← unwrap_some (results !! 0);
  assert_eq stored.1 (job_id job).

(** [*broker.jobs.lock().unwrap() = Some(service.jobs.clone())] *)
Definition share_jobs : prog inspected Empty_set unit :=
  zoom inspecting_l (atomic (λ '(b, table), ((mkInspectingBroker true (job_was_visible b) (fail_publish b), table), tt))).

Definition was_visible : prog inspected Empty_set bool := look (λ w, job_was_visible (c_broker (in_service w))).

Definition job_is_visible_before_task_is_published : prog inspected Empty_set unit :=
  _ ← share_jobs;
  request ← request "";
  _ ← unwrapped (accept "tasks" request);
  visible ← was_visible;
  assert visible.

Definition failed_publish_removes_inserted_job : prog inspected Empty_set unit :=
  _ ← share_jobs;
  request ← request "";
  status ← refused (accept "tasks" request);
  _ ← assert_eq (status_code status) Unavailable;
  visible ← was_visible;
  _ ← assert visible;
  left ← look (λ w, jobs (c_jobs (in_service w)));
  assert (bool_decide (map_to_list left = [])).

Definition passes_inspected (t : prog inspected Empty_set unit) (fail_publish : bool) : bool :=
  match core_service_new (mkEnv 0 0) (mkInspectingBroker false false fail_publish) (mkRecordingResultBackend []) with
  | Some s => passes t (mkInspected s)
  | None => false
  end.

Definition empty_payload_is_accepted : test :=
  request ← request "";
  response ← unwrapped (accept "tasks" request);
  assert (negb (is_none (sr_job response))).

(** [service.accept(request(payload)).await.unwrap().job.unwrap().job_id] *)
Definition accepted_job_id (payload : bytes) : prog service Empty_set string :=
  request ← request payload;
  submitted ← unwrapped (accept "tasks" request);
  job ← unwrap_some (sr_job submitted);
  mret (job_id job).

Definition get_job_returns_an_accepted_job : test :=
  job_id ← accepted_job_id "";
  response ← unwrapped (get_job job_id);
  job ← unwrap_some (gj_job response);
  _ ← assert_eq (job_state job) (job_state_code JS_Accepted);
  assert (is_none (gj_result response)).

Definition get_job_returns_not_found_for_an_unknown_job : test :=
  status ← refused (get_job "missing");
  assert_eq (status_code status) NotFound.

Definition value_result : JobResult :=
  mkJobResult value_payload "json" None "" opaque_default.

Definition successful_result_is_stored_and_returned : test :=
  job_id ← accepted_job_id "";
  _ ← unwrapped (store_job_result job_id value_result);
  response ← unwrapped (get_job job_id);
  job ← unwrap_some (gj_job response);
  _ ← assert_eq (job_state job) (job_state_code JS_Succeeded);
  assert_eq (gj_result response) (Some value_result).

Definition failed_result_is_stored_and_returned : test :=
  let result := mkJobResult "" "" (Some (mkProtoError "TASK_FAILED" "worker reported failure" None)) "" opaque_default in
  job_id ← accepted_job_id "";
  _ ← unwrapped (store_job_result job_id result);
  response ← unwrapped (get_job job_id);
  job ← unwrap_some (gj_job response);
  _ ← assert_eq (job_state job) (job_state_code JS_Failed);
  assert_eq (gj_result response) (Some result).

Lemma submission_tests_pass :
  forallb passes_new
    [submit_task_is_published_before_it_is_accepted; empty_payload_is_accepted; get_job_returns_an_accepted_job;
     get_job_returns_not_found_for_an_unknown_job; successful_result_is_stored_and_returned;
     failed_result_is_stored_and_returned] = true
  ∧ passes_inspected job_is_visible_before_task_is_published false = true
  ∧ passes_inspected failed_publish_removes_inserted_job true = true.
Proof. split_and!; vm_refl. Qed.

(** ** Reports *)

Definition assigned_execution : prog service Empty_set (string * AssignExecutionRequest) :=
  job_id ← accepted_job_id args_payload;
  assignment_id ← zoom env_l new_uuid;
  execution_id ← zoom env_l new_uuid;
  let assignment :=
    {| ae_assignment_id := assignment_id;
       ae_execution_id := execution_id;
       ae_job_id := job_id;
       ae_task := Some (mkTaskIdentity "development" "" "demo.add" "");
       ae_arguments := args_payload;
       ae_serialization_format := "json";
       ae_reserved_resources := None;
       ae_deadline := None;
       ae_metadata := None |} in
  now ← zoom env_l system_time_now;
  _ ← unwrapped (zoom executions_l (store_create
        {| ex_execution_id := ae_execution_id assignment;
           ex_job_id := job_id;
           ex_assignment_id := ae_assignment_id assignment;
           ex_worker_id := "worker-1";
           ex_state := ES_Assigned;
           ex_created_at := now;
           ex_updated_at := now |}));
  mret (job_id, assignment).

Definition report (assignment : AssignExecutionRequest) (state : ExecutionState) (outcome : option JobResult)
    : prog service Empty_set unit :=
  report_id ← zoom env_l new_uuid;
  now ← zoom env_l system_time_now;
  _ ← unwrapped (core_report_execution
        {| re_report_id := report_id;
           re_assignment_id := ae_assignment_id assignment;
           re_execution_id := ae_execution_id assignment;
           re_sequence_number := 1;
           re_state := execution_state_code state;
           re_outcome := outcome;
           re_observed_at := Some (timestamp_from now) |});
  mret tt.

(** [service.execution_store.get(&id).await.unwrap().unwrap().state], as its number. *)
Definition stored_state (execution_id : string) : prog service Empty_set Z :=
  found ← unwrapped (zoom executions_l (store_get execution_id));
  record ← unwrap_some found;
  mret (execution_state_code (ex_state record)).

Definition assigned_worker_can_start_complete_and_observe_success : test :=
  '(job_id, assignment) ← assigned_execution;
  _ ← assert_eq (ae_job_id assignment) job_id;
  task ← unwrap_some (ae_task assignment);
  _ ← assert_eq (ti_name task) "demo.add";
  _ ← assert_eq (ae_arguments assignment) args_payload;
  _ ← assert_eq (ae_serialization_format assignment) "json";
  _ ← report assignment ES_Running None;
  state ← stored_state (ae_execution_id assignment);
  _ ← assert_eq state (execution_state_code ES_Running);
  running ← unwrapped (get_job job_id);
  job ← unwrap_some (gj_job running);
  _ ← assert_eq (job_state job) (job_state_code JS_Running);
  _ ← report assignment ES_Succeeded (Some value_result);
  completed ← unwrapped (get_job job_id);
  job ← unwrap_some (gj_job completed);
  _ ← assert_eq (job_state job) (job_state_code JS_Succeeded);
  result ← unwrap_some (gj_result completed);
  _ ← assert_eq (jr_payload result) (jr_payload value_result);
  _ ← assert_eq (jr_execution_id result) (ae_execution_id assignment);
  state ← stored_state (ae_execution_id assignment);
  assert_eq state (execution_state_code ES_Succeeded).

Definition assigned_worker_can_start_fail_and_observe_failure : test :=
  '(job_id, assignment) ← assigned_execution;
  _ ← report assignment ES_Running None;
  let failure := mkProtoError "PYTHON_EXCEPTION" "ValueError: bad input" None in
  _ ← report assignment ES_Failed (Some (mkJobResult "" "" (Some failure) "" opaque_default));
  failed ← unwrapped (get_job job_id);
  job ← unwrap_some (gj_job failed);
  _ ← assert_eq (job_state job) (job_state_code JS_Failed);
  result ← unwrap_some (gj_result failed);
  _ ← assert_eq (jr_failure result) (Some failure);
  state ← stored_state (ae_execution_id assignment);
  assert_eq state (execution_state_code ES_Failed).

Definition report_for_unknown_execution_is_not_found : test :=
  status ← refused (core_report_execution
    {| re_report_id := ""; re_assignment_id := "assignment"; re_execution_id := "missing"; re_sequence_number := 0;
       re_state := execution_state_code ES_Running; re_outcome := None; re_observed_at := None |});
  assert_eq (status_code status) NotFound.

Lemma report_tests_pass :
  forallb passes_new
    [assigned_worker_can_start_complete_and_observe_success; assigned_worker_can_start_fail_and_observe_failure;
     report_for_unknown_execution_is_not_found] = true.
Proof. vm_refl. Qed.
End CoreTests.
