(* ===== verification/TestsStores.v ===== *)
(** * The tests of the stores

    The modules [tests] of [worker_registry.rs], [execution_store.rs], [broker/routing.rs]
    and [result_backend/redis.rs].  On the concrete platform a clock reading takes a
    millisecond, so a sleep is as many readings that nobody uses; the Redis tests run on
    the concrete server, one database for all the handles. *)

From S2P Require Import Prelude RustStr Prog Protocol Concrete WorkerRegistry ExecutionStore Broker.
From S2P Require Import Redis RedisConcrete RedisExecutionStore RedisResultBackend RedisWorkerRegistry Testing.
Import Concrete.Concrete RedisConcrete.RedisConcrete.

(** [Duration::from_millis] *)
Definition from_millis (ms : Z) : Z := (ms * 1000000)%Z.

(** A process on its own database; [sleep] lets the server's time pass. *)
Definition fresh_node : redis_node server := mkNode (mkServer (mkDb 0 ∅ ∅) []) 0.

Definition redis_sleep (ms : Z) : prog (redis_node server) Empty_set unit :=
  atomic (λ n, (mkNode (mkServer (at_time (db_time (sv_db (node_server n)) + ms) (sv_db (node_server n)))
                          (sv_fates (node_server n))) (node_ticks n), tt)).

(** [THREADWEAVE_TEST_REDIS_URL] *)
Definition test_redis_url : string := "redis://127.0.0.1:6379/".

Module RegistryTests.

Definition registration_of (worker_id generation version : string) : WorkerRegistration :=
  {| wr_worker_id := worker_id;
     wr_node_id := None;
     wr_generation := generation;
     wr_implementation_version := version;
     wr_protocol_versions := ["runtime/v1"];
     wr_endpoint := "";
     wr_executors := [];
     wr_capacity := None;
     wr_metadata := None |}.

(** [registration] *)
Definition test_registration (worker_id generation : string) : WorkerRegistration :=
  registration_of worker_id generation "test".

Abbreviation test := (prog MemoryWorkerRegistry Empty_set unit).

Definition sleep (ms : nat) : test :=
  atomic (λ m, (mkMemoryWorkerRegistry (mw_poisoned m) (workers m) (membership_ttl m) (mw_ticks m + ms), tt)).

Definition known (worker_id : string) : prog MemoryWorkerRegistry Empty_set RegisteredWorker :=
  o ← look (memory_get worker_id); unwrap_some o.

Definition memory_registration_generation_and_heartbeat_semantics : test :=
  o ← unwrapped (register (test_registration "worker" "one"));
  _ ← assert_eq o New;
  o ← unwrapped (register (registration_of "worker" "one" "ignored"));
  _ ← assert_eq o Idempotent;
  stored ← known "worker";
  _ ← assert_eq (wr_implementation_version (registration stored)) "test";
  o ← unwrapped (register (test_registration "worker" "two"));
  _ ← assert_eq o Replaced;
  error ← refused (heartbeat "worker" "one");
  _ ← assert_eq error StaleGeneration;
  _ ← unwrapped (heartbeat "worker" "two");
  stored ← known "worker";
  assert (negb (is_none (last_heartbeat_at stored))).

Definition memory_membership_expires_and_heartbeat_refreshes_it : test :=
  _ ← unwrapped (register (test_registration "worker" "one"));
  _ ← sleep 50;
  _ ← unwrapped (heartbeat "worker" "one");
  _ ← sleep 50;
  workers ← unwrapped available_workers;
  _ ← assert_eq workers ["worker"];
  _ ← sleep 40;
  workers ← unwrapped available_workers;
  _ ← assert_eq workers [];
  error ← refused (heartbeat "worker" "one");
  assert_eq error UnknownWorker.

(** The fuel of the listings is more than the one page the database answers in. *)
Definition redis_instances_share_membership_and_redis_expires_it : prog (redis_node server) Empty_set unit :=
  let prefix := "threadweave:test:workers:" +:+ uuid_at 0 in
  first ← unwrap_ok (redis_registry_new test_redis_url prefix (from_millis 300));
  second ← unwrap_ok (redis_registry_new test_redis_url prefix (from_millis 300));
  o ← unwrapped (redis_register first (test_registration "shared" "one"));
  _ ← assert_eq o New;
  workers ← unwrapped (redis_available_workers second 2);
  _ ← assert_eq workers ["shared"];
  o ← unwrapped (redis_register second (test_registration "shared" "one"));
  _ ← assert_eq o Idempotent;
  o ← unwrapped (redis_register second (test_registration "shared" "two"));
  _ ← assert_eq o Replaced;
  error ← refused (redis_heartbeat second "shared" "one");
  _ ← assert_eq error StaleGeneration;
  _ ← unwrapped (redis_heartbeat second "shared" "two");
  _ ← redis_sleep 350;
  workers ← unwrapped (redis_available_workers first 2);
  assert_eq workers [].

Definition passes_on (registry : option MemoryWorkerRegistry) (t : test) : bool :=
  match registry with Some m => passes t m | None => false end.

Lemma registry_tests_pass :
  passes_on memory_registry_default memory_registration_generation_and_heartbeat_semantics = true
  ∧ passes_on (memory_registry_new (from_millis 80)) memory_membership_expires_and_heartbeat_refreshes_it = true
  ∧ passes redis_instances_share_membership_and_redis_expires_it fresh_node = true.
Proof. split_and!; vm_refl. Qed.
End RegistryTests.

Module ExecutionStoreTests.

Definition record (id : string) (now : Z) : ExecutionRecord :=
  {| ex_execution_id := id;
     ex_job_id := "job-1";
     ex_assignment_id := "assignment-1";
     ex_worker_id := "worker-1";
     ex_state := ES_Assigned;
     ex_created_at := now;
     ex_updated_at := now |}.

Definition memory_store_creates_reads_and_updates_an_execution : prog MemoryExecutionStore Empty_set unit :=
  _ ← unwrapped (store_create (record "execution-1" (system_time_at 0)));
  found ← unwrapped (store_get "execution-1");
  stored ← unwrap_some found;
  _ ← assert_eq (ex_job_id stored) "job-1";
  _ ← unwrapped (store_update_state "execution-1" ES_Running);
  found ← unwrapped (store_get "execution-1");
  stored ← unwrap_some found;
  assert_eq (execution_state_code (ex_state stored)) (execution_state_code ES_Running).

Definition redis_instances_share_execution_records : prog (redis_node server) Empty_set unit :=
  let prefix := "threadweave:test:executions:" +:+ uuid_at 0 in
  first ← unwrap_ok (redis_store_new test_redis_url prefix);
  second ← unwrap_ok (redis_store_new test_redis_url prefix);
  now ← node_time;
  _ ← unwrapped (redis_create first (record "shared" now));
  found ← unwrapped (redis_get_execution second "shared");
  stored ← unwrap_some found;
  assert_eq (ex_job_id stored) "job-1".

Lemma execution_store_tests_pass :
  passes memory_store_creates_reads_and_updates_an_execution memory_store_default = true
  ∧ passes redis_instances_share_execution_records fresh_node = true.
Proof. split; vm_refl. Qed.
End ExecutionStoreTests.

Module RoutingTests.
Definition worker_destination_is_deterministic_and_uses_the_worker_id : prog unit Empty_set unit :=
  _ ← assert_eq (worker_destination "worker-1") "workers.worker-1";
  _ ← assert_eq (worker_destination "worker-1") "workers.worker-1";
  assert (negb (bool_decide (worker_destination "worker-1" = worker_destination "worker-2"))).

Lemma routing_tests_pass : passes worker_destination_is_deterministic_and_uses_the_worker_id tt = true.
Proof. vm_refl. Qed.
End RoutingTests.

Module ResultBackendTests.
Definition result_key_is_namespaced : prog unit Empty_set unit :=
  backend ← unwrap_ok (redis_backend_new "redis://127.0.0.1/" "threadweave:results");
  assert_eq (result_key backend "job-1") "threadweave:results:job-1".

Definition invalid_redis_url_is_rejected : prog unit Empty_set unit :=
  error ← unwrap_err (redis_backend_new "not a redis URL" "results");
  assert (bool_decide (is_Some (strip_prefix "invalid Redis URL:" error))).

Lemma result_backend_tests_pass :
  passes result_key_is_namespaced tt = true ∧ passes invalid_redis_url_is_rejected tt = true.
Proof. split; vm_refl. Qed.
End ResultBackendTests.
