(* ===== verification/TestsWorker.v ===== *)
(** * The tests of the worker

    The modules [tests] of [worker/runtime.rs] and [worker/worker.rs], with their doubles. *)

From Stdlib Require Import Ascii SpecFloat.
From S2P Require Import Prelude RustStr Prog Protocol Concrete WorkerRegistry Broker Pending.
From S2P Require Import RuntimeService Config Worker Testing.
Import Concrete.Concrete.

(** [AssignExecutionRequest { assignment_id, execution_id, job_id, ..Default::default() }] *)
Definition assignment_of (assignment_id execution_id job_id : string) (task : option TaskIdentity) : AssignExecutionRequest :=
  {| ae_assignment_id := assignment_id;
     ae_execution_id := execution_id;
     ae_job_id := job_id;
     ae_task := task;
     ae_arguments := "";
     ae_serialization_format := "";
     ae_reserved_resources := None;
     ae_deadline := None;
     ae_metadata := None |}.

(** [BrokerEnvelope { payload, ..Default::default() }] *)
Definition envelope_of (payload : bytes) : BrokerEnvelope :=
  {| be_message_id := ""; be_message_kind := ""; be_schema_version := ""; be_source := ""; be_destination := "";
     be_created_at := None; be_expires_at := None; be_payload := payload; be_content_type := None;
     be_correlation_id := None; be_causation_id := None; be_trace_context := None; be_routing_headers := None |}.

(** A worker process that has just started. *)
Definition started_process {BS KS} (broker : BS) (core : KS) : worker_state BS KS :=
  mkWorkerState (mkEnv 0 0) (mkPendingState [] ∅ ∅) [] broker core.

(** [PendingExecutions::acquire], of the tests. *)
Definition acquire {BS KS E} : prog (worker_state BS KS) E AssignExecutionRequest := take_next "test-runtime-session".

(** [PendingExecutions::worker_duration], of the tests. *)
Definition worker_duration_of (id : string) (st : PendingState) : option Z :=
  record ← assignments st !! id; worker_duration record.

(** ** The runtime service *)

Module RuntimeTests.

Record Core := mkCore { reports : list ReportExecutionRequest }.

#[local] Instance core_client : CoreWorkerClient Core :=
  {| client_register_worker _ := Panic "internal error: entered unreachable code";
     client_report_heartbeat _ := Panic "internal error: entered unreachable code";
     client_report_execution r :=
       atomic (λ c, (mkCore (reports c ++ [r]), {| rer_accepted := true |})) |}.

Abbreviation process := (worker_state unit Core).
Abbreviation test := (prog process Empty_set unit).

Definition test_assignment : AssignExecutionRequest := assignment_of "a" "e" "j" None.

(** The clock is read once a millisecond. *)
Definition sleep (ms : nat) : test :=
  zoom wenv_l (atomic (λ e, (mkEnv (env_ticks e + ms) (env_uuids e), tt))).

Definition assigned : prog process Empty_set AssignExecutionRequest :=
  _ ← unwrapped (with_pending (λ _, enqueue test_assignment));
  take_next "s".

Definition started_event (sequence_number : Z) : ExecutionStarted :=
  mkExecutionStarted "a" "e" sequence_number None opaque_default.

Definition lifecycle_metrics_and_worker_duration_are_recorded : test :=
  _ ← assigned;
  _ ← unwrapped (with_pending (λ now, started now (started_event 1)));
  _ ← unwrapped (with_pending (λ _, metrics (mkExecutionMetrics "a" "e" 2 opaque_default)));
  _ ← sleep 2;
  _ ← unwrapped (with_pending (λ now, terminal now "a" "e" 3 true));
  o ← look (λ w, worker_duration_of "a" (w_pending w));
  duration ← unwrap_some o;
  assert (bool_decide (1000000 ≤ duration)%Z).

(** [0.5] *)
Definition half : spec_float := S754_finite false 4503599627370496 (-53).

Definition stale_and_invalid_transitions_are_rejected : test :=
  _ ← assigned;
  r ← attempt (with_pending (λ now, terminal now "a" "e" 1 true));
  _ ← assert (negb (is_ok r));
  _ ← unwrapped (with_pending (λ now, started now (started_event 2)));
  r ← attempt (with_pending (λ _, progress (mkExecutionProgress "a" "e" 2 half opaque_default)));
  assert (negb (is_ok r)).

Definition disconnect_requeues_an_unstarted_assignment : test :=
  _ ← assigned;
  _ ← disconnect_session "s";
  item ← take_next "s2";
  assert_eq (ae_assignment_id item) "a".

(** One turn of the test's loop; each has a state of its own. *)
Definition completion_and_failure_reach_core (success : bool) : test :=
  _ ← assigned;
  _ ← unwrapped (with_pending (λ now, started now (started_event 1)));
  _ ← (if success then
         unwrapped (completed (mkExecutionCompleted "a" "e" 2 (Some default_job_result) None opaque_default))
       else
         unwrapped (failed (mkExecutionFailed "a" "e" 2 (Some (mkProtoError "boom" "" None)) None opaque_default)));
  reports ← look (λ w, reports (w_core w));
  assert_eq (length reports) 1.

(** The channel of the test holds one message, which is all it is sent. *)
Definition cancellation_is_sent_without_holding_state_lock : test :=
  tx ← new_channel;
  _ ← atomic (λ w, (put pending_l (register_session "s" tx (w_pending w)) w, tt));
  _ ← unwrapped (with_pending (λ _, enqueue test_assignment));
  _ ← take_next "s";
  _ ← unwrapped (cancel "a" (Some "stop"));
  channel ← look (λ w, w_channels w !! tx);
  rx ← unwrap_some channel;
  message ← unwrap_some (ch_buffer rx !! 0);
  command ← unwrap_ok message;
  assert match wc_payload command with Some (CmdCancelExecution _) => true | _ => false end.

Lemma runtime_tests_pass :
  forallb (λ t, passes t (started_process tt (mkCore [])))
    [lifecycle_metrics_and_worker_duration_are_recorded; stale_and_invalid_transitions_are_rejected;
     disconnect_requeues_an_unstarted_assignment; completion_and_failure_reach_core true;
     completion_and_failure_reach_core false; cancellation_is_sent_without_holding_state_lock] = true.
Proof. vm_refl. Qed.
End RuntimeTests.

(** ** The worker process *)

Module WorkerTests.

(** *** Doubles *)

Record TestBroker := mkTestBroker { held : option BrokerEnvelope }.

#[local] Instance test_broker : Broker TestBroker :=
  {| publish _ := Panic "internal error: entered unreachable code";
     consume _ := critical (λ b, (mkTestBroker None, ok_or (held b) "empty")) |}.

Record RecordingBroker := mkRecordingBroker { destinations : list string }.

#[local] Instance recording_broker : Broker RecordingBroker :=
  {| publish _ := Panic "internal error: entered unreachable code";
     consume d := atomic (λ b,
       (mkRecordingBroker (destinations b ++ [d]),
        envelope_of (encode_assign (assignment_of "assignment-1" "execution-1" "" None)))) |}.

Inductive PendingBroker : Set := mkPendingBroker.

#[local] Instance pending_broker : Broker PendingBroker :=
  {| publish _ := mret tt; consume _ := section (λ b, (b, Blocked)) |}.

Inductive RejectingRegistrationClient : Set := mkRejectingRegistrationClient.

#[local] Instance rejecting_client : CoreWorkerClient RejectingRegistrationClient :=
  {| client_register_worker _ := Throw (unavailable "registration unavailable");
     client_report_heartbeat _ := Panic "heartbeat must not be sent before registration succeeds";
     client_report_execution _ := Panic "execution report must not be sent before registration succeeds" |}.

Record AcceptingRegistrationClient := mkAcceptingRegistrationClient { heartbeats : nat }.

#[local] Instance accepting_client : CoreWorkerClient AcceptingRegistrationClient :=
  {| client_register_worker _ := mret {| rwr_accepted := true; rwr_lease_id := None |};
     client_report_heartbeat beat :=
       section (λ c,
         if bool_decide (0 < hb_sequence_number beat)%Z
         then (mkAcceptingRegistrationClient (S (heartbeats c)), Done {| rhr_accepted := true |})
         else (c, Panicked "assertion failed"));
     client_report_execution _ := mret {| rer_accepted := true |} |}.

(** Identifiers with the text of version 4 UUIDs, and what [Uuid::parse_str] accepts of
    that text. *)
Fixpoint zeros (n : nat) : string := match n with 0 => "" | S n => String "0" (zeros n) end.

#[local] Instance uuid_platform : Platform := {|
  instant_at n := (1000000 * Z.of_nat n)%Z;
  system_time_at n := (1700000000000000000 + 1000000 * Z.of_nat n)%Z;
  uuid_at n := "00000000-0000-4000-8000-" +:+ zeros (12 - len (show (Z.of_nat n))) +:+ show (Z.of_nat n)
|}.

Definition is_hex_digit (c : ascii) : bool := is_digit c || in_range 97 102 c || in_range 65 70 c.

Fixpoint hyphenated (shape s : string) : bool :=
  match shape, s with
  | "", "" => true
  | String "x" shape, String c s => is_hex_digit c && hyphenated shape s
  | String "-" shape, String "-" s => hyphenated shape s
  | _, _ => false
  end.

Definition parse_uuid_ok (s : string) : bool := hyphenated "xxxxxxxx-xxxx-xxxx-xxxx-xxxxxxxxxxxx" s.

(** *** Identity *)

Abbreviation identity_test := (prog (worker_state TestBroker unit) Empty_set unit).

(** The name of the host the tests run on, from its environment. *)
Definition host_name (hostname etc_hostname : option string) : string := default_worker_name hostname etc_hostname.

Definition generated_identity_has_distinct_valid_uuids (host : string) : identity_test :=
  identity ← identity_new host None;
  _ ← assert (negb (bool_decide (id_worker_id identity = "")));
  _ ← assert (negb (bool_decide (id_generation identity = "")));
  _ ← assert (parse_uuid_ok (id_worker_id identity));
  _ ← assert (parse_uuid_ok (id_generation identity));
  assert (negb (bool_decide (id_worker_id identity = id_generation identity))).

Definition configured_worker_name_is_respected (host : string) : identity_test :=
  identity ← identity_new host (Some "gpu-worker-01");
  assert_eq (id_name identity) "gpu-worker-01".

Definition default_worker_name_is_non_empty (host : string) : identity_test :=
  identity ← identity_new host None;
  assert (negb (is_blank (id_name identity))).

Definition test_config (name : string) (cpu memory : Z) (capabilities : list string) : WorkerConfig :=
  {| cfg_name := Some name;
     cfg_core_endpoint := "http://core.invalid";
     cfg_runtime_address := "127.0.0.1:0";
     cfg_resources := mkWorkerResourcesConfig cpu memory;
     cfg_capabilities := capabilities |}.

Definition worker_retains_configured_identity_and_capacity (host : string) : identity_test :=
  worker ← worker_new host (test_config "big-bertha" 16 (32 * Z.shiftl 1 30) ["python"; "linux"]);
  _ ← assert_eq (id_name (wk_identity worker)) "big-bertha";
  _ ← assert_eq (wk_destination worker) (worker_destination (id_worker_id (wk_identity worker)));
  _ ← assert (negb (bool_decide (wk_destination worker = "workers.default")));
  let capacity := wk_advertised_capacity worker in
  _ ← assert_eq (cpu_cores (ac_resources capacity)) 16%Z;
  _ ← assert_eq (memory_bytes (ac_resources capacity)) (32 * Z.shiftl 1 30)%Z;
  _ ← assert_eq (ac_capabilities capacity) ["python"; "linux"];
  protocol_resources ← unwrap_some (resource_requirements (ac_resources capacity));
  _ ← assert_eq (rr_cpu_millicores protocol_resources) 16000%Z;
  assert_eq (rr_memory_bytes protocol_resources) (32 * Z.shiftl 1 30)%Z.

Definition registration_contains_supported_worker_advertisement (host : string) : identity_test :=
  worker ← worker_new host (test_config "gpu-01" 8 (16 * Z.shiftl 1 30) ["cuda"]);
  registration ← unwrap_some (worker_registration "0.1.10" worker);
  _ ← assert_eq (wr_worker_id registration) (id_worker_id (wk_identity worker));
  _ ← assert_eq (wr_generation registration) (id_generation (wk_identity worker));
  _ ← assert_eq (wr_implementation_version registration) "0.1.10";
  _ ← assert_eq (wr_protocol_versions registration)
        ["common/v1"; "artifacts/v1"; "broker/v1"; "execution/v1"; "runtime/v1"];
  _ ← assert_eq (wr_endpoint registration) "127.0.0.1:0";
  capacity ← unwrap_some (wr_capacity registration);
  _ ← assert_eq (rr_required_capabilities capacity) ["cuda"];
  metadata ← unwrap_some (wr_metadata registration);
  _ ← assert_eq (md_entries metadata !! "worker_name") (Some "gpu-01");
  assert (bool_decide (wr_executors registration = [])).

(** Hosts with and without the variable and the file. *)
Definition test_hosts : list string :=
  [host_name (Some "builder") None; host_name None (Some (" box" +:+ String "010" ""));
   host_name (Some "  ") (Some ""); host_name None None].

Lemma identity_tests_pass :
  forallb (λ host, forallb (λ t, passes (t host) (started_process (mkTestBroker None) tt))
    [generated_identity_has_distinct_valid_uuids; configured_worker_name_is_respected; default_worker_name_is_non_empty;
     worker_retains_configured_identity_and_capacity; registration_contains_supported_worker_advertisement]) test_hosts = true.
Proof. vm_refl. Qed.

(** *** Assignments *)

Definition reached_assignment : AssignExecutionRequest :=
  assignment_of "assignment-1" "execution-1" "" (Some (mkTaskIdentity "" "" "demo.add" "")).

(** Two messages are equal when their encodings are. *)
Definition assignment_reaches_no_op_execution_path : prog (worker_state TestBroker unit) Empty_set unit :=
  executed ← worker_new "host" worker_config_default;
  consumed ← unwrapped (execute_one executed);
  acquired ← acquire;
  _ ← assert_eq (encode_assign consumed) (encode_assign acquired);
  _ ← assert_eq (ae_execution_id acquired) "execution-1";
  task ← unwrap_some (ae_task acquired);
  assert_eq (ti_name task) "demo.add".

(** Two workers of one process: the broker and the platform are shared, the pending
    executions are each one's own. *)
Record two_workers := mkTwoWorkers { tw_first : worker_state RecordingBroker unit; tw_second : PendingState }.

Definition first_l : lens two_workers (worker_state RecordingBroker unit) :=
  Lens tw_first (λ x w, mkTwoWorkers x (tw_second w)).
Definition second_l : lens two_workers (worker_state RecordingBroker unit) :=
  Lens (λ w, put pending_l (tw_second w) (tw_first w))
    (λ x w, mkTwoWorkers (put pending_l (w_pending (tw_first w)) x) (w_pending x)).

Definition workers_consume_only_from_their_own_worker_id_destinations : prog two_workers Empty_set unit :=
  let config := {| cfg_name := Some "shared-human-name";
                   cfg_core_endpoint := cfg_core_endpoint worker_config_default;
                   cfg_runtime_address := cfg_runtime_address worker_config_default;
                   cfg_resources := cfg_resources worker_config_default;
                   cfg_capabilities := cfg_capabilities worker_config_default |} in
  worker_1 ← zoom first_l (worker_new "host" config);
  worker_2 ← zoom second_l (worker_new "host" config);
  _ ← unwrapped (zoom first_l (execute_one worker_1));
  _ ← unwrapped (zoom second_l (execute_one worker_2));
  destinations ← look (λ w, destinations (w_broker (tw_first w)));
  first ← unwrap_some (destinations !! 0);
  second ← unwrap_some (destinations !! 1);
  _ ← assert_eq first (worker_destination (id_worker_id (wk_identity worker_1)));
  _ ← assert_eq second (worker_destination (id_worker_id (wk_identity worker_2)));
  _ ← assert (negb (bool_decide (first = second)));
  assert (negb (existsb (str_contains (id_name (wk_identity worker_1))) destinations)).

Definition failed_registration_prevents_assignment_consumption
    : prog (worker_state TestBroker RejectingRegistrationClient) Empty_set unit :=
  worker ← worker_new "host" worker_config_default;
  error ← refused (worker_run "0.1.10" worker 1 (Ok tt) [0; 3]);
  _ ← assert (str_contains "registration unavailable" error);
  left ← look (λ w, held (w_broker w));
  assert (negb (is_none left)).

(** With an interval of a millisecond and a shutdown after ten, the heartbeats of the test
    come before the shutdown; [consume] never returns. *)
Definition worker_sends_heartbeats_after_successful_registration (beats : nat)
    : prog (worker_state PendingBroker AcceptingRegistrationClient) Empty_set unit :=
  worker ← worker_new "host" worker_config_default;
  _ ← unwrapped (run_until_shutdown "0.1.10" worker 1 (Ok tt) (0 :: repeat 1 (2 * beats) ++ [3]));
  sent ← look (λ w, heartbeats (w_core w));
  assert (bool_decide (0 < sent)).

Lemma assignment_tests_pass :
  passes assignment_reaches_no_op_execution_path
    (started_process (mkTestBroker (Some (envelope_of (encode_assign reached_assignment)))) tt) = true
  ∧ passes workers_consume_only_from_their_own_worker_id_destinations
      (mkTwoWorkers (started_process (mkRecordingBroker []) tt) (mkPendingState [] ∅ ∅)) = true
  ∧ passes failed_registration_prevents_assignment_consumption
      (started_process (mkTestBroker (Some (envelope_of ""))) mkRejectingRegistrationClient) = true
  ∧ forallb (λ beats, passes (worker_sends_heartbeats_after_successful_registration beats)
      (started_process mkPendingBroker (mkAcceptingRegistrationClient 0))) (seq 1 10) = true.
Proof. split_and!; vm_refl. Qed.
End WorkerTests.
